(* ===== verification/_CoqProject ===== *)
-Q . S2P
Prelude.v
Lattice.v
Primitives.v
Config.v
Versioned.v
SyncProtocol.v
Cipher.v
Conn.v
Handshake.v
IpcTypes.v
LogParse.v
CoreProc.v
Store.v
SupState.v
NetSync.v
Supervisor.v
SyncSession.v
IpcWire.v
Identity.v
PairProtocol.v
Pairing.v
Float32.v
AudioDsp.v
AudioBridge.v
AudioDriver.v
AudioDial.v
GuiApp.v
GuiIpc.v
GuiMirror.v
LayoutEditor.v
FileOps.v
RotatingLog.v
Updater.v
Resolver.v
UpdateDialog.v
Discovery.v
LanMirror.v
SocketPath.v
Sockets.v
Dashboard.v
GuiApply.v
AudioTab.v
Bundle.v
Startup.v
Paths.v
Elevation.v
Tray.v
CoreLog.v
MacCore.v
AudioQuery.v
Launch.v
Monitors.v
CoreFetch.v
MediaPath.v
Shutdown.v
GuiMain.v
Announce.v
ServerChoice.v
