(* ===== verification/Prelude.v ===== *)
(** * Synbad: verification development

    Synbad shares one keyboard, mouse and clipboard between machines on a LAN.  A
    per-user daemon ([crates/synbadd]) owns the configuration, supervises the
    Deskflow Core child process, finds its peers over mDNS, pairs with them, keeps
    their configurations in step and bridges audio; a window ([crates/synbad-gui])
    edits and shows what the daemon does over a local socket; an updater
    ([crates/synbad-update]) replaces the installed binaries.  This library models
    the Rust sources of both programs and proves what makes them correct.

    ** Conventions

    Source names are kept.  A fallible function returns [result E A] (Rust's [Result],
    with the binder [let?] for the question mark); a program over a connection, a
    disk or a channel is a state-passing function with an outcome ([Conn]: done,
    failed, or waiting for input); a loop that selects among events is a state and
    one function per event, with reachability by an inductive closure.  Integers of
    the source are [Z] with their wrapping, clamping and checked operations written
    out; bytes are [list ascii]; an [f32] is its bit pattern, computed with as IEEE
    754 binary32 ([Float32]); an [f64] is computed in binary64 ([CoreFetch]).  Records are updated with [r <| f := v |>].
    Time, randomness, process and network answers are arguments ([SEnv], [REnv],
    [NEnv] and the like), so that every theorem holds for all of them.  The disk
    ([Store]) is a map from paths to bytes together with the fate of each coming
    system call: it works, or fails after a number of bytes.

    What other packages do is never defined, but a class of operations with a class
    of their documented laws: encodings and cryptography ([Primitives]), JSON and TOML
    ([Store]), version numbers, archives and self-replacement ([Updater], [Resolver]),
    mDNS ([Discovery]).  Each file ends with toy instances that satisfy the laws and
    with the theorems applied to concrete runs.

    ** The parts

    Configuration.  [Config]: the document, validation, comparison and the generated
    Core files ([synbad-config/src/lib.rs]).  [Versioned] and [Lattice]: Lamport
    stamps, local edits, merge ([synbad-sync/src/versioned.rs]), with the abstract
    specification of a mergeable document as the class [MergeLattice] and a network
    of replicas as a step relation.  [Store]: configuration, sidecar and trust files.
    [Paths]: where every file lives ([paths.rs]).  [RotatingLog]: the bounded logs
    ([logging.rs]).

    Peers.  [Cipher] and [Handshake]: encrypted frames and mutual authentication
    ([synbad-crypto]).  [SyncProtocol], [SyncSession]: signed frames and both sides of a
    sync.  [PairProtocol], [Pairing], [Identity]: pairing and identity.  [Discovery]: what
    is announced and what the browser makes of it; [Announce]: under which name.  [Sockets]: dialling a peer's
    addresses, and the four accept loops behind one interface ([Listener]).

    The daemon.  [LogParse], [CoreProc], [CoreLog]: the Core child, its restarts, what
    is read from its log, and the task that reads its output.  [SupState], [NetSync],
    [Supervisor]: the supervisor's state, handlers and run loop.  [Startup]: [main] and
    the log sink.  [Shutdown]: signals interleaved with the loop, and the drop.  [IpcTypes], [IpcWire]: requests, events and the
    line protocol.  [SocketPath]: who owns a socket path: launches, stops and crashes interleaved, call by call.
    [Resolver], [MacCore]: fetching and caching the Core's binaries ([binaries.rs],
    [platform.rs]); [CoreFetch]: the progress of a fetch and the task that reports it.

    Audio.  [AudioDsp], [AudioBridge], [AudioDriver], [AudioDial] ([synbad-audio],
    [synbadd/src/audio.rs]): samples and buffers, the bridge's sessions and its link to the
    supervisor, the driver from the SDP exchange to the end of its loop, the signaling transport.  [AudioQuery]: the supervisor's audio requests, and the
    device a session opens.  [MediaPath]: opening it, the queues between a device's callback
    and the driver, and a session whose devices fail.

    The window.  [GuiApp], [GuiIpc]: its state, buttons and IPC threads.  [LayoutEditor]:
    the canvas, and what a frame of it promises in numbers.  [Dashboard], [AudioTab]: what the tabs show and edit.  [UpdateDialog],
    [Tray]: the update dialog, the tray and the close box.  [Launch]: which daemon is
    launched.  [Monitors]: the machine's monitors and their scale ([monitors.rs]).
    [GuiMain]: [main] of the window, the tray's start and the waking of a hidden window.
    [ServerChoice]: from the click that chooses a server to the address the Core dials.

    The updater.  [Updater]: release choice, download and replacement.  [Elevation]: the
    privileged helper and the restarts.  [Bundle]: replacing a macOS app.  [FileOps]:
    system calls and paths the last three share with the logs.

    Compositions.  [GuiMirror]: supervisor, event loop and window.  [LanMirror]: mDNS,
    supervisor and window.  [GuiApply], [AudioTab]: a click, the command thread, the
    request handler and the disk.  [Paths]: [main], the constructor and the disk.
    [Elevation]: the elevation tool and [main] under the updater.

    ** What is shown

    - Replication: in every reachable network equal stamps carry equal values, merge
      refines a pointwise join, replicas that absorbed the same states agree, and two
      paired daemons that sync end with one configuration, the join of theirs.
    - Supervision: a wanted Core runs, is being resolved or has an armed timer; an
      unwanted one is stopped; the run loop keeps its state well formed; nothing runs
      after a shutdown, and no signal is lost or kills the process before it has wound down; an edit survives a restart; a start never loses a config.
    - Security: a handshake returns a channel only to a trusted peer; a session merges
      only what a paired peer signed; pairing stores a key only with both users'
      consent, the peer's in a signed confirmation; a revoked peer is never dialled; only authenticated streams reach the
      audio bridge; only a verified package enters the Core cache.
    - Transport: frames, lines and the Core's output arrive whole whatever the
      fragmentation and cancellation; accept loops stay within their limit and come back to accepting;
      one daemon owns the socket, and leaves none when it stops; one window holds
      the guard, under the two conditions its theorem names, and two without them.
    - Audio: the supervisor's cache of live peers follows the bridge's sessions; a session that
      never connects ends, within some 25 s; a device that does not open silences one direction and not the session; the
      queues are bounded, in order, and a full one loses the new frame.
    - The window: it shows the peers the daemon sees, and those are the machines up on
      the LAN as long as service names stay with their machines; Apply and the audio tab do what they promise or show the error; a hidden
      window comes back, and a click never waits unseen; monitors are those of the X server; a frame of the canvas links exactly the screens that meet as drawn, and moves only the
      dragged one, and exactly when it panics; the daemon is relaunched when wanted.
    - Updates: whatever fails, an installed binary is the old one or the new one whole;
      elevation does what the updater assumes; an update starts only from a found
      release.
    - Examples named after what they show record surprises: edits lost or left
      unprotected, races, stale state after partial failures.

    ** Bounds and fuel

    Recursion that follows no structure takes a natural number that its caller sets to
    the length of the remaining input: [fill] (bytes missing), [rd_drain], [rd_session]
    and [read_lines] (a reader called until the stream is empty), [log_reader] (chunks and
    bytes), [write_loop] and
    [RotatingLog.write] (bytes to write), [trim_start_n] and [trim_end_n] (bytes),
    [chunks_exact], [cut_frames], [resample_all] and [chunk_lengths] (samples left).  Each
    turn consumes some of it, and the theorems hold from that length on.  An endless
    loop is a function of the list of its turns, and a theorem about it holds for
    every list; where the code must come to an end ([driver_gives_up],
    [log_write_bounded]) that is a theorem.

    ** Not modelled

    Painting and widget layout, the tray icon's picture and the threads of device streams
    are calls into other packages, the drop of a listening socket (its closing and the
    removal of its name are taken as one call) as well, the X server and the platform's monitor list answers;
    of the media engine and the codec ([rtc.rs]) only the calls are seen.  The Linux build
    is modelled where platforms differ in system calls, with the macOS cache of the Core
    beside it: the disk image (which the macOS build, having a Core of its own, never
    opens) and the Windows archive of [binaries.rs] and the elevation of both drive platform tools (the macOS script and the restarts are kept as command
    lines).  Permission bits are left out.  Directories other than the Core cache and
    the app bundle are paths in a flat map. *)

From Stdlib Require Import Ascii ZArith Lia.
From stdpp Require Export prelude gmap strings pretty sorting.

(** ** Results and the error monad

    Rust's [Result<A, E>], with the [?] operator as a [let?] binder. *)

Inductive result (E A : Type) : Type :=
| Ok (a : A)
| Err (e : E).
Arguments Ok {E A} a.
Arguments Err {E A} e.

Declare Scope synbad_scope.
Delimit Scope synbad_scope with synbad.
Open Scope synbad_scope.

Definition rbind {E A B} (r : result E A) (k : A → result E B) : result E B :=
  match r with Ok a => k a | Err e => Err e end.

Definition rmap_err {E F A} (f : E → F) (r : result E A) : result F A :=
  match r with Ok a => Ok a | Err e => Err (f e) end.

Definition ok_or {E A} (e : E) (o : option A) : result E A :=
  match o with Some a => Ok a | None => Err e end.

Definition is_ok {E A} (r : result E A) : bool :=
  match r with Ok _ => true | Err _ => false end.

Notation "'let?' x ':=' c 'in' k" := (rbind c (fun x => k))
  (at level 10, x pattern, c at level 100, k at level 200) : synbad_scope.

Global Instance result_eq_dec {E A} `{EqDecision E, EqDecision A} : EqDecision (result E A).
Proof. solve_decision. Defined.

(** ** Record update

    [r <| f := v |>] replaces one field; a record type provides its expansion as
    an [Eta] instance, from which the setter of each field is found. *)

Class Eta (R : Type) := eta_expand : R → R.
Class Setter {R T : Type} (field : R → T) := update_field : (T → T) → R → R.
Arguments update_field {R T} field {_} _ _.

Ltac find_setter field :=
  match type of field with
  | ?R → ?T =>
    let inst := constr:(_ : Eta R) in
    let body := eval red in inst in
    match eval pattern field in body with
    | ?setter _ => exact (λ f : T → T, setter (λ r, f (field r)))
    end
  end.
#[export] Hint Extern 1 (Setter ?field) => find_setter field : typeclass_instances.

Notation "r <| f := v |>" := (update_field f (λ _, v) r)
  (at level 12, left associativity, f at level 9, v at level 200) : synbad_scope.

(** ** Machine integers

    Fixed-width integers are [Z]; the release profile of the workspace leaves
    overflow checks off, so plain [+] wraps. *)

Definition u16_MAX : Z := 65535.
Definition u32_MAX : Z := 4294967295.
Definition u64_MAX : Z := 18446744073709551615.
Definition i32_MAX : Z := 2147483647.
Definition i32_MIN : Z := -2147483648.

Definition wrap_u32 (z : Z) : Z := (z mod 2 ^ 32)%Z.
Definition wrap_u64 (z : Z) : Z := (z mod 2 ^ 64)%Z.
(** [as i32] on any integer: reduce modulo [2^32], then read as two's complement. *)
Definition wrap_i32 (z : Z) : Z :=
  let m := (z mod 2 ^ 32)%Z in if decide (m < 2 ^ 31)%Z then m else (m - 2 ^ 32)%Z.

Definition checked_add_u64 (a b : Z) : option Z :=
  if decide (a + b ≤ u64_MAX)%Z then Some (a + b)%Z else None.
Definition saturating_add_u32 (a b : Z) : Z := Z.min u32_MAX (a + b).
(** Unsigned [saturating_sub]. *)
Definition saturating_sub_u (a b : Z) : Z := Z.max 0 (a - b).

Definition u16_ok (z : Z) : Prop := (0 ≤ z ≤ u16_MAX)%Z.
Definition u64_ok (z : Z) : Prop := (0 ≤ z ≤ u64_MAX)%Z.

(** ** Byte strings *)

Abbreviation bytes := (list ascii).

Definition bytes_of (s : string) : bytes := String.list_ascii_of_string s.
Definition string_of (b : bytes) : string := String.string_of_list_ascii b.
Definition blen (b : bytes) : Z := Z.of_nat (length b).

Definition byte_of_Z (z : Z) : ascii := ascii_of_N (Z.to_N (z mod 256)%Z).
Definition Z_of_byte (a : ascii) : Z := Z.of_N (N_of_ascii a).

(** [to_be_bytes] for a [k]-byte unsigned integer. *)
Fixpoint be_bytes (k : nat) (z : Z) : bytes :=
  match k with
  | O => []
  | S k' => be_bytes k' (z / 256) ++ [byte_of_Z z]
  end.

(** [from_be_bytes]. *)
Definition be_value (b : bytes) : Z :=
  fold_left (fun acc a => acc * 256 + Z_of_byte a)%Z b 0%Z.

(** Rust's [str::find] of an ASCII character: byte offset of the first match. *)
Fixpoint find_char (c : ascii) (s : bytes) : option nat :=
  match s with
  | [] => None
  | a :: s' => if decide (a = c) then Some 0 else S <$> find_char c s'
  end.

Definition byte_in (lo hi : Z) (b : ascii) : bool := ((lo <=? Z_of_byte b) && (Z_of_byte b <=? hi))%Z.
Arguments byte_in (_ _)%_Z _.

(** [std::str::from_utf8] accepts exactly these byte strings. *)
Fixpoint valid_utf8 (s : bytes) : bool :=
  match s with
  | [] => true
  | b0 :: s1 =>
    if byte_in 0 0x7F b0 then valid_utf8 s1 else
    match s1 with
    | [] => false
    | b1 :: s2 =>
      if byte_in 0xC2 0xDF b0 then byte_in 0x80 0xBF b1 && valid_utf8 s2 else
      match s2 with
      | [] => false
      | b2 :: s3 =>
        if byte_in 0xE0 0xEF b0 then
          (if byte_in 0xE0 0xE0 b0 then byte_in 0xA0 0xBF b1 else if byte_in 0xED 0xED b0 then byte_in 0x80 0x9F b1 else byte_in 0x80 0xBF b1)
          && byte_in 0x80 0xBF b2 && valid_utf8 s3
        else
        match s3 with
        | [] => false
        | b3 :: s4 =>
          byte_in 0xF0 0xF4 b0
          && (if byte_in 0xF0 0xF0 b0 then byte_in 0x90 0xBF b1 else if byte_in 0xF4 0xF4 b0 then byte_in 0x80 0x8F b1 else byte_in 0x80 0xBF b1)
          && byte_in 0x80 0xBF b2 && byte_in 0x80 0xBF b3 && valid_utf8 s4
        end
      end
    end
  end.

(** [str::strip_prefix] with a string pattern. *)
Fixpoint strip_prefix (p s : bytes) : option bytes :=
  match p, s with
  | [], _ => Some s
  | _ :: _, [] => None
  | a :: p', b :: s' => if decide (a = b) then strip_prefix p' s' else None
  end.

Definition starts_with (p s : bytes) : bool :=
  match strip_prefix p s with Some _ => true | None => false end.

Definition ends_with (p s : bytes) : bool :=
  starts_with (reverse p) (reverse s).

Definition contains_char (c : ascii) (s : bytes) : bool :=
  match find_char c s with Some _ => true | None => false end.

(** ** Length-prefixed fields *)

Definition push_field (out field : bytes) : bytes :=
  (out ++ be_bytes 4 (wrap_u32 (blen field))) ++ field.

(** [<[u8; N]>::try_from(slice)]. *)
Definition to_array (n : nat) (b : bytes) : option bytes :=
  if decide (length b = n) then Some b else None.

(** ** Iteration of an ordered map

    A [BTreeMap] is a [gmap]; what the source iterates is its entries in
    ascending key order. *)

Definition key_le {V} (a b : string * V) : Prop := String.le (fst a) (fst b).
Global Instance key_le_dec {V} : RelDecision (@key_le V).
Proof. intros a b. unfold key_le. apply _. Defined.

Definition bt_iter {V} (m : gmap string V) : list (string * V) :=
  merge_sort key_le (map_to_list m).

(** ** Lemmas: results *)

Lemma rbind_Ok {E A B} (r : result E A) (k : A → result E B) b :
  rbind r k = Ok b ↔ ∃ a, r = Ok a ∧ k a = Ok b.
Proof. destruct r; naive_solver. Qed.

Lemma rmap_err_Ok {E F A} (f : E → F) (r : result E A) a :
  rmap_err f r = Ok a ↔ r = Ok a.
Proof. destruct r; naive_solver. Qed.

Lemma ok_or_Ok {E A} (e : E) (o : option A) a : ok_or e o = Ok a ↔ o = Some a.
Proof. destruct o; naive_solver. Qed.

(** ** Lemmas: byte encodings *)

Lemma Z_of_byte_range a : (0 ≤ Z_of_byte a < 256)%Z.
Proof. unfold Z_of_byte. pose proof (N_ascii_bounded a). lia. Qed.

Lemma Z_of_byte_of_Z z : Z_of_byte (byte_of_Z z) = (z mod 256)%Z.
Proof.
  unfold Z_of_byte, byte_of_Z.
  pose proof (Z.mod_pos_bound z 256 ltac:(lia)).
  rewrite N_ascii_embedding by lia. lia.
Qed.

Lemma byte_of_Z_of_byte a : byte_of_Z (Z_of_byte a) = a.
Proof.
  unfold byte_of_Z. rewrite Z.mod_small by apply Z_of_byte_range.
  unfold Z_of_byte. rewrite N2Z.id. apply ascii_N_embedding.
Qed.

Lemma be_bytes_length k z : length (be_bytes k z) = k.
Proof. revert z; induction k as [|k IH]; intros z; simpl; [done|]. rewrite length_app, IH; simpl; lia. Qed.

Lemma be_value_snoc b a : be_value (b ++ [a]) = (be_value b * 256 + Z_of_byte a)%Z.
Proof. unfold be_value. by rewrite fold_left_app. Qed.

Lemma be_value_singleton a : be_value [a] = Z_of_byte a.
Proof. reflexivity. Qed.

Lemma be_value_be_bytes k z : be_value (be_bytes k z) = (z mod 256 ^ Z.of_nat k)%Z.
Proof.
  revert z; induction k as [|k IH]; intros z; [by rewrite Z.mod_1_r|].
  cbn [be_bytes]. rewrite be_value_snoc, IH, Z_of_byte_of_Z.
  rewrite Nat2Z.inj_succ, Z.pow_succ_r by lia.
  rewrite (Z.rem_mul_r z 256 (256 ^ Z.of_nat k)) by lia. lia.
Qed.

(** Two [k]-byte integers in range with the same encoding are equal. *)
Lemma be_bytes_inj k x y :
  (0 ≤ x < 256 ^ Z.of_nat k)%Z → (0 ≤ y < 256 ^ Z.of_nat k)%Z →
  be_bytes k x = be_bytes k y → x = y.
Proof.
  intros Hx Hy Heq. apply (f_equal be_value) in Heq.
  rewrite !be_value_be_bytes, !Z.mod_small in Heq; lia.
Qed.

Lemma be_bytes_be_value b : be_bytes (length b) (be_value b) = b.
Proof.
  induction b as [|a b IH] using rev_ind; [done|].
  rewrite length_app, Nat.add_comm. simpl. rewrite be_value_snoc.
  pose proof (Z_of_byte_range a).
  rewrite Z.div_add_l, Z.div_small, Z.add_0_r, IH by lia. do 2 f_equal.
  rewrite <-(byte_of_Z_of_byte a) at 2. unfold byte_of_Z.
  by rewrite Z.add_comm, Z.mod_add by lia.
Qed.

Lemma be_value_range b : (0 ≤ be_value b < 256 ^ blen b)%Z.
Proof.
  rewrite <-(be_bytes_be_value b), be_value_be_bytes. unfold blen.
  rewrite be_bytes_length. apply Z.mod_pos_bound. lia.
Qed.

Lemma string_of_bytes_of s : string_of (bytes_of s) = s.
Proof. apply String.string_of_list_ascii_of_string. Qed.

Lemma bytes_of_string_of b : bytes_of (string_of b) = b.
Proof. apply String.list_ascii_of_string_of_list_ascii. Qed.

Global Instance bytes_of_inj : Inj (=) (=) bytes_of.
Proof. intros s t H. by rewrite <-(string_of_bytes_of s), H, string_of_bytes_of. Qed.

Lemma bytes_of_app s t : bytes_of (s +:+ t) = bytes_of s ++ bytes_of t.
Proof. induction s as [|c s IH]; [done|]. unfold bytes_of in *. simpl. by f_equal. Qed.

(** ** Lemmas: the field encoding is prefix-free *)

Definition enc_field (f : bytes) : bytes := be_bytes 4 (wrap_u32 (blen f)) ++ f.
Definition enc_fields (l : list bytes) : bytes := concat (map enc_field l).

(** Short enough for the [as u32] cast to be exact. *)
Definition field_ok (f : bytes) : Prop := (blen f < 2 ^ 32)%Z.

Lemma push_field_enc out f : push_field out f = out ++ enc_field f.
Proof. unfold push_field, enc_field. by rewrite app_assoc. Qed.

Lemma enc_field_app_inj f g r s :
  field_ok f → field_ok g → enc_field f ++ r = enc_field g ++ s → f = g ∧ r = s.
Proof.
  unfold field_ok, enc_field, wrap_u32, blen. intros Hf Hg E. rewrite <-!app_assoc in E.
  rewrite !Z.mod_small in E by lia.
  apply app_inj_1 in E as [E1 E2]; [|by rewrite !be_bytes_length].
  apply be_bytes_inj in E1; [|lia..].
  apply app_inj_1 in E2; [done|lia].
Qed.

Lemma enc_fields_inj l k :
  Forall field_ok l → Forall field_ok k → length l = length k →
  enc_fields l = enc_fields k → l = k.
Proof.
  unfold enc_fields. intros Hl; revert k; induction Hl as [|f l Hf _ IH];
    intros [|g k] Hk Hlen E; try done.
  inversion Hk; subst. simpl in E. apply enc_field_app_inj in E as [-> E]; [|done..].
  f_equal. apply IH; auto with lia.
Qed.

Lemma to_array_Some n b a : to_array n b = Some a ↔ b = a ∧ length b = n.
Proof. unfold to_array. case_decide; naive_solver. Qed.

(** ** Lemmas: string searching *)

Lemma strip_prefix_Some p s r : strip_prefix p s = Some r ↔ s = p ++ r.
Proof.
  revert s; induction p as [|a p IH]; intros s; simpl; [naive_solver|].
  destruct s as [|b s]; [naive_solver|]. case_decide; subst; [rewrite IH|]; naive_solver.
Qed.

Lemma strip_prefix_app p s : strip_prefix p (p ++ s) = Some s.
Proof. by apply strip_prefix_Some. Qed.

Lemma starts_with_true p s : starts_with p s = true ↔ ∃ r, s = p ++ r.
Proof.
  unfold starts_with. destruct (strip_prefix p s) as [r|] eqn:E.
  - apply strip_prefix_Some in E. naive_solver.
  - split; [done|]. intros [r ->]. by rewrite strip_prefix_app in E.
Qed.

Lemma find_char_None c s : find_char c s = None ↔ c ∉ s.
Proof.
  induction s as [|a s IH]; simpl; [set_solver|]. case_decide; subst; [set_solver|].
  rewrite fmap_None, IH. set_solver.
Qed.

(** [find] splits the string at the first occurrence. *)
Lemma find_char_Some c s i :
  find_char c s = Some i → c ∉ take i s ∧ s = take i s ++ c :: drop (S i) s.
Proof.
  revert i; induction s as [|a s IH]; intros i; simpl; [done|].
  case_decide as Hc; subst; [intros [= <-]; simpl; set_solver|].
  intros (j & Hj & ->)%fmap_Some. apply IH in Hj as [Hn Hs]. simpl. split; [set_solver|].
  f_equal; done.
Qed.

Lemma find_char_app c l r : c ∉ l → find_char c (l ++ c :: r) = Some (length l).
Proof.
  induction l as [|a l IH]; intros Hn; simpl; [by rewrite decide_True|].
  rewrite decide_False by set_solver. rewrite IH by set_solver. done.
Qed.

(** ** Lemmas: string order *)

Lemma str_compare_refl s : String.compare s s = Eq.
Proof.
  pose proof (String.compare_antisym s s) as H. destruct (String.compare s s); simpl in H; congruence.
Qed.

Lemma str_compare_le s t : String.compare s t ≠ Gt ↔ String.le s t.
Proof. unfold String.le, String.leb. destruct (String.compare s t); naive_solver. Qed.

Lemma str_compare_lt_trans s t u :
  String.compare s t = Lt → String.compare t u = Lt → String.compare s u = Lt.
Proof.
  intros H1 H2.
  assert (String.le s u) as Hle.
  { etrans; apply str_compare_le; [rewrite H1|rewrite H2]; done. }
  destruct (String.compare s u) eqn:E; [|done|by apply str_compare_le in Hle].
  apply String.compare_eq_iff in E as ->.
  rewrite String.compare_antisym, H2 in H1. done.
Qed.

(** ** Lemmas: ordered iteration *)

Lemma bt_iter_perm {V} (m : gmap string V) : bt_iter m ≡ₚ map_to_list m.
Proof. apply merge_sort_Permutation. Qed.

Lemma elem_of_bt_iter {V} (m : gmap string V) k v : (k, v) ∈ bt_iter m ↔ m !! k = Some v.
Proof. rewrite bt_iter_perm. apply elem_of_map_to_list. Qed.

Lemma bt_iter_nil {V} (m : gmap string V) : bt_iter m = [] ↔ m = ∅.
Proof.
  split; [|by intros ->]. intros H. apply map_to_list_empty_iff.
  apply Permutation_nil_r. by rewrite <-H, bt_iter_perm.
Qed.

Global Instance key_le_total {V} : Total (@key_le V).
Proof. intros a b. apply String.le_total. Qed.
Global Instance key_le_trans {V} : Transitive (@key_le V).
Proof. intros a b c. unfold key_le. apply transitivity. Qed.

Lemma bt_iter_sorted {V} (m : gmap string V) : StronglySorted key_le (bt_iter m).
Proof. apply StronglySorted_merge_sort; apply _. Qed.

(** ** Automation *)

Create HintDb synbad.
#[export] Hint Resolve Z_of_byte_range be_bytes_length : synbad.
#[export] Hint Rewrite be_bytes_length be_value_be_bytes string_of_bytes_of bytes_of_string_of
  bytes_of_app @length_app : synbad.

(** Invert every [Ok] equation produced by a chain of [let?] binders. *)
Ltac invert_ok :=
  repeat match goal with
  | H : rbind _ _ = Ok _ |- _ => apply rbind_Ok in H as (? & ? & H)
  | H : rmap_err _ _ = Ok _ |- _ => apply rmap_err_Ok in H
  | H : ok_or _ _ = Ok _ |- _ => apply ok_or_Ok in H
  | H : (if ?b then Err _ else _) = Ok _ |- _ => destruct b eqn:?; [discriminate H|]
  | H : Ok _ = Ok _ |- _ => injection H as H; subst
  | H : Err _ = Ok _ |- _ => discriminate H
  end.

(** Case analysis on every [match] or [if] of the goal or a hypothesis. *)
Ltac break :=
  repeat (case_match; simplify_eq/=).
