(* ===== verification/Lattice.v ===== *)
(** * Replicated state as a partial join

    The interface a mergeable document promises ([MergeLattice]) and what
    follows for replicas that absorb each other's states in any order: the
    abstract specification that [Versioned] implements. *)

From stdpp Require Import prelude.

(** [ml_compat] says when two states can meet: commutativity is only promised
    for compatible states (two writes never share a stamp). *)
Class MergeLattice (S : Type) := {
  ml_join : S → S → S;
  ml_compat : S → S → Prop;
  ml_idemp : ∀ a, ml_join a a = a;
  ml_assoc : ∀ a b c, ml_join (ml_join a b) c = ml_join a (ml_join b c);
  ml_comm : ∀ a b, ml_compat a b → ml_join a b = ml_join b a;
  ml_compat_sym : ∀ a b, ml_compat a b → ml_compat b a;
  ml_compat_join : ∀ a b c, ml_compat a c → ml_compat b c → ml_compat (ml_join a b) c
}.

(** A replica that starts in [x] and absorbs [l] from left to right. *)
Definition absorb {S} `{MergeLattice S} (x : S) (l : list S) : S := fold_left ml_join l x.

Section gossip.
Context {S : Type} `{MergeLattice S}.
Implicit Types a b x y : S.
Implicit Types l k : list S.

Lemma absorb_app x l k : absorb x (l ++ k) = absorb (absorb x l) k.
Proof. apply fold_left_app. Qed.

Lemma join_absorb a x l : ml_join a (absorb x l) = absorb (ml_join a x) l.
Proof.
  revert x; induction l as [|y l IH]; intros x; [done|].
  simpl. unfold absorb in *. simpl. rewrite IH. by rewrite ml_assoc.
Qed.

Lemma compat_absorb x l c :
  (∀ y, y ∈ x :: l → ml_compat y c) → ml_compat (absorb x l) c.
Proof.
  revert x; induction l as [|y l IH]; intros x Hc; [apply Hc; set_solver|].
  unfold absorb in *; simpl. apply IH. intros z [->|Hz]%elem_of_cons.
  - apply ml_compat_join; apply Hc; set_solver.
  - apply Hc. set_solver.
Qed.

(** Everything a replica absorbed (or started from) stays absorbed. *)
Lemma absorb_mem x l y :
  (∀ a b, a ∈ x :: l → b ∈ x :: l → ml_compat a b) →
  y ∈ x :: l → ml_join (absorb x l) y = absorb x l.
Proof.
  induction l as [|z l IH] using rev_ind; intros Hc Hy.
  { apply list_elem_of_singleton in Hy as ->. apply ml_idemp. }
  rewrite absorb_app. change (absorb (absorb x l) [z]) with (ml_join (absorb x l) z).
  rewrite app_comm_cons in Hy. apply elem_of_app in Hy as [Hy | ->%list_elem_of_singleton].
  - rewrite ml_assoc, (ml_comm z y), <-ml_assoc, IH by set_solver. done.
  - by rewrite ml_assoc, ml_idemp.
Qed.

Lemma absorb_subset x l y k :
  (∀ a b, a ∈ x :: l → b ∈ x :: l → ml_compat a b) →
  (∀ z, z ∈ y :: k → z ∈ x :: l) →
  ml_join (absorb x l) (absorb y k) = absorb x l.
Proof.
  intros Hc Hsub. rewrite join_absorb.
  rewrite absorb_mem by (auto; apply Hsub; set_solver).
  assert (∀ z, z ∈ k → z ∈ x :: l) as Hk by set_solver. clear Hsub.
  induction k as [|z k IH]; [done|]. unfold absorb at 1. simpl.
  rewrite absorb_mem by (auto; apply Hk; set_solver).
  apply IH. set_solver.
Qed.

(** Replicas that absorbed the same set of states, in any order and with any
    repetition, are equal. *)
Lemma absorb_same_set x l y k :
  (∀ a b, a ∈ x :: l → b ∈ x :: l → ml_compat a b) →
  (∀ z, z ∈ x :: l ↔ z ∈ y :: k) →
  absorb x l = absorb y k.
Proof.
  intros Hc Heq.
  rewrite <-(absorb_subset x l y k) by (auto; intros z Hz; by apply Heq).
  rewrite ml_comm.
  - apply absorb_subset; intros; [apply Hc; by apply Heq|by apply Heq].
  - apply compat_absorb. intros a Ha. apply ml_compat_sym, compat_absorb.
    intros b Hb. apply Hc; [by apply Heq|done].
Qed.

End gossip.
