(* ===== verification/Primitives.v ===== *)
(** * Interfaces of the packages the sources call

    Synbad's cryptography and encodings come from other packages ([hex], [sha2],
    [ed25519-dalek], [x25519-dalek], [hkdf], [chacha20poly1305]).  Each is a class
    of operations and a class of the documented laws the sources rely on; the
    theorems are proved against the laws.  The end of the file gives one concrete
    instance of each, so that witnesses can evaluate. *)

From Stdlib Require Import Ascii ZArith Lia.
From S2P Require Import Prelude.

Class HexOps := {
  hex_encode : bytes → string;
  hex_decode : string → option bytes
}.
Class HexLaws `{HexOps} := {
  hex_decode_encode : ∀ b, hex_decode (hex_encode b) = Some b;
  hex_encode_length : ∀ b, length (bytes_of (hex_encode b)) = 2 * length b
}.

Class Sha256Ops := { sha256 : bytes → bytes }.
Class Sha256Laws `{Sha256Ops} := { sha256_length : ∀ b, length (sha256 b) = 32 }.

Class Ed25519Ops := {
  SigningKey : Type;
  verifying_key : SigningKey → bytes;
  sign : SigningKey → bytes → bytes;
  vk_valid : bytes → bool;
  ed_verify : bytes → bytes → bytes → bool
}.
Class Ed25519Laws `{Ed25519Ops} := {
  verifying_key_length : ∀ k, length (verifying_key k) = 32;
  sign_length : ∀ k m, length (sign k m) = 64;
  verifying_key_valid : ∀ k, vk_valid (verifying_key k) = true;
  sign_verifies : ∀ k m, ed_verify (verifying_key k) m (sign k m) = true
}.

Class X25519Ops := {
  x_public : bytes → bytes;
  x_dh : bytes → bytes → bytes
}.
Class X25519Laws `{X25519Ops} := {
  x_public_length : ∀ s, length (x_public s) = 32;
  x_dh_comm : ∀ a b, x_dh a (x_public b) = x_dh b (x_public a)
}.

(** [hkdf_expand salt ikm info n]: extract with [salt], expand to [n] bytes, at most 255
    outputs of SHA-256. *)
Class HkdfOps := { hkdf_expand : bytes → bytes → bytes → nat → bytes }.
Class HkdfLaws `{HkdfOps} := {
  hkdf_length : ∀ salt ikm info n, (Z.of_nat n ≤ 255 * 32)%Z → length (hkdf_expand salt ikm info n) = n
}.

(** ChaCha20-Poly1305 with empty associated data: [seal]/[open] under a key and
    a 12-byte nonce; the tag adds 16 bytes. *)
Class AeadOps := {
  aead_seal : bytes → bytes → bytes → option bytes;
  aead_open : bytes → bytes → bytes → option bytes
}.
Class AeadLaws `{AeadOps} := {
  aead_open_seal : ∀ k n p c, aead_seal k n p = Some c → aead_open k n c = Some p;
  aead_seal_length : ∀ k n p c, aead_seal k n p = Some c → length c = length p + 16;
  aead_seal_total : ∀ k n p, length k = 32 → length n = 12 → (blen p < 2 ^ 32)%Z → is_Some (aead_seal k n p)
}.

(** [serde_json] at a type: [to_vec] and [from_slice]. *)
Class JsonOps (A : Type) := {
  to_vec : A → option bytes;
  from_slice : bytes → option A
}.
Class JsonLaws (A : Type) `{JsonOps A} := {
  from_slice_to_vec : ∀ a b, to_vec a = Some b → from_slice b = Some a
}.

(** ** Concrete instances *)

Definition nibble_char (n : Z) : ascii :=
  byte_of_Z (if decide (n < 10)%Z then 48 + n else 87 + n)%Z.

Definition nibble_val (c : ascii) : option Z :=
  let z := Z_of_byte c in
  if decide (48 ≤ z ≤ 57)%Z then Some (z - 48)%Z
  else if decide (97 ≤ z ≤ 102)%Z then Some (z - 87)%Z
  else if decide (65 ≤ z ≤ 70)%Z then Some (z - 55)%Z else None.

Fixpoint hex_digits (b : bytes) : bytes :=
  match b with
  | [] => []
  | a :: b' => nibble_char (Z_of_byte a / 16) :: nibble_char (Z_of_byte a mod 16) :: hex_digits b'
  end.

Fixpoint hex_undigits (s : bytes) : option bytes :=
  match s with
  | [] => Some []
  | h :: l :: s' =>
    match nibble_val h, nibble_val l, hex_undigits s' with
    | Some x, Some y, Some r => Some (byte_of_Z (x * 16 + y) :: r)
    | _, _, _ => None
    end
  | _ => None
  end.

Definition toy_hex : HexOps :=
  {| hex_encode b := string_of (hex_digits b); hex_decode s := hex_undigits (bytes_of s) |}.

Lemma nibble_val_char n : (0 ≤ n < 16)%Z → nibble_val (nibble_char n) = Some n.
Proof.
  intros Hn. unfold nibble_val, nibble_char. rewrite Z_of_byte_of_Z.
  destruct (decide (n < 10)%Z); rewrite Z.mod_small by lia.
  - rewrite decide_True by lia. f_equal; lia.
  - rewrite decide_False, decide_True by lia. f_equal; lia.
Qed.

Lemma toy_hex_laws : HexLaws (H := toy_hex).
Proof.
  split; intros b; unfold hex_encode, hex_decode, toy_hex; rewrite bytes_of_string_of.
  - induction b as [|a b IH]; [done|]. simpl. pose proof (Z_of_byte_range a).
    rewrite !nibble_val_char by (try apply Z.mod_pos_bound; try (split; [apply Z.div_pos|apply Z.div_lt_upper_bound]); lia).
    rewrite IH. do 2 f_equal.
    rewrite (Z.mul_comm _ 16), <-Z_div_mod_eq_full. apply byte_of_Z_of_byte.
  - induction b as [|a b IH]; [done|]. simpl in *. lia.
Qed.

(** Pad or cut to [n] bytes. *)
Definition fit (n : nat) (b : bytes) : bytes := take n (b ++ repeat (byte_of_Z 0) n).

Lemma fit_length n b : length (fit n b) = n.
Proof. unfold fit. rewrite length_take, length_app, repeat_length. lia. Qed.

Definition toy_sha : Sha256Ops := {| sha256 b := fit 32 (rev b) |}.
Lemma toy_sha_laws : Sha256Laws (H := toy_sha).
Proof. split. intros. apply fit_length. Qed.

Definition toy_ed : Ed25519Ops :=
  {| SigningKey := bytes; verifying_key := fit 32; sign k m := fit 32 k ++ fit 32 m;
     vk_valid _ := true; ed_verify pk m s := bool_decide (s = fit 32 pk ++ fit 32 m) |}.

Lemma fit_fit n b : fit n (fit n b) = fit n b.
Proof. unfold fit at 1. rewrite take_app_le by (by rewrite fit_length). apply firstn_all2. by rewrite fit_length. Qed.

Lemma toy_ed_laws : Ed25519Laws (H := toy_ed).
Proof.
  split; simpl; intros; rewrite ?length_app, ?fit_length; try done.
  apply bool_decide_eq_true. by rewrite fit_fit.
Qed.

Definition toy_x : X25519Ops := {| x_public := fit 32; x_dh a b := be_bytes 32 (be_value (fit 32 a) * be_value (fit 32 b)) |}.
Lemma toy_x_laws : X25519Laws (H := toy_x).
Proof. split; simpl; intros; [apply fit_length|]. by rewrite !fit_fit, Z.mul_comm. Qed.

Definition toy_hkdf : HkdfOps := {| hkdf_expand salt ikm info n := fit n (ikm ++ salt ++ info) |}.
Lemma toy_hkdf_laws : HkdfLaws (H := toy_hkdf).
Proof. split. intros. apply fit_length. Qed.

(** The tag is the first 12 bytes of the nonce and 4 bytes of the key. *)
Definition toy_tag (k n : bytes) : bytes := fit 12 n ++ fit 4 k.
Definition toy_aead : AeadOps :=
  {| aead_seal k n p := Some (p ++ toy_tag k n);
     aead_open k n c :=
       let p := take (length c - 16) c in
       if decide (drop (length c - 16) c = toy_tag k n) then Some p else None |}.
Lemma toy_aead_laws : AeadLaws (H := toy_aead).
Proof.
  assert (∀ k n, length (toy_tag k n) = 16) as Ht
    by (intros; unfold toy_tag; by rewrite length_app, !fit_length).
  split; simpl; [intros k n p c [= <-]; rewrite ?length_app, Ht..|by eexists]; [|done].
  replace (length p + 16 - 16) with (length p) by lia.
  by rewrite drop_app_length, take_app_length, decide_True.
Qed.

(** A self-delimiting string code: each character is preceded by [1], the end
    is [0]. *)
Definition toy_enc_str (s : bytes) : bytes := flat_map (λ c, [byte_of_Z 1; c]) s ++ [byte_of_Z 0].

Fixpoint toy_dec_str (b : bytes) : option (bytes * bytes) :=
  match b with
  | [] => None
  | m :: b1 =>
    if decide (m = byte_of_Z 0) then Some ([], b1) else
    match b1 with
    | [] => None
    | c :: b2 => match toy_dec_str b2 with Some (s, r) => Some (c :: s, r) | None => None end
    end
  end.

Lemma toy_dec_enc_str s r : toy_dec_str (toy_enc_str s ++ r) = Some (s, r).
Proof.
  unfold toy_enc_str. induction s as [|c s IH]; [done|].
  cbn [flat_map app toy_dec_str]. rewrite decide_False by done. by rewrite IH.
Qed.

(** ** Toy serialisers

    Self-delimiting codes, combined into concrete [JsonOps] instances. *)

Record Codec (A : Type) := {
  c_ok : A → bool;
  c_enc : A → bytes;
  c_dec : bytes → option (A * bytes);
  c_law : ∀ a r, c_ok a = true → c_dec (c_enc a ++ r) = Some (a, r)
}.
Arguments c_ok {A}. Arguments c_enc {A}. Arguments c_dec {A}. Arguments c_law {A}.

Definition json_of_codec {A} (c : Codec A) : JsonOps A :=
  {| to_vec a := if c_ok c a then Some (c_enc c a) else None;
     from_slice b := match c_dec c b with Some (a, []) => Some a | _ => None end |}.

Lemma json_of_codec_laws {A} (c : Codec A) : JsonLaws A (H := json_of_codec c).
Proof.
  split. simpl. intros a b. destruct (c_ok c a) eqn:Hok; [|done]. intros [= <-].
  rewrite <-(app_nil_r (c_enc c a)). by rewrite (c_law c a []).
Qed.

Program Definition codec_str : Codec string :=
  {| c_ok _ := true; c_enc s := toy_enc_str (bytes_of s);
     c_dec b := match toy_dec_str b with Some (s, r) => Some (string_of s, r) | None => None end |}.
Next Obligation. intros a r _. simpl. by rewrite toy_dec_enc_str, string_of_bytes_of. Qed.

Program Definition codec_u64 : Codec Z :=
  {| c_ok z := bool_decide (0 ≤ z ≤ u64_MAX)%Z; c_enc z := be_bytes 8 z;
     c_dec b := if decide (8 ≤ length b) then Some (be_value (take 8 b), drop 8 b) else None |}.
Next Obligation.
  intros z r Hz%bool_decide_eq_true. cbv beta. unfold u64_MAX in Hz.
  rewrite length_app, be_bytes_length, decide_True by lia.
  rewrite take_app_le, firstn_all2, drop_app_ge by (rewrite be_bytes_length; lia).
  rewrite be_value_be_bytes, be_bytes_length, Z.mod_small by lia. by rewrite drop_0.
Qed.

Program Definition codec_pair {A B} (ca : Codec A) (cb : Codec B) : Codec (A * B) :=
  {| c_ok x := c_ok ca x.1 && c_ok cb x.2; c_enc x := c_enc ca x.1 ++ c_enc cb x.2;
     c_dec b := match c_dec ca b with
                | Some (x, b1) => match c_dec cb b1 with Some (y, b2) => Some ((x, y), b2) | None => None end
                | None => None
                end |}.
Next Obligation.
  intros A B ca cb [x y] r [Hx Hy]%andb_true_iff. simpl in *. by rewrite <-app_assoc, !c_law.
Qed.

Program Definition codec_bool : Codec bool :=
  {| c_ok _ := true; c_enc b := [byte_of_Z (if b then 1 else 0)];
     c_dec b := match b with [] => None | m :: r => Some (bool_decide (m = byte_of_Z 1), r) end |}.
Next Obligation. by intros [] r _. Qed.

Program Definition codec_sum {A B} (ca : Codec A) (cb : Codec B) : Codec (A + B) :=
  {| c_ok x := match x with inl a => c_ok ca a | inr b => c_ok cb b end;
     c_enc x := match x with inl a => byte_of_Z 0 :: c_enc ca a | inr b => byte_of_Z 1 :: c_enc cb b end;
     c_dec b := match b with
                | [] => None
                | m :: r => if decide (m = byte_of_Z 0)
                            then match c_dec ca r with Some (a, r') => Some (inl a, r') | None => None end
                            else match c_dec cb r with Some (a, r') => Some (inr a, r') | None => None end
                end |}.
Next Obligation.
  intros A B ca cb [a|b] r Hok; cbn [app]; [rewrite decide_True by done|rewrite decide_False by done]; by rewrite c_law.
Qed.

Program Definition codec_iso {A B} (f : B → A) (g : A → B) (Hgf : ∀ b, g (f b) = b) (ca : Codec A) : Codec B :=
  {| c_ok x := c_ok ca (f x); c_enc x := c_enc ca (f x);
     c_dec b := match c_dec ca b with Some (x, r) => Some (g x, r) | None => None end |}.
Next Obligation. intros A B f g Hgf ca b r Hok. simpl. by rewrite c_law, Hgf. Qed.

Fixpoint dec_list {A} (c : Codec A) (fuel : nat) (b : bytes) : option (list A * bytes) :=
  match fuel, b with
  | O, _ | _, [] => None
  | S n, m :: b1 =>
    if decide (m = byte_of_Z 0) then Some ([], b1) else
    match c_dec c b1 with
    | Some (x, b2) => match dec_list c n b2 with Some (l, r) => Some (x :: l, r) | None => None end
    | None => None
    end
  end.

Program Definition codec_list {A} (c : Codec A) : Codec (list A) :=
  {| c_ok l := forallb (c_ok c) l;
     c_enc l := flat_map (λ x, byte_of_Z 1 :: c_enc c x) l ++ [byte_of_Z 0];
     c_dec b := dec_list c (length b) b |}.
Next Obligation.
  intros A c l r Hok. cbv beta.
  assert (∀ n, length l < n → dec_list c n ((flat_map (λ x, byte_of_Z 1 :: c_enc c x) l ++ [byte_of_Z 0]) ++ r) = Some (l, r)) as Hgo.
  { induction l as [|x l IH]; intros [|n] Hn; [simpl in Hn; lia|done|simpl in Hn; lia|].
    cbn [forallb] in Hok. apply andb_true_iff in Hok as [Hx Hl]. cbn [length] in Hn.
    cbn [flat_map app dec_list]. rewrite decide_False by done.
    rewrite <-!app_assoc, c_law by done. rewrite app_assoc, IH by (done || lia). done. }
  apply Hgo. rewrite !length_app. simpl.
  assert (length l ≤ length (flat_map (λ x, byte_of_Z 1 :: c_enc c x) l)); [|lia].
  clear. induction l as [|x l IH]; simpl; [lia|]. rewrite length_app. lia.
Qed.
