(* ===== verification/Config.v ===== *)
(** * Configuration model ([crates/synbad-config/src/lib.rs])

    The [Config] document, its validation, the comparison that decides whether
    the Core must be restarted, and the two generated artefacts (the Synergy
    [.conf] and the Deskflow settings INI).  Paths are Unix paths; an [f32] is
    its 32-bit pattern, with IEEE equality. *)

From Stdlib Require Import Ascii ZArith Lia.
From S2P Require Import Prelude.

(** ** Scalars: f32 and paths *)

Definition f32_is_nan (b : Z) : bool := (0x7F800000 <? Z.land b 0x7FFFFFFF)%Z.
Definition f32_is_zero (b : Z) : bool := (Z.land b 0x7FFFFFFF =? 0)%Z.
(** [PartialEq] on [f32]: NaN is different from itself, [-0.0 == 0.0]. *)
Definition f32_eqb (a b : Z) : bool :=
  negb (f32_is_nan a) && negb (f32_is_nan b)
    && ((a =? b)%Z || (f32_is_zero a && f32_is_zero b)).

(** Split a path at every [/]. *)
Fixpoint split_slash (s : bytes) (cur : bytes) : list bytes :=
  match s with
  | [] => [cur]
  | c :: s' => if decide (c = "/"%char) then cur :: split_slash s' [] else split_slash s' (cur ++ [c])
  end.

(** [Path::components]: repeated and trailing separators and inner [.] vanish. *)
Definition path_components (p : string) : bool * list bytes :=
  let b := bytes_of p in
  let parts := split_slash b [] in
  let dot := bytes_of "." in
  let root := starts_with (bytes_of "/") b in
  let keep := filter (fun x : bytes => x ≠ [] ∧ x ≠ dot) parts in
  (root, if decide (root = false ∧ head parts = Some dot) then dot :: keep else keep).

Definition path_eqb (p q : string) : bool := bool_decide (path_components p = path_components q).

Definition opt_path_eqb (p q : option string) : bool :=
  match p, q with
  | Some p, Some q => path_eqb p q
  | None, None => true
  | _, _ => false
  end.

(** ** Data *)

Inductive NodeRole := Server | Client.
Inductive Side := Left | Right | Up | Down.

Record MonitorInfo := {
  mon_x : Z; mon_y : Z; mon_w : Z; mon_h : Z; mon_primary : bool
}.

Record GridPosition := { gp_x : Z; gp_y : Z; gp_w : Z; gp_h : Z }.

Record Screen := {
  scr_name : string;
  scr_aliases : list string;
  scr_position : GridPosition;
  scr_monitors : list MonitorInfo
}.
#[export] Instance GridPosition_eta : Eta GridPosition := λ r,
  {| gp_x := gp_x r; gp_y := gp_y r; gp_w := gp_w r; gp_h := gp_h r |}.
#[export] Instance Screen_eta : Eta Screen := λ r,
  {| scr_name := scr_name r; scr_aliases := scr_aliases r; scr_position := scr_position r; scr_monitors := scr_monitors r |}.

Record Link := { lnk_from : string; lnk_side : Side; lnk_to : string }.

Record BinaryPaths := { bin_core : option string }.

Record PeerAudioRouting := {
  par_enabled : bool; par_send_to_peer : bool; par_receive_from_peer : bool
}.

Record AudioConfig := {
  aud_enabled : bool;
  aud_input_device : option string;
  aud_output_device : option string;
  aud_input_gain : Z;
  aud_output_gain : Z;
  aud_per_peer : gmap string PeerAudioRouting;
  aud_signal_port : Z
}.

Record Config := {
  cfg_role : NodeRole;
  cfg_server_name : string;
  cfg_server_address : option string;
  cfg_port : Z;
  cfg_service_port : Z;
  cfg_sync_port : Z;
  cfg_screens : list Screen;
  cfg_links : list Link;
  cfg_options : gmap string string;
  cfg_clipboard_sharing : bool;
  cfg_autostart : bool;
  cfg_binaries : BinaryPaths;
  cfg_audio : AudioConfig
}.
#[export] Instance Config_eta : Eta Config := λ r,
  {| cfg_role := cfg_role r; cfg_server_name := cfg_server_name r; cfg_server_address := cfg_server_address r;
     cfg_port := cfg_port r; cfg_service_port := cfg_service_port r; cfg_sync_port := cfg_sync_port r;
     cfg_screens := cfg_screens r; cfg_links := cfg_links r; cfg_options := cfg_options r;
     cfg_clipboard_sharing := cfg_clipboard_sharing r; cfg_autostart := cfg_autostart r;
     cfg_binaries := cfg_binaries r; cfg_audio := cfg_audio r |}.

(** ** Field assignment: [config.f = x] *)

Definition set_cfg_port (x : Z) (r : Config) : Config := Eval cbv [update_field] in r <| cfg_port := x |>.
Definition set_cfg_screens (x : list Screen) (r : Config) : Config :=
  Eval cbv [update_field] in r <| cfg_screens := x |>.
Definition set_cfg_links (x : list Link) (r : Config) : Config := Eval cbv [update_field] in r <| cfg_links := x |>.
Definition set_cfg_options (x : gmap string string) (r : Config) : Config :=
  Eval cbv [update_field] in r <| cfg_options := x |>.
Definition set_cfg_clipboard_sharing (x : bool) (r : Config) : Config :=
  Eval cbv [update_field] in r <| cfg_clipboard_sharing := x |>.
Definition set_cfg_audio (x : AudioConfig) (r : Config) : Config := Eval cbv [update_field] in r <| cfg_audio := x |>.

Global Instance NodeRole_eq_dec : EqDecision NodeRole. Proof. solve_decision. Defined.
Global Instance Side_eq_dec : EqDecision Side. Proof. solve_decision. Defined.
Global Instance MonitorInfo_eq_dec : EqDecision MonitorInfo. Proof. solve_decision. Defined.
Global Instance GridPosition_eq_dec : EqDecision GridPosition. Proof. solve_decision. Defined.
Global Instance Screen_eq_dec : EqDecision Screen. Proof. solve_decision. Defined.
Global Instance Link_eq_dec : EqDecision Link. Proof. solve_decision. Defined.
Global Instance BinaryPaths_eq_dec : EqDecision BinaryPaths. Proof. solve_decision. Defined.
Global Instance PeerAudioRouting_eq_dec : EqDecision PeerAudioRouting. Proof. solve_decision. Defined.
Global Instance AudioConfig_eq_dec : EqDecision AudioConfig. Proof. solve_decision. Defined.
Global Instance Config_eq_dec : EqDecision Config. Proof. solve_decision. Defined.

Definition default_port : Z := 24800.
Definition default_service_port : Z := 24850.
Definition default_sync_port : Z := 24851.
Definition default_clipboard_sharing : bool := true.
Definition default_autostart : bool := true.
Definition default_audio_signal_port : Z := 24852.
(** The bit pattern of [1.0f32]. *)
Definition default_gain : Z := 0x3F800000.

Definition default_AudioConfig : AudioConfig := {|
  aud_enabled := false;
  aud_input_device := None;
  aud_output_device := None;
  aud_input_gain := default_gain;
  aud_output_gain := default_gain;
  aud_per_peer := ∅;
  aud_signal_port := default_audio_signal_port
|}.

Definition default_Config : Config := {|
  cfg_role := Server;
  cfg_server_name := "this-machine";
  cfg_server_address := None;
  cfg_port := default_port;
  cfg_service_port := default_service_port;
  cfg_sync_port := default_sync_port;
  cfg_screens := [ {| scr_name := "this-machine"; scr_aliases := [];
                      scr_position := {| gp_x := 0; gp_y := 0; gp_w := 160; gp_h := 120 |};
                      scr_monitors := [] |} ];
  cfg_links := [];
  cfg_options := ∅;
  cfg_clipboard_sharing := default_clipboard_sharing;
  cfg_autostart := default_autostart;
  cfg_binaries := {| bin_core := None |};
  cfg_audio := default_AudioConfig
|}.

(** ** Equality: the derived [PartialEq] instances *)

Definition audio_eqb (a b : AudioConfig) : bool :=
  bool_decide (aud_enabled a = aud_enabled b)
  && bool_decide (aud_input_device a = aud_input_device b)
  && bool_decide (aud_output_device a = aud_output_device b)
  && f32_eqb (aud_input_gain a) (aud_input_gain b)
  && f32_eqb (aud_output_gain a) (aud_output_gain b)
  && bool_decide (aud_per_peer a = aud_per_peer b)
  && bool_decide (aud_signal_port a = aud_signal_port b).

Definition binaries_eqb (a b : BinaryPaths) : bool := opt_path_eqb (bin_core a) (bin_core b).

Definition config_eqb (a b : Config) : bool :=
  bool_decide (cfg_role a = cfg_role b)
  && bool_decide (cfg_server_name a = cfg_server_name b)
  && bool_decide (cfg_server_address a = cfg_server_address b)
  && bool_decide (cfg_port a = cfg_port b)
  && bool_decide (cfg_service_port a = cfg_service_port b)
  && bool_decide (cfg_sync_port a = cfg_sync_port b)
  && bool_decide (cfg_screens a = cfg_screens b)
  && bool_decide (cfg_links a = cfg_links b)
  && bool_decide (cfg_options a = cfg_options b)
  && bool_decide (cfg_clipboard_sharing a = cfg_clipboard_sharing b)
  && bool_decide (cfg_autostart a = cfg_autostart b)
  && binaries_eqb (cfg_binaries a) (cfg_binaries b)
  && audio_eqb (cfg_audio a) (cfg_audio b).

(** ** Sides and monitor geometry *)

Definition opposite (s : Side) : Side :=
  match s with Left => Right | Right => Left | Up => Down | Down => Up end.

Definition as_synergy (s : Side) : string :=
  match s with Left => "left" | Right => "right" | Up => "up" | Down => "down" end.

(** One iteration of the loop over [monitors]; [i32] additions wrap. *)
Definition bbox_step (acc : Z * Z * Z * Z) (m : MonitorInfo) : Z * Z * Z * Z :=
  let '(min_x, min_y, max_x, max_y) := acc in
  (Z.min min_x (mon_x m), Z.min min_y (mon_y m),
   Z.max max_x (wrap_i32 (mon_x m + wrap_i32 (mon_w m))),
   Z.max max_y (wrap_i32 (mon_y m + wrap_i32 (mon_h m)))).

Definition monitor_bbox (s : Screen) : option (Z * Z) :=
  match scr_monitors s with
  | [] => None
  | ms =>
    let '(min_x, min_y, max_x, max_y) :=
      fold_left bbox_step ms (i32_MAX, i32_MAX, i32_MIN, i32_MIN) in
    Some (wrap_u32 (wrap_i32 (max_x - min_x)), wrap_u32 (wrap_i32 (max_y - min_y)))
  end.

(** ** [std::net::IpAddr] parsing *)

Definition digit_of (radix : Z) (c : ascii) : option Z :=
  let z := Z_of_byte c in
  let d := if decide (48 ≤ z ≤ 57)%Z then Some (z - 48)%Z
           else if decide (97 ≤ z ≤ 122)%Z then Some (z - 87)%Z
           else if decide (65 ≤ z ≤ 90)%Z then Some (z - 55)%Z else None in
  match d with Some v => if decide (v < radix)%Z then Some v else None | None => None end.

(** [read_number]: the digits, their count, stopping with [None] past the cap
    or past [max]. *)
Fixpoint read_digits (radix max : Z) (cap : nat) (s : bytes) (acc : Z) (n : nat)
    : option (Z * nat * bytes) :=
  match s with
  | [] => Some (acc, n, [])
  | c :: s' =>
    match digit_of radix c with
    | None => Some (acc, n, s)
    | Some d =>
      let acc' := (acc * radix + d)%Z in
      if decide (max < acc')%Z then None
      else if decide (cap < S n) then None
      else read_digits radix max cap s' acc' (S n)
    end
  end.

Definition read_number (radix max : Z) (cap : nat) (zero_prefix : bool) (s : bytes)
    : option bytes :=
  match read_digits radix max cap s 0 0 with
  | None => None
  | Some (_, n, rest) =>
    if decide (n = 0) then None
    else if decide (zero_prefix = false ∧ head s = Some "0"%char ∧ 1 < n) then None
    else Some rest
  end.

Definition read_separator (sep : ascii) (i : nat) (inner : bytes → option bytes) (s : bytes)
    : option bytes :=
  match i with
  | O => inner s
  | S _ => match s with
           | c :: s' => if decide (c = sep) then inner s' else None
           | [] => None
           end
  end.

Definition read_octet : bytes → option bytes := read_number 10 255 3 false.

Definition read_ipv4_addr (s : bytes) : option bytes :=
  s1 ← read_separator "." 0 read_octet s;
  s2 ← read_separator "." 1 read_octet s1;
  s3 ← read_separator "." 2 read_octet s2;
  read_separator "." 3 read_octet s3.

(** [read_groups] on a slice of [limit] groups, at index [i] with [todo] slots
    left: (groups read, ended in an IPv4 tail, rest). *)
Fixpoint read_groups (limit i todo : nat) (s : bytes) : nat * bool * bytes :=
  match todo with
  | O => (limit, false, s)
  | S todo' =>
    match (if decide (i < limit - 1) then read_separator ":" i read_ipv4_addr s else None) with
    | Some r => (i + 2, true, r)
    | None =>
      match read_separator ":" i (read_number 16 65535 4 true) s with
      | Some r => read_groups limit (S i) todo' r
      | None => (i, false, s)
      end
    end
  end.

Definition read_ipv6_addr (s : bytes) : option bytes :=
  let '(head_size, head_ipv4, r) := read_groups 8 0 8 s in
  if decide (head_size = 8) then Some r
  else if head_ipv4 then None
  else match strip_prefix (bytes_of "::") r with
       | None => None
       | Some r' =>
         let limit := 8 - (head_size + 1) in
         let '(_, _, r'') := read_groups limit 0 limit r' in Some r''
       end.

Definition parse_ip_addr (s : string) : bool :=
  match (match read_ipv4_addr (bytes_of s) with
         | Some r => Some r | None => read_ipv6_addr (bytes_of s) end) with
  | Some [] => true
  | _ => false
  end.

(** ** Addresses *)

Definition host_port (host : string) (p : Z) : string :=
  let b := bytes_of host in
  if contains_char ":" b && negb (starts_with (bytes_of "[") b)
  then "[" +:+ host +:+ "]:" +:+ pretty p
  else host +:+ ":" +:+ pretty p.

Definition remote_address (c : Config) : option string :=
  match cfg_server_address c with
  | None => None
  | Some address =>
    let b := bytes_of address in
    if parse_ip_addr address || negb (contains_char ":" b)
       || (starts_with (bytes_of "[") b && ends_with (bytes_of "]") b)
    then Some (host_port address (cfg_port c))
    else Some address
  end.

(** ** Validation *)

Inductive InvalidReason :=
| ServerNameNotAScreen (name : string)
| LinkFromNotAScreen (name : string)
| LinkToNotAScreen (name : string)
| LinkSelfLoop (name : string)
| ClientNeedsServerAddress.

Inductive ConfigError :=
| Io (path : string)
| TomlDe
| TomlSer
| Invalid (why : InvalidReason).

Definition has_screen (c : Config) (name : string) : bool :=
  existsb (fun s => bool_decide (scr_name s = name)) (cfg_screens c).

Definition validate_link (c : Config) (l : Link) : result ConfigError unit :=
  if negb (has_screen c (lnk_from l)) then Err (Invalid (LinkFromNotAScreen (lnk_from l)))
  else if negb (has_screen c (lnk_to l)) then Err (Invalid (LinkToNotAScreen (lnk_to l)))
  else if decide (lnk_from l = lnk_to l) then Err (Invalid (LinkSelfLoop (lnk_from l)))
  else Ok tt.

Fixpoint validate_links (c : Config) (ls : list Link) : result ConfigError unit :=
  match ls with
  | [] => Ok tt
  | l :: ls' => let? _ := validate_link c l in validate_links c ls'
  end.

Definition validate (c : Config) : result ConfigError unit :=
  if negb (has_screen c (cfg_server_name c))
  then Err (Invalid (ServerNameNotAScreen (cfg_server_name c)))
  else let? _ := validate_links c (cfg_links c) in
    if bool_decide (cfg_role c = Client) && bool_decide (cfg_server_address c = None)
    then Err (Invalid ClientNeedsServerAddress)
    else Ok tt.

(** ** What the Core consumes *)

Definition core_view (c : Config) : Config := {|
  cfg_role := cfg_role c;
  cfg_server_name := cfg_server_name c;
  cfg_server_address := cfg_server_address c;
  cfg_port := cfg_port c;
  cfg_service_port := 0;
  cfg_sync_port := 0;
  cfg_screens := cfg_screens c;
  cfg_links := cfg_links c;
  cfg_options := cfg_options c;
  cfg_clipboard_sharing := cfg_clipboard_sharing c;
  cfg_autostart := true;
  cfg_binaries := cfg_binaries c;
  cfg_audio := default_AudioConfig
|}.

Definition core_inputs_differ (a b : Config) : bool :=
  negb (config_eqb (core_view a) (core_view b)).

(** ** Generated artefacts *)

Definition tab : string := String "009" "".
Definition nl : string := String "010" "".

Definition unlines (ls : list string) : string :=
  fold_right (fun l acc => l +:+ nl +:+ acc) "" ls.

(** [by_from.entry(k).or_default().push(e)]. *)
Definition push_edge (k : string) (e : Side * string) (m : gmap string (list (Side * string)))
    : gmap string (list (Side * string)) :=
  <[k := default [] (m !! k) ++ [e]]> m.

Definition add_link (m : gmap string (list (Side * string))) (l : Link) :=
  push_edge (lnk_to l) (opposite (lnk_side l), lnk_from l)
    (push_edge (lnk_from l) (lnk_side l, lnk_to l) m).

Definition links_by_from (ls : list Link) : gmap string (list (Side * string)) :=
  fold_left add_link ls ∅.

Definition edge_line (e : Side * string) : string :=
  tab +:+ tab +:+ as_synergy (fst e) +:+ "(0,100) = " +:+ snd e +:+ "(0,100)".

Definition screens_section (c : Config) : list string :=
  ["section: screens"] ++ map (fun s => tab +:+ scr_name s +:+ ":") (cfg_screens c) ++ ["end"; ""].

Definition aliases_section (c : Config) : list string :=
  if existsb (fun s => negb (bool_decide (scr_aliases s = []))) (cfg_screens c) then
    ["section: aliases"]
    ++ flat_map (fun s => if decide (scr_aliases s = []) then [] else
                            (tab +:+ scr_name s +:+ ":")
                              :: map (fun a => tab +:+ tab +:+ a) (scr_aliases s))
                (cfg_screens c)
    ++ ["end"; ""]
  else [].

Definition links_section (c : Config) : list string :=
  if decide (cfg_links c = []) then [] else
    ["section: links"]
    ++ flat_map (fun kv => (tab +:+ fst kv +:+ ":") :: map edge_line (snd kv))
                (bt_iter (links_by_from (cfg_links c)))
    ++ ["end"; ""].

Definition options_section (c : Config) : list string :=
  let emit_clipboard := negb (cfg_clipboard_sharing c) in
  if negb (bool_decide (cfg_options c = ∅)) || emit_clipboard then
    ["section: options"]
    ++ (if emit_clipboard then [tab +:+ "clipboardSharing = false"] else [])
    ++ map (fun kv => tab +:+ fst kv +:+ " = " +:+ snd kv) (bt_iter (cfg_options c))
    ++ ["end"]
  else [].

Definition generate_synergy_conf (c : Config) : string :=
  unlines (["# Generated by Synbad. DO NOT EDIT — regenerated from config.toml."; ""]
           ++ screens_section c ++ aliases_section c ++ links_section c ++ options_section c).

Definition generate_deskflow_settings (c : Config) (screen_conf_path : string) : string :=
  unlines
    (["; Generated by Synbad. DO NOT EDIT — regenerated from config.toml."; "";
      "[core]";
      "coreMode=" +:+ pretty (match cfg_role c with Client => 1 | Server => 2 end)%Z;
      "computerName=" +:+ cfg_server_name c;
      "port=" +:+ pretty (cfg_port c);
      "processMode=1"; ""]
     ++ match cfg_role c with
        | Client => ["[client]"]
            ++ match remote_address c with
               | Some addr => ["remoteHost=" +:+ addr]
               | None => []
               end
        | Server => ["[server]"; "externalConfig=true"; "externalConfigFile=" +:+ screen_conf_path]
        end).

(** ** Concrete configurations of the unit tests *)

Definition cfg_with_server (addr : string) (p : Z) : Config := {|
  cfg_role := Client; cfg_server_name := "this-machine"; cfg_server_address := Some addr;
  cfg_port := p; cfg_service_port := default_service_port; cfg_sync_port := default_sync_port;
  cfg_screens := cfg_screens default_Config; cfg_links := []; cfg_options := ∅;
  cfg_clipboard_sharing := true; cfg_autostart := true;
  cfg_binaries := {| bin_core := None |}; cfg_audio := default_AudioConfig |}.

Definition mk_screen (n : string) : Screen :=
  {| scr_name := n; scr_aliases := []; scr_position := {| gp_x := 0; gp_y := 0; gp_w := 160; gp_h := 120 |};
     scr_monitors := [] |}.

Definition sample_config : Config := {|
  cfg_role := Server; cfg_server_name := "alpha"; cfg_server_address := None;
  cfg_port := 24800; cfg_service_port := 24850; cfg_sync_port := 24851;
  cfg_screens := [mk_screen "alpha"; mk_screen "beta"];
  cfg_links := [{| lnk_from := "alpha"; lnk_side := Right; lnk_to := "beta" |}];
  cfg_options := {["heartbeat" := "5000"]};
  cfg_clipboard_sharing := true; cfg_autostart := true;
  cfg_binaries := {| bin_core := None |}; cfg_audio := default_AudioConfig |}.

Example client_settings_preserve_ipv6_and_explicit_ports :
  map (fun a => remote_address (cfg_with_server a 25000))
    ["2001:db8::1"; "[2001:db8::1]"; "[2001:db8::1]:26000"; "peer.local"; "peer.local:26000";
     "1.2.3.4"; "1.2.3.4:99"; "::ffff:1.2.3.4"; "1.02.3.4:1"]
  = map Some ["[2001:db8::1]:25000"; "[2001:db8::1]:25000"; "[2001:db8::1]:26000";
     "peer.local:25000"; "peer.local:26000"; "1.2.3.4:25000"; "1.2.3.4:99";
     "[::ffff:1.2.3.4]:25000"; "1.02.3.4:1"].
Proof. vm_compute. reflexivity. Qed.

(** ** Specifications *)

Definition screen_names (c : Config) : list string := map scr_name (cfg_screens c).

(** What a valid document means, independently of the order of the checks. *)
Definition valid_config (c : Config) : Prop :=
  cfg_server_name c ∈ screen_names c
  ∧ (∀ l, l ∈ cfg_links c →
       lnk_from l ∈ screen_names c ∧ lnk_to l ∈ screen_names c ∧ lnk_from l ≠ lnk_to l)
  ∧ (cfg_role c = Client → is_Some (cfg_server_address c)).

Definition edges_of (ls : list Link) (k : string) : list (Side * string) :=
  default [] (links_by_from ls !! k).

(** [x + w] and [y + h] stay within [i32]. *)
Definition monitor_ok (m : MonitorInfo) : Prop :=
  (i32_MIN ≤ mon_x m ≤ i32_MAX ∧ i32_MIN ≤ mon_y m ≤ i32_MAX ∧
   0 ≤ mon_w m ≤ i32_MAX ∧ 0 ≤ mon_h m ≤ i32_MAX ∧
   mon_x m + mon_w m ≤ i32_MAX ∧ mon_y m + mon_h m ≤ i32_MAX)%Z.

(** [lo] and [hi] are the tight bounds of the intervals [[p m, p m + q m]]. *)
Definition tight_span (p q : MonitorInfo → Z) (ms : list MonitorInfo) (lo hi : Z) : Prop :=
  (∀ m, m ∈ ms → lo ≤ p m ∧ p m + q m ≤ hi)%Z
  ∧ (∃ m, m ∈ ms ∧ lo = p m) ∧ (∃ m, m ∈ ms ∧ hi = (p m + q m)%Z).

(** ** Validation lemmas *)

Lemma has_screen_spec c n : has_screen c n = true ↔ n ∈ screen_names c.
Proof.
  unfold has_screen, screen_names. rewrite existsb_exists. setoid_rewrite bool_decide_eq_true.
  rewrite list_elem_of_In, in_map_iff. naive_solver.
Qed.

Lemma has_screen_false c n : has_screen c n = false ↔ n ∉ screen_names c.
Proof. rewrite <-has_screen_spec. by destruct (has_screen c n). Qed.

Lemma validate_link_ok c l :
  validate_link c l = Ok tt ↔
  lnk_from l ∈ screen_names c ∧ lnk_to l ∈ screen_names c ∧ lnk_from l ≠ lnk_to l.
Proof.
  unfold validate_link. rewrite <-!has_screen_spec.
  destruct (has_screen c (lnk_from l)), (has_screen c (lnk_to l)); simpl;
    try case_decide; naive_solver.
Qed.

Lemma validate_links_ok c ls :
  validate_links c ls = Ok tt ↔ ∀ l, l ∈ ls → validate_link c l = Ok tt.
Proof.
  induction ls as [|l ls IH]; simpl; [set_solver|].
  setoid_rewrite elem_of_cons. destruct (validate_link c l) as [[]|] eqn:E; simpl.
  - rewrite IH. naive_solver.
  - split; [done|]. intros H. rewrite (H l) in E by auto. done.
Qed.

Lemma validate_ok_valid c : validate c = Ok tt ↔ valid_config c.
Proof.
  unfold validate, valid_config. rewrite <-has_screen_spec.
  destruct (has_screen c (cfg_server_name c)); simpl; [|naive_solver].
  destruct (validate_links c (cfg_links c)) as [[]|e] eqn:El; simpl.
  - pose proof (proj1 (validate_links_ok c _) El) as Hl. setoid_rewrite validate_link_ok in Hl.
    destruct (cfg_role c), (cfg_server_address c); simpl; naive_solver.
  - split; [done|]. intros (_ & Hl & _).
    assert (validate_links c (cfg_links c) = Ok tt) as Hok; [|congruence].
    apply validate_links_ok. intros l Hin. apply validate_link_ok. auto.
Qed.

(** ** Link lemmas *)

Lemma opposite_involutive s : opposite (opposite s) = s.
Proof. by destruct s. Qed.

Lemma push_edge_edges m k e k' x :
  x ∈ default [] (push_edge k e m !! k') ↔ x ∈ default [] (m !! k') ∨ (k' = k ∧ x = e).
Proof.
  unfold push_edge. rewrite lookup_insert. case_decide; subst; simpl; set_solver.
Qed.

Definition link_edge (l : Link) (k : string) (x : Side * string) : Prop :=
  (lnk_from l = k ∧ x = (lnk_side l, lnk_to l))
  ∨ (lnk_to l = k ∧ x = (opposite (lnk_side l), lnk_from l)).

Lemma add_link_edges m l k x :
  x ∈ default [] (add_link m l !! k) ↔ x ∈ default [] (m !! k) ∨ link_edge l k x.
Proof. unfold add_link, link_edge. rewrite !push_edge_edges. naive_solver. Qed.

Lemma edges_of_spec ls k x : x ∈ edges_of ls k ↔ ∃ l, l ∈ ls ∧ link_edge l k x.
Proof.
  unfold edges_of, links_by_from.
  assert (∀ m, x ∈ default [] (fold_left add_link ls m !! k)
               ↔ x ∈ default [] (m !! k) ∨ ∃ l, l ∈ ls ∧ link_edge l k x) as H.
  { induction ls as [|l ls IH]; intros m; simpl; [set_solver|].
    rewrite IH, add_link_edges. set_solver. }
  rewrite H, lookup_empty. set_solver.
Qed.

Lemma edges_of_group ls k x :
  x ∈ edges_of ls k → (k, edges_of ls k) ∈ bt_iter (links_by_from ls).
Proof.
  unfold edges_of. intros Hx. apply elem_of_bt_iter.
  destruct (links_by_from ls !! k); [done|set_solver].
Qed.

(** The block that [links_section] writes for one [from] screen. *)
Lemma links_section_block c k x :
  x ∈ edges_of (cfg_links c) k →
  ∃ L1 L2, links_section c =
    L1 ++ ((tab +:+ k +:+ ":") :: map edge_line (edges_of (cfg_links c) k)) ++ L2.
Proof.
  intros Hx. pose proof (edges_of_group _ _ _ Hx) as Hg.
  apply list_elem_of_split in Hg as (g1 & g2 & Hg).
  unfold links_section. rewrite decide_False.
  2:{ intros E. rewrite E in Hx. apply edges_of_spec in Hx as (? & ? & _). set_solver. }
  rewrite Hg, flat_map_app. cbn [flat_map fst snd].
  eexists (_ :: flat_map _ g1), (flat_map _ g2 ++ _). by rewrite <-!app_assoc.
Qed.

(** ** Equality lemmas *)

Lemma f32_eqb_refl b : f32_eqb b b = negb (f32_is_nan b).
Proof. unfold f32_eqb. rewrite Z.eqb_refl. by destruct (f32_is_nan b). Qed.

Lemma path_eqb_refl p : path_eqb p p = true.
Proof. by apply bool_decide_eq_true. Qed.

Lemma binaries_eqb_refl b : binaries_eqb b b = true.
Proof. unfold binaries_eqb, opt_path_eqb. destruct (bin_core b); [apply path_eqb_refl|done]. Qed.

Lemma config_eqb_refl c :
  config_eqb c c = negb (f32_is_nan (aud_input_gain (cfg_audio c)))
                   && negb (f32_is_nan (aud_output_gain (cfg_audio c))).
Proof.
  unfold config_eqb, audio_eqb. rewrite !bool_decide_eq_true_2 by done.
  rewrite binaries_eqb_refl, !f32_eqb_refl.
  by destruct (f32_is_nan (aud_input_gain _)), (f32_is_nan (aud_output_gain _)).
Qed.

(** Field by field reading of a successful comparison. *)
Lemma config_eqb_true a b :
  config_eqb a b = true →
  cfg_role a = cfg_role b ∧ cfg_server_name a = cfg_server_name b ∧
  cfg_server_address a = cfg_server_address b ∧ cfg_port a = cfg_port b ∧
  cfg_service_port a = cfg_service_port b ∧
  cfg_screens a = cfg_screens b ∧ cfg_links a = cfg_links b ∧
  cfg_options a = cfg_options b ∧ cfg_clipboard_sharing a = cfg_clipboard_sharing b ∧
  binaries_eqb (cfg_binaries a) (cfg_binaries b) = true.
Proof.
  unfold config_eqb. rewrite !andb_true_iff, !bool_decide_eq_true. naive_solver.
Qed.

(** ** Geometry lemmas *)

Lemma wrap_i32_id z : (i32_MIN ≤ z ≤ i32_MAX)%Z → wrap_i32 z = z.
Proof.
  unfold wrap_i32, i32_MIN, i32_MAX. intros Hz.
  destruct (decide (0 ≤ z)%Z).
  - rewrite Z.mod_small by lia. case_decide; lia.
  - replace (z mod 2 ^ 32)%Z with (z + 2 ^ 32)%Z.
    + case_decide; lia.
    + apply Z.mod_unique with (-1)%Z; lia.
Qed.

Lemma wrap_u32_wrap_i32 z : (0 ≤ z ≤ u32_MAX)%Z → wrap_u32 (wrap_i32 z) = z.
Proof.
  unfold wrap_u32, wrap_i32, u32_MAX. intros Hz.
  rewrite (Z.mod_small z) by lia. case_decide.
  - apply Z.mod_small. lia.
  - symmetry. apply Z.mod_unique with (-1)%Z; lia.
Qed.

(** The running minimum/maximum over a list, in one dimension. *)
Lemma span_fold (p q : MonitorInfo → Z) ms lo0 hi0 :
  let r := fold_left (fun acc m => (Z.min (fst acc) (p m), Z.max (snd acc) (p m + q m)))%Z ms (lo0, hi0) in
  (fst r ≤ lo0)%Z ∧ (hi0 ≤ snd r)%Z
  ∧ (∀ m, m ∈ ms → fst r ≤ p m ∧ p m + q m ≤ snd r)%Z
  ∧ (fst r = lo0 ∨ ∃ m, m ∈ ms ∧ fst r = p m)
  ∧ (snd r = hi0 ∨ ∃ m, m ∈ ms ∧ snd r = (p m + q m)%Z).
Proof.
  revert lo0 hi0; induction ms as [|m ms IH]; intros lo0 hi0; cbn -[Z.min Z.max].
  { repeat split; auto; try lia; set_solver. }
  specialize (IH (Z.min lo0 (p m)) (Z.max hi0 (p m + q m)))%Z. cbn -[Z.min Z.max fold_left] in IH.
  set (r := fold_left _ ms _) in *. destruct IH as (H1 & H2 & H3 & H4 & H5).
  split_and!; try lia.
  - intros m' [->|Hm]%elem_of_cons; [lia|auto].
  - destruct H4 as [H4|(m' & ? & ?)]; [|right; exists m'; set_solver].
    destruct (Z.min_spec lo0 (p m)) as [[? E]|[? E]]; rewrite E in H4; [by left|right; exists m; set_solver].
  - destruct H5 as [H5|(m' & ? & ?)]; [|right; exists m'; set_solver].
    destruct (Z.max_spec hi0 (p m + q m)) as [[? E]|[? E]]; rewrite E in H5; [right; exists m; set_solver|by left].
Qed.

Lemma bbox_fold ms lx ly hx hy :
  Forall monitor_ok ms →
  let rx := fold_left (fun acc m => (Z.min (fst acc) (mon_x m), Z.max (snd acc) (mon_x m + mon_w m)))%Z ms (lx, hx) in
  let ry := fold_left (fun acc m => (Z.min (fst acc) (mon_y m), Z.max (snd acc) (mon_y m + mon_h m)))%Z ms (ly, hy) in
  fold_left bbox_step ms (lx, ly, hx, hy) = (fst rx, fst ry, snd rx, snd ry).
Proof.
  intros Hok; revert lx ly hx hy; induction Hok as [|m ms Hm _ IH]; intros lx ly hx hy; [done|].
  destruct Hm as (?&?&?&?&?&?). cbn -[Z.min Z.max wrap_i32]. unfold i32_MIN, i32_MAX in *.
  rewrite (wrap_i32_id (mon_w m)), (wrap_i32_id (mon_h m)) by (unfold i32_MIN, i32_MAX; lia).
  rewrite !wrap_i32_id by (unfold i32_MIN, i32_MAX; lia). apply IH.
Qed.

Lemma span_fold_tight (p q : MonitorInfo → Z) ms :
  ms ≠ [] →
  (∀ m, m ∈ ms → i32_MIN ≤ p m ≤ i32_MAX ∧ 0 ≤ q m ∧ p m + q m ≤ i32_MAX)%Z →
  let r := fold_left (fun acc m => (Z.min (fst acc) (p m), Z.max (snd acc) (p m + q m)))%Z ms (i32_MAX, i32_MIN) in
  tight_span p q ms (fst r) (snd r) ∧ (0 ≤ snd r - fst r ≤ u32_MAX)%Z.
Proof.
  intros Hne Hok r. pose proof (span_fold p q ms i32_MAX i32_MIN) as H. fold r in H.
  destruct H as (H1 & H2 & H3 & H4 & H5).
  destruct ms as [|m0 ms]; [done|]. assert (m0 ∈ m0 :: ms) as Hin by set_solver.
  pose proof (Hok _ Hin) as B0. pose proof (H3 _ Hin) as C0.
  assert (∃ m, m ∈ m0 :: ms ∧ fst r = p m) as Hlo.
  { destruct H4 as [E|?]; [|done]. exists m0. split; [done|lia]. }
  assert (∃ m, m ∈ m0 :: ms ∧ snd r = (p m + q m)%Z) as Hhi.
  { destruct H5 as [E|?]; [|done]. exists m0. split; [done|lia]. }
  split; [split; [exact H3|done]|].
  destruct Hlo as (ml & Hml & El), Hhi as (mh & Hmh & Eh).
  pose proof (Hok _ Hml). pose proof (Hok _ Hmh). unfold i32_MIN, i32_MAX, u32_MAX in *. lia.
Qed.

(** ** Properties *)

(** [validate] accepts exactly the documents in which the local screen and
    every link endpoint is a declared screen, no link is a self-loop, and a
    client names its server. *)
Theorem validate_characterisation c : validate c = Ok tt ↔ valid_config c.
Proof. apply validate_ok_valid. Qed.

(** every link is written in both directions: whatever the links are, the
    generated [section: links] holds, under the header of its [from] screen, the
    line of the link and, under the header of its [to] screen, the line of the
    reversed link. *)
Theorem generated_links_bidirectional c l :
  l ∈ cfg_links c →
  (∃ L1 es L2, links_section c = L1 ++ ((tab +:+ lnk_from l +:+ ":") :: map edge_line es) ++ L2
     ∧ (lnk_side l, lnk_to l) ∈ es)
  ∧ (∃ L1 es L2, links_section c = L1 ++ ((tab +:+ lnk_to l +:+ ":") :: map edge_line es) ++ L2
     ∧ (opposite (lnk_side l), lnk_from l) ∈ es).
Proof.
  intros Hl.
  assert ((lnk_side l, lnk_to l) ∈ edges_of (cfg_links c) (lnk_from l)) as H1.
  { apply edges_of_spec. exists l. split; [done|]. by left. }
  assert ((opposite (lnk_side l), lnk_from l) ∈ edges_of (cfg_links c) (lnk_to l)) as H2.
  { apply edges_of_spec. exists l. split; [done|]. by right. }
  destruct (links_section_block _ _ _ H1) as (L1 & L2 & E).
  destruct (links_section_block _ _ _ H2) as (L1' & L2' & E').
  split; [exists L1, (edges_of (cfg_links c) (lnk_from l)), L2
         |exists L1', (edges_of (cfg_links c) (lnk_to l)), L2']; done.
Qed.

(** No missed restart: when [core_inputs_differ] answers [false], both
    generated files are byte-identical and the Core binary is the same path, so
    a running Core has nothing to pick up. *)
Theorem core_inputs_same_artefacts a b conf :
  core_inputs_differ a b = false →
  generate_synergy_conf a = generate_synergy_conf b
  ∧ generate_deskflow_settings a conf = generate_deskflow_settings b conf
  ∧ binaries_eqb (cfg_binaries a) (cfg_binaries b) = true.
Proof.
  unfold core_inputs_differ. rewrite negb_false_iff.
  intros (Hr & Hn & Ha & Hp & _ & Hs & Hl & Ho & Hc & Hb)%config_eqb_true. simpl in *.
  assert (remote_address a = remote_address b) as Hra.
  { unfold remote_address. by rewrite Ha, Hp. }
  unfold generate_synergy_conf, screens_section, aliases_section, links_section, options_section,
    generate_deskflow_settings.
  by rewrite Hs, Hl, Ho, Hc, Hr, Hn, Hp, Hra.
Qed.

(** the reported desktop size is the exact bounding box of the monitors
    (tight in both dimensions) whenever no monitor edge leaves the [i32] range. *)
Theorem monitor_bbox_exact s :
  scr_monitors s ≠ [] → Forall monitor_ok (scr_monitors s) →
  ∃ x0 x1 y0 y1, monitor_bbox s = Some (x1 - x0, y1 - y0)%Z
    ∧ tight_span mon_x mon_w (scr_monitors s) x0 x1
    ∧ tight_span mon_y mon_h (scr_monitors s) y0 y1.
Proof.
  intros Hne Hok. unfold monitor_bbox.
  destruct (scr_monitors s) as [|m0 ms0]; [done|]. cbn beta iota.
  rewrite (bbox_fold _ _ _ _ _ Hok). rewrite Forall_forall in Hok.
  destruct (span_fold_tight mon_x mon_w _ Hne) as [Tx Bx].
  { intros m Hm. destruct (Hok _ Hm) as (?&?&?&?&?&?). lia. }
  destruct (span_fold_tight mon_y mon_h _ Hne) as [Ty By].
  { intros m Hm. destruct (Hok _ Hm) as (?&?&?&?&?&?). lia. }
  cbv zeta. rewrite !wrap_u32_wrap_i32 by done. eauto 10.
Qed.

(** ** Witnesses *)

Lemma generated_links_bidirectional_witness :
  let l := {| lnk_from := "alpha"; lnk_side := Right; lnk_to := "beta" |} in
  ∃ L1 es L2, links_section sample_config = L1 ++ ((tab +:+ "alpha:") :: map edge_line es) ++ L2
     ∧ (Right, "beta") ∈ es.
Proof.
  exact (proj1 (generated_links_bidirectional sample_config
    {| lnk_from := "alpha"; lnk_side := Right; lnk_to := "beta" |} ltac:(left))).
Defined.

Lemma core_inputs_same_artefacts_witness :
  generate_synergy_conf (cfg_with_server "h" 1) = generate_synergy_conf (cfg_with_server "h" 1).
Proof.
  exact (proj1 (core_inputs_same_artefacts (cfg_with_server "h" 1) (cfg_with_server "h" 1) "x.conf"
    ltac:(vm_compute; reflexivity))).
Defined.

Lemma monitor_bbox_exact_witness :
  ∃ x0 x1 y0 y1,
    monitor_bbox {| scr_name := "a"; scr_aliases := [];
      scr_position := {| gp_x := 0; gp_y := 0; gp_w := 160; gp_h := 120 |};
      scr_monitors := [ {| mon_x := -1920; mon_y := 0; mon_w := 1920; mon_h := 1080; mon_primary := false |};
                        {| mon_x := 0; mon_y := 0; mon_w := 2560; mon_h := 1440; mon_primary := true |} ] |}
    = Some (x1 - x0, y1 - y0)%Z.
Proof.
  edestruct monitor_bbox_exact as (x0 & x1 & y0 & y1 & H & _);
    [| |exists x0, x1, y0, y1; exact H].
  - discriminate.
  - repeat constructor; vm_compute; discriminate.
Defined.
