(* ===== verification/Versioned.v ===== *)
(** * Versioned configuration ([crates/synbad-sync/src/versioned.rs])

    [Config] plus one Lamport stamp per top-level field.  [merge] is per-field
    last-write-wins over the five shared fields; [apply_local] stamps the fields
    an edit changes.  The file ends with a network of daemons as a step relation
    and its coherence invariant. *)

From Stdlib Require Import ZArith Lia.
From S2P Require Import Prelude Lattice Primitives Config.

(** ** Lamport time *)

Record LamportTime := { lt_counter : Z; lt_origin : string }.

Global Instance LamportTime_eq_dec : EqDecision LamportTime. Proof. solve_decision. Defined.

Definition default_LamportTime : LamportTime := {| lt_counter := 0; lt_origin := "" |}.

(** [Ord::cmp]: counter, then origin. *)
Definition lamport_cmp (a b : LamportTime) : comparison :=
  match Z.compare (lt_counter a) (lt_counter b) with
  | Eq => String.compare (lt_origin a) (lt_origin b)
  | c => c
  end.

(** [a > b]. *)
Definition stamp_gt (a b : LamportTime) : bool :=
  match lamport_cmp a b with Gt => true | _ => false end.

(** ** Stamps *)

Record FieldStamps := {
  st_role : LamportTime; st_server_name : LamportTime; st_server_address : LamportTime;
  st_port : LamportTime; st_service_port : LamportTime; st_screens : LamportTime;
  st_links : LamportTime; st_options : LamportTime; st_clipboard_sharing : LamportTime;
  st_binaries : LamportTime
}.
#[export] Instance FieldStamps_eta : Eta FieldStamps := λ r,
  {| st_role := st_role r; st_server_name := st_server_name r; st_server_address := st_server_address r;
     st_port := st_port r; st_service_port := st_service_port r; st_screens := st_screens r; st_links := st_links r;
     st_options := st_options r; st_clipboard_sharing := st_clipboard_sharing r; st_binaries := st_binaries r |}.

Global Instance FieldStamps_eq_dec : EqDecision FieldStamps. Proof. solve_decision. Defined.

Definition all_stamps (s : LamportTime) : FieldStamps :=
  {| st_role := s; st_server_name := s; st_server_address := s; st_port := s;
     st_service_port := s; st_screens := s; st_links := s; st_options := s;
     st_clipboard_sharing := s; st_binaries := s |}.

Definition stamp_list (s : FieldStamps) : list LamportTime :=
  [st_role s; st_server_name s; st_server_address s; st_port s; st_service_port s;
   st_screens s; st_links s; st_options s; st_clipboard_sharing s; st_binaries s].

(** [into_iter().max().unwrap_or(0)] over unsigned counters. *)
Definition max_counter (s : FieldStamps) : Z :=
  fold_right Z.max 0%Z (map lt_counter (stamp_list s)).

Definition set_st_role (x : LamportTime) (r : FieldStamps) : FieldStamps :=
  Eval cbv [update_field] in r <| st_role := x |>.
Definition set_st_server_name (x : LamportTime) (r : FieldStamps) : FieldStamps :=
  Eval cbv [update_field] in r <| st_server_name := x |>.
Definition set_st_server_address (x : LamportTime) (r : FieldStamps) : FieldStamps :=
  Eval cbv [update_field] in r <| st_server_address := x |>.
Definition set_st_port (x : LamportTime) (r : FieldStamps) : FieldStamps :=
  Eval cbv [update_field] in r <| st_port := x |>.
Definition set_st_service_port (x : LamportTime) (r : FieldStamps) : FieldStamps :=
  Eval cbv [update_field] in r <| st_service_port := x |>.
Definition set_st_screens (x : LamportTime) (r : FieldStamps) : FieldStamps :=
  Eval cbv [update_field] in r <| st_screens := x |>.
Definition set_st_links (x : LamportTime) (r : FieldStamps) : FieldStamps :=
  Eval cbv [update_field] in r <| st_links := x |>.
Definition set_st_options (x : LamportTime) (r : FieldStamps) : FieldStamps :=
  Eval cbv [update_field] in r <| st_options := x |>.
Definition set_st_clipboard_sharing (x : LamportTime) (r : FieldStamps) : FieldStamps :=
  Eval cbv [update_field] in r <| st_clipboard_sharing := x |>.
Definition set_st_binaries (x : LamportTime) (r : FieldStamps) : FieldStamps :=
  Eval cbv [update_field] in r <| st_binaries := x |>.

(** ** The versioned document *)

Inductive MergeOutcome := NoChange | Updated.

Global Instance MergeOutcome_eq_dec : EqDecision MergeOutcome. Proof. solve_decision. Defined.

Record VersionedConfig := {
  vc_config : Config; vc_stamps : FieldStamps; vc_clock : Z
}.

Definition initial (c : Config) (origin : string) : VersionedConfig :=
  {| vc_config := c;
     vc_stamps := all_stamps {| lt_counter := 1; lt_origin := origin |};
     vc_clock := 1 |}.

Definition from_parts (c : Config) (s : FieldStamps) (clock : Z) : VersionedConfig :=
  {| vc_config := c; vc_stamps := s; vc_clock := clock |}.

(** One [if self.config.f != new.f { self.stamps.f = stamp }]. *)
Definition bump (changed : bool) (set : LamportTime → FieldStamps → FieldStamps)
    (stamp : LamportTime) (s : FieldStamps) : FieldStamps :=
  if changed then set stamp s else s.

Definition differ {A} `{EqDecision A} (x y : A) : bool := negb (bool_decide (x = y)).

Definition apply_local (self : VersionedConfig) (new : Config) (origin : string)
    : VersionedConfig * bool :=
  if config_eqb (vc_config self) new then (self, false)
  else
    let old := vc_config self in
    let clock := wrap_u64 (Z.max (vc_clock self) (max_counter (vc_stamps self)) + 1) in
    let stamp := {| lt_counter := clock; lt_origin := origin |} in
    let s := vc_stamps self in
    let s := bump (differ (cfg_role old) (cfg_role new)) set_st_role stamp s in
    let s := bump (differ (cfg_server_name old) (cfg_server_name new)) set_st_server_name stamp s in
    let s := bump (differ (cfg_server_address old) (cfg_server_address new)) set_st_server_address stamp s in
    let s := bump (differ (cfg_port old) (cfg_port new)) set_st_port stamp s in
    let s := bump (differ (cfg_service_port old) (cfg_service_port new)) set_st_service_port stamp s in
    let s := bump (differ (cfg_screens old) (cfg_screens new)) set_st_screens stamp s in
    let s := bump (differ (cfg_links old) (cfg_links new)) set_st_links stamp s in
    let s := bump (differ (cfg_options old) (cfg_options new)) set_st_options stamp s in
    let s := bump (differ (cfg_clipboard_sharing old) (cfg_clipboard_sharing new))
               set_st_clipboard_sharing stamp s in
    let s := bump (negb (binaries_eqb (cfg_binaries old) (cfg_binaries new))) set_st_binaries stamp s in
    ({| vc_config := new; vc_stamps := s; vc_clock := clock |}, true).

(** The accumulator of [merge]: config, stamps, [changed]. *)
Definition merge_acc : Type := Config * FieldStamps * bool.

(** One per-field comparison of [merge]. *)
Definition merge_field {A} (get : FieldStamps → LamportTime)
    (set_stamp : LamportTime → FieldStamps → FieldStamps)
    (value : Config → A) (set_value : A → Config → Config)
    (other : VersionedConfig) (acc : merge_acc) : merge_acc :=
  let '(c, s, changed) := acc in
  if stamp_gt (get (vc_stamps other)) (get s)
  then (set_value (value (vc_config other)) c, set_stamp (get (vc_stamps other)) s, true)
  else acc.

Definition merge (self other : VersionedConfig) : VersionedConfig * MergeOutcome :=
  let clock := Z.max (Z.max (vc_clock self) (vc_clock other)) (max_counter (vc_stamps other)) in
  let acc := (vc_config self, vc_stamps self, false) in
  let acc := merge_field st_port set_st_port cfg_port set_cfg_port other acc in
  let acc := merge_field st_screens set_st_screens cfg_screens set_cfg_screens other acc in
  let acc := merge_field st_links set_st_links cfg_links set_cfg_links other acc in
  let acc := merge_field st_options set_st_options cfg_options set_cfg_options other acc in
  let acc := merge_field st_clipboard_sharing set_st_clipboard_sharing
               cfg_clipboard_sharing set_cfg_clipboard_sharing other acc in
  let '(c, s, changed) := acc in
  ({| vc_config := c; vc_stamps := s; vc_clock := clock |}, if changed then Updated else NoChange).

(** ** Head hash

    [serde_json::to_vec] of the hash input belongs to another package. *)

Record SharedHashInput := {
  shi_port : Z; shi_screens : list Screen; shi_links : list Link;
  shi_options : gmap string string; shi_clipboard_sharing : bool;
  shi_port_stamp : LamportTime; shi_screens_stamp : LamportTime; shi_links_stamp : LamportTime;
  shi_options_stamp : LamportTime; shi_clipboard_sharing_stamp : LamportTime
}.

Class JsonSharedOps := { json_shared : SharedHashInput → option bytes }.

Definition shared_hash_input (v : VersionedConfig) : SharedHashInput :=
  {| shi_port := cfg_port (vc_config v);
     shi_screens := cfg_screens (vc_config v);
     shi_links := cfg_links (vc_config v);
     shi_options := cfg_options (vc_config v);
     shi_clipboard_sharing := cfg_clipboard_sharing (vc_config v);
     shi_port_stamp := st_port (vc_stamps v);
     shi_screens_stamp := st_screens (vc_stamps v);
     shi_links_stamp := st_links (vc_stamps v);
     shi_options_stamp := st_options (vc_stamps v);
     shi_clipboard_sharing_stamp := st_clipboard_sharing (vc_stamps v) |}.

Definition head_hash `{JsonSharedOps, Sha256Ops, HexOps} (v : VersionedConfig) : string :=
  match json_shared (shared_hash_input v) with
  | None => ""
  | Some b => hex_encode (take 8 (sha256 b))
  end.

Record SideCar := { sc_stamps : FieldStamps; sc_clock : Z }.

Definition sidecar_of (v : VersionedConfig) : SideCar :=
  {| sc_stamps := vc_stamps v; sc_clock := vc_clock v |}.

(** ** The shared view: five last-write-wins registers *)

Definition reg (A : Type) : Type := LamportTime * A.

Definition lww {A} (r1 r2 : reg A) : reg A := if stamp_gt (fst r2) (fst r1) then r2 else r1.

(** Two registers agree when an equal stamp carries an equal value. *)
Definition agree {A} (r1 r2 : reg A) : Prop := fst r1 = fst r2 → snd r1 = snd r2.

Record Shared := {
  sh_port : reg Z;
  sh_screens : reg (list Screen);
  sh_links : reg (list Link);
  sh_options : reg (gmap string string);
  sh_clipboard_sharing : reg bool
}.

Definition shared (v : VersionedConfig) : Shared :=
  let c := vc_config v in let s := vc_stamps v in
  {| sh_port := (st_port s, cfg_port c);
     sh_screens := (st_screens s, cfg_screens c);
     sh_links := (st_links s, cfg_links c);
     sh_options := (st_options s, cfg_options c);
     sh_clipboard_sharing := (st_clipboard_sharing s, cfg_clipboard_sharing c) |}.

Definition join_shared (a b : Shared) : Shared :=
  {| sh_port := lww (sh_port a) (sh_port b);
     sh_screens := lww (sh_screens a) (sh_screens b);
     sh_links := lww (sh_links a) (sh_links b);
     sh_options := lww (sh_options a) (sh_options b);
     sh_clipboard_sharing := lww (sh_clipboard_sharing a) (sh_clipboard_sharing b) |}.

Definition coherent (a b : Shared) : Prop :=
  agree (sh_port a) (sh_port b) ∧ agree (sh_screens a) (sh_screens b)
  ∧ agree (sh_links a) (sh_links b) ∧ agree (sh_options a) (sh_options b)
  ∧ agree (sh_clipboard_sharing a) (sh_clipboard_sharing b).

(** The stamps of the shared fields, in declaration order. *)
Definition shared_stamps (a : Shared) : list LamportTime :=
  [fst (sh_port a); fst (sh_screens a); fst (sh_links a); fst (sh_options a);
   fst (sh_clipboard_sharing a)].

(** Fields that describe the local machine and never travel. *)
Definition per_machine (c : Config) :=
  (cfg_role c, cfg_server_name c, cfg_server_address c, cfg_service_port c, cfg_sync_port c,
   cfg_autostart c, cfg_binaries c, cfg_audio c).

(** The clock dominates every stamp the daemon holds. *)
Definition clock_ok (v : VersionedConfig) : Prop := (max_counter (vc_stamps v) ≤ vc_clock v)%Z.

(** ** Lemmas: the stamp order *)

Lemma stamp_gt_spec a b :
  stamp_gt a b = true ↔
  (lt_counter b < lt_counter a)%Z
  ∨ (lt_counter a = lt_counter b ∧ String.compare (lt_origin a) (lt_origin b) = Gt).
Proof.
  unfold stamp_gt, lamport_cmp.
  destruct (Z.compare_spec (lt_counter a) (lt_counter b)) as [E|E|E].
  - destruct (String.compare (lt_origin a) (lt_origin b)); naive_solver lia.
  - split; [done|lia].
  - split; [lia|done].
Qed.

Lemma str_compare_gt_trans s t u :
  String.compare s t = Gt → String.compare t u = Gt → String.compare s u = Gt.
Proof.
  assert (∀ x y, String.compare x y = Gt ↔ String.compare y x = Lt) as Hsym.
  { intros x y. rewrite String.compare_antisym. by destruct (String.compare y x). }
  rewrite !Hsym. eauto using str_compare_lt_trans.
Qed.

Lemma stamp_gt_trans a b c : stamp_gt a b = true → stamp_gt b c = true → stamp_gt a c = true.
Proof.
  rewrite !stamp_gt_spec. intros [?|[? ?]] [?|[? ?]]; try (left; lia).
  right. split; [lia|]. by eapply str_compare_gt_trans.
Qed.

Lemma stamp_gt_irrefl a : stamp_gt a a = false.
Proof. unfold stamp_gt, lamport_cmp. by rewrite Z.compare_refl, str_compare_refl. Qed.

Lemma stamp_gt_total a b : stamp_gt a b = false → stamp_gt b a = false → a = b.
Proof.
  unfold stamp_gt, lamport_cmp. rewrite (Z.compare_antisym (lt_counter a)).
  destruct (Z.compare_spec (lt_counter a) (lt_counter b)) as [E| |]; simpl; try done.
  rewrite (String.compare_antisym (lt_origin b)).
  destruct (String.compare (lt_origin a) (lt_origin b)) eqn:Es; simpl; try done.
  apply String.compare_eq_iff in Es. destruct a, b; simpl in *; congruence.
Qed.

Lemma stamp_gt_asym a b : stamp_gt a b = true → stamp_gt b a = false.
Proof.
  intros H. destruct (stamp_gt b a) eqn:E; [|done].
  pose proof (stamp_gt_trans _ _ _ H E) as Hc. by rewrite stamp_gt_irrefl in Hc.
Qed.

Lemma stamp_ngt_trans a b c : stamp_gt a b = false → stamp_gt b c = false → stamp_gt a c = false.
Proof.
  intros H1 H2. destruct (stamp_gt a c) eqn:E; [|done].
  destruct (stamp_gt b a) eqn:E1.
  - rewrite (stamp_gt_trans b a c) in H2; done.
  - assert (a = b) as -> by by apply stamp_gt_total. congruence.
Qed.

Lemma stamp_gt_counter a b : (lt_counter b < lt_counter a)%Z → stamp_gt a b = true.
Proof. intros. apply stamp_gt_spec. by left. Qed.

#[export] Hint Resolve stamp_gt_asym stamp_gt_counter : synbad.

(** ** Lemmas: registers *)

Lemma lww_idemp {A} (r : reg A) : lww r r = r.
Proof. unfold lww. by rewrite stamp_gt_irrefl. Qed.

Lemma lww_assoc {A} (a b c : reg A) : lww (lww a b) c = lww a (lww b c).
Proof.
  unfold lww. destruct (stamp_gt (fst b) (fst a)) eqn:Eba, (stamp_gt (fst c) (fst b)) eqn:Ecb;
    rewrite ?Eba, ?Ecb; try done.
  - by rewrite (stamp_gt_trans _ _ _ Ecb Eba).
  - by rewrite (stamp_ngt_trans _ _ _ Ecb Eba).
Qed.

Lemma lww_comm {A} (a b : reg A) : agree a b → lww a b = lww b a.
Proof.
  unfold lww, agree. intros H.
  destruct (stamp_gt (fst b) (fst a)) eqn:E1.
  - by rewrite (stamp_gt_asym _ _ E1).
  - destruct (stamp_gt (fst a) (fst b)) eqn:E2; [done|].
    pose proof (stamp_gt_total _ _ E2 E1) as E. destruct a, b; simpl in *. naive_solver.
Qed.

Lemma lww_cases {A} (a b : reg A) : lww a b = a ∨ lww a b = b.
Proof. unfold lww. case_match; auto. Qed.

Lemma agree_sym {A} (a b : reg A) : agree a b → agree b a.
Proof. unfold agree. naive_solver. Qed.

Lemma agree_lww {A} (a b c : reg A) : agree a c → agree b c → agree (lww a b) c.
Proof. destruct (lww_cases a b) as [-> | ->]; done. Qed.

Lemma lww_ngt {A} (a b : reg A) : stamp_gt (fst b) (fst a) = false → lww a b = a.
Proof. unfold lww. by intros ->. Qed.

Lemma lww_gt {A} (a b : reg A) : stamp_gt (fst b) (fst a) = true → lww a b = b.
Proof. unfold lww. by intros ->. Qed.

Global Instance shared_lattice : MergeLattice Shared.
Proof.
  refine {| ml_join := join_shared; ml_compat := coherent |}.
  - intros []. unfold join_shared; simpl. by rewrite !lww_idemp.
  - intros [] [] []. unfold join_shared; simpl. by rewrite !lww_assoc.
  - intros [] [] (?&?&?&?&?). unfold join_shared; simpl in *. f_equal; by apply lww_comm.
  - intros a b (?&?&?&?&?). repeat split; by apply agree_sym.
  - intros a b c (?&?&?&?&?) (?&?&?&?&?). repeat split; by apply agree_lww.
Defined.

(** ** Lemmas: merge refines the join *)

Lemma merge_shared a b : shared (fst (merge a b)) = join_shared (shared a) (shared b).
Proof.
  unfold merge, merge_field, shared, join_shared, lww. simpl.
  by repeat match goal with |- context [if stamp_gt ?x ?y then _ else _] =>
    destruct (stamp_gt x y) eqn:?; simpl end.
Qed.

Lemma merge_per_machine a b : per_machine (vc_config (fst (merge a b))) = per_machine (vc_config a).
Proof.
  unfold merge, merge_field, per_machine. simpl.
  by repeat match goal with |- context [if stamp_gt ?x ?y then _ else _] =>
    destruct (stamp_gt x y) eqn:?; simpl end.
Qed.

Lemma merge_clock a b :
  vc_clock (fst (merge a b))
  = Z.max (Z.max (vc_clock a) (vc_clock b)) (max_counter (vc_stamps b)).
Proof.
  unfold merge, merge_field. simpl.
  by repeat match goal with |- context [if stamp_gt ?x ?y then _ else _] =>
    destruct (stamp_gt x y) eqn:?; simpl end.
Qed.

Definition dominated (a b : Shared) : Prop :=
  Forall2 (fun x y => stamp_gt y x = false) (shared_stamps a) (shared_stamps b).

Lemma merge_outcome a b :
  (snd (merge a b) = NoChange ∧ dominated (shared a) (shared b)
     ∧ vc_config (fst (merge a b)) = vc_config a ∧ vc_stamps (fst (merge a b)) = vc_stamps a)
  ∨ (snd (merge a b) = Updated ∧ ¬ dominated (shared a) (shared b)).
Proof.
  unfold dominated, merge, merge_field, shared, shared_stamps. simpl.
  repeat match goal with |- context [if stamp_gt ?x ?y then _ else _] =>
    destruct (stamp_gt x y) eqn:?; simpl end;
  first [left; by repeat constructor | right; split; [done|]; intros HF;
    repeat match goal with H : Forall2 _ (_ :: _) (_ :: _) |- _ => inversion H; clear H; subst end; congruence].
Qed.

(** Whatever carries the stamps of a merge has nothing more to learn from it. *)
Lemma merge_twice_nochange a b v :
  vc_stamps v = vc_stamps (fst (merge a b)) → snd (merge v b) = NoChange.
Proof.
  intros Hs. destruct (merge_outcome v b) as [(?&?&?)|(_&Hn)]; [done|]. destruct Hn. unfold dominated.
  assert (shared_stamps (shared v) = shared_stamps (shared (fst (merge a b)))) as ->
    by (unfold shared_stamps, shared; simpl; by rewrite Hs).
  rewrite merge_shared. unfold shared_stamps, join_shared; simpl.
  repeat constructor; unfold lww; simpl; case_match; simpl; auto using stamp_gt_irrefl.
Qed.

(** Absorbing a list of states one after another. *)
Definition merge_all (v : VersionedConfig) (l : list VersionedConfig) : VersionedConfig :=
  fold_left (fun a b => fst (merge a b)) l v.

Lemma merge_all_shared v l : shared (merge_all v l) = absorb (shared v) (map shared l).
Proof.
  revert v; induction l as [|w l IH]; intros v; [done|].
  unfold merge_all, absorb in *. simpl. by rewrite IH, merge_shared.
Qed.

Lemma shared_hash_shared a b : shared a = shared b → shared_hash_input a = shared_hash_input b.
Proof. unfold shared, shared_hash_input. intros H. injection H. intros. by f_equal. Qed.

(** ** Lemmas: counters *)

Lemma max_counter_ge s t : t ∈ stamp_list s → (lt_counter t ≤ max_counter s)%Z.
Proof.
  unfold max_counter. induction (stamp_list s) as [|x l IH]; intros Hin; [set_solver|].
  simpl. apply elem_of_cons in Hin as [->|Hin]; [lia|]. specialize (IH Hin). lia.
Qed.

Lemma max_counter_le s n :
  (0 ≤ n)%Z → (∀ t, t ∈ stamp_list s → lt_counter t ≤ n)%Z → (max_counter s ≤ n)%Z.
Proof.
  unfold max_counter. intros Hn. induction (stamp_list s) as [|x l IH]; intros Hb; simpl; [lia|].
  apply Z.max_lub; [apply Hb; set_solver|]. apply IH. set_solver.
Qed.

Lemma max_counter_nonneg s : (0 ≤ max_counter s)%Z.
Proof. unfold max_counter. induction (map lt_counter (stamp_list s)); simpl; lia. Qed.

Lemma shared_stamps_mem v t : t ∈ shared_stamps (shared v) → t ∈ stamp_list (vc_stamps v).
Proof. unfold shared_stamps, shared, stamp_list. simpl. set_solver. Qed.

(** A predicate on all stamps survives one comparison of [merge]. *)
Lemma merge_field_Forall {A} (P : LamportTime → Prop) get set_stamp (value : Config → A) set_value
    other acc :
  (∀ s, Forall P (stamp_list s) → P (get s)) →
  (∀ t s, P t → Forall P (stamp_list s) → Forall P (stamp_list (set_stamp t s))) →
  Forall P (stamp_list (vc_stamps other)) → Forall P (stamp_list (snd (fst acc))) →
  Forall P (stamp_list (snd (fst (merge_field get set_stamp value set_value other acc)))).
Proof. destruct acc as [[c s] ch]. unfold merge_field. intros Hg Hs Ho Hacc. case_match; simpl; auto. Qed.

Lemma merge_Forall (P : LamportTime → Prop) a b :
  Forall P (stamp_list (vc_stamps a)) → Forall P (stamp_list (vc_stamps b)) →
  Forall P (stamp_list (vc_stamps (fst (merge a b)))).
Proof.
  intros Ha Hb. unfold merge.
  match goal with |- context [let '(_, _) := ?acc in _] =>
    assert (Forall P (stamp_list (snd (fst acc)))) as H end.
  { repeat (apply merge_field_Forall; [| |exact Hb|]); try exact Ha;
      unfold stamp_list; intros; rewrite ?Forall_cons in *; destruct_and?; split_and?; done. }
  destruct (merge_field st_clipboard_sharing _ _ _ _ _) as [[? ?] ?]. exact H.
Qed.

Lemma merge_stamps_mem a b t :
  t ∈ stamp_list (vc_stamps (fst (merge a b))) →
  t ∈ stamp_list (vc_stamps a) ∨ t ∈ stamp_list (vc_stamps b).
Proof.
  revert t. apply Forall_forall. apply merge_Forall; apply Forall_forall; auto.
Qed.

Lemma merge_clock_ok a b : clock_ok a → clock_ok (fst (merge a b)).
Proof.
  unfold clock_ok. rewrite merge_clock. intros Ha.
  pose proof (max_counter_nonneg (vc_stamps b)).
  apply max_counter_le; [lia|]. intros t [Ht|Ht]%merge_stamps_mem;
    apply max_counter_ge in Ht; lia.
Qed.

(** ** Lemmas: local edits *)

Definition next_clock (v : VersionedConfig) : Z :=
  wrap_u64 (Z.max (vc_clock v) (max_counter (vc_stamps v)) + 1).

Lemma next_clock_fresh v :
  (0 ≤ vc_clock v)%Z → (Z.max (vc_clock v) (max_counter (vc_stamps v)) < u64_MAX)%Z →
  next_clock v = (Z.max (vc_clock v) (max_counter (vc_stamps v)) + 1)%Z.
Proof. unfold next_clock, wrap_u64, u64_MAX. intros. apply Z.mod_small. lia. Qed.

Lemma apply_local_false v c o : snd (apply_local v c o) = false → fst (apply_local v c o) = v.
Proof. unfold apply_local. by destruct (config_eqb (vc_config v) c). Qed.

Lemma apply_local_config v c o :
  config_eqb (vc_config v) c = false → vc_config (fst (apply_local v c o)) = c.
Proof. unfold apply_local. by intros ->. Qed.

Lemma apply_local_clock v c o :
  config_eqb (vc_config v) c = false → vc_clock (fst (apply_local v c o)) = next_clock v.
Proof. unfold apply_local. by intros ->. Qed.

(** A register after a local edit: fresh stamp if the value changed, untouched
    otherwise. *)
Definition edit_reg {A} `{EqDecision A} (stamp : LamportTime) (new : A) (r : reg A) : reg A :=
  if differ (snd r) new then (stamp, new) else r.

Definition edit_shared (stamp : LamportTime) (c : Config) (a : Shared) : Shared :=
  {| sh_port := edit_reg stamp (cfg_port c) (sh_port a);
     sh_screens := edit_reg stamp (cfg_screens c) (sh_screens a);
     sh_links := edit_reg stamp (cfg_links c) (sh_links a);
     sh_options := edit_reg stamp (cfg_options c) (sh_options a);
     sh_clipboard_sharing := edit_reg stamp (cfg_clipboard_sharing c) (sh_clipboard_sharing a) |}.

Lemma edit_reg_differ {A} `{EqDecision A} t (x y : A) s :
  (if differ x y then t else s, y) = edit_reg t y (s, x).
Proof.
  unfold edit_reg, differ. simpl. destruct (bool_decide (x = y)) eqn:E; [|done].
  apply bool_decide_eq_true in E as ->. done.
Qed.

Lemma bump_other (get : FieldStamps → LamportTime) set b t s :
  (∀ t s, get (set t s) = get s) → get (bump b set t s) = get s.
Proof. by destruct b. Qed.

Lemma bump_same (get : FieldStamps → LamportTime) set b t s :
  (∀ t s, get (set t s) = t) → get (bump b set t s) = if b then t else get s.
Proof. by destruct b. Qed.

Ltac bump_simpl :=
  repeat first [rewrite bump_other by reflexivity | rewrite bump_same by reflexivity].

Lemma apply_local_shared v c o :
  config_eqb (vc_config v) c = false →
  shared (fst (apply_local v c o))
  = edit_shared {| lt_counter := next_clock v; lt_origin := o |} c (shared v).
Proof.
  intros Hne. unfold apply_local. rewrite Hne. unfold shared, edit_shared. cbn [vc_config vc_stamps fst].
  fold (next_clock v). bump_simpl. f_equal; apply edit_reg_differ.
Qed.

Lemma apply_local_stamps_mem v c o t :
  t ∈ stamp_list (vc_stamps (fst (apply_local v c o))) →
  t ∈ stamp_list (vc_stamps v) ∨ t = {| lt_counter := next_clock v; lt_origin := o |}.
Proof.
  unfold apply_local. case_match; [by left|]. cbn [vc_stamps fst]. fold (next_clock v).
  set (t0 := {| lt_counter := _ |}).
  unfold stamp_list. bump_simpl. rewrite !elem_of_cons.
  intros Ht. destruct_or! Ht; try (by apply elem_of_nil in Ht);
    match type of Ht with _ = (if ?b then _ else _) => destruct b end; subst; tauto.
Qed.

Lemma apply_local_clock_ok v c o :
  clock_ok v → (0 ≤ vc_clock v < u64_MAX)%Z → clock_ok (fst (apply_local v c o)).
Proof.
  unfold clock_ok. intros Hv Hc. destruct (config_eqb (vc_config v) c) eqn:E.
  { unfold apply_local. by rewrite E. }
  rewrite apply_local_clock by done.
  rewrite next_clock_fresh by lia.
  apply max_counter_le; [lia|]. intros t [Ht| ->]%apply_local_stamps_mem.
  - apply max_counter_ge in Ht. lia.
  - simpl. rewrite next_clock_fresh by lia. lia.
Qed.

(** ** A network of daemons

    Nodes are keyed by [machine_id].  A snapshot, once sent, may be delivered
    any number of times, in any order, to any node. *)

Record Net := { net_nodes : gmap string VersionedConfig; net_msgs : list VersionedConfig }.

Definition net_empty : Net := {| net_nodes := ∅; net_msgs := [] |}.

Definition put_node (id : string) (v : VersionedConfig) (n : Net) : Net :=
  {| net_nodes := <[id := v]> (net_nodes n); net_msgs := net_msgs n |}.

Inductive net_step : Net → Net → Prop :=
| NetJoin n id c :
    net_nodes n !! id = None → net_step n (put_node id (initial c id) n)
| NetEdit n id v c :
    net_nodes n !! id = Some v → (vc_clock v < u64_MAX)%Z →
    net_step n (put_node id (fst (apply_local v c id)) n)
| NetSend n id v :
    net_nodes n !! id = Some v →
    net_step n {| net_nodes := net_nodes n; net_msgs := v :: net_msgs n |}
| NetRecv n id v m :
    net_nodes n !! id = Some v → m ∈ net_msgs n →
    net_step n (put_node id (fst (merge v m)) n).

(** Every state the network holds, at a node or in flight. *)
Definition net_state (n : Net) (v : VersionedConfig) : Prop :=
  (∃ id, net_nodes n !! id = Some v) ∨ v ∈ net_msgs n.

Record net_inv (n : Net) : Prop := {
  inv_coherent : ∀ a b, net_state n a → net_state n b → coherent (shared a) (shared b);
  inv_origin : ∀ a t, net_state n a → t ∈ stamp_list (vc_stamps a) →
    ∃ v, net_nodes n !! lt_origin t = Some v ∧ (lt_counter t ≤ vc_clock v)%Z;
  inv_clock : ∀ id v, net_nodes n !! id = Some v → clock_ok v ∧ (0 ≤ vc_clock v)%Z
}.

Lemma coherent_refl a : coherent a a.
Proof. repeat split; done. Qed.

Lemma coherent_sym a b : coherent a b → coherent b a.
Proof. exact (@ml_compat_sym Shared shared_lattice a b). Qed.

Lemma coherent_fresh a b :
  (∀ s t, s ∈ shared_stamps a → t ∈ shared_stamps b → s ≠ t) → coherent a b.
Proof.
  unfold shared_stamps. intros H.
  repeat split; intros E; exfalso; eapply H; eauto; rewrite !elem_of_cons; tauto.
Qed.

Lemma edit_agree {A} `{EqDecision A} t (x : A) (r r' : reg A) :
  t ≠ fst r' → agree r r' → agree (edit_reg t x r) r'.
Proof. unfold edit_reg, agree. intros Hn Ha. destruct (differ (snd r) x); simpl; [congruence|done]. Qed.

Lemma edit_coherent t c a b :
  t ∉ shared_stamps b → coherent a b → coherent (edit_shared t c a) b.
Proof.
  unfold shared_stamps. rewrite !not_elem_of_cons. intros Hn (?&?&?&?&?). destruct_and! Hn.
  repeat split; by apply edit_agree.
Qed.

(** Coherence of a network after one node's state is replaced. *)
Lemma net_put_state n id w a :
  net_state (put_node id w n) a → a = w ∨ net_state n a.
Proof.
  unfold net_state, put_node. simpl. intros [[i Hi]|Hm]; [|by auto].
  rewrite lookup_insert in Hi. case_decide; [naive_solver|]. eauto.
Qed.

Lemma net_inv_put n id w :
  net_inv n →
  (∀ b, net_state n b → coherent (shared w) (shared b)) →
  (∀ t, t ∈ stamp_list (vc_stamps w) →
     (lt_origin t = id ∧ lt_counter t ≤ vc_clock w)%Z
     ∨ ∃ a, net_state n a ∧ t ∈ stamp_list (vc_stamps a)) →
  (∀ v, net_nodes n !! id = Some v → vc_clock v ≤ vc_clock w)%Z →
  clock_ok w → (0 ≤ vc_clock w)%Z →
  net_inv (put_node id w n).
Proof.
  intros Hinv Hco Hor Hmono Hck Hpos.
  assert (∀ t a, net_state n a → t ∈ stamp_list (vc_stamps a) →
            ∃ v, net_nodes (put_node id w n) !! lt_origin t = Some v ∧ (lt_counter t ≤ vc_clock v)%Z) as Hold.
  { intros t a Ha Ht. destruct (inv_origin _ Hinv a t Ha Ht) as (v & Hv & Hle).
    unfold put_node; simpl. rewrite lookup_insert. case_decide as E; [|eauto].
    subst. exists w. split; [done|]. specialize (Hmono _ Hv). lia. }
  split.
  - intros a b [->|Ha]%net_put_state [->|Hb]%net_put_state;
      [apply coherent_refl|by apply Hco|by apply coherent_sym, Hco|by apply (inv_coherent _ Hinv)].
  - intros a t [->|Ha]%net_put_state Ht; [|eauto].
    destruct (Hor _ Ht) as [[<- Hle]|(b & Hb & Htb)]; [|eauto].
    exists w. unfold put_node; simpl. by rewrite lookup_insert_eq.
  - unfold put_node; simpl. intros i v. rewrite lookup_insert. case_decide; [naive_solver|].
    apply (inv_clock _ Hinv).
Qed.

Lemma all_stamps_mem t s : t ∈ stamp_list (all_stamps s) → t = s.
Proof. unfold stamp_list, all_stamps. simpl. set_solver. Qed.

Lemma net_inv_join n id c :
  net_inv n → net_nodes n !! id = None → net_inv (put_node id (initial c id) n).
Proof.
  intros Hinv Hid. apply net_inv_put; try done.
  - intros b Hb. apply coherent_fresh. intros s t Hs%shared_stamps_mem%all_stamps_mem Ht%shared_stamps_mem ->.
    destruct (inv_origin _ Hinv _ _ Hb Ht) as (v & Hv & _). subst. simpl in Hv. congruence.
  - intros t ->%all_stamps_mem. left. split; [done|]. simpl. lia.
  - intros v. rewrite Hid. done.
Qed.

Lemma net_inv_edit n id v c :
  net_inv n → net_nodes n !! id = Some v → (vc_clock v < u64_MAX)%Z →
  net_inv (put_node id (fst (apply_local v c id)) n).
Proof.
  intros Hinv Hv Hlt. destruct (inv_clock _ Hinv _ _ Hv) as [Hck Hpos].
  assert (net_state n v) as Hst by (left; eauto).
  destruct (config_eqb (vc_config v) c) eqn:E.
  { assert (fst (apply_local v c id) = v) as -> by (unfold apply_local; by rewrite E).
    apply net_inv_put; try done; [intros; by apply (inv_coherent _ Hinv)|eauto|].
    rewrite Hv. naive_solver lia. }
  assert (next_clock v = vc_clock v + 1)%Z as Hnext.
  { unfold clock_ok in Hck. rewrite next_clock_fresh; lia. }
  apply net_inv_put; try done.
  - intros b Hb. rewrite apply_local_shared by done. apply edit_coherent; [|by apply (inv_coherent _ Hinv)].
    intros Ht%shared_stamps_mem. destruct (inv_origin _ Hinv _ _ Hb Ht) as (v' & Hv' & Hle).
    simpl in *. assert (v' = v) by congruence. subst. lia.
  - intros t [Ht| ->]%apply_local_stamps_mem; [eauto|]. left. rewrite apply_local_clock by done. split; [done|]. simpl. lia.
  - intros v' Hv'. assert (v' = v) by congruence. subst. rewrite apply_local_clock by done. lia.
  - apply apply_local_clock_ok; done.
  - rewrite apply_local_clock by done. lia.
Qed.

Lemma net_inv_recv n id v m :
  net_inv n → net_nodes n !! id = Some v → m ∈ net_msgs n →
  net_inv (put_node id (fst (merge v m)) n).
Proof.
  intros Hinv Hv Hm. destruct (inv_clock _ Hinv _ _ Hv) as [Hck Hpos].
  assert (net_state n v) as Hst by (left; eauto). assert (net_state n m) as Hsm by by right.
  apply net_inv_put; try done.
  - intros b Hb. rewrite merge_shared. apply (@ml_compat_join Shared shared_lattice); by apply (inv_coherent _ Hinv).
  - intros t [Ht|Ht]%merge_stamps_mem; right; eauto.
  - intros v' Hv'. assert (v' = v) by congruence. subst. rewrite merge_clock. lia.
  - by apply merge_clock_ok.
  - rewrite merge_clock. lia.
Qed.

Lemma net_inv_step n n' : net_inv n → net_step n n' → net_inv n'.
Proof.
  intros Hinv Hstep. inversion Hstep as [? id c Hid|? id v c Hv Hlt|? id v Hv|? id v m Hv Hm]; subst.
  - by apply net_inv_join.
  - by apply net_inv_edit.
  - assert (∀ a, net_state {| net_nodes := net_nodes n; net_msgs := v :: net_msgs n |} a → net_state n a) as Hs.
    { unfold net_state. simpl. intros a [?|[->|?]%elem_of_cons]; eauto. }
    split; [|intros a t Ha; apply (inv_origin _ Hinv _ _ (Hs _ Ha))|apply (inv_clock _ Hinv)].
    intros a b Ha Hb. apply (inv_coherent _ Hinv); auto.
  - by apply net_inv_recv.
Qed.

Lemma net_inv_reachable n : rtc net_step net_empty n → net_inv n.
Proof.
  intros Hr. refine (rtc_ind_r (λ n, net_inv n) net_empty _ _ n Hr).
  - split; unfold net_state; simpl; [set_solver| |]; intros *; rewrite ?lookup_empty; set_solver.
  - intros x y _ Hstep Hinv. by eapply net_inv_step.
Qed.

(** ** Lemmas: an edit after a merge *)

Lemma edit_wins {A} `{EqDecision A} t (x : A) (rv rm : reg A) :
  agree rv rm → stamp_gt t (fst rm) = true →
  lww rm (edit_reg t x (lww rv rm)) = edit_reg t x (lww rv rm).
Proof.
  intros Ha Hgt. unfold edit_reg. destruct (differ _ _).
  - by apply lww_gt.
  - rewrite <-lww_assoc, (lww_comm rm rv) by by apply agree_sym.
    by rewrite lww_assoc, lww_idemp.
Qed.

Lemma fresh_stamp_gt v o s :
  (0 ≤ vc_clock v)%Z → (Z.max (vc_clock v) (max_counter (vc_stamps v)) < u64_MAX)%Z →
  (lt_counter s ≤ vc_clock v)%Z →
  stamp_gt {| lt_counter := next_clock v; lt_origin := o |} s = true.
Proof. intros. apply stamp_gt_counter. simpl. rewrite next_clock_fresh by done. lia. Qed.

(** ** Properties *)

(** C1: in every reachable network of daemons (joins, local edits, snapshots
    delivered late, twice or out of order) a stamp identifies one value: any two
    states, at nodes or in flight, that carry the same stamp for a shared field
    carry the same value. *)
Theorem reachable_coherence n a b :
  rtc net_step net_empty n → net_state n a → net_state n b → coherent (shared a) (shared b).
Proof. intros Hr. apply inv_coherent. by apply net_inv_reachable. Qed.

(** C2: strong eventual consistency: two replicas of a reachable network that
    have absorbed the same set of states, in any order and with any repetition,
    hold the same shared configuration and stamps and advertise the same head. *)
Theorem replicas_converge `{JsonSharedOps, Sha256Ops, HexOps} n x l y k :
  rtc net_step net_empty n →
  (∀ v, v ∈ x :: l → net_state n v) →
  (∀ v, v ∈ x :: l ↔ v ∈ y :: k) →
  shared (merge_all x l) = shared (merge_all y k)
  ∧ head_hash (merge_all x l) = head_hash (merge_all y k).
Proof.
  intros Hr Hst Heq. apply net_inv_reachable in Hr.
  assert (shared (merge_all x l) = shared (merge_all y k)) as E.
  { rewrite !merge_all_shared. apply absorb_same_set.
    - intros a b. rewrite <-!(fmap_cons shared).
      intros (va & -> & Ha)%list_elem_of_fmap (vb & -> & Hb)%list_elem_of_fmap.
      apply (inv_coherent _ Hr); auto.
    - intros z. rewrite <-!(fmap_cons shared), !list_elem_of_fmap. naive_solver. }
  split; [done|]. unfold head_hash. by rewrite (shared_hash_shared _ _ E).
Qed.

(** C13: [merge] implements the five-register join and nothing else: the shared
    view becomes the join of the two views, every per-machine field (role, names,
    addresses, daemon ports, autostart, binary path, audio) is left alone, and the
    clock passes everything observed. *)
Theorem merge_refines_join a b :
  shared (fst (merge a b)) = join_shared (shared a) (shared b)
  ∧ per_machine (vc_config (fst (merge a b))) = per_machine (vc_config a)
  ∧ (vc_clock a ≤ vc_clock (fst (merge a b)))%Z
  ∧ (max_counter (vc_stamps b) ≤ vc_clock (fst (merge a b)))%Z.
Proof.
  split_and!; [apply merge_shared|apply merge_per_machine| |]; rewrite merge_clock; lia.
Qed.

(** the outcome is exact: [NoChange] is returned precisely when every shared
    stamp of the peer is dominated, and then config and stamps are untouched; in
    particular merging the same state twice reports [NoChange], so gossip stops. *)
Theorem merge_outcome_exact a b :
  (snd (merge a b) = NoChange ↔ dominated (shared a) (shared b))
  ∧ (snd (merge a b) = NoChange →
       vc_config (fst (merge a b)) = vc_config a ∧ vc_stamps (fst (merge a b)) = vc_stamps a)
  ∧ snd (merge (fst (merge a b)) b) = NoChange.
Proof.
  split_and!.
  - destruct (merge_outcome a b) as [(?&?&?)|(E&?)]; [naive_solver|rewrite E; naive_solver].
  - destruct (merge_outcome a b) as [(?&?&?)|(E&?)]; [naive_solver|rewrite E; naive_solver].
  - by eapply merge_twice_nochange.
Qed.

(** an edit made after seeing a peer is adopted by that peer in full: if
    [v] merges [m] and then edits locally to [c'], the peer still holding [m]
    takes over exactly the editor's shared view when it merges the result. *)
Theorem edit_after_merge_adopted v m c' o :
  coherent (shared v) (shared m) →
  let v1 := fst (merge v m) in
  let v2 := fst (apply_local v1 c' o) in
  (0 ≤ vc_clock v)%Z → clock_ok v → (vc_clock v1 < u64_MAX)%Z →
  config_eqb (vc_config v1) c' = false →
  shared (fst (merge m v2)) = shared v2
  ∧ vc_config v2 = c'.
Proof.
  intros Hco v1 v2 Hpos Hck Hlt Hne. split; [|by apply apply_local_config].
  assert (clock_ok v1) as Hck1 by by apply merge_clock_ok.
  assert (vc_clock v1 = Z.max (Z.max (vc_clock v) (vc_clock m)) (max_counter (vc_stamps m))) as Hcl
    by apply merge_clock.
  rewrite merge_shared. subst v2. rewrite apply_local_shared by done.
  subst v1. rewrite merge_shared. set (v1 := fst (merge v m)) in *.
  destruct Hco as (?&?&?&?&?). unfold join_shared, edit_shared; simpl.
  unfold clock_ok in Hck1.
  f_equal; apply edit_wins; try done; apply fresh_stamp_gt; try lia; rewrite Hcl;
    match goal with |- (lt_counter ?s ≤ _)%Z =>
      pose proof (max_counter_ge (vc_stamps m) s (shared_stamps_mem m s ltac:(unfold shared_stamps; simpl; set_solver))) end;
    simpl in *; lia.
Qed.

(** Counter overflow: once the clock has been driven to [u64::MAX] (one
    signed frame from a paired peer is enough) the next edit wraps to counter 0,
    and every peer that already holds a stamp for the edited field ignores it. *)
Theorem edit_lost_after_clock_overflow v c' o peer :
  vc_clock v = u64_MAX → clock_ok v → config_eqb (vc_config v) c' = false →
  cfg_port (vc_config v) ≠ cfg_port c' →
  (0 < lt_counter (st_port (vc_stamps peer)))%Z →
  cfg_port (vc_config (fst (merge peer (fst (apply_local v c' o))))) = cfg_port (vc_config peer).
Proof.
  intros Hmax Hck Hne Hport Hpeer. unfold clock_ok in Hck.
  assert (next_clock v = 0)%Z as Hz.
  { unfold next_clock. rewrite Z.max_l by lia. rewrite Hmax. done. }
  change (snd (sh_port (shared (fst (merge peer (fst (apply_local v c' o)))))) = snd (sh_port (shared peer))).
  rewrite merge_shared. cbn [sh_port join_shared]. rewrite lww_ngt; [done|].
  rewrite apply_local_shared by done. cbn [sh_port edit_shared]. unfold edit_reg, differ.
  rewrite bool_decide_eq_false_2 by done. cbn [negb fst].
  apply stamp_gt_asym, stamp_gt_counter. cbn. lia.
Qed.

(** the Lamport clock dominates every stamp the daemon holds, initially and
    after every local edit (short of overflow) and every merge. *)
Theorem clock_dominates_stamps :
  (∀ c o, clock_ok (initial c o))
  ∧ (∀ v c o, clock_ok v → (0 ≤ vc_clock v < u64_MAX)%Z → clock_ok (fst (apply_local v c o)))
  ∧ (∀ a b, clock_ok a → clock_ok (fst (merge a b))).
Proof. split_and!; [done|apply apply_local_clock_ok|apply merge_clock_ok]. Qed.

(** ** Witnesses *)

Definition toy_json_shared : JsonSharedOps :=
  {| json_shared := fun i => Some (be_bytes 8 (shi_port i)) |}.

Definition wit_a : VersionedConfig := initial sample_config "a".
Definition wit_b : VersionedConfig := initial default_Config "b".
Definition wit_net : Net :=
  {| net_nodes := <["b" := wit_b]> {["a" := wit_a]}; net_msgs := [wit_b] |}.

Lemma wit_net_reachable : rtc net_step net_empty wit_net.
Proof.
  eapply rtc_l; [apply (NetJoin _ "a" sample_config); done|].
  eapply rtc_l; [apply (NetJoin _ "b" default_Config); done|].
  eapply rtc_l; [eapply (NetSend _ "b" wit_b); done|]. apply rtc_refl.
Qed.

Lemma wit_net_states v : v ∈ [wit_a; wit_b] → net_state wit_net v.
Proof.
  rewrite !elem_of_cons. intros [->|[->|[]%elem_of_nil]]; left; [by exists "a"|by exists "b"].
Qed.

Lemma reachable_coherence_witness : coherent (shared wit_a) (shared wit_b).
Proof.
  apply (reachable_coherence wit_net wit_a wit_b wit_net_reachable);
    apply wit_net_states; set_solver.
Defined.

Lemma replicas_converge_witness :
  shared (merge_all wit_a [wit_b]) = shared (merge_all wit_b [wit_a; wit_b]).
Proof.
  apply (@replicas_converge toy_json_shared toy_sha toy_hex wit_net wit_a [wit_b] wit_b [wit_a; wit_b] wit_net_reachable).
  - intros v. apply wit_net_states.
  - set_solver.
Defined.

Lemma edit_after_merge_adopted_witness :
  shared (fst (merge wit_b (fst (apply_local (fst (merge wit_a wit_b)) default_Config "a"))))
  = shared (fst (apply_local (fst (merge wit_a wit_b)) default_Config "a")).
Proof.
  eapply (edit_after_merge_adopted wit_a wit_b default_Config "a");
    try (vm_compute; reflexivity); try (vm_compute; discriminate).
  repeat split; discriminate.
Defined.

Lemma edit_lost_after_clock_overflow_witness :
  cfg_port (vc_config (fst (merge wit_b
    (fst (apply_local (from_parts sample_config (vc_stamps wit_a) u64_MAX)
                      (cfg_with_server "h" 7) "a"))))) = 24800%Z.
Proof.
  apply (edit_lost_after_clock_overflow (from_parts sample_config (vc_stamps wit_a) u64_MAX)
           (cfg_with_server "h" 7) "a" wit_b);
    try (vm_compute; reflexivity); vm_compute; discriminate.
Defined.
