(* ===== verification/SyncProtocol.v ===== *)
(** * Signed sync frames ([crates/synbad-sync/src/protocol.rs])

    The length-prefixed signing string, [sign_frame] and [verify_frame].  JSON,
    hex and ed25519 come from other packages and are interfaces. *)

From Stdlib Require Import ZArith Lia.
From S2P Require Import Prelude Primitives Config Versioned.

Definition SIGN_DOMAIN : bytes := bytes_of "synbad-sync-v1".

(** [serde_json::to_vec] on a [VersionedConfig]. *)
Class JsonStateOps := { json_state : VersionedConfig → option bytes }.

Inductive ProtocolError :=
| NonceEchoMismatch   (* [Malformed("nonce echo mismatch")] *)
| BadSignature
| BadPublicKey
| HexError
| JsonError.

Record SyncFrame := {
  fr_from_machine_id : string;
  fr_nonce_hex : string;
  fr_state : VersionedConfig;
  fr_sig_hex : string
}.

Definition canonical_state_bytes `{JsonStateOps} (from_machine_id : string) (nonce : bytes)
    (state : VersionedConfig) : result ProtocolError bytes :=
  let? state_bytes := ok_or JsonError (json_state state) in
  Ok (push_field (push_field (push_field (push_field [] SIGN_DOMAIN)
        (bytes_of from_machine_id)) nonce) state_bytes).

Definition sign_frame `{JsonStateOps, Ed25519Ops, HexOps} (key : SigningKey) (from_machine_id : string)
    (nonce : bytes) (state : VersionedConfig) : result ProtocolError SyncFrame :=
  let? signed_bytes := canonical_state_bytes from_machine_id nonce state in
  let sig := sign key signed_bytes in
  Ok {| fr_from_machine_id := from_machine_id; fr_nonce_hex := hex_encode nonce;
        fr_state := state; fr_sig_hex := hex_encode sig |}.

Definition verify_frame `{JsonStateOps, Ed25519Ops, HexOps} (peer_pubkey_hex : string)
    (expected_nonce_hex : option string) (frame : SyncFrame) : result ProtocolError unit :=
  let? _ := match expected_nonce_hex with
            | Some expected => if decide (expected = fr_nonce_hex frame) then Ok tt
                               else Err NonceEchoMismatch
            | None => Ok tt
            end in
  let? nonce := ok_or HexError (hex_decode (fr_nonce_hex frame)) in
  let? signed_bytes := canonical_state_bytes (fr_from_machine_id frame) nonce (fr_state frame) in
  let? pk_bytes := ok_or BadPublicKey (hex_decode peer_pubkey_hex) in
  let? pk := ok_or BadPublicKey (to_array 32 pk_bytes) in
  let? _ := if vk_valid pk then Ok tt else Err BadPublicKey in
  let? sig_bytes := ok_or BadSignature (hex_decode (fr_sig_hex frame)) in
  let? sig := ok_or BadSignature (to_array 64 sig_bytes) in
  if ed_verify pk signed_bytes sig then Ok tt else Err BadSignature.

Definition signed_fields (mid : string) (nonce js : bytes) : list bytes :=
  [SIGN_DOMAIN; bytes_of mid; nonce; js].

Lemma canonical_state_bytes_fields `{JsonStateOps} mid nonce st b :
  canonical_state_bytes mid nonce st = Ok b ↔
  ∃ js, json_state st = Some js ∧ b = enc_fields (signed_fields mid nonce js).
Proof.
  unfold canonical_state_bytes, enc_fields, signed_fields.
  destruct (json_state st) as [js|]; cbn [ok_or rbind]; [|naive_solver].
  cbn [map concat]. setoid_rewrite push_field_enc. rewrite !push_field_enc, app_nil_l, <-!app_assoc.
  setoid_rewrite app_nil_r. naive_solver.
Qed.

Lemma canonical_inj `{JsonStateOps} mid1 n1 st1 mid2 n2 st2 b js1 js2 :
  json_state st1 = Some js1 → json_state st2 = Some js2 →
  Forall field_ok (signed_fields mid1 n1 js1) → Forall field_ok (signed_fields mid2 n2 js2) →
  canonical_state_bytes mid1 n1 st1 = Ok b → canonical_state_bytes mid2 n2 st2 = Ok b →
  mid1 = mid2 ∧ n1 = n2 ∧ js1 = js2.
Proof.
  intros J1 J2 F1 F2 (k1 & E1 & ->)%canonical_state_bytes_fields
    (k2 & E2 & E)%canonical_state_bytes_fields.
  assert (k1 = js1) as -> by congruence. assert (k2 = js2) as -> by congruence.
  apply enc_fields_inj in E; [|done..]. unfold signed_fields in E. by simplify_eq.
Qed.

(** What a successful verification has checked. *)
Lemma verify_frame_Ok `{JsonStateOps, Ed25519Ops, HexOps} pkh exp fr :
  verify_frame pkh exp fr = Ok tt ↔
  (∀ e, exp = Some e → e = fr_nonce_hex fr)
  ∧ ∃ nonce b pk sig,
      hex_decode (fr_nonce_hex fr) = Some nonce
      ∧ canonical_state_bytes (fr_from_machine_id fr) nonce (fr_state fr) = Ok b
      ∧ hex_decode pkh = Some pk ∧ length pk = 32 ∧ vk_valid pk = true
      ∧ hex_decode (fr_sig_hex fr) = Some sig ∧ length sig = 64
      ∧ ed_verify pk b sig = true.
Proof.
  unfold verify_frame. split.
  - intros Hv. invert_ok.
    repeat match goal with H : to_array _ _ = Some _ |- _ => apply to_array_Some in H as [? ?] end; subst.
    split.
    + intros e ->. by case_decide.
    + destruct (vk_valid _) eqn:?; [|done]. destruct (ed_verify _ _ _) eqn:?; [|done]. eauto 12.
  - intros (He & nonce & b & pk & sig & Hn & Hb & Hpk & Hpl & Hvk & Hs & Hsl & Hver).
    assert (match exp with
            | Some expected => if decide (expected = fr_nonce_hex fr) then Ok tt else Err NonceEchoMismatch
            | None => Ok tt end = Ok tt) as ->.
    { destruct exp; [|done]. by rewrite decide_True by auto. }
    rewrite Hn. cbn [rbind ok_or]. rewrite Hb, Hpk. cbn [rbind ok_or].
    unfold to_array. rewrite decide_True by done. cbn [rbind ok_or]. rewrite Hvk, Hs. cbn [rbind ok_or].
    rewrite decide_True by done. cbn [rbind ok_or]. by rewrite Hver.
Qed.

(** ** Properties *)

(** The signing string binds its parts: two signing strings are equal only
    for the same sender, the same nonce and the same serialized state (for
    components below 4 GiB, where the [u32] length prefix is exact). *)
Theorem signing_string_injective `{JsonStateOps} mid1 n1 st1 mid2 n2 st2 b js1 js2 :
  json_state st1 = Some js1 → json_state st2 = Some js2 →
  Forall field_ok (signed_fields mid1 n1 js1) → Forall field_ok (signed_fields mid2 n2 js2) →
  canonical_state_bytes mid1 n1 st1 = Ok b → canonical_state_bytes mid2 n2 st2 = Ok b →
  mid1 = mid2 ∧ n1 = n2 ∧ js1 = js2.
Proof. apply canonical_inj. Qed.

(** a frame signed with a key verifies under that key, with or without the
    nonce-echo check. *)
Theorem sign_verify_roundtrip `{JsonStateOps, HexLaws, Ed25519Laws} key mid nonce st fr :
  sign_frame key mid nonce st = Ok fr →
  verify_frame (hex_encode (verifying_key key)) None fr = Ok tt
  ∧ verify_frame (hex_encode (verifying_key key)) (Some (hex_encode nonce)) fr = Ok tt.
Proof.
  unfold sign_frame. intros Hs. invert_ok.
  split; apply verify_frame_Ok; simpl; (split; [naive_solver|]);
    exists nonce, x, (verifying_key key), (sign key x);
    rewrite !hex_decode_encode, verifying_key_length, sign_length, verifying_key_valid, sign_verifies;
    by split_and!.
Qed.

(** An accepted frame was produced by the key's owner for this exchange: if
    the only messages that verify under [pk] are signing strings the owner signed
    ([signed]), then an accepted frame carries a (sender, nonce, state) triple the
    owner signed, and its nonce is the one the receiver asked to be echoed. *)
Theorem accepted_frame_was_signed `{JsonStateOps, HexLaws, Ed25519Ops} pk exp fr
    (signed : list (string * bytes * bytes)) js :
  (∀ m s, ed_verify pk m s = true →
     ∃ mid n j, (mid, n, j) ∈ signed ∧ Forall field_ok (signed_fields mid n j)
                ∧ m = enc_fields (signed_fields mid n j)) →
  verify_frame (hex_encode pk) (Some (hex_encode exp)) fr = Ok tt →
  json_state (fr_state fr) = Some js →
  Forall field_ok (signed_fields (fr_from_machine_id fr) exp js) →
  (fr_from_machine_id fr, exp, js) ∈ signed.
Proof.
  intros Huf (He & nonce & b & pk' & sig & Hn & Hb & Hpk & _ & _ & _ & _ & Hver)%verify_frame_Ok Hj Hf.
  rewrite <-(He _ eq_refl), hex_decode_encode in Hn. rewrite hex_decode_encode in Hpk. simplify_eq.
  apply canonical_state_bytes_fields in Hb as (js' & ? & ->). simplify_eq.
  destruct (Huf _ _ Hver) as (mid & n & j & Hin & Hf' & E).
  apply enc_fields_inj in E; [|done..]. unfold signed_fields in E. by simplify_eq.
Qed.

(** ** Witnesses *)

Definition toy_json_state : JsonStateOps :=
  {| json_state v := Some (be_bytes 8 (vc_clock v)) |}.

Definition wit_key : bytes := bytes_of "key".
Definition wit_nonce : bytes := be_bytes 16 7.
Definition wit_frame : SyncFrame :=
  {| fr_from_machine_id := "a"; fr_nonce_hex := @hex_encode toy_hex wit_nonce; fr_state := wit_a;
     fr_sig_hex := @hex_encode toy_hex (@sign toy_ed wit_key
       (enc_fields (signed_fields "a" wit_nonce (be_bytes 8 1)))) |}.

Lemma signing_string_injective_witness : ("a" = "a" ∧ wit_nonce = wit_nonce ∧ be_bytes 8 1 = be_bytes 8 1).
Proof.
  refine (@signing_string_injective toy_json_state "a" wit_nonce wit_a "a" wit_nonce wit_a
    (enc_fields (signed_fields "a" wit_nonce (be_bytes 8 1))) _ _ eq_refl eq_refl _ _ eq_refl eq_refl);
    repeat constructor.
Defined.

Lemma sign_verify_roundtrip_witness :
  @verify_frame toy_json_state toy_ed toy_hex (@hex_encode toy_hex (fit 32 wit_key)) None wit_frame = Ok tt.
Proof.
  exact (proj1 (@sign_verify_roundtrip toy_json_state toy_hex toy_hex_laws toy_ed toy_ed_laws
    wit_key "a" wit_nonce wit_a wit_frame ltac:(vm_compute; reflexivity))).
Defined.

(** A verifier that accepts exactly one message, the one that was signed. *)
Definition strict_ed : Ed25519Ops :=
  {| SigningKey := bytes; verifying_key := fit 32; sign k m := fit 32 k ++ fit 32 m;
     vk_valid _ := true;
     ed_verify _ m _ := bool_decide (m = enc_fields (signed_fields "a" wit_nonce (be_bytes 8 1))) |}.

Lemma accepted_frame_was_signed_witness :
  ("a", wit_nonce, be_bytes 8 1) ∈ [("a", wit_nonce, be_bytes 8 1)].
Proof.
  refine (@accepted_frame_was_signed toy_json_state toy_hex toy_hex_laws strict_ed
    (fit 32 wit_key) wit_nonce wit_frame [("a", wit_nonce, be_bytes 8 1)] (be_bytes 8 1) _ _ eq_refl _).
  - intros m s Hm%bool_decide_eq_true. exists "a", wit_nonce, (be_bytes 8 1).
    split; [left|]. split; [repeat constructor|exact Hm].
  - vm_compute. reflexivity.
  - repeat constructor.
Defined.
