(* ===== verification/Cipher.v ===== *)
(** * Encrypted framing ([crates/synbad-crypto/src/cipher.rs])

    Length-delimited AEAD frames over a byte stream.  The reader keeps its
    progress in [PendingFrame], outside the read future, so that a dropped
    [recv] loses nothing.  The incoming stream is a list of non-empty chunks as
    the socket delivers them, followed by silence, end of file or an error. *)

From Stdlib Require Import Ascii ZArith Lia.
From S2P Require Import Prelude Primitives.

Definition MAX_FRAME_BYTES : Z := 262144.

Inductive FrameError :=
| IoUnexpectedEof
| IoError
| Oversize (n : Z)
| BadCiphertext
| EncryptFailed
| NonceExhaustion.
Global Instance FrameError_eq_dec : EqDecision FrameError.
Proof. solve_decision. Defined.

(** ** The byte source *)

Inductive StreamEnd := StillOpen | AtEof | Broken.

Record Source := { src_chunks : list bytes; src_end : StreamEnd }.

Inductive ReadOutcome :=
| ReadSome (data : bytes)
| ReadZero
| ReadPending
| ReadErr.

(** [stream.read(&mut buf[..k])]: at most [k] bytes of the next chunk. *)
Definition stream_read (k : nat) (src : Source) : ReadOutcome * Source :=
  match src_chunks src with
  | [] => match src_end src with
          | StillOpen => (ReadPending, src)
          | AtEof => (ReadZero, src)
          | Broken => (ReadErr, src)
          end
  | c :: cs =>
    let rest := drop k c in
    (ReadSome (take k c),
     {| src_chunks := if decide (rest = []) then cs else rest :: cs; src_end := src_end src |})
  end.

(** ** Pending frame *)

Record PendingFrame := {
  pf_header : bytes; pf_header_read : nat; pf_body : bytes; pf_body_read : nat
}.

Definition default_PendingFrame : PendingFrame :=
  {| pf_header := repeat (byte_of_Z 0) 4; pf_header_read := 0; pf_body := []; pf_body_read := 0 |}.

(** Copy [data] into [buf] at [off]. *)
Definition write_at (buf : bytes) (off : nat) (data : bytes) : bytes :=
  take off buf ++ data ++ drop (off + length data) buf.

Inductive FillStatus := FillFull | FillEof | FillPending | FillErr | FillOutOfFuel.

(** [while off < buf.len() { n = read(&mut buf[off..])?; if n == 0 { eof }; off += n }]. *)
Fixpoint fill (fuel : nat) (buf : bytes) (off : nat) (src : Source)
    : FillStatus * bytes * nat * Source :=
  if decide (off < length buf) then
    match fuel with
    | O => (FillOutOfFuel, buf, off, src)
    | S fuel' =>
      match stream_read (length buf - off) src with
      | (ReadSome data, src') => fill fuel' (write_at buf off data) (off + length data) src'
      | (ReadZero, src') => (FillEof, buf, off, src')
      | (ReadPending, src') => (FillPending, buf, off, src')
      | (ReadErr, src') => (FillErr, buf, off, src')
      end
    end
  else (FillFull, buf, off, src).

Inductive FrameRead :=
| GotFrame (body : bytes)
| Suspended
| FrameFailed (e : FrameError).

Definition fill_failure (s : FillStatus) : FrameRead :=
  match s with
  | FillEof => FrameFailed IoUnexpectedEof
  | FillErr => FrameFailed IoError
  | _ => Suspended
  end.

(** The second half of [PendingFrame::read], entered with a complete header:
    allocate the body on the first visit, then read it. *)
Definition pf_read_body (header body : bytes) (body_read : nat) (src : Source)
    : FrameRead * PendingFrame * Source :=
  let len := be_value header in
  let alloc :=
    if decide (body = []) then
      if decide (16 ≤ len ≤ MAX_FRAME_BYTES + 16)%Z
      then Ok (repeat (byte_of_Z 0) (Z.to_nat len)) else Err (Oversize len)
    else Ok body in
  match alloc with
  | Err e => (FrameFailed e,
              {| pf_header := header; pf_header_read := 4; pf_body := body; pf_body_read := body_read |}, src)
  | Ok buf =>
    let '(bs, body', bread, src') := fill (length buf - body_read) buf body_read src in
    match bs with
    | FillFull =>
      (GotFrame body',
       {| pf_header := header; pf_header_read := 0; pf_body := []; pf_body_read := 0 |}, src')
    | _ => (fill_failure bs,
            {| pf_header := header; pf_header_read := 4; pf_body := body'; pf_body_read := bread |}, src')
    end
  end.

(** [PendingFrame::read].  [Suspended] is the future returning [Pending]: the
    caller may drop it and call [read] again on the same [PendingFrame]. *)
Definition pf_read (pf : PendingFrame) (src : Source) : FrameRead * PendingFrame * Source :=
  let '(hs, header, hread, src1) :=
    fill (4 - pf_header_read pf) (pf_header pf) (pf_header_read pf) src in
  match hs with
  | FillFull => pf_read_body header (pf_body pf) (pf_body_read pf) src1
  | _ => (fill_failure hs,
          {| pf_header := header; pf_header_read := hread;
             pf_body := pf_body pf; pf_body_read := pf_body_read pf |}, src1)
  end.

Definition build_nonce (prefix : bytes) (counter : Z) : bytes := prefix ++ be_bytes 8 counter.

(** ** Streams *)

Record CipherStream := {
  cs_send_key : bytes; cs_recv_key : bytes;
  cs_send_prefix : bytes; cs_recv_prefix : bytes;
  cs_send_counter : Z; cs_recv_counter : Z;
  cs_recv_frame : PendingFrame;
  cs_transcript : bytes
}.

Definition cs_new (send_key recv_key send_prefix recv_prefix : bytes) : CipherStream :=
  {| cs_send_key := send_key; cs_recv_key := recv_key;
     cs_send_prefix := send_prefix; cs_recv_prefix := recv_prefix;
     cs_send_counter := 0; cs_recv_counter := 0;
     cs_recv_frame := default_PendingFrame;
     cs_transcript := repeat (byte_of_Z 0) 32 |}.

Record CipherReader := {
  rd_frame : PendingFrame; rd_key : bytes; rd_prefix : bytes; rd_counter : Z
}.
Record CipherWriter := { wr_key : bytes; wr_prefix : bytes; wr_counter : Z }.

Definition split_stream (s : CipherStream) : CipherReader * CipherWriter :=
  ({| rd_frame := cs_recv_frame s; rd_key := cs_recv_key s; rd_prefix := cs_recv_prefix s;
      rd_counter := cs_recv_counter s |},
   {| wr_key := cs_send_key s; wr_prefix := cs_send_prefix s; wr_counter := cs_send_counter s |}).

(** How the socket treats the two [write_all] and the [flush]: everything goes
    out, or an error after some prefix did. *)
Inductive WriteFate := Written | WriteFailed (sent : nat).

Section aead.
Context `{AeadOps}.

(** [CipherWriter::send]: the result, the bytes put on the wire, the new state. *)
Definition wr_send (fate : WriteFate) (payload : bytes) (w : CipherWriter)
    : result FrameError unit * bytes * CipherWriter :=
  if decide (MAX_FRAME_BYTES < blen payload)%Z then (Err (Oversize (blen payload)), [], w)
  else
    match aead_seal (wr_key w) (build_nonce (wr_prefix w) (wr_counter w)) payload with
    | None => (Err EncryptFailed, [], w)
    | Some ct =>
      let wire := be_bytes 4 (wrap_u32 (blen ct)) ++ ct in
      match fate with
      | WriteFailed n => (Err IoError, take n wire, w)
      | Written =>
        match checked_add_u64 (wr_counter w) 1 with
        | None => (Err NonceExhaustion, wire, w)
        | Some c => (Ok tt, wire, {| wr_key := wr_key w; wr_prefix := wr_prefix w; wr_counter := c |})
        end
      end
    end.

(** [CipherReader::recv]; [None] is a suspended future. *)
Definition rd_recv (src : Source) (r : CipherReader)
    : option (result FrameError bytes) * Source * CipherReader :=
  let '(fr, pf, src') := pf_read (rd_frame r) src in
  let r' := {| rd_frame := pf; rd_key := rd_key r; rd_prefix := rd_prefix r;
               rd_counter := rd_counter r |} in
  match fr with
  | Suspended => (None, src', r')
  | FrameFailed e => (Some (Err e), src', r')
  | GotFrame ct =>
    match aead_open (rd_key r) (build_nonce (rd_prefix r) (rd_counter r)) ct with
    | None => (Some (Err BadCiphertext), src', r')
    | Some pt =>
      match checked_add_u64 (rd_counter r) 1 with
      | None => (Some (Err NonceExhaustion), src', r')
      | Some c => (Some (Ok pt), src',
                   {| rd_frame := pf; rd_key := rd_key r; rd_prefix := rd_prefix r; rd_counter := c |})
      end
    end
  end.

(** [CipherStream::send]: the same framing on the unsplit stream. *)
Definition cs_send (fate : WriteFate) (payload : bytes) (s : CipherStream)
    : result FrameError unit * bytes * CipherStream :=
  if decide (MAX_FRAME_BYTES < blen payload)%Z then (Err (Oversize (blen payload)), [], s)
  else
    match aead_seal (cs_send_key s) (build_nonce (cs_send_prefix s) (cs_send_counter s)) payload with
    | None => (Err EncryptFailed, [], s)
    | Some ct =>
      let wire := be_bytes 4 (wrap_u32 (blen ct)) ++ ct in
      match fate with
      | WriteFailed n => (Err IoError, take n wire, s)
      | Written =>
        match checked_add_u64 (cs_send_counter s) 1 with
        | None => (Err NonceExhaustion, wire, s)
        | Some c =>
          (Ok tt, wire,
           {| cs_send_key := cs_send_key s; cs_recv_key := cs_recv_key s;
              cs_send_prefix := cs_send_prefix s; cs_recv_prefix := cs_recv_prefix s;
              cs_send_counter := c; cs_recv_counter := cs_recv_counter s;
              cs_recv_frame := cs_recv_frame s; cs_transcript := cs_transcript s |})
        end
      end
    end.

(** [CipherStream::recv]. *)
Definition cs_recv (src : Source) (s : CipherStream)
    : option (result FrameError bytes) * Source * CipherStream :=
  let '(fr, pf, src') := pf_read (cs_recv_frame s) src in
  let upd c := {| cs_send_key := cs_send_key s; cs_recv_key := cs_recv_key s;
                  cs_send_prefix := cs_send_prefix s; cs_recv_prefix := cs_recv_prefix s;
                  cs_send_counter := cs_send_counter s; cs_recv_counter := c;
                  cs_recv_frame := pf; cs_transcript := cs_transcript s |} in
  match fr with
  | Suspended => (None, src', upd (cs_recv_counter s))
  | FrameFailed e => (Some (Err e), src', upd (cs_recv_counter s))
  | GotFrame ct =>
    match aead_open (cs_recv_key s) (build_nonce (cs_recv_prefix s) (cs_recv_counter s)) ct with
    | None => (Some (Err BadCiphertext), src', upd (cs_recv_counter s))
    | Some pt =>
      match checked_add_u64 (cs_recv_counter s) 1 with
      | None => (Some (Err NonceExhaustion), src', upd (cs_recv_counter s))
      | Some c => (Some (Ok pt), src', upd c)
      end
    end
  end.

(** Send a list of payloads over a healthy socket; stop at the first error. *)
Fixpoint wr_send_all (ps : list bytes) (w : CipherWriter)
    : result FrameError unit * bytes * CipherWriter :=
  match ps with
  | [] => (Ok tt, [], w)
  | p :: ps' =>
    let '(r, out, w') := wr_send Written p w in
    match r with
    | Err e => (Err e, out, w')
    | Ok _ => let '(r', out', w'') := wr_send_all ps' w' in (r', out ++ out', w'')
    end
  end.

(** Receive until the future suspends or fails. *)
Fixpoint rd_drain (fuel : nat) (src : Source) (r : CipherReader)
    : list bytes * option FrameError * Source * CipherReader :=
  match fuel with
  | O => ([], None, src, r)
  | S fuel' =>
    match rd_recv src r with
    | (Some (Ok p), src', r') =>
      let '(ps, e, src'', r'') := rd_drain fuel' src' r' in (p :: ps, e, src'', r'')
    | (Some (Err e), src', r') => ([], Some e, src', r')
    | (None, src', r') => ([], None, src', r')
    end
  end.

(** A whole session of the receiver: each element of [ds] is what the socket
    delivers before the next [recv] is cancelled. *)
Fixpoint rd_session (fuel : nat) (ds : list (list bytes)) (r : CipherReader)
    : list bytes * option FrameError * CipherReader :=
  match ds with
  | [] => ([], None, r)
  | d :: ds' =>
    let '(ps, e, src, r') := rd_drain fuel {| src_chunks := d; src_end := StillOpen |} r in
    match e with
    | Some _ => (ps, e, r')
    | None => let '(ps', e', r'') := rd_session fuel ds' r' in (ps ++ ps', e', r'')
    end
  end.
End aead.

(** ** Specification: a parser of the whole byte stream

    What a receiver has taken off the socket and not yet returned, followed by
    what is still queued, determines its next result, however the bytes were
    cut into reads and however often a [recv] was dropped. *)

Inductive Parsed := PFrame (body rest : bytes) | PMore | PBad (len : Z).

Definition parse_frame (s : bytes) : Parsed :=
  if decide (length s < 4) then PMore else
  let len := be_value (take 4 s) in
  if decide (16 ≤ len ≤ MAX_FRAME_BYTES + 16)%Z then
    if decide (length s < 4 + Z.to_nat len) then PMore
    else PFrame (take (Z.to_nat len) (drop 4 s)) (drop (4 + Z.to_nat len) s)
  else PBad len.

Definition flat (src : Source) : bytes := concat (src_chunks src).
Definition src_wf (src : Source) : Prop := Forall (λ c, c ≠ []) (src_chunks src).

Definition pf_seen (pf : PendingFrame) : bytes :=
  take (pf_header_read pf) (pf_header pf) ++ take (pf_body_read pf) (pf_body pf).

(** The reader's invariant: progress counters in range, and a body only when
    the header is complete and announced an acceptable length. *)
Definition pf_inv (pf : PendingFrame) : Prop :=
  length (pf_header pf) = 4 ∧ pf_header_read pf ≤ 4 ∧
  ((pf_body pf = [] ∧ pf_body_read pf = 0) ∨
   (pf_header_read pf = 4 ∧ pf_body_read pf ≤ length (pf_body pf) ∧
    blen (pf_body pf) = be_value (pf_header pf) ∧
    (16 ≤ blen (pf_body pf) ≤ MAX_FRAME_BYTES + 16)%Z)).

(** What an exhausted source makes of a read. *)
Definition stalled (e : StreamEnd) : FrameRead :=
  match e with
  | StillOpen => Suspended
  | AtEof => FrameFailed IoUnexpectedEof
  | Broken => FrameFailed IoError
  end.

Lemma write_at_length buf off data :
  off + length data ≤ length buf → length (write_at buf off data) = length buf.
Proof. intros. unfold write_at. rewrite !length_app, length_take, length_drop. lia. Qed.

Lemma write_at_nil buf off : write_at buf off [] = buf.
Proof. unfold write_at. simpl. rewrite Nat.add_0_r. apply take_drop. Qed.

Lemma take_write_at buf off data :
  off + length data ≤ length buf →
  take (off + length data) (write_at buf off data) = take off buf ++ data.
Proof.
  intros. unfold write_at. rewrite app_assoc, take_app_le.
  - apply firstn_all2. rewrite length_app, length_take. lia.
  - rewrite length_app, length_take. lia.
Qed.

Lemma write_at_app buf off d1 d2 :
  off + length d1 + length d2 ≤ length buf →
  write_at (write_at buf off d1) (off + length d1) d2 = write_at buf off (d1 ++ d2).
Proof.
  intros. unfold write_at at 1. rewrite take_write_at by lia.
  unfold write_at. rewrite <-!app_assoc, length_app. do 3 f_equal.
  rewrite app_assoc, drop_app.
  rewrite (drop_ge (take off buf ++ d1)) by (rewrite length_app, length_take; lia). simpl.
  rewrite length_app, length_take, drop_drop. f_equal. lia.
Qed.

(** One read delivers a non-empty prefix of the queued bytes. *)
Lemma stream_read_some k src data src' :
  src_wf src → 0 < k → stream_read k src = (ReadSome data, src') →
  data ≠ [] ∧ length data ≤ k ∧ flat src = data ++ flat src' ∧ src_wf src' ∧ src_end src' = src_end src.
Proof.
  intros Hwf Hk. unfold stream_read, src_wf, flat in *. destruct src as [[|c cs] e]; simpl in *;
    [by destruct e|].
  intros [= <- <-]. apply Forall_cons in Hwf as [Hc Hcs]. simpl. split; [|split; [|split; [|split]]].
  - destruct c; [done|]. destruct k; [lia|done].
  - rewrite length_take. lia.
  - case_decide as Hd; simpl.
    + rewrite <-(take_drop k c) at 1. by rewrite Hd, app_nil_r.
    + by rewrite app_assoc, take_drop.
  - case_decide; [done|]. by constructor.
  - done.
Qed.

Definition stalled_fill (e : StreamEnd) : FillStatus :=
  match e with StillOpen => FillPending | AtEof => FillEof | Broken => FillErr end.

(** The read loop moves exactly as many bytes as fit and are there. *)
Lemma fill_spec fuel buf off src :
  src_wf src → off ≤ length buf → length buf - off ≤ fuel →
  let n := Nat.min (length buf - off) (length (flat src)) in
  ∃ src', fill fuel buf off src =
    (if decide (off + n = length buf) then FillFull else stalled_fill (src_end src),
     write_at buf off (take n (flat src)), off + n, src') ∧
  flat src' = drop n (flat src) ∧ src_wf src' ∧ src_end src' = src_end src.
Proof.
  revert buf off src. induction fuel as [|fuel IH]; intros buf off src Hwf Hoff Hfuel n.
  { assert (n = 0) as -> by lia. exists src. simpl.
    rewrite decide_False, decide_True, Nat.add_0_r, write_at_nil by lia. done. }
  simpl. case_decide as Hlt.
  2:{ assert (n = 0) as -> by lia. exists src.
      rewrite decide_True, Nat.add_0_r, take_0, write_at_nil by lia. done. }
  destruct (stream_read (length buf - off) src) as [o src1] eqn:Hr.
  destruct o as [data| | |].
  2-4: unfold stream_read in Hr; destruct src as [[|c cs] e]; simpl in Hr; [|done];
    destruct e; simplify_eq; unfold flat in *; simpl in n; subst n; simpl;
    rewrite Nat.min_0_r, Nat.add_0_r, take_0, write_at_nil, decide_False by lia;
    eexists; done.
  apply stream_read_some in Hr as (Hne & Hle & Hflat & Hwf1 & Hend); [|done|lia].
  assert (0 < length data) by (destruct data; [done|simpl; lia]).
  edestruct (IH (write_at buf off data) (off + length data) src1) as (src2 & Heq & Hf2 & Hwf2 & He2);
    [done|rewrite write_at_length; lia|rewrite write_at_length; lia|].
  rewrite write_at_length in Heq, Hf2 by lia.
  set (m := Nat.min (length buf - (off + length data)) (length (flat src1))) in *.
  assert (n = length data + m) as -> by (subst n m; rewrite Hflat, length_app; lia).
  exists src2. rewrite Heq, Hflat, take_app_add, drop_app_add.
  rewrite write_at_app by (rewrite length_take; lia).
  rewrite Hend in *. rewrite Nat.add_assoc. done.
Qed.

(** The same, as conservation of bytes: nothing is lost or reordered. *)
Lemma fill_absorb fuel buf off src :
  src_wf src → off ≤ length buf → length buf - off ≤ fuel →
  ∃ st buf' off' src', fill fuel buf off src = (st, buf', off', src') ∧
  length buf' = length buf ∧ off ≤ off' ≤ length buf ∧
  take off' buf' ++ flat src' = take off buf ++ flat src ∧
  src_wf src' ∧ src_end src' = src_end src ∧
  (off = length buf → buf' = buf) ∧
  ((st = FillFull ∧ off' = length buf) ∨
   (st = stalled_fill (src_end src) ∧ off' < length buf ∧ flat src' = [])).
Proof.
  intros Hwf Hoff Hfuel. destruct (fill_spec fuel buf off src) as (src' & Heq & Hf & Hwf' & He); try done.
  set (n := Nat.min (length buf - off) (length (flat src))) in *.
  assert (length (take n (flat src)) = n) as Hn by (rewrite length_take; lia).
  eexists _, _, _, _; split; [exact Heq|].
  split; [apply write_at_length; lia|]. split; [lia|]. split; [|split; [done|split; [done|split]]].
  - rewrite <-Hn at 1. rewrite take_write_at by lia. by rewrite Hf, <-app_assoc, take_drop.
  - intros Hfull. assert (n = 0) as -> by lia. by rewrite take_0, write_at_nil.
  - case_decide; [left; done|right]. split; [done|]. split; [lia|].
    rewrite Hf. apply drop_ge. lia.
Qed.

Lemma parse_frame_short s : length s < 4 → parse_frame s = PMore.
Proof. intros. unfold parse_frame. by rewrite decide_True. Qed.

(** What a read owes the stream [s] it works on. *)
Definition read_post (s : bytes) (e : StreamEnd) (out : FrameRead * PendingFrame * Source) : Prop :=
  let '(r, pf', src') := out in
  pf_inv pf' ∧ src_wf src' ∧ src_end src' = e ∧
  match parse_frame s with
  | PFrame body rest => r = GotFrame body ∧ pf_seen pf' = [] ∧ flat src' = rest
  | PMore => r = stalled e ∧ pf_seen pf' = s ∧ flat src' = []
  | PBad len => r = FrameFailed (Oversize len) ∧ pf_seen pf' ++ flat src' = s
  end.

(** A body buffer is either not allocated yet or of the announced length. *)
Definition body_inv (header body : bytes) (body_read : nat) : Prop :=
  (body = [] ∧ body_read = 0) ∨
  (body_read ≤ length body ∧ blen body = be_value header ∧
   (16 ≤ blen body ≤ MAX_FRAME_BYTES + 16)%Z).

Lemma parse_frame_header h s :
  length h = 4 →
  parse_frame (h ++ s) =
    if decide (16 ≤ be_value h ≤ MAX_FRAME_BYTES + 16)%Z then
      if decide (length s < Z.to_nat (be_value h)) then PMore
      else PFrame (take (Z.to_nat (be_value h)) s) (drop (Z.to_nat (be_value h)) s)
    else PBad (be_value h).
Proof.
  intros Hh. unfold parse_frame. rewrite length_app, Hh. rewrite decide_False by lia.
  rewrite take_app_le, firstn_all2 by lia. case_decide; [|done].
  rewrite drop_app_ge by lia. rewrite (drop_app_ge h s (4 + _)) by lia.
  rewrite Hh. replace (4 + Z.to_nat (be_value h) - 4) with (Z.to_nat (be_value h)) by lia.
  simpl. repeat case_decide; done || lia.
Qed.

(** The buffer the body loop works on. *)
Lemma body_buffer h b br :
  body_inv h b br → (16 ≤ be_value h ≤ MAX_FRAME_BYTES + 16)%Z →
  let buf := if decide (b = []) then repeat (byte_of_Z 0) (Z.to_nat (be_value h)) else b in
  length buf = Z.to_nat (be_value h) ∧ br ≤ length buf ∧ take br buf = take br b.
Proof.
  intros Hb Hr. simpl. case_decide as Hbn.
  - destruct Hb as [[_ ->]|(_ & Hbl & ?)]; [|rewrite Hbn in Hbl; unfold blen in *; simpl in *; lia].
    rewrite repeat_length. split; [done|]. split; [lia|done].
  - destruct Hb as [[? _]|(? & Hbl & ?)]; [done|]. unfold blen in *. split; [lia|done].
Qed.

Lemma pf_read_body_spec h b br src :
  length h = 4 → body_inv h b br → src_wf src →
  read_post (h ++ take br b ++ flat src) (src_end src) (pf_read_body h b br src).
Proof.
  intros Hh Hb Hwf. unfold pf_read_body, read_post.
  rewrite parse_frame_header by done. destruct (decide (16 ≤ be_value h ≤ _)%Z) as [Hr|Hr].
  2:{ destruct Hb as [[-> ->]|(_ & Hbl & ?)]; [|lia]. rewrite decide_True by done.
      unfold pf_inv, pf_seen; simpl. rewrite app_nil_r, firstn_all2 by lia.
      split_and!; try done; try lia; by left. }
  destruct (body_buffer h b br Hb Hr) as (Hlb & Hbr & Htb).
  set (buf := if decide (b = []) then repeat (byte_of_Z 0) (Z.to_nat (be_value h)) else b) in *.
  assert ((if decide (b = []) then Ok (repeat (byte_of_Z 0) (Z.to_nat (be_value h))) else Ok b) = @Ok FrameError _ buf) as ->
    by (subst buf; by case_decide).
  destruct (fill_absorb (length buf - br) buf br src) as
    (st & b' & br' & src2 & -> & Hlb' & Hbr' & Hseen2 & Hwf2 & He2 & _ & Hst); [done|lia|lia|].
  rewrite <-Htb, <-Hseen2. destruct Hst as [(-> & ->)|(-> & Hlt & Hflat2)].
  - rewrite (firstn_all2 b'), length_app by lia. rewrite decide_False by lia.
    rewrite <-Hlb, <-Hlb', take_app_length, drop_app_length.
    unfold pf_inv, pf_seen; simpl. split_and!; try done; try lia; by left.
  - rewrite Hflat2, app_nil_r, length_take. rewrite decide_True by lia.
    assert (fill_failure (stalled_fill (src_end src)) = stalled (src_end src)) as Hs by by destruct (src_end src).
    destruct (stalled_fill (src_end src)) eqn:Hsf; try (by destruct (src_end src));
      (unfold pf_inv, pf_seen; cbn [pf_header pf_header_read pf_body pf_body_read]; unfold blen;
       rewrite Hlb', Hlb, Z2Nat.id, (firstn_all2 h) by lia; split_and!; try done; right; split_and!; lia).
Qed.

(** Every read of the incremental receiver is the parser's on the bytes taken
    so far followed by the bytes queued. *)
Lemma pf_read_spec pf src :
  pf_inv pf → src_wf src →
  read_post (pf_seen pf ++ flat src) (src_end src) (pf_read pf src).
Proof.
  destruct pf as [h hr b br]. unfold pf_inv, pf_seen, pf_read; simpl.
  intros (Hh & Hhr & Hb) Hwf.
  destruct (fill_absorb (4 - hr) h hr src) as
    (st & h' & hr' & src1 & -> & Hlh & Hhr' & Hseen1 & Hwf1 & He1 & Hfix & Hst); [done|lia|lia|].
  destruct Hst as [(-> & ->)|(-> & Hlt & Hflat1)].
  - rewrite Hh in *. rewrite (firstn_all2 h') in Hseen1 by lia. rewrite <-He1.
    assert (body_inv h' b br ∧ (take hr h ++ take br b) ++ flat src = h' ++ take br b ++ flat src1) as [Hb' ->].
    { unfold body_inv. destruct Hb as [[-> ->]|(-> & Hb)].
      - rewrite take_nil, app_nil_r. simpl. split; [by left|done].
      - specialize (Hfix eq_refl). subst h'. rewrite (firstn_all2 h) in Hseen1 by lia.
        apply app_inv_head in Hseen1. rewrite (firstn_all2 h), <-app_assoc, Hseen1 by lia. split; [by right|done]. }
    apply pf_read_body_spec; [lia|done|done].
  - assert (b = [] ∧ br = 0) as [-> ->] by (destruct Hb as [?|[-> ?]]; [done|lia]).
    rewrite Hflat1, app_nil_r in Hseen1. rewrite take_nil, app_nil_r.
    unfold read_post. rewrite <-Hseen1, parse_frame_short by (rewrite length_take; lia).
    destruct (src_end src) eqn:Hend; simpl; unfold pf_inv, pf_seen; simpl;
      rewrite app_nil_r; split_and!; try done; try lia; by left.
Qed.

(** More input does not change what has already been decided. *)
Lemma parse_frame_mono s t :
  match parse_frame s with
  | PFrame body rest => parse_frame (s ++ t) = PFrame body (rest ++ t)
  | PBad len => parse_frame (s ++ t) = PBad len
  | PMore => True
  end.
Proof.
  destruct (decide (length s < 4)) as [Hs|Hs]; [by rewrite parse_frame_short|].
  rewrite <-(take_drop 4 s). set (h := take 4 s). set (u := drop 4 s).
  assert (length h = 4) as Hh by (subst h; rewrite length_take; lia).
  rewrite <-app_assoc, !parse_frame_header by done. case_decide; [|done].
  destruct (decide (length u < _)) as [|Hu]; [done|].
  rewrite decide_False by (rewrite length_app; lia).
  by rewrite take_app_le, drop_app_le by lia.
Qed.

Section session.
Context `{AeadLaws}.

(** What [send] writes is one frame of the parser. *)
Lemma sealed_frame_parses k n p ct rest :
  aead_seal k n p = Some ct → (blen p ≤ MAX_FRAME_BYTES)%Z →
  parse_frame ((be_bytes 4 (wrap_u32 (blen ct)) ++ ct) ++ rest) = PFrame ct rest.
Proof.
  intros Hs%aead_seal_length Hmax. unfold blen, MAX_FRAME_BYTES in *.
  rewrite <-app_assoc, parse_frame_header by apply be_bytes_length.
  rewrite be_value_be_bytes, Z.mod_small by (apply Z.mod_pos_bound; lia).
  unfold wrap_u32. rewrite Z.mod_small by lia. unfold MAX_FRAME_BYTES.
  rewrite decide_True by lia. rewrite Nat2Z.id, decide_False by (rewrite length_app; lia).
  by rewrite take_app_length, drop_app_length.
Qed.

Lemma wr_send_Ok p w out w' :
  (0 ≤ wr_counter w)%Z →
  wr_send Written p w = (Ok tt, out, w') →
  ∃ ct, aead_seal (wr_key w) (build_nonce (wr_prefix w) (wr_counter w)) p = Some ct ∧
    checked_add_u64 (wr_counter w) 1 = Some (wr_counter w') ∧
    wr_counter w' = (wr_counter w + 1)%Z ∧ wr_key w' = wr_key w ∧ wr_prefix w' = wr_prefix w ∧
    ∀ rest, parse_frame (out ++ rest) = PFrame ct rest.
Proof.
  intros Hc. unfold wr_send. case_decide as Hmax; [done|].
  destruct (aead_seal _ _ p) as [ct|] eqn:Hs; [|done].
  destruct (checked_add_u64 _ 1) as [c|] eqn:Hadd; [|done].
  remember (be_bytes 4 (wrap_u32 (blen ct)) ++ ct) as wire eqn:Hwire. intros [= <- <-]. subst wire.
  exists ct. cbn [wr_counter wr_key wr_prefix]. split_and!; try done.
  { unfold checked_add_u64 in Hadd. by case_decide; simplify_eq. }
  intros rest. eapply sealed_frame_parses; [done|lia].
Qed.

Definition in_sync (r : CipherReader) (w : CipherWriter) : Prop :=
  rd_key r = wr_key w ∧ rd_prefix r = wr_prefix w ∧ rd_counter r = wr_counter w ∧
  (0 ≤ wr_counter w)%Z.

(** [recv] when the parser of the stream has a frame, and when it needs more. *)
Lemma rd_recv_frame src r ct rest p c :
  pf_inv (rd_frame r) → src_wf src →
  parse_frame (pf_seen (rd_frame r) ++ flat src) = PFrame ct rest →
  aead_open (rd_key r) (build_nonce (rd_prefix r) (rd_counter r)) ct = Some p →
  checked_add_u64 (rd_counter r) 1 = Some c →
  ∃ src' pf', rd_recv src r =
    (Some (Ok p), src', {| rd_frame := pf'; rd_key := rd_key r; rd_prefix := rd_prefix r; rd_counter := c |}) ∧
  pf_inv pf' ∧ src_wf src' ∧ src_end src' = src_end src ∧ pf_seen pf' ++ flat src' = rest.
Proof.
  intros Hinv Hwf Hp Ho Hc. pose proof (pf_read_spec _ _ Hinv Hwf) as Hspec. unfold rd_recv, read_post in *.
  destruct (pf_read (rd_frame r) src) as [[fr pf'] src']. rewrite Hp in Hspec.
  destruct Hspec as (? & ? & ? & -> & Hs & Hf). rewrite Ho, Hc.
  eexists _, _. split; [done|]. by rewrite Hs, Hf.
Qed.

Lemma rd_recv_more src r :
  pf_inv (rd_frame r) → src_wf src → src_end src = StillOpen →
  parse_frame (pf_seen (rd_frame r) ++ flat src) = PMore →
  ∃ src' pf', rd_recv src r =
    (None, src', {| rd_frame := pf'; rd_key := rd_key r; rd_prefix := rd_prefix r; rd_counter := rd_counter r |}) ∧
  pf_inv pf' ∧ pf_seen pf' = pf_seen (rd_frame r) ++ flat src.
Proof.
  intros Hinv Hwf He Hp. pose proof (pf_read_spec _ _ Hinv Hwf) as Hspec. unfold rd_recv, read_post in *.
  destruct (pf_read (rd_frame r) src) as [[fr pf'] src']. rewrite Hp, He in Hspec.
  destruct Hspec as (? & ? & ? & -> & Hs & Hf). eexists _, _. by split.
Qed.

(** Draining one delivery returns the payloads completed by it and keeps the
    rest of the stream for later. *)
Lemma rd_drain_sync ps fuel src r w wire w' future :
  wr_send_all ps w = (Ok tt, wire, w') → in_sync r w →
  pf_inv (rd_frame r) → src_wf src → src_end src = StillOpen →
  pf_seen (rd_frame r) ++ flat src ++ future = wire → length ps < fuel →
  ∃ qs ps' src' r' wm wire', rd_drain fuel src r = (qs, None, src', r') ∧ ps = qs ++ ps' ∧
  wr_send_all ps' wm = (Ok tt, wire', w') ∧ in_sync r' wm ∧ pf_inv (rd_frame r') ∧
  pf_seen (rd_frame r') ++ future = wire' ∧ parse_frame (pf_seen (rd_frame r')) = PMore.
Proof.
  revert fuel src r w wire. induction ps as [|p ps IH]; intros fuel src r w wire Hall Hsync Hinv Hwf He Hw Hfuel;
    (destruct fuel as [|fuel]; [simpl in Hfuel; lia|]); cbn [rd_drain].
  - cbn [wr_send_all] in Hall. injection Hall as Hwe <-. rewrite <-Hwe in Hw.
    apply app_nil in Hw as [Hs [Hf ->]%app_nil].
    destruct (rd_recv_more src r) as (src' & pf' & -> & Hinv' & Hseen); try done; [by rewrite Hs, Hf|].
    eexists [], [], _, _, w, []. split_and!; try done; simpl; rewrite Hseen, Hs, Hf; done.
  - cbn [wr_send_all] in Hall. destruct (wr_send Written p w) as [[res out] w1] eqn:Hsend.
    destruct res as [[]|]; [|done]. destruct (wr_send_all ps w1) as [[res1 wire1] w2] eqn:Hall1.
    injection Hall as -> Hwe ->. destruct Hsync as (Hk & Hpre & Hctr & Hpos).
    destruct (wr_send_Ok _ _ _ _ Hpos Hsend) as (ct & Hseal & Hadd & Hc1 & Hk1 & Hp1 & Hparse).
    assert (parse_frame ((pf_seen (rd_frame r) ++ flat src) ++ future) = PFrame ct wire1) as Hfull
      by (rewrite <-app_assoc, Hw, <-Hwe; apply Hparse).
    pose proof (parse_frame_mono (pf_seen (rd_frame r) ++ flat src) future) as Hm.
    destruct (parse_frame (pf_seen (rd_frame r) ++ flat src)) as [ct' rest| |len] eqn:Hcur;
      [|clear Hm|congruence].
    + rewrite Hm in Hfull. injection Hfull as -> Hrest.
      edestruct (rd_recv_frame src r ct rest p) as (src' & pf' & -> & Hinv' & Hwf' & He' & Hrest'); try done.
      { rewrite Hk, Hpre, Hctr. by apply aead_open_seal. }
      { by rewrite Hctr. }
      edestruct (IH fuel src' {| rd_frame := pf'; rd_key := rd_key r; rd_prefix := rd_prefix r;
        rd_counter := wr_counter w1 |} w1 wire1) as (qs & ps' & src2 & r2 & wm & wire' & Hd & -> & Hrem);
        [done|split_and!; simpl; congruence || lia|done|done|congruence| |simpl in Hfuel; lia|].
      { simpl. by rewrite app_assoc, Hrest'. }
      rewrite Hd. eexists (p :: qs), ps', _, _, _, _. split; [reflexivity|]. by split.
    + destruct (rd_recv_more src r) as (src' & pf' & -> & Hinv' & Hseen); try done.
      eexists [], (p :: ps), _, _, w, wire. split; [reflexivity|]. split; [done|].
      split; [cbn [wr_send_all]; by rewrite Hsend, Hall1, Hwe|].
      split; [done|]. split; [done|]. simpl. rewrite Hseen. split; [by rewrite <-app_assoc|done].
Qed.

Lemma rd_session_sync ds fuel ps r w wire w' :
  wr_send_all ps w = (Ok tt, wire, w') → in_sync r w → pf_inv (rd_frame r) →
  Forall (Forall (λ c, c ≠ [])) ds → pf_seen (rd_frame r) ++ concat (concat ds) = wire →
  (ds = [] → parse_frame (pf_seen (rd_frame r)) = PMore) →
  length ps < fuel → ∃ r', rd_session fuel ds r = (ps, None, r') ∧ in_sync r' w'.
Proof.
  revert ps r w wire. induction ds as [|d ds IH]; intros ps r w wire Hall Hsync Hinv Hne Hw Hmore Hfuel.
  - simpl in Hw. rewrite app_nil_r in Hw. specialize (Hmore eq_refl). exists r. destruct ps as [|p ps].
    { cbn [wr_send_all] in Hall. by injection Hall as _ <-. }
    exfalso. cbn [wr_send_all] in Hall. destruct (wr_send Written p w) as [[res out] w1] eqn:Hsend.
    destruct res as [[]|]; [|done]. destruct (wr_send_all ps w1) as [[res1 wire1] w2].
    injection Hall as -> Hwe ->.
    destruct (wr_send_Ok _ _ _ _ (proj2 (proj2 (proj2 Hsync))) Hsend) as (ct & _ & _ & _ & _ & _ & Hparse).
    specialize (Hparse wire1). congruence.
  - apply Forall_cons in Hne as [Hd Hds]. cbn [rd_session].
    edestruct (rd_drain_sync ps fuel {| src_chunks := d; src_end := StillOpen |} r w wire w' (concat (concat ds)))
      as (qs & ps' & src' & r' & wm & wire' & -> & -> & Hall' & Hsync' & Hinv' & Hw' & Hm'); try done.
    { unfold flat; simpl. by rewrite <-concat_app. }
    rewrite length_app in Hfuel.
    destruct (IH ps' r' wm wire') as (r2 & -> & Hs2); try done; [lia|]. by exists r2.
Qed.

(** C12: an encrypted session delivers exactly what was sent.  If a writer sends
    [ps] without an error, then however the produced bytes are cut into socket
    reads, and however often the receiver's [recv] is cancelled in between
    (each element of [ds] is what arrives before one cancellation), a fresh
    receiver with the same key and nonce prefix returns exactly [ps], in order,
    with no error, and ends with the sender's counter. *)
Theorem session_delivers_payloads ps ds key prefix wire w' :
  wr_send_all ps {| wr_key := key; wr_prefix := prefix; wr_counter := 0 |} = (Ok tt, wire, w') →
  Forall (Forall (λ c, c ≠ [])) ds → concat (concat ds) = wire →
  ∃ r', rd_session (S (length ps)) ds
          {| rd_frame := default_PendingFrame; rd_key := key; rd_prefix := prefix; rd_counter := 0 |}
        = (ps, None, r') ∧ rd_counter r' = wr_counter w'.
Proof.
  intros Hall Hne Hw. edestruct (rd_session_sync ds (S (length ps)) ps
    {| rd_frame := default_PendingFrame; rd_key := key; rd_prefix := prefix; rd_counter := 0 |} _ _ _ Hall)
    as (r' & Hs & Hsync); try done.
  - unfold pf_inv; simpl. split_and!; [done|lia|by left].
  - lia.
  - exists r'. split; [done|]. apply Hsync.
Qed.

(** ** Nonces *)

Lemma build_nonce_inj prefix c d :
  u64_ok c → u64_ok d → build_nonce prefix c = build_nonce prefix d → c = d.
Proof.
  unfold u64_ok, build_nonce. intros Hc Hd Heq%app_inv_head.
  apply be_bytes_inj in Heq; unfold u64_MAX in *; lia.
Qed.

(** The nonces of a run of sends, and their outcome, on any sequence of socket
    fates.  A send that fails in the length check uses no nonce. *)
Fixpoint wr_trace (ops : list (WriteFate * bytes)) (w : CipherWriter)
    : list (bytes * result FrameError unit) :=
  match ops with
  | [] => []
  | (fate, p) :: ops' =>
    let '(r, _, w') := wr_send fate p w in
    (build_nonce (wr_prefix w) (wr_counter w), r) :: wr_trace ops' w'
  end.

Definition sent_nonces (t : list (bytes * result FrameError unit)) : list bytes :=
  (filter (λ x, x.2 = Ok tt) t).*1.

Lemma wr_send_counter fate p w r out w' :
  wr_send fate p w = (r, out, w') →
  wr_prefix w' = wr_prefix w ∧
  (if decide (r = Ok tt) then wr_counter w' = (wr_counter w + 1)%Z ∧ (wr_counter w + 1 ≤ u64_MAX)%Z
   else w' = w).
Proof.
  unfold wr_send, checked_add_u64. intros Hs. repeat case_match; simplify_eq/=;
    repeat case_decide; simplify_eq/=; try done; split_and!; try done; lia.
Qed.

Lemma sent_nonces_above ops w n :
  n ∈ sent_nonces (wr_trace ops w) → (0 ≤ wr_counter w)%Z →
  ∃ c, n = build_nonce (wr_prefix w) c ∧ (wr_counter w ≤ c < u64_MAX)%Z.
Proof.
  revert w. induction ops as [|[fate p] ops IH]; intros w Hin Hpos; [by inversion Hin|].
  cbn [wr_trace] in Hin. destruct (wr_send fate p w) as [[r out] w'] eqn:Hs.
  apply wr_send_counter in Hs as (Hp & Hc). unfold sent_nonces in *. rewrite filter_cons in Hin; simpl in Hin.
  destruct (decide (r = Ok tt)); simpl in Hin.
  - apply elem_of_cons in Hin as [->|Hin]; [exists (wr_counter w); split; [done|lia]|].
    apply IH in Hin as (c & -> & ?); [|lia]. exists c. rewrite Hp. split; [done|lia].
  - subst w'. by apply IH.
Qed.

(** Two successful sends of one connection never share a nonce, whatever
    the payloads, their order and the failures in between. *)
Theorem sent_nonces_distinct ops w :
  u64_ok (wr_counter w) → NoDup (sent_nonces (wr_trace ops w)).
Proof.
  revert w. induction ops as [|[fate p] ops IH]; intros w Hok; [constructor|].
  cbn [wr_trace]. destruct (wr_send fate p w) as [[r out] w'] eqn:Hs.
  apply wr_send_counter in Hs as (Hp & Hc). unfold u64_ok in *. unfold sent_nonces in *.
  rewrite filter_cons; simpl. destruct (decide (r = Ok tt)); simpl; [|subst w'; by apply IH].
  constructor; [|apply IH; lia].
  intros Hin. apply sent_nonces_above in Hin as (c & Heq & Hle); [|lia].
  rewrite Hp in Heq. apply build_nonce_inj in Heq; unfold u64_ok; lia.
Qed.

(** After a failed write the next send seals under the same nonce.  If the
    socket took [k > 0] bytes of the first frame before failing, two different
    plaintexts have gone out sealed under one key and nonce; the counter is
    only advanced after the write. *)
Theorem failed_write_reuses_nonce p q k w ct1 ct2 :
  (blen p ≤ MAX_FRAME_BYTES)%Z → (blen q ≤ MAX_FRAME_BYTES)%Z →
  let nonce := build_nonce (wr_prefix w) (wr_counter w) in
  aead_seal (wr_key w) nonce p = Some ct1 → aead_seal (wr_key w) nonce q = Some ct2 →
  (wr_counter w < u64_MAX)%Z →
  ∃ w1 w2, wr_send (WriteFailed k) p w = (Err IoError, take k (be_bytes 4 (wrap_u32 (blen ct1)) ++ ct1), w1) ∧
    wr_send Written q w1 = (Ok tt, be_bytes 4 (wrap_u32 (blen ct2)) ++ ct2, w2).
Proof.
  intros Hp Hq nonce H1 H2 Hc. subst nonce. unfold wr_send, checked_add_u64.
  rewrite decide_False, H1 by lia. eexists w, _. split; [reflexivity|].
  rewrite decide_False, H2, decide_True by lia. reflexivity.
Qed.

(** splitting a stream changes nothing: [CipherStream::send]/[recv] and the
    halves' [send]/[recv] give the same results and the same bytes, and
    splitting afterwards gives the halves' new states.  Every frame the unsplit
    stream had half-read goes on in the reader. *)
Theorem split_equivalence s fate p src :
  (let '(r, out, s') := cs_send fate p s in
   wr_send fate p (split_stream s).2 = (r, out, (split_stream s').2) ∧
   (split_stream s').1 = (split_stream s).1 ∧ cs_transcript s' = cs_transcript s) ∧
  (let '(r, src', s') := cs_recv src s in
   rd_recv src (split_stream s).1 = (r, src', (split_stream s').1) ∧
   (split_stream s').2 = (split_stream s).2 ∧ cs_transcript s' = cs_transcript s).
Proof.
  split.
  - unfold cs_send, wr_send. cbn [split_stream snd wr_key wr_prefix wr_counter].
    case_decide; [done|]. destruct (aead_seal _ _ p) as [ct|]; [|done].
    destruct fate; [|done]. by destruct (checked_add_u64 _ 1).
  - unfold cs_recv, rd_recv. cbn [split_stream fst rd_frame rd_key rd_prefix rd_counter].
    destruct (pf_read _ src) as [[fr pf] src']. destruct fr as [ct| |]; [|done..].
    destruct (aead_open _ _ ct); [|done]. by destruct (checked_add_u64 _ 1).
Qed.
End session.

(** Reading a frame never trusts the announced length: from a well-formed
    reader on any input, the body buffer stays within [MAX_FRAME_BYTES + 16]
    bytes, a returned frame is at least a tag long, and a length outside that
    range is refused with [Oversize] as soon as the header is complete. *)
Theorem read_bounds pf src :
  pf_inv pf → src_wf src →
  let '(r, pf', _) := pf_read pf src in
  pf_inv pf' ∧ (blen (pf_body pf') ≤ MAX_FRAME_BYTES + 16)%Z ∧
  (∀ body, r = GotFrame body → (16 ≤ blen body ≤ MAX_FRAME_BYTES + 16)%Z) ∧
  (∀ len, parse_frame (pf_seen pf ++ flat src) = PBad len → r = FrameFailed (Oversize len)).
Proof.
  intros Hinv Hwf. pose proof (pf_read_spec _ _ Hinv Hwf) as Hs. unfold read_post in Hs.
  destruct (pf_read pf src) as [[r pf'] src']. destruct Hs as (Hinv' & _ & _ & Hs).
  split; [done|]. split; [destruct Hinv' as (_ & _ & [[-> _]|?]); [done|lia]|]. split.
  - intros body ->. destruct (parse_frame _) as [b rest| |] eqn:Hp;
      [destruct Hs as ([= ->] & _)|destruct (src_end src); naive_solver..].
    unfold parse_frame in Hp. repeat case_decide; simplify_eq.
    unfold blen. rewrite length_take, length_drop. lia.
  - intros len Hp. rewrite Hp in Hs. by destruct Hs.
Qed.

(** ** Concrete sessions *)

(** Two frames, delivered in pieces that split the header, the body and the
    second frame, with cancellations in between. *)
Definition wit_deliveries : list (list bytes) :=
  [[be_bytes 3 0]; []; [be_bytes 1 18; bytes_of "h"];
   [bytes_of "i" ++ toy_tag [] (build_nonce [] 0) ++ be_bytes 4 17 ++ bytes_of "!"
      ++ toy_tag [] (build_nonce [] 1)]].

Lemma session_delivers_payloads_witness :
  ∃ r', rd_session (H := toy_aead) 3 wit_deliveries
      {| rd_frame := default_PendingFrame; rd_key := []; rd_prefix := []; rd_counter := 0 |}
    = ([bytes_of "hi"; bytes_of "!"], None, r') ∧ rd_counter r' = 2%Z.
Proof.
  apply (session_delivers_payloads (H := toy_aead) (H0 := toy_aead_laws) [bytes_of "hi"; bytes_of "!"]
    wit_deliveries [] [] (concat (concat wit_deliveries))
    {| wr_key := []; wr_prefix := []; wr_counter := 2 |}).
  - vm_compute. reflexivity.
  - repeat constructor; discriminate.
  - reflexivity.
Defined.

Lemma sent_nonces_distinct_witness :
  NoDup (sent_nonces (wr_trace (H := toy_aead)
    [(Written, bytes_of "a"); (WriteFailed 2, bytes_of "b"); (Written, bytes_of "c")]
    {| wr_key := []; wr_prefix := bytes_of "init"; wr_counter := 0 |})).
Proof. apply (sent_nonces_distinct (H := toy_aead)); vm_compute; split; discriminate. Defined.

Lemma failed_write_reuses_nonce_witness :
  ∃ w1 w2, wr_send (H := toy_aead) (WriteFailed 7) (bytes_of "one")
      {| wr_key := []; wr_prefix := bytes_of "init"; wr_counter := 5 |} =
    (Err IoError, take 7 (be_bytes 4 19 ++ bytes_of "one" ++ toy_tag [] (bytes_of "init" ++ be_bytes 8 5)), w1) ∧
    wr_send (H := toy_aead) Written (bytes_of "two") w1 =
    (Ok tt, be_bytes 4 19 ++ bytes_of "two" ++ toy_tag [] (bytes_of "init" ++ be_bytes 8 5), w2).
Proof.
  apply (failed_write_reuses_nonce (H := toy_aead) (bytes_of "one") (bytes_of "two") 7
    {| wr_key := []; wr_prefix := bytes_of "init"; wr_counter := 5 |}
    (bytes_of "one" ++ toy_tag [] (bytes_of "init" ++ be_bytes 8 5))
    (bytes_of "two" ++ toy_tag [] (bytes_of "init" ++ be_bytes 8 5))); try reflexivity; discriminate.
Defined.

Lemma read_bounds_witness :
  let '(r, pf', _) := pf_read default_PendingFrame
    {| src_chunks := [be_bytes 4 9]; src_end := StillOpen |} in
  pf_inv pf' ∧ (blen (pf_body pf') ≤ MAX_FRAME_BYTES + 16)%Z ∧
  (∀ body, r = GotFrame body → (16 ≤ blen body ≤ MAX_FRAME_BYTES + 16)%Z) ∧
  (∀ len, parse_frame (be_bytes 4 9) = PBad len → r = FrameFailed (Oversize len)).
Proof.
  apply (read_bounds default_PendingFrame {| src_chunks := [be_bytes 4 9]; src_end := StillOpen |}).
  - unfold pf_inv; simpl. split_and!; [done|lia|by left].
  - repeat constructor. discriminate.
Defined.
