(* ===== verification/Conn.v ===== *)
(** * One end of a TCP connection

    The handshake, pairing and sync sessions are sequential programs over a
    socket.  A program here is a function of the connection: the bytes that
    will arrive, the bytes written so far, and how the coming writes will fare.
    It ends with a value, an error, or waiting: for input, or for a write that has stalled.  Because the output
    written while waiting depends only on the input consumed, two programs are
    run against each other by feeding each the other's output until nothing
    changes ([dialogue]). *)

From Stdlib Require Import Ascii ZArith Lia.
From S2P Require Import Prelude Primitives Cipher.

(** A write comes to an end, or stalls after some bytes while the peer does not read. *)
Inductive NetFate := NetWrite (fate : WriteFate) | NetStalled (sent : nat).

Record Conn := { cn_in : Source; cn_out : bytes; cn_fates : list NetFate }.

Inductive outcome (E A : Type) : Type :=
| Done (a : A)
| Failed (e : E)
| Waiting.
Arguments Done {E A} a.
Arguments Failed {E A} e.
Arguments Waiting {E A}.

(** A program over a state [S]. *)
Definition prog (S E A : Type) : Type := S → outcome E A * S.

Global Instance prog_ret S E : MRet (prog S E) := λ A a s, (Done a, s).
Global Instance prog_bind S E : MBind (prog S E) := λ A B k m s,
  match m s with
  | (Done a, s') => k a s'
  | (Failed e, s') => (Failed e, s')
  | (Waiting, s') => (Waiting, s')
  end.

Definition pfail {S E A} (e : E) : prog S E A := λ s, (Failed e, s).

(** [?] on a [Result]. *)
Definition plift {S E A} (r : result E A) : prog S E A :=
  match r with Ok a => mret a | Err e => pfail e end.

(** [.map_err(f)]. *)
Definition pmap_err {S E F A} (f : E → F) (m : prog S E A) : prog S F A := λ s,
  match m s with
  | (Done a, s') => (Done a, s')
  | (Failed e, s') => (Failed (f e), s')
  | (Waiting, s') => (Waiting, s')
  end.

(** Run a program on the part of the state that [get] and [put] pick out. *)
Definition zoom {S T E F A} (get : S → T) (put : T → S → S) (f : E → F) (m : prog T E A) : prog S F A := λ s,
  let '(o, c) := m (get s) in
  (match o with Done a => Done a | Failed e => Failed (f e) | Waiting => Waiting end, put c s).

(** A program over a connection. *)
Abbreviation conn := (prog Conn).

Definition next_fate (c : Conn) : NetFate * list NetFate :=
  match cn_fates c with [] => (NetWrite Written, []) | f :: fs => (f, fs) end.

(** [write_all] followed by [flush]. *)
Definition write_all (b : bytes) : conn FrameError unit := λ c,
  match next_fate c with
  | (NetWrite Written, fs) => (Done tt, {| cn_in := cn_in c; cn_out := cn_out c ++ b; cn_fates := fs |})
  | (NetWrite (WriteFailed n), fs) =>
    (Failed IoError, {| cn_in := cn_in c; cn_out := cn_out c ++ take n b; cn_fates := fs |})
  | (NetStalled n, fs) => (Waiting, {| cn_in := cn_in c; cn_out := cn_out c ++ take n b; cn_fates := fs |})
  end.

(** [read_exact] into a zeroed [n]-byte array. *)
Definition read_exact (n : nat) : conn FrameError bytes := λ c,
  let '(st, buf, _, src) := fill n (repeat (byte_of_Z 0) n) 0 (cn_in c) in
  let c' := {| cn_in := src; cn_out := cn_out c; cn_fates := cn_fates c |} in
  match st with
  | FillFull => (Done buf, c')
  | FillEof => (Failed IoUnexpectedEof, c')
  | FillErr => (Failed IoError, c')
  | _ => (Waiting, c')
  end.

Section aead.
Context `{AeadOps}.

Definition c_send (s : CipherStream) (payload : bytes) : conn FrameError CipherStream := λ c,
  let '(fate, fs) := next_fate c in
  let '(r, out, s') := cs_send (match fate with NetWrite f => f | NetStalled n => WriteFailed n end) payload s in
  let c' := {| cn_in := cn_in c; cn_out := cn_out c ++ out; cn_fates := fs |} in
  match r, fate with
  | Ok _, _ => (Done s', c')
  | Err IoError, NetStalled _ => (Waiting, c')
  | Err e, _ => (Failed e, c')
  end.

Definition c_recv (s : CipherStream) : conn FrameError (CipherStream * bytes) := λ c,
  let '(r, src, s') := cs_recv (cn_in c) s in
  let c' := {| cn_in := src; cn_out := cn_out c; cn_fates := cn_fates c |} in
  match r with
  | Some (Ok p) => (Done (s', p), c')
  | Some (Err e) => (Failed e, c')
  | None => (Waiting, c')
  end.
End aead.

(** A connection whose peer has sent [b] so far and whose writes all succeed. *)
Definition fresh_conn (b : bytes) : Conn :=
  {| cn_in := {| src_chunks := if decide (b = []) then [] else [b]; src_end := StillOpen |};
     cn_out := []; cn_fates := [] |}.

(** Two programs against each other, [n] rounds of exchanging what was written. *)
Fixpoint dialogue {E F A B} (n : nat) (p : conn E A) (q : conn F B)
    : (outcome E A * Conn) * (outcome F B * Conn) :=
  match n with
  | O => (p (fresh_conn []), q (fresh_conn []))
  | S n' =>
    let '((_, cp), (_, cq)) := dialogue n' p q in
    (p (fresh_conn (cn_out cq)), q (fresh_conn (cn_out cp)))
  end.

(** ** Laws of the connection monad *)

Lemma dialogue_S {E F A B} n (p : conn E A) (q : conn F B) :
  dialogue (S n) p q =
    (p (fresh_conn (cn_out (dialogue n p q).2.2)), q (fresh_conn (cn_out (dialogue n p q).1.2))).
Proof. simpl. by destruct (dialogue n p q) as [[? ?] [? ?]]. Qed.

Definition cn_wf (c : Conn) : Prop := src_wf (cn_in c).

Lemma fresh_conn_flat b : flat (cn_in (fresh_conn b)) = b ∧ cn_wf (fresh_conn b).
Proof.
  unfold fresh_conn, flat, cn_wf, src_wf; simpl. case_decide; subst; simpl; [done|].
  rewrite app_nil_r. split; [done|]. by constructor.
Qed.

Lemma bind_Done {S E A B} (m : prog S E A) (k : A → prog S E B) c b c' :
  (m ≫= k) c = (Done b, c') ↔ ∃ a c1, m c = (Done a, c1) ∧ k a c1 = (Done b, c').
Proof. unfold mbind, prog_bind. destruct (m c) as [[] ?]; naive_solver. Qed.

Lemma plift_Done {S E A} (r : result E A) (c : S) a c' :
  plift r c = (Done a, c') ↔ r = Ok a ∧ c' = c.
Proof. destruct r; unfold plift, mret, prog_ret, pfail; naive_solver. Qed.

Lemma pmap_err_Done {S E F A} (f : E → F) (m : prog S E A) c a c' :
  pmap_err f m c = (Done a, c') ↔ m c = (Done a, c').
Proof. unfold pmap_err. destruct (m c) as [[] ?]; naive_solver. Qed.

Lemma mret_Done {S E A} (a : A) (c : S) b c' : (mret a : prog S E A) c = (Done b, c') ↔ a = b ∧ c = c'.
Proof. unfold mret, prog_ret. naive_solver. Qed.

Lemma zoom_Done {S T E F A} (get : S → T) put (f : E → F) (m : prog T E A) s a s' :
  zoom get put f m s = (Done a, s') ↔ ∃ c, m (get s) = (Done a, c) ∧ s' = put c s.
Proof. unfold zoom. destruct (m (get s)) as [[] ?]; naive_solver. Qed.

(** Execution of one step, for running a program forwards. *)
Lemma zoom_done {S T E F A} (get : S → T) put (f : E → F) (m : prog T E A) s a c :
  m (get s) = (Done a, c) → zoom get put f m s = (Done a, put c s).
Proof. unfold zoom. by intros ->. Qed.

Lemma zoom_wait {S T E F A} (get : S → T) put (f : E → F) (m : prog T E A) s c :
  m (get s) = (Waiting, c) → zoom get put f m s = (Waiting, put c s).
Proof. unfold zoom. by intros ->. Qed.

Lemma bind_step {S E A B} (m : prog S E A) (k : A → prog S E B) c a c1 :
  m c = (Done a, c1) → (m ≫= k) c = k a c1.
Proof. unfold mbind, prog_bind. by intros ->. Qed.

Lemma bind_wait {S E A B} (m : prog S E A) (k : A → prog S E B) c c1 :
  m c = (Waiting, c1) → (m ≫= k) c = (Waiting, c1).
Proof. unfold mbind, prog_bind. by intros ->. Qed.

(** [read_exact] takes the first [n] bytes of the stream, however they arrive. *)
Lemma read_exact_Done n c b c' :
  cn_wf c → read_exact n c = (Done b, c') →
  length b = n ∧ flat (cn_in c) = b ++ flat (cn_in c') ∧ cn_wf c' ∧
  cn_out c' = cn_out c ∧ cn_fates c' = cn_fates c ∧ src_end (cn_in c') = src_end (cn_in c).
Proof.
  intros Hwf. unfold read_exact.
  edestruct (fill_absorb n (repeat (byte_of_Z 0) n) 0 (cn_in c)) as
    (st & buf & off & src & -> & Hl & Ho & Hs & Hw & He & _ & Hst); [done|lia|rewrite repeat_length; lia|].
  rewrite repeat_length in *. destruct Hst as [(-> & ->)|(-> & Hlt & Hf)].
  - intros [= <- <-]. simpl in *. rewrite firstn_all2 in Hs by lia. rewrite <-Hs. split_and!; done.
  - destruct (src_end (cn_in c)); done.
Qed.

Lemma read_exact_enough n c b rest :
  cn_wf c → flat (cn_in c) = b ++ rest → length b = n →
  ∃ src, read_exact n c = (Done b, {| cn_in := src; cn_out := cn_out c; cn_fates := cn_fates c |}) ∧
  flat src = rest ∧ src_wf src ∧ src_end src = src_end (cn_in c).
Proof.
  intros Hwf Hb Hn. unfold read_exact.
  edestruct (fill_absorb n (repeat (byte_of_Z 0) n) 0 (cn_in c)) as
    (st & buf & off & src & -> & Hl & Ho & Hs & Hw & He & _ & Hst); [done|lia|rewrite repeat_length; lia|].
  rewrite repeat_length in *. rewrite take_0 in Hs. simpl in Hs. rewrite Hb in Hs.
  destruct Hst as [(-> & ->)|(-> & Hlt & Hf)].
  - rewrite firstn_all2 in Hs by lia. apply app_inj_1 in Hs as [<- <-]; [|lia].
    eexists; split; [reflexivity|]. done.
  - apply (f_equal length) in Hs. rewrite Hf, !length_app, length_take in Hs. simpl in Hs. lia.
Qed.

Lemma read_exact_short n c :
  cn_wf c → length (flat (cn_in c)) < n → src_end (cn_in c) = StillOpen →
  ∃ src, read_exact n c = (Waiting, {| cn_in := src; cn_out := cn_out c; cn_fates := cn_fates c |}).
Proof.
  intros Hwf Hlt Hopen. unfold read_exact.
  edestruct (fill_absorb n (repeat (byte_of_Z 0) n) 0 (cn_in c)) as
    (st & buf & off & src & -> & Hl & Ho & Hs & Hw & He & _ & Hst); [done|lia|rewrite repeat_length; lia|].
  rewrite repeat_length in *. rewrite Hopen in *.
  destruct Hst as [(-> & ->)|(-> & _)]; simpl; [|by eexists].
  apply (f_equal length) in Hs. rewrite take_0, !length_app, length_take in Hs. simpl in Hs. lia.
Qed.

Lemma write_all_ok b c :
  cn_fates c = [] →
  write_all b c = (Done tt, {| cn_in := cn_in c; cn_out := cn_out c ++ b; cn_fates := [] |}).
Proof. intros Hf. unfold write_all, next_fate. by rewrite Hf. Qed.

Section aead_laws.
Context `{AeadLaws}.

(** A stream whose receiver is between frames. *)
Definition cs_idle (s : CipherStream) : Prop :=
  pf_inv (cs_recv_frame s) ∧ pf_seen (cs_recv_frame s) = [] ∧
  (0 ≤ cs_send_counter s < u64_MAX)%Z ∧ (0 ≤ cs_recv_counter s < u64_MAX)%Z.

(** The state after one successful [send] and after one successful [recv]. *)
Definition cs_sent (s : CipherStream) : CipherStream :=
  {| cs_send_key := cs_send_key s; cs_recv_key := cs_recv_key s;
     cs_send_prefix := cs_send_prefix s; cs_recv_prefix := cs_recv_prefix s;
     cs_send_counter := cs_send_counter s + 1; cs_recv_counter := cs_recv_counter s;
     cs_recv_frame := cs_recv_frame s; cs_transcript := cs_transcript s |}.

Definition cs_received (s : CipherStream) (pf : PendingFrame) : CipherStream :=
  {| cs_send_key := cs_send_key s; cs_recv_key := cs_recv_key s;
     cs_send_prefix := cs_send_prefix s; cs_recv_prefix := cs_recv_prefix s;
     cs_send_counter := cs_send_counter s; cs_recv_counter := cs_recv_counter s + 1;
     cs_recv_frame := pf; cs_transcript := cs_transcript s |}.

(** The wire form of one sealed frame. *)
Definition sealed (key prefix : bytes) (counter : Z) (p : bytes) (out : bytes) : Prop :=
  ∃ ct, aead_seal key (build_nonce prefix counter) p = Some ct ∧ (blen p ≤ MAX_FRAME_BYTES)%Z ∧
    out = be_bytes 4 (wrap_u32 (blen ct)) ++ ct.

Lemma c_send_ok s p c out :
  cn_fates c = [] → cs_idle s → sealed (cs_send_key s) (cs_send_prefix s) (cs_send_counter s) p out →
  c_send s p c = (Done (cs_sent s), {| cn_in := cn_in c; cn_out := cn_out c ++ out; cn_fates := [] |}).
Proof.
  intros Hf (_ & _ & Hc & _) (ct & Hs & Hmax & ->). unfold c_send, next_fate, cs_send, checked_add_u64.
  rewrite Hf, decide_False, Hs, decide_True by lia. done.
Qed.

Lemma sealed_parse key prefix ctr p out rest :
  sealed key prefix ctr p out → ∃ ct, parse_frame (out ++ rest) = PFrame ct rest ∧
    aead_open key (build_nonce prefix ctr) ct = Some p.
Proof.
  intros (ct & Hs & Hmax & ->). exists ct. split; [|by apply aead_open_seal].
  by eapply sealed_frame_parses.
Qed.

Lemma c_recv_ok s p c out rest :
  cn_wf c → cs_idle s → sealed (cs_recv_key s) (cs_recv_prefix s) (cs_recv_counter s) p out →
  flat (cn_in c) = out ++ rest →
  ∃ pf src, c_recv s c = (Done (cs_received s pf, p),
      {| cn_in := src; cn_out := cn_out c; cn_fates := cn_fates c |}) ∧
    flat src = rest ∧ src_wf src ∧ pf_inv pf ∧ pf_seen pf = [] ∧ src_end src = src_end (cn_in c).
Proof.
  intros Hwf (Hinv & Hseen & _ & Hc) Hs Hflat.
  destruct (sealed_parse _ _ _ _ _ rest Hs) as (ct & Hp & Ho).
  pose proof (pf_read_spec _ _ Hinv Hwf) as Hspec. unfold read_post in Hspec.
  rewrite Hseen, Hflat in Hspec. simpl in Hspec. rewrite Hp in Hspec.
  unfold c_recv, cs_recv, checked_add_u64.
  destruct (pf_read _ _) as [[fr pf'] src']. destruct Hspec as (? & ? & ? & -> & ? & ?).
  rewrite Ho, decide_True by lia. by eexists _, _.
Qed.

Lemma c_recv_wait s c :
  cn_wf c → cs_idle s → flat (cn_in c) = [] → src_end (cn_in c) = StillOpen →
  ∃ src, c_recv s c = (Waiting, {| cn_in := src; cn_out := cn_out c; cn_fates := cn_fates c |}).
Proof.
  intros Hwf (Hinv & Hseen & _ & _) Hf He.
  pose proof (pf_read_spec _ _ Hinv Hwf) as Hspec. unfold read_post in Hspec.
  rewrite Hseen, Hf, He in Hspec. rewrite parse_frame_short in Hspec by (simpl; lia).
  unfold c_recv, cs_recv. destruct (pf_read _ _) as [[fr pf'] src'].
  destruct Hspec as (_ & _ & _ & -> & _). simpl. by eexists.
Qed.
End aead_laws.
