(* ===== verification/Handshake.v ===== *)
(** * X25519 + ed25519 handshake ([crates/synbad-crypto/src/handshake.rs])

    [initiate] and [accept] as programs over one connection.  The random
    ephemeral secret and nonce are arguments. *)

From Stdlib Require Import Ascii ZArith Lia.
From S2P Require Import Prelude Primitives Cipher Conn.

Definition PROTOCOL_VERSION : Z := 1.
Definition TRANSCRIPT_DOMAIN : bytes := bytes_of "synbad-crypto-v1".
Definition HKDF_INFO : bytes := bytes_of "synbad-crypto-v1-keys".
Definition MAX_AUTH_FRAME_BYTES : nat := 1024.

(** The strings of [AuthDecode] render their cause. *)
Inductive DecodeCause := ByCipher (e : FrameError) | ByJson.

Inductive HandshakeError :=
| HsIo (e : FrameError)
| BadVersion (v : Z)
| AuthModeMismatch
| HsMalformed (what : string)
| BadPeerSignature
| UnexpectedPeer (got expected : string)
| UntrustedPeer
| AuthDecode (cause : DecodeCause).

Record AuthFrame := { af_machine_id : string; af_ed25519_pub_hex : string; af_sig_hex : string }.

Inductive PeerAuth :=
| PeerAuthenticated (machine_id : string) (public_key : bytes)
| PeerAnonymous.

Section handshake.
Context `{HexOps, Sha256Ops, Ed25519Ops, X25519Ops, HkdfOps, AeadOps, JsonOps AuthFrame}.

Inductive HandshakeMode :=
| Authenticated (our_signing_key : SigningKey) (our_machine_id : string)
| Anonymous.

Definition auth_flag (m : HandshakeMode) : Z :=
  match m with Authenticated _ _ => 1 | Anonymous => 0 end.

(** The bytes hashed into the transcript; role-fixed, not ours/theirs. *)
Definition transcript_hash (flag : Z) (init_pub nonce_i resp_pub nonce_r : bytes) : bytes :=
  sha256 (TRANSCRIPT_DOMAIN ++ [byte_of_Z PROTOCOL_VERSION; byte_of_Z flag]
          ++ init_pub ++ nonce_i ++ resp_pub ++ nonce_r).

Definition finalize_keys (initiator : bool) (our_eph_sk peer_eph_pk : bytes) (flag : Z)
    (init_pub resp_pub nonce_i nonce_r : bytes) : bytes * CipherStream :=
  let shared := x_dh our_eph_sk peer_eph_pk in
  let transcript := transcript_hash flag init_pub nonce_i resp_pub nonce_r in
  let okm := hkdf_expand transcript shared HKDF_INFO 72 in
  let k_i_to_r := take 32 okm in
  let k_r_to_i := take 32 (drop 32 okm) in
  let np_i_to_r := take 4 (drop 64 okm) in
  let np_r_to_i := take 4 (drop 68 okm) in
  (transcript,
   if initiator then cs_new k_i_to_r k_r_to_i np_i_to_r np_r_to_i
   else cs_new k_r_to_i k_i_to_r np_r_to_i np_i_to_r).

Definition our_auth_frame (key : SigningKey) (mid : string) (transcript : bytes) : AuthFrame :=
  {| af_machine_id := mid; af_ed25519_pub_hex := hex_encode (verifying_key key);
     af_sig_hex := hex_encode (sign key transcript) |}.

Definition send_auth_frame (cipher : CipherStream) (key : SigningKey) (mid : string)
    (transcript : bytes) : conn HandshakeError CipherStream :=
  body ← plift (ok_or (HsMalformed "json") (to_vec (our_auth_frame key mid transcript)));
  pmap_err (λ e, AuthDecode (ByCipher e)) (c_send cipher body).

Definition recv_auth_frame (cipher : CipherStream)
    : conn HandshakeError (CipherStream * AuthFrame) :=
  '(cipher', b) ← pmap_err (λ e, AuthDecode (ByCipher e)) (c_recv cipher);
  if decide (MAX_AUTH_FRAME_BYTES < length b) then pfail (HsMalformed "auth frame size")
  else frame ← plift (ok_or (AuthDecode ByJson) (from_slice b)); mret (cipher', frame).

Definition verify_auth_frame (frame : AuthFrame) (transcript : bytes) : result HandshakeError bytes :=
  let? pk_bytes := ok_or (HsMalformed "auth ed25519_pub_hex") (hex_decode (af_ed25519_pub_hex frame)) in
  let? pk := ok_or (HsMalformed "ed25519 key wrong length") (to_array 32 pk_bytes) in
  let? _ := if vk_valid pk then Ok tt else Err (HsMalformed "ed25519 key not on curve") in
  let? sig_bytes := ok_or (HsMalformed "auth sig_hex") (hex_decode (af_sig_hex frame)) in
  let? sig := ok_or (HsMalformed "sig wrong length") (to_array 64 sig_bytes) in
  if ed_verify pk transcript sig then Ok pk else Err BadPeerSignature.

Definition with_transcript (s : CipherStream) (t : bytes) : CipherStream :=
  {| cs_send_key := cs_send_key s; cs_recv_key := cs_recv_key s;
     cs_send_prefix := cs_send_prefix s; cs_recv_prefix := cs_recv_prefix s;
     cs_send_counter := cs_send_counter s; cs_recv_counter := cs_recv_counter s;
     cs_recv_frame := cs_recv_frame s; cs_transcript := t |}.

(** The authentication phase of the initiator: send first, then read. *)
Definition initiate_auth (mode : HandshakeMode) (expected_peer : option (string * bytes))
    (transcript : bytes) (cipher : CipherStream) : conn HandshakeError (CipherStream * PeerAuth) :=
  match mode with
  | Authenticated key mid =>
    cipher1 ← send_auth_frame cipher key mid transcript;
    '(cipher2, peer_frame) ← recv_auth_frame cipher1;
    peer_pk ← plift (verify_auth_frame peer_frame transcript);
    plift match expected_peer with
          | Some (want_id, want_pk) =>
            if decide (want_id = af_machine_id peer_frame) then
              if decide (want_pk = peer_pk) then Ok tt else Err BadPeerSignature
            else Err (UnexpectedPeer (af_machine_id peer_frame) want_id)
          | None => Ok tt
          end;;
    mret (cipher2, PeerAuthenticated (af_machine_id peer_frame) peer_pk)
  | Anonymous => mret (cipher, PeerAnonymous)
  end.

Definition initiate (eph_sk nonce_i : bytes) (mode : HandshakeMode)
    (expected_peer : option (string * bytes)) : conn HandshakeError (CipherStream * PeerAuth) :=
  let flag := auth_flag mode in
  let eph_pk := x_public eph_sk in
  pmap_err HsIo (write_all ([byte_of_Z PROTOCOL_VERSION; byte_of_Z flag] ++ eph_pk ++ nonce_i));;
  hello2 ← pmap_err HsIo (read_exact 48);
  let peer_eph_pk := take 32 hello2 in
  let nonce_r := drop 32 hello2 in
  let tc := finalize_keys true eph_sk peer_eph_pk flag eph_pk peer_eph_pk nonce_i nonce_r in
  '(cipher', peer) ← initiate_auth mode expected_peer tc.1 tc.2;
  mret (with_transcript cipher' tc.1, peer).

(** The authentication phase of the responder: read, check the trust store,
    only then answer. *)
Definition accept_auth (mode : HandshakeMode) (resolve_pubkey : string → option bytes)
    (transcript : bytes) (cipher : CipherStream) : conn HandshakeError (CipherStream * PeerAuth) :=
  match mode with
  | Authenticated key mid =>
    '(cipher1, peer_frame) ← recv_auth_frame cipher;
    peer_pk ← plift (verify_auth_frame peer_frame transcript);
    want_pk ← plift (ok_or UntrustedPeer (resolve_pubkey (af_machine_id peer_frame)));
    if decide (want_pk ≠ peer_pk) then pfail BadPeerSignature else
    cipher2 ← send_auth_frame cipher1 key mid transcript;
    mret (cipher2, PeerAuthenticated (af_machine_id peer_frame) peer_pk)
  | Anonymous => mret (cipher, PeerAnonymous)
  end.

Definition accept (eph_sk nonce_r : bytes) (mode : HandshakeMode)
    (resolve_pubkey : string → option bytes) : conn HandshakeError (CipherStream * PeerAuth) :=
  let want_flag := auth_flag mode in
  hello1 ← pmap_err HsIo (read_exact 50);
  let version := be_value (take 1 hello1) in
  let flag := be_value (take 1 (drop 1 hello1)) in
  if decide (version ≠ PROTOCOL_VERSION) then pfail (BadVersion version) else
  if decide (flag ≠ want_flag) then pfail AuthModeMismatch else
  let peer_eph_pk := take 32 (drop 2 hello1) in
  let nonce_i := take 16 (drop 34 hello1) in
  let eph_pk := x_public eph_sk in
  pmap_err HsIo (write_all (eph_pk ++ nonce_r));;
  let tc := finalize_keys false eph_sk peer_eph_pk want_flag peer_eph_pk eph_pk nonce_i nonce_r in
  '(cipher', peer) ← accept_auth mode resolve_pubkey tc.1 tc.2;
  mret (with_transcript cipher' tc.1, peer).

(** ** What success means *)

(** Some signature over [t] verifies under the valid key [pk]. *)
Definition vouched (pk t : bytes) : Prop :=
  length pk = 32 ∧ vk_valid pk = true ∧ ∃ sig, length sig = 64 ∧ ed_verify pk t sig = true.

Lemma verify_auth_frame_Ok fr t pk : verify_auth_frame fr t = Ok pk → vouched pk t.
Proof.
  unfold verify_auth_frame, vouched. intros Hv. invert_ok.
  repeat match goal with H : to_array _ _ = Some _ |- _ => apply to_array_Some in H as [? ?]; subst end.
  destruct (vk_valid _) eqn:?; invert_ok. destruct (ed_verify _ _ _) eqn:?; invert_ok. naive_solver.
Qed.

(** Take a successful run apart. *)
Ltac run_done :=
  repeat match goal with
  | H : (_ ≫= _) _ = (Done _, _) |- _ => apply bind_Done in H as (? & ? & ? & H)
  | H : plift _ _ = (Done _, _) |- _ => apply plift_Done in H as [H ?]; subst
  | H : pmap_err _ _ _ = (Done _, _) |- _ => apply pmap_err_Done in H
  | H : mret _ _ = (Done _, _) |- _ => apply mret_Done in H as [? ?]; subst
  | H : ok_or _ _ = Ok _ |- _ => apply ok_or_Ok in H
  | x : _ * _ |- _ => destruct x
  | H : (let '(_, _) := ?p in _) = _ |- _ => destruct p
  | H : pfail _ _ = (Done _, _) |- _ => discriminate H
  | H : (_, _) = (_, _) |- _ => apply pair_eq in H as [? ?]; subst
  end.

Lemma accept_auth_Done key me resolve t s c s' peer c' :
  accept_auth (Authenticated key me) resolve t s c = (Done (s', peer), c') →
  ∃ mid pk, peer = PeerAuthenticated mid pk ∧ resolve mid = Some pk ∧ vouched pk t.
Proof.
  unfold accept_auth. intros Hrun. run_done. case_decide as Hd; run_done. simplify_eq.
  eexists _, _. split; [done|]. split; [done|]. by eapply verify_auth_frame_Ok.
Qed.

Lemma initiate_auth_Done key me mid pk t s c s' peer c' :
  initiate_auth (Authenticated key me) (Some (mid, pk)) t s c = (Done (s', peer), c') →
  peer = PeerAuthenticated mid pk ∧ vouched pk t.
Proof.
  unfold initiate_auth. intros Hrun. run_done. repeat case_decide; simplify_eq.
  split; [done|]. by eapply verify_auth_frame_Ok.
Qed.

Lemma accept_Done eph_sk nonce_r key me resolve c s peer c' :
  accept eph_sk nonce_r (Authenticated key me) resolve c = (Done (s, peer), c') →
  ∃ mid pk, peer = PeerAuthenticated mid pk ∧ resolve mid = Some pk ∧ vouched pk (cs_transcript s).
Proof.
  intros Hrun. unfold accept in Hrun. apply bind_Done in Hrun as (h & c1 & _ & Hrun).
  case_decide; [done|]. case_decide; [done|]. run_done.
  match goal with H : accept_auth _ _ _ _ _ = _ |- _ => by apply accept_auth_Done in H end.
Qed.

Lemma initiate_Done eph_sk nonce_i key me mid pk c s peer c' :
  initiate eph_sk nonce_i (Authenticated key me) (Some (mid, pk)) c = (Done (s, peer), c') →
  peer = PeerAuthenticated mid pk ∧ vouched pk (cs_transcript s).
Proof.
  intros Hrun. unfold initiate in Hrun. run_done.
  match goal with H : initiate_auth _ _ _ _ _ = _ |- _ => by apply initiate_auth_Done in H end.
Qed.

(** C10: a responder in authenticated mode that returns a channel has an
    initiator that the trust store resolves: the reported machine id maps to
    the reported key, and that key signed the transcript that contains this
    responder's own fresh ephemeral key and nonce and the hello that opened the
    connection.  The channel carries that transcript. *)
Theorem accept_authenticates eph_sk nonce_r key me resolve c s peer c' :
  cn_wf c →
  accept eph_sk nonce_r (Authenticated key me) resolve c = (Done (s, peer), c') →
  ∃ mid pk init_pub nonce_i rest,
    peer = PeerAuthenticated mid pk ∧ resolve mid = Some pk ∧
    flat (cn_in c) = [byte_of_Z 1; byte_of_Z 1] ++ init_pub ++ nonce_i ++ rest ∧
    length init_pub = 32 ∧ length nonce_i = 16 ∧
    cs_transcript s = transcript_hash 1 init_pub nonce_i (x_public eph_sk) nonce_r ∧
    vouched pk (cs_transcript s).
Proof.
  intros Hwf Hrun. unfold accept in Hrun. apply bind_Done in Hrun as (h & c1 & Hr & Hrun).
  apply pmap_err_Done in Hr. apply read_exact_Done in Hr as (Hl & Hf & _); [|done].
  case_decide as H6; [done|]. case_decide as H7; [done|].
  run_done.
  match goal with H : accept_auth _ _ _ _ _ = _ |- _ =>
    apply accept_auth_Done in H as (mid & pk & -> & Hres & Hv) end.
  destruct h as [|v [|f h]]; [done..|]. simpl in Hl.
  assert (v = byte_of_Z 1 ∧ f = byte_of_Z 1) as [-> ->].
  { change (be_value [v] = 1%Z) in H6. change (be_value [f] = 1%Z) in H7.
    rewrite be_value_singleton in H6, H7.
    by rewrite <-(byte_of_Z_of_byte v), <-(byte_of_Z_of_byte f), H6, H7. }
  exists mid, pk, (take 32 h), (take 16 (drop 32 h)), (flat (cn_in c1)).
  split; [done|]. split; [done|].
  split; [rewrite Hf; cbn [app]; do 2 f_equal; rewrite app_assoc|].
  { by rewrite take_take_drop, firstn_all2 by lia. }
  rewrite !length_take, length_drop. split; [lia|]. split; [lia|]. by split.
Qed.

(** An initiator that names the peer it dials gets that peer or an error:
    a returned channel reports exactly the expected id and key, and that key
    signed the transcript with the initiator's own ephemeral key and nonce. *)
Theorem initiate_authenticates eph_sk nonce_i key me mid pk c s peer c' :
  initiate eph_sk nonce_i (Authenticated key me) (Some (mid, pk)) c = (Done (s, peer), c') →
  peer = PeerAuthenticated mid pk ∧
  ∃ resp_pub nonce_r, cs_transcript s = transcript_hash 1 (x_public eph_sk) nonce_i resp_pub nonce_r ∧
    vouched pk (cs_transcript s).
Proof.
  intros Hrun. unfold initiate in Hrun. run_done.
  match goal with H : initiate_auth _ _ _ _ _ = _ |- _ =>
    apply initiate_auth_Done in H as (-> & Hv) end. split; [done|]. eexists _, _. by split.
Qed.
End handshake.

(** ** Two honest ends *)

Section honest.
Context `{HexLaws, Sha256Ops, Ed25519Laws, X25519Laws, HkdfLaws, AeadLaws, JsonLaws AuthFrame}.

(** The two ends of one channel: each sends under the key, prefix and counter
    the other receives under, and both hold the same transcript. *)
Definition mirrored (a b : CipherStream) : Prop :=
  cs_send_key a = cs_recv_key b ∧ cs_recv_key a = cs_send_key b ∧
  cs_send_prefix a = cs_recv_prefix b ∧ cs_recv_prefix a = cs_send_prefix b ∧
  cs_send_counter a = cs_recv_counter b ∧ cs_recv_counter a = cs_send_counter b ∧
  cs_transcript a = cs_transcript b ∧ cs_idle a ∧ cs_idle b.

Definition hello1 (sk ni : bytes) (flag : Z) : bytes :=
  [byte_of_Z PROTOCOL_VERSION; byte_of_Z flag] ++ x_public sk ++ ni.
Definition hello2 (sk nr : bytes) : bytes := x_public sk ++ nr.

Definition idle_conn (c : Conn) : Prop :=
  cn_wf c ∧ cn_fates c = [] ∧ src_end (cn_in c) = StillOpen.

Lemma cs_new_idle k1 k2 p1 p2 : cs_idle (cs_new k1 k2 p1 p2).
Proof. unfold cs_idle, pf_inv, u64_MAX; simpl. split_and!; try done; try lia; by left. Qed.

Lemma cs_idle_step s pf :
  cs_idle s → pf_inv pf → pf_seen pf = [] →
  (cs_send_counter s + 1 < u64_MAX)%Z → (cs_recv_counter s + 1 < u64_MAX)%Z →
  cs_idle (cs_sent s) ∧ cs_idle (cs_received s pf).
Proof. unfold cs_idle. simpl. intros (? & ? & ? & ?) ? ? ? ?. split_and!; try done; lia. Qed.

(** Key derivation gives both ends the same material, mirrored. *)
Lemma finalize_keys_mirrored ski skr ni nr flag :
  let a := finalize_keys true ski (x_public skr) flag (x_public ski) (x_public skr) ni nr in
  let b := finalize_keys false skr (x_public ski) flag (x_public ski) (x_public skr) ni nr in
  a.1 = b.1 ∧ mirrored a.2 b.2 ∧ length (cs_send_key a.2) = 32 ∧ length (cs_send_prefix a.2) = 4 ∧
  length (cs_send_key b.2) = 32 ∧ length (cs_send_prefix b.2) = 4.
Proof.
  unfold finalize_keys. cbn [fst snd]. rewrite (x_dh_comm skr ski).
  set (okm := hkdf_expand _ _ _ _). assert (length okm = 72) as Hl by (apply hkdf_length; lia).
  unfold mirrored. split_and!; try done; try apply cs_new_idle; simpl;
    rewrite !length_take, ?length_drop; lia.
Qed.

Lemma take_hello2 skr nr : take 32 (hello2 skr nr) = x_public skr ∧ drop 32 (hello2 skr nr) = nr.
Proof.
  unfold hello2. pose proof (x_public_length skr) as Hl. split.
  - rewrite take_app_le, firstn_all2; lia || done.
  - rewrite drop_app_ge by lia. by rewrite Hl, Nat.sub_diag.
Qed.

Lemma take_hello1 ski ni flag :
  length ni = 16 → (0 ≤ flag < 256)%Z →
  be_value (take 1 (hello1 ski ni flag)) = PROTOCOL_VERSION ∧
  be_value (take 1 (drop 1 (hello1 ski ni flag))) = flag ∧
  take 32 (drop 2 (hello1 ski ni flag)) = x_public ski ∧
  take 16 (drop 34 (hello1 ski ni flag)) = ni ∧ length (hello1 ski ni flag) = 50.
Proof.
  intros Hni Hf. unfold hello1. pose proof (x_public_length ski) as Hl.
  rewrite length_app, length_app, Hl, Hni. cbn [app take drop length]. rewrite !be_value_singleton, !Z_of_byte_of_Z.
  split; [done|]. split; [by rewrite Z.mod_small|].
  split; [rewrite drop_0, take_app_le, firstn_all2; lia || done|].
  split; [|done]. rewrite drop_app_ge by lia. rewrite Hl. by rewrite Nat.sub_diag, drop_0, firstn_all2 by lia.
Qed.

Lemma initiate_hello ski ni mode expected c :
  idle_conn c →
  (flat (cn_in c) = [] →
   ∃ src, initiate ski ni mode expected c =
     (Waiting, {| cn_in := src; cn_out := cn_out c ++ hello1 ski ni (auth_flag mode); cn_fates := [] |})) ∧
  (∀ skr nr rest, length nr = 16 → flat (cn_in c) = hello2 skr nr ++ rest →
   let tc := finalize_keys true ski (x_public skr) (auth_flag mode) (x_public ski) (x_public skr) ni nr in
   ∃ c1, idle_conn c1 ∧ flat (cn_in c1) = rest ∧ cn_out c1 = cn_out c ++ hello1 ski ni (auth_flag mode) ∧
     initiate ski ni mode expected c =
       ('(cipher', peer) ← initiate_auth mode expected tc.1 tc.2;
        mret (with_transcript cipher' tc.1, peer)) c1).
Proof.
  intros (Hwf & Hf & He). unfold initiate. fold (hello1 ski ni (auth_flag mode)). set (h1 := hello1 _ _ _).
  assert (pmap_err HsIo (write_all h1) c = (Done tt, {| cn_in := cn_in c; cn_out := cn_out c ++ h1; cn_fates := [] |})) as Hw.
  { unfold pmap_err. by rewrite write_all_ok. }
  split.
  - intros Hflat. rewrite (bind_step _ _ _ _ _ Hw).
    edestruct (read_exact_short 48 {| cn_in := cn_in c; cn_out := cn_out c ++ h1; cn_fates := [] |}) as (src & Hr);
      [done|simpl; rewrite Hflat; simpl; lia|done|].
    exists src. apply bind_wait. unfold pmap_err. by rewrite Hr.
  - intros skr nr rest Hnr Hflat. rewrite (bind_step _ _ _ _ _ Hw).
    edestruct (read_exact_enough 48 {| cn_in := cn_in c; cn_out := cn_out c ++ h1; cn_fates := [] |})
      as (src & Hr & Hrest & Hwf' & He'); [done|exact Hflat|
        unfold hello2; rewrite length_app, x_public_length; lia|].
    eexists. split; [|split; [|split; [|erewrite (bind_step _ _ _ (hello2 skr nr));
      [|unfold pmap_err; by rewrite Hr]]]]; cycle 3.
    { destruct (take_hello2 skr nr) as [-> ->]. reflexivity. }
    { split_and!; try done. by simpl in *; rewrite He'. } { done. } { done. }
Qed.

Lemma accept_hello skr nr mode resolve c :
  idle_conn c → length nr = 16 →
  (flat (cn_in c) = [] →
   ∃ src, accept skr nr mode resolve c = (Waiting, {| cn_in := src; cn_out := cn_out c; cn_fates := [] |})) ∧
  (∀ ski ni rest, length ni = 16 → flat (cn_in c) = hello1 ski ni (auth_flag mode) ++ rest →
   let tc := finalize_keys false skr (x_public ski) (auth_flag mode) (x_public ski) (x_public skr) ni nr in
   ∃ c1, idle_conn c1 ∧ flat (cn_in c1) = rest ∧ cn_out c1 = cn_out c ++ hello2 skr nr ∧
     accept skr nr mode resolve c =
       ('(cipher', peer) ← accept_auth mode resolve tc.1 tc.2;
        mret (with_transcript cipher' tc.1, peer)) c1).
Proof.
  intros (Hwf & Hf & He) Hnr. unfold accept. split.
  - intros Hflat. destruct (read_exact_short 50 c) as (src & Hr); [done|rewrite Hflat; simpl; lia|done|].
    exists src. apply bind_wait. unfold pmap_err. by rewrite Hr, Hf.
  - intros ski ni rest Hni Hflat.
    destruct (take_hello1 ski ni (auth_flag mode)) as (Hv & Hfl & Hpk & Hn & Hlen); [done|destruct mode; simpl; lia|].
    destruct (read_exact_enough 50 c _ _ Hwf Hflat Hlen) as (src & Hr & Hrest & Hwf' & He').
    eexists. split; [|split; [|split; [|erewrite (bind_step _ _ _ (hello1 ski ni (auth_flag mode)));
      [|unfold pmap_err; by rewrite Hr]]]]; cycle 3.
    { rewrite Hv, Hfl, Hpk, Hn. rewrite !decide_False by auto.
      erewrite (bind_step _ _ _ tt); [reflexivity|]. unfold pmap_err. rewrite write_all_ok by done. reflexivity. }
    { split_and!; try done. by simpl in *; rewrite He'. } { done. } { done. }
Qed.

Definition keyed (key prefix : bytes) : Prop := length key = 32 ∧ length prefix = 4.

Lemma seal_exists key prefix ctr p :
  keyed key prefix → (blen p ≤ MAX_FRAME_BYTES)%Z → ∃ out, sealed key prefix ctr p out ∧ out ≠ [].
Proof.
  intros [Hk Hp] Hl. destruct (aead_seal_total key (build_nonce prefix ctr) p) as [ct Hct]; [done| | |].
  - unfold build_nonce. rewrite length_app, be_bytes_length, Hp. done.
  - unfold MAX_FRAME_BYTES in *. lia.
  - eexists. split; [by exists ct|]. intros Hnil%app_nil. destruct Hnil as [Hnil _].
    by apply (f_equal length) in Hnil; rewrite be_bytes_length in Hnil.
Qed.

Lemma send_auth_ok s key mid t js c out :
  to_vec (our_auth_frame key mid t) = Some js → cs_idle s → idle_conn c →
  sealed (cs_send_key s) (cs_send_prefix s) (cs_send_counter s) js out →
  send_auth_frame s key mid t c =
    (Done (cs_sent s), {| cn_in := cn_in c; cn_out := cn_out c ++ out; cn_fates := [] |}).
Proof.
  intros Hjs Hs (_ & Hf & _) Hout. unfold send_auth_frame. rewrite Hjs. cbn [ok_or plift].
  rewrite (bind_step _ _ _ js c) by done. unfold pmap_err. by rewrite (c_send_ok s js c out).
Qed.

Lemma recv_auth_ok s key mid t js c out rest :
  to_vec (our_auth_frame key mid t) = Some js → length js ≤ MAX_AUTH_FRAME_BYTES →
  cs_idle s → idle_conn c → sealed (cs_recv_key s) (cs_recv_prefix s) (cs_recv_counter s) js out →
  flat (cn_in c) = out ++ rest →
  ∃ pf c1, recv_auth_frame s c = (Done (cs_received s pf, our_auth_frame key mid t), c1) ∧
    idle_conn c1 ∧ flat (cn_in c1) = rest ∧ cn_out c1 = cn_out c ∧ pf_inv pf ∧ pf_seen pf = [].
Proof.
  intros Hjs Hlen Hs (Hwf & Hf & He) Hout Hflat.
  destruct (c_recv_ok s js c out rest) as (pf & src & Hr & Hrest & Hwf' & Hinv & Hseen & He'); try done.
  eexists pf, _. unfold recv_auth_frame. erewrite bind_step by (unfold pmap_err; by rewrite Hr).
  cbn beta iota. rewrite decide_False by lia. rewrite (from_slice_to_vec _ _ Hjs). cbn [ok_or plift].
  erewrite bind_step by done. split; [reflexivity|]. split; [split; [exact Hwf'|split; simpl; congruence]|done].
Qed.

Lemma recv_auth_wait s c :
  cs_idle s → idle_conn c → flat (cn_in c) = [] →
  ∃ src, recv_auth_frame s c = (Waiting, {| cn_in := src; cn_out := cn_out c; cn_fates := [] |}).
Proof.
  intros Hs (Hwf & Hf & He) Hflat. destruct (c_recv_wait s c) as (src & Hr); try done.
  exists src. unfold recv_auth_frame. apply bind_wait. unfold pmap_err. by rewrite Hr, Hf.
Qed.

Lemma verify_own_frame key mid t :
  verify_auth_frame (our_auth_frame key mid t) t = Ok (verifying_key key).
Proof.
  unfold verify_auth_frame, our_auth_frame; simpl. rewrite !hex_decode_encode. cbn [ok_or rbind].
  unfold to_array. rewrite verifying_key_length, decide_True by done. cbn [ok_or rbind].
  rewrite verifying_key_valid. cbn [rbind]. rewrite sign_length, decide_True by done.
  cbn [ok_or rbind]. by rewrite sign_verifies.
Qed.

(** The responder, given the initiator's authentication frame. *)
Lemma accept_auth_ok kr idr ki idi resolve t s c jsi jsr ai ar rest :
  to_vec (our_auth_frame ki idi t) = Some jsi → length jsi ≤ MAX_AUTH_FRAME_BYTES →
  to_vec (our_auth_frame kr idr t) = Some jsr → resolve idi = Some (verifying_key ki) →
  cs_idle s → (cs_send_counter s + 1 < u64_MAX)%Z → (cs_recv_counter s + 1 < u64_MAX)%Z → idle_conn c →
  sealed (cs_recv_key s) (cs_recv_prefix s) (cs_recv_counter s) jsi ai →
  sealed (cs_send_key s) (cs_send_prefix s) (cs_send_counter s) jsr ar →
  flat (cn_in c) = ai ++ rest →
  ∃ pf c1, accept_auth (Authenticated kr idr) resolve t s c =
    (Done (cs_sent (cs_received s pf), PeerAuthenticated idi (verifying_key ki)), c1) ∧
    idle_conn c1 ∧ flat (cn_in c1) = rest ∧ cn_out c1 = cn_out c ++ ar ∧ pf_inv pf ∧ pf_seen pf = [].
Proof.
  intros Hji Hli Hjr Hres Hs Hc1 Hc2 Hc Hai Har Hflat. unfold accept_auth.
  destruct (recv_auth_ok s ki idi t jsi c ai rest) as (pf & c1 & Hr & Hc' & Hrest & Hout & Hpf & Hseen); try done.
  rewrite (bind_step _ _ _ _ _ Hr). cbn beta iota. rewrite verify_own_frame. cbn [plift].
  erewrite bind_step by done. cbn [our_auth_frame af_machine_id]. rewrite Hres. cbn [ok_or plift].
  erewrite bind_step by done. rewrite decide_False by (intros Hn; by apply Hn).
  erewrite bind_step by (eapply (send_auth_ok (cs_received s pf)); [done|by apply cs_idle_step|done|done]).
  eexists pf, _. split; [reflexivity|]. simpl. rewrite Hout. destruct Hc' as (? & ? & ?). by split_and!.
Qed.

(** The initiator, before and after the responder's frame arrives. *)
Lemma initiate_auth_ok ki idi kr idr t s c jsi jsr ai ar rest :
  to_vec (our_auth_frame ki idi t) = Some jsi →
  to_vec (our_auth_frame kr idr t) = Some jsr → length jsr ≤ MAX_AUTH_FRAME_BYTES →
  cs_idle s → (cs_send_counter s + 1 < u64_MAX)%Z → (cs_recv_counter s + 1 < u64_MAX)%Z → idle_conn c →
  sealed (cs_send_key s) (cs_send_prefix s) (cs_send_counter s) jsi ai →
  sealed (cs_recv_key s) (cs_recv_prefix s) (cs_recv_counter s) jsr ar →
  (flat (cn_in c) = [] → ∃ src,
     initiate_auth (Authenticated ki idi) (Some (idr, verifying_key kr)) t s c =
     (Waiting, {| cn_in := src; cn_out := cn_out c ++ ai; cn_fates := [] |})) ∧
  (flat (cn_in c) = ar ++ rest → ∃ pf c1,
     initiate_auth (Authenticated ki idi) (Some (idr, verifying_key kr)) t s c =
     (Done (cs_received (cs_sent s) pf, PeerAuthenticated idr (verifying_key kr)), c1) ∧
     idle_conn c1 ∧ flat (cn_in c1) = rest ∧ cn_out c1 = cn_out c ++ ai ∧ pf_inv pf ∧ pf_seen pf = []).
Proof.
  intros Hji Hjr Hlr Hs Hc1 Hc2 Hc Hai Har. unfold initiate_auth.
  pose proof (send_auth_ok s ki idi t jsi c ai Hji Hs Hc Hai) as Hsend. set (c1 := Build_Conn _ _ _) in Hsend.
  assert (idle_conn c1) as Hc' by (destruct Hc as (? & ? & ?); by split_and!).
  assert (cs_idle (cs_sent s)) as Hs' by (eapply (cs_idle_step s default_PendingFrame); try done; split_and!; [done|simpl; lia|by left]).
  split; intros Hflat; rewrite (bind_step _ _ _ _ _ Hsend).
  - destruct (recv_auth_wait (cs_sent s) c1) as (src & Hr); try done.
    exists src. rewrite (bind_wait _ _ _ _ Hr). done.
  - destruct (recv_auth_ok (cs_sent s) kr idr t jsr c1 ar rest) as (pf & c2 & Hr & Hid & Hrest & Hout & Hpf & Hseen); try done.
    rewrite (bind_step _ _ _ _ _ Hr). cbn beta iota. rewrite verify_own_frame. cbn [plift].
    erewrite bind_step by done. cbn [our_auth_frame af_machine_id]. rewrite !decide_True by done. cbn [plift].
    erewrite bind_step by done. eexists pf, c2. split; [reflexivity|]. done.
Qed.

Lemma fresh_idle b : idle_conn (fresh_conn b).
Proof. split_and!; try done. apply fresh_conn_flat. Qed.

Lemma mirrored_after_auth a b t pf pf' :
  mirrored a b → (cs_send_counter a + 1 < u64_MAX)%Z → (cs_recv_counter a + 1 < u64_MAX)%Z →
  pf_inv pf → pf_seen pf = [] → pf_inv pf' → pf_seen pf' = [] →
  mirrored (with_transcript (cs_received (cs_sent a) pf) t)
           (with_transcript (cs_sent (cs_received b pf')) t).
Proof.
  unfold mirrored, cs_idle. simpl. intros (? & ? & ? & ? & ? & ? & ? & (? & ? & ? & ?) & (? & ? & ? & ?)) ? ? ? ? ? ?.
  split_and!; try done; lia || congruence.
Qed.

(** Without authentication the hellos are the whole handshake: both ends return
    mirrored channels as soon as the other's hello is there, and leave what
    follows it unread. *)
Lemma anonymous_stages ski skr ni nr resolve :
  length ni = 16 → length nr = 16 →
  ∃ a b h1 h2, mirrored a b ∧ keyed (cs_send_key a) (cs_send_prefix a) ∧ keyed (cs_send_key b) (cs_send_prefix b) ∧
    cs_send_counter a = 0%Z ∧ cs_recv_counter a = 0%Z ∧
    (∃ c, initiate ski ni Anonymous None (fresh_conn []) = (Waiting, c) ∧ cn_out c = h1) ∧
    (∃ c, accept skr nr Anonymous resolve (fresh_conn []) = (Waiting, c) ∧ cn_out c = []) ∧
    (∀ rest, ∃ c, initiate ski ni Anonymous None (fresh_conn (h2 ++ rest)) = (Done (a, PeerAnonymous), c) ∧
       idle_conn c ∧ flat (cn_in c) = rest ∧ cn_out c = h1) ∧
    (∀ rest, ∃ c, accept skr nr Anonymous resolve (fresh_conn (h1 ++ rest)) = (Done (b, PeerAnonymous), c) ∧
       idle_conn c ∧ flat (cn_in c) = rest ∧ cn_out c = h2).
Proof.
  intros Hni Hnr. destruct (finalize_keys_mirrored ski skr ni nr 0) as (Ht & Hmir & Hki & Hpi & Hkr & Hpr).
  set (a := finalize_keys true _ _ _ _ _ _ _) in *. set (b := finalize_keys false _ _ _ _ _ _ _) in *.
  exists (with_transcript a.2 a.1), (with_transcript b.2 b.1), (hello1 ski ni 0), (hello2 skr nr).
  pose proof (initiate_hello ski ni Anonymous None) as HI.
  pose proof (λ c H, accept_hello skr nr Anonymous resolve c H Hnr) as HR. cbn [auth_flag] in HI, HR.
  split; [by destruct Hmir as (?&?&?&?&?&?&_&?&?); split_and!; try done; by rewrite Ht|].
  split; [done|]. split; [done|]. split; [done|]. split; [done|]. split_and!.
  - destruct (HI _ (fresh_idle [])) as [Hw _]. destruct (Hw eq_refl) as [? ->]. by eexists.
  - destruct (HR _ (fresh_idle [])) as [Hw _]. destruct (Hw eq_refl) as [? ->]. by eexists.
  - intros rest. destruct (HI _ (fresh_idle (hello2 skr nr ++ rest))) as [_ Hg].
    destruct (Hg skr nr rest Hnr) as (c & Hc & Hf & Ho & ->); [apply fresh_conn_flat|]. by exists c.
  - intros rest. destruct (HR _ (fresh_idle (hello1 ski ni 0 ++ rest))) as [_ Hg].
    destruct (Hg ski ni rest Hni) as (c & Hc & Hf & Ho & ->); [apply fresh_conn_flat|]. by exists c.
Qed.

Section run.
Context (ski skr ni nr : bytes) (ki kr : SigningKey) (idi idr : string) (resolve : string → option bytes).
Let t := transcript_hash 1 (x_public ski) ni (x_public skr) nr.
Context (jsi jsr : bytes).
Hypothesis Hni : length ni = 16.
Hypothesis Hnr : length nr = 16.
Hypothesis Hres : resolve idi = Some (verifying_key ki).
Hypothesis Hji : to_vec (our_auth_frame ki idi t) = Some jsi.
Hypothesis Hli : length jsi ≤ MAX_AUTH_FRAME_BYTES.
Hypothesis Hjr : to_vec (our_auth_frame kr idr t) = Some jsr.
Hypothesis Hlr : length jsr ≤ MAX_AUTH_FRAME_BYTES.

Let I := initiate ski ni (Authenticated ki idi) (Some (idr, verifying_key kr)).
Let R := accept skr nr (Authenticated kr idr) resolve.
Let h1 := hello1 ski ni 1.
Let h2 := hello2 skr nr.

Let a := (finalize_keys true ski (x_public skr) 1 (x_public ski) (x_public skr) ni nr).2.
Let b := (finalize_keys false skr (x_public ski) 1 (x_public ski) (x_public skr) ni nr).2.

(** The channels the two ends finish with; [pf] is the receiver's frame buffer. *)
Definition init_chan (pf : PendingFrame) : CipherStream := with_transcript (cs_received (cs_sent a) pf) t.
Definition resp_chan (pf : PendingFrame) : CipherStream := with_transcript (cs_sent (cs_received b pf)) t.

Lemma chans_mirrored pf pf' :
  pf_inv pf → pf_seen pf = [] → pf_inv pf' → pf_seen pf' = [] → mirrored (init_chan pf) (resp_chan pf').
Proof.
  intros. apply mirrored_after_auth; try done. apply (finalize_keys_mirrored ski skr ni nr 1).
Qed.

Lemma chans_keyed pf :
  keyed (cs_send_key (init_chan pf)) (cs_send_prefix (init_chan pf)) ∧
  keyed (cs_send_key (resp_chan pf)) (cs_send_prefix (resp_chan pf)) ∧
  cs_send_counter (init_chan pf) = 1%Z ∧ cs_recv_counter (init_chan pf) = 1%Z ∧ cs_transcript (init_chan pf) = t.
Proof. unfold keyed. destruct (finalize_keys_mirrored ski skr ni nr 1) as (_ & _ & ? & ? & ? & ?). done. Qed.

(** The runs the exchange goes through; each end finishes whatever follows its
    last handshake byte, and leaves it unread. *)
Lemma honest_stages :
  ∃ ai ar,
    (∃ c, I (fresh_conn []) = (Waiting, c) ∧ cn_out c = h1) ∧
    (∃ c, R (fresh_conn []) = (Waiting, c) ∧ cn_out c = []) ∧
    (∃ c, R (fresh_conn h1) = (Waiting, c) ∧ cn_out c = h2) ∧
    (∃ c, I (fresh_conn h2) = (Waiting, c) ∧ cn_out c = h1 ++ ai) ∧
    (∀ rest, ∃ pf c, I (fresh_conn (h2 ++ ar ++ rest)) = (Done (init_chan pf, PeerAuthenticated idr (verifying_key kr)), c) ∧
       idle_conn c ∧ flat (cn_in c) = rest ∧ cn_out c = h1 ++ ai ∧ pf_inv pf ∧ pf_seen pf = []) ∧
    (∀ rest, ∃ pf c, R (fresh_conn (h1 ++ ai ++ rest)) = (Done (resp_chan pf, PeerAuthenticated idi (verifying_key ki)), c) ∧
       idle_conn c ∧ flat (cn_in c) = rest ∧ cn_out c = h2 ++ ar ∧ pf_inv pf ∧ pf_seen pf = []).
Proof.
  destruct (finalize_keys_mirrored ski skr ni nr 1) as (_ & Hmir & Hki & Hpi & Hkr & Hpr).
  fold a b in Hmir, Hki, Hpi, Hkr, Hpr.
  assert (0 + 1 < u64_MAX)%Z as Hone by done.
  pose proof Hmir as (Hm1 & Hm2 & Hm3 & Hm4 & _ & _ & _ & Hia & Hib).
  unfold MAX_AUTH_FRAME_BYTES in *.
  destruct (seal_exists (cs_send_key a) (cs_send_prefix a) 0 jsi) as (ai & Hai & _);
    [by split|unfold blen, MAX_FRAME_BYTES; lia|].
  destruct (seal_exists (cs_send_key b) (cs_send_prefix b) 0 jsr) as (ar & Har & _);
    [by split|unfold blen, MAX_FRAME_BYTES; lia|].
  exists ai, ar. subst I R.
  pose proof (initiate_hello ski ni (Authenticated ki idi) (Some (idr, verifying_key kr))) as HI.
  pose proof (λ c H, accept_hello skr nr (Authenticated kr idr) resolve c H Hnr) as HR. cbn [auth_flag] in HI, HR.
  split_and!.
  - destruct (HI _ (fresh_idle [])) as [Hw _]. destruct (Hw eq_refl) as [? ->]. by eexists.
  - destruct (HR _ (fresh_idle [])) as [Hw _]. destruct (Hw eq_refl) as [? ->]. by eexists.
  - destruct (HR _ (fresh_idle h1)) as [_ Hg].
    destruct (Hg ski ni [] Hni) as (c1 & Hc1 & Hf1 & Ho1 & ->); [rewrite app_nil_r; apply fresh_conn_flat|].
    destruct (recv_auth_wait b c1 Hib Hc1 Hf1) as [? Hrw].
    erewrite bind_wait by (unfold accept_auth; by rewrite (bind_wait _ _ _ _ Hrw)). by eexists.
  - destruct (HI _ (fresh_idle h2)) as [_ Hg].
    destruct (Hg skr nr [] Hnr) as (c2 & Hc2 & Hf2 & Ho2 & ->); [rewrite app_nil_r; apply fresh_conn_flat|].
    destruct (initiate_auth_ok ki idi kr idr t a c2 jsi jsr ai ar []) as [Hw _]; try done;
      [by rewrite Hm2, Hm4|]. destruct (Hw Hf2) as [? Hww]. cbn [fst snd].
    erewrite bind_wait by exact Hww. eexists. split; [reflexivity|]. simpl. by rewrite Ho2.
  - intros rest. destruct (HI _ (fresh_idle (h2 ++ ar ++ rest))) as [_ Hg].
    destruct (Hg skr nr (ar ++ rest) Hnr) as (c3 & Hc3 & Hf3 & Ho3 & ->); [apply fresh_conn_flat|].
    destruct (initiate_auth_ok ki idi kr idr t a c3 jsi jsr ai ar rest) as [_ Hd]; try done;
      [by rewrite Hm2, Hm4|]. destruct (Hd Hf3) as (pf & c4 & Hrun & Hid & Hf4 & Ho4 & Hpf & Hseen). cbn [fst snd].
    erewrite bind_step by exact Hrun. exists pf, c4. split; [reflexivity|]. split_and!; try done. by rewrite Ho4, Ho3.
  - intros rest. destruct (HR _ (fresh_idle (h1 ++ ai ++ rest))) as [_ Hg].
    destruct (Hg ski ni (ai ++ rest) Hni) as (c5 & Hc5 & Hf5 & Ho5 & ->); [apply fresh_conn_flat|].
    destruct (accept_auth_ok kr idr ki idi resolve t b c5 jsi jsr ai ar rest)
      as (pf' & c6 & Hrun & Hid & Hf6 & Ho6 & Hpf' & Hseen'); try done; [by rewrite <-Hm1, <-Hm3|].
    cbn [fst snd]. erewrite bind_step by exact Hrun. exists pf', c6. split; [reflexivity|]. split_and!; try done.
    by rewrite Ho6, Ho5.
Qed.

(** C9: two honest ends complete.  Run against each other from nothing, an
    initiator that expects the responder and a responder whose trust store
    resolves the initiator both finish within four exchanges; each reports the
    other's id and key, and the two channels are mirrored: same transcript,
    each sending key, prefix and counter is the other's receiving one, and no
    byte is left over. *)
Theorem handshake_completes :
  ∃ si sr ci cr,
    dialogue 4 I R = ((Done (si, PeerAuthenticated idr (verifying_key kr)), ci),
                      (Done (sr, PeerAuthenticated idi (verifying_key ki)), cr)) ∧
    mirrored si sr ∧ cs_transcript si = t ∧ flat (cn_in ci) = [] ∧ flat (cn_in cr) = [].
Proof.
  destruct honest_stages as (ai & ar & (ci0 & E1 & O1) & (cr0 & E2 & O2) & (cr1 & E3 & O3) & (ci1 & E4 & O4) & HI & HR).
  destruct (HI []) as (pf & ci & EI & _ & Fi & Oi & ? & ?). destruct (HR []) as (pf' & cr & ER & _ & Fr & Or & ? & ?).
  rewrite app_nil_r in EI, ER.
  exists (init_chan pf), (resp_chan pf'), ci, cr. split; [|split; [by apply chans_mirrored|by split]].
  apply (f_equal (λ x, cn_out x.2)) in E1, E2, E3, E4. cbn [snd] in *. rewrite O1 in E1. rewrite O2 in E2.
  rewrite O3 in E3. rewrite O4 in E4.
  assert (dialogue 1 I R = (I (fresh_conn []), R (fresh_conn h1))) as D1
    by (rewrite dialogue_S; cbn [dialogue fst snd]; by rewrite E1, E2).
  assert (dialogue 2 I R = (I (fresh_conn h2), R (fresh_conn h1))) as D2
    by (rewrite dialogue_S, D1; cbn [fst snd]; by rewrite E1, E3).
  assert (dialogue 3 I R = (I (fresh_conn h2), R (fresh_conn (h1 ++ ai)))) as D3
    by (rewrite dialogue_S, D2; cbn [fst snd]; by rewrite E3, E4).
  rewrite dialogue_S, D3, ER. cbn [fst snd]. by rewrite E4, Or, EI, ER.
Qed.
End run.
End honest.

(** ** A concrete run *)

Definition toy_json_auth : JsonOps AuthFrame :=
  {| to_vec f := Some (toy_enc_str (bytes_of (af_machine_id f)) ++ toy_enc_str (bytes_of (af_ed25519_pub_hex f))
                       ++ toy_enc_str (bytes_of (af_sig_hex f)));
     from_slice b :=
       match toy_dec_str b with
       | Some (m, b1) =>
         match toy_dec_str b1 with
         | Some (k, b2) =>
           match toy_dec_str b2 with
           | Some (s, _) => Some {| af_machine_id := string_of m; af_ed25519_pub_hex := string_of k;
                                    af_sig_hex := string_of s |}
           | None => None
           end
         | None => None
         end
       | None => None
       end |}.

Lemma toy_json_auth_laws : JsonLaws AuthFrame (H := toy_json_auth).
Proof.
  split. intros [m k s] b. simpl. intros [= <-].
  rewrite !toy_dec_enc_str. rewrite <-(app_nil_r (toy_enc_str (bytes_of s))), toy_dec_enc_str.
  by rewrite !string_of_bytes_of.
Qed.

Section wit.
Local Existing Instances toy_hex toy_sha toy_ed toy_x toy_hkdf toy_aead toy_json_auth.
Local Existing Instances toy_hex_laws toy_sha_laws toy_ed_laws toy_x_laws toy_hkdf_laws toy_aead_laws toy_json_auth_laws.

Definition hs_nonce : bytes := repeat (byte_of_Z 7) 16.
Definition hs_key (s : string) : SigningKey := bytes_of s.
Definition wit_resolve (mid : string) : option bytes :=
  if decide (mid = "init"%string) then Some (verifying_key (hs_key "ki")) else None.
Definition wit_I : conn HandshakeError (CipherStream * PeerAuth) :=
  initiate (bytes_of "ei") hs_nonce (Authenticated (hs_key "ki") "init")
    (Some ("resp"%string, verifying_key (hs_key "kr"))).
Definition wit_R : conn HandshakeError (CipherStream * PeerAuth) :=
  accept (bytes_of "er") hs_nonce (Authenticated (hs_key "kr") "resp") wit_resolve.

Lemma handshake_completes_witness :
  ∃ si sr ci cr,
    dialogue 4 wit_I wit_R =
      ((Done (si, PeerAuthenticated "resp" (verifying_key (hs_key "kr"))), ci),
       (Done (sr, PeerAuthenticated "init" (verifying_key (hs_key "ki"))), cr)) ∧
    mirrored si sr ∧
    cs_transcript si = transcript_hash 1 (x_public (bytes_of "ei")) hs_nonce (x_public (bytes_of "er")) hs_nonce ∧
    flat (cn_in ci) = [] ∧ flat (cn_in cr) = [].
Proof.
  eapply (handshake_completes (bytes_of "ei") (bytes_of "er") hs_nonce hs_nonce
    (hs_key "ki") (hs_key "kr") "init" "resp" wit_resolve);
    [reflexivity|reflexivity|reflexivity|reflexivity|vm_compute; lia|reflexivity|vm_compute; lia].
Defined.

Lemma accept_authenticates_witness :
  match wit_R (fresh_conn (cn_out (dialogue 3 wit_I wit_R).1.2)) with
  | (Done (s, peer), _) => ∃ mid pk, peer = PeerAuthenticated mid pk ∧ wit_resolve mid = Some pk ∧
                                     vouched pk (cs_transcript s)
  | _ => False
  end.
Proof.
  destruct (wit_R _) as [[[s peer]|e|] c'] eqn:E; cycle 1.
  1-2: apply (f_equal fst) in E; vm_compute in E; discriminate.
  edestruct (accept_authenticates (bytes_of "er") hs_nonce (hs_key "kr") "resp" wit_resolve)
    as (mid & pk & ? & ? & ? & Hp & Hr & _ & _ & _ & _ & Hv); [|exact E|].
  - exact (proj2 (fresh_conn_flat _)).
  - exact (ex_intro _ mid (ex_intro _ pk (conj Hp (conj Hr Hv)))).
Defined.

Lemma initiate_authenticates_witness :
  match wit_I (fresh_conn (cn_out (dialogue 3 wit_I wit_R).2.2)) with
  | (Done (s, peer), _) => peer = PeerAuthenticated "resp" (verifying_key (hs_key "kr")) ∧
                           vouched (verifying_key (hs_key "kr")) (cs_transcript s)
  | _ => False
  end.
Proof.
  destruct (wit_I _) as [[[s peer]|e|] c'] eqn:E; cycle 1.
  1-2: apply (f_equal fst) in E; vm_compute in E; discriminate.
  edestruct (initiate_authenticates (bytes_of "ei") hs_nonce (hs_key "ki") "init" "resp"
    (verifying_key (hs_key "kr"))) as (Hp & ? & ? & _ & Hv); [exact E|exact (conj Hp Hv)].
Defined.
End wit.
