(* ===== verification/IpcTypes.v ===== *)
(** * IPC data ([crates/synbad-ipc/src/lib.rs])

    The messages between the GUI and the daemon and the daemon's state as the
    GUI sees it. *)

From Stdlib Require Import ZArith.
From S2P Require Import Prelude Config.

Record DiscoveredPeer := {
  dp_machine_id : string; dp_display_name : string; dp_host : string; dp_addresses : list string;
  dp_service_port : Z; dp_core_port : Z; dp_sync_port : Z; dp_audio_port : Z;
  dp_fingerprint : string; dp_protocol_version : Z; dp_config_head : string
}.
Global Instance DiscoveredPeer_eq_dec : EqDecision DiscoveredPeer.
Proof. solve_decision. Defined.

Definition MAX_MESSAGE_BYTES : Z := 1048576.

Record TrustedPeer := {
  tp_machine_id : string; tp_display_name : string; tp_public_key_hex : string;
  tp_fingerprint : string; tp_paired_at_unix : Z
}.
Global Instance TrustedPeer_eq_dec : EqDecision TrustedPeer.
Proof. solve_decision. Defined.

Inductive TrustState := Unverified | Trusted.

Inductive SyncDirection := Inbound | Outbound.
Global Instance SyncDirection_eq_dec : EqDecision SyncDirection.
Proof. solve_decision. Defined.

Record AudioDeviceInfo := {
  ad_name : string; ad_is_default : bool; ad_native_sample_rate : Z; ad_channels : Z;
  ad_is_loopback : bool
}.

Record PeerAudioStatus := {
  as_machine_id : string; as_display_name : string; as_sending_to_peer : bool;
  as_receiving_from_peer : bool; as_rtt_ms : option Z; as_last_error : option string
}.
#[export] Instance PeerAudioStatus_eta : Eta PeerAudioStatus := λ r,
  {| as_machine_id := as_machine_id r; as_display_name := as_display_name r;
     as_sending_to_peer := as_sending_to_peer r; as_receiving_from_peer := as_receiving_from_peer r;
     as_rtt_ms := as_rtt_ms r; as_last_error := as_last_error r |}.
Global Instance PeerAudioStatus_eq_dec : EqDecision PeerAudioStatus.
Proof. solve_decision. Defined.

Inductive DaemonState :=
| Stopped
| Starting
| Running (pid : Z)
| Reconnecting (attempt next_retry_secs : Z)
| Crashed (exit_code : option Z).
Global Instance DaemonState_eq_dec : EqDecision DaemonState.
Proof. solve_decision. Defined.

Definition is_running (s : DaemonState) : bool :=
  match s with Running _ | Starting => true | _ => false end.

Definition is_active (s : DaemonState) : bool :=
  is_running s || match s with Reconnecting _ _ | Crashed _ => true | _ => false end.

Inductive Request :=
| RqGetStatus
| RqGetConfig
| RqSetConfig (config : Config)
| RqStart
| RqStop
| RqRestart
| RqSubscribe
| RqListPeers
| RqGetLocalIdentity
| RqStartPairing (machine_id : string)
| RqConfirmPairing (session_id : string) (accept : bool)
| RqListTrustedPeers
| RqRevokeTrust (machine_id : string)
| RqListAudioDevices
| RqSetAudioConfig (config : AudioConfig)
| RqGetAudioStatus
| RqShutdown.

Inductive Response :=
| RsOk
| RsStatus (state : DaemonState) (recent_log connected_peers : list string) (active_screen : option string)
| RsConfig (config : Config)
| RsPeers (peers : list DiscoveredPeer)
| RsLocalIdentity (machine_id fingerprint : string)
| RsTrustedPeers (peers : list TrustedPeer)
| RsAudioDevices (input output : list AudioDeviceInfo)
| RsAudioStatus (peers : list PeerAudioStatus)
| RsError (message : string).

Inductive Event :=
| EvLog (line : string)
| EvState (state : DaemonState)
| EvConfigChanged
| EvPeerConnected (name : string)
| EvPeerDisconnected (name : string)
| EvActiveScreen (name : string)
| EvPeerDiscovered (peer : DiscoveredPeer)
| EvPeerLost (machine_id : string)
| EvPairingProposed (session_id peer_machine_id peer_display_name peer_fingerprint verification_code : string)
| EvPairingCompleted (peer : TrustedPeer)
| EvPairingFailed (session_id reason : string)
| EvTrustRevoked (machine_id : string)
| EvSyncStarted (peer_machine_id : string) (direction : SyncDirection)
| EvSyncCompleted (peer_machine_id : string) (direction : SyncDirection) (updated : bool) (new_head : string)
| EvSyncFailed (peer_machine_id : string) (direction : SyncDirection) (reason : string)
| EvAudioDevicesChanged
| EvAudioPeerStatus (status : PeerAudioStatus)
| EvAudioPeerRemoved (machine_id : string)
| EvAudioError (peer : option string) (message : string).
Global Instance Event_eq_dec : EqDecision Event.
Proof. solve_decision. Defined.

Inductive Message := MsgRequest (r : Request) | MsgResponse (r : Response) | MsgEvent (e : Event).
