(* ===== verification/LogParse.v ===== *)
(** * Core log lines ([crates/synbad-ipc/src/log_parse.rs])

    Recognition of the few stderr lines of the Core that carry a signal.  A
    line is its UTF-8 bytes. *)

From Stdlib Require Import Ascii ZArith Lia.
From S2P Require Import Prelude Config IpcTypes.

(** The encodings of the characters with the Unicode property White_Space. *)
Definition whitespace : list bytes :=
  map (map byte_of_Z)
    [[9]; [10]; [11]; [12]; [13]; [32]; [0xC2; 0x85]; [0xC2; 0xA0]; [0xE1; 0x9A; 0x80];
     [0xE2; 0x80; 0x80]; [0xE2; 0x80; 0x81]; [0xE2; 0x80; 0x82]; [0xE2; 0x80; 0x83];
     [0xE2; 0x80; 0x84]; [0xE2; 0x80; 0x85]; [0xE2; 0x80; 0x86]; [0xE2; 0x80; 0x87];
     [0xE2; 0x80; 0x88]; [0xE2; 0x80; 0x89]; [0xE2; 0x80; 0x8A]; [0xE2; 0x80; 0xA8];
     [0xE2; 0x80; 0xA9]; [0xE2; 0x80; 0xAF]; [0xE2; 0x81; 0x9F]; [0xE3; 0x80; 0x80]]%Z.

(** The rest after the first pattern that is a prefix. *)
Fixpoint strip_any (ps : list bytes) (s : bytes) : option bytes :=
  match ps with
  | [] => None
  | p :: ps' => match strip_prefix p s with Some r => Some r | None => strip_any ps' s end
  end.

Fixpoint trim_start_n (fuel : nat) (s : bytes) : bytes :=
  match fuel with
  | O => s
  | S n => match strip_any whitespace s with Some r => trim_start_n n r | None => s end
  end.

(** [str::trim_start]; each step removes at least one byte. *)
Definition trim_start (s : bytes) : bytes := trim_start_n (length s) s.

Fixpoint trim_end_n (fuel : nat) (r : bytes) : bytes :=
  match fuel with
  | O => r
  | S n => match strip_any (map (@reverse ascii) whitespace) r with Some r' => trim_end_n n r' | None => r end
  end.

(** [str::trim_end], on the reversed bytes, and [str::trim]. *)
Definition trim_end (s : bytes) : bytes := reverse (trim_end_n (length s) (reverse s)).
Definition trim (s : bytes) : bytes := trim_end (trim_start s).

Definition bracket_open : bytes := bytes_of "[".
Definition quote : ascii := "034".
Definition quote_b : bytes := [quote].

Definition is_date_char (c : ascii) : bool :=
  let z := Z_of_byte c in bool_decide ((48 ≤ z ≤ 57)%Z ∨ z = 45%Z).

Definition log_levels : list bytes :=
  map bytes_of ["NOTE: "; "WARNING: "; "ERROR: "; "FATAL: "; "INFO: "; "DEBUG: "; "DEBUG1: "; "DEBUG2: "]%string.

Definition strip_timestamp (line : bytes) : bytes :=
  let trimmed := trim_start line in
  match strip_prefix bracket_open trimmed with
  | Some rest =>
    match find_char "]" rest with
    | Some i => trim_start (drop (S i) rest)
    | None => trimmed
    end
  | None =>
    if forallb is_date_char (take 10 trimmed) then
      match find_char " " trimmed with
      | Some i => trim_start (drop (S i) trimmed)
      | None => trimmed
      end
    else trimmed
  end.

Definition strip_log_prefix (line : bytes) : bytes :=
  let after_ts := strip_timestamp line in
  match strip_any log_levels after_ts with Some rest => rest | None => after_ts end.

Definition extract_quoted_after (body prefix suffix : bytes) : option bytes :=
  after_prefix ← strip_prefix prefix body;
  after_quote ← strip_prefix quote_b after_prefix;
  close ← find_char quote after_quote;
  let name := take close after_quote in
  let rest := drop close after_quote in
  rest1 ← strip_prefix quote_b rest;
  _ ← strip_prefix suffix rest1;
  Some name.

Definition extract_switch (body : bytes) : option (bytes * bytes) :=
  rest ← strip_prefix (bytes_of "switch from " ++ quote_b) body;
  from_end ← find_char quote rest;
  let from := take from_end rest in
  let after_from := drop from_end rest in
  to_block ← strip_prefix (quote_b ++ bytes_of " to " ++ quote_b) after_from;
  to_end ← find_char quote to_block;
  Some (from, take to_end to_block).

Definition is_client_server_disconnect (line : string) : bool :=
  starts_with (bytes_of "disconnected from server") (strip_log_prefix (bytes_of line)).

Definition is_client_connected (line : string) : bool :=
  starts_with (bytes_of "connected to server") (strip_log_prefix (bytes_of line)).

Definition is_core_ready (line : string) : bool :=
  let body := strip_log_prefix (bytes_of line) in
  starts_with (bytes_of "connected to server") body || starts_with (bytes_of "started server") body.

Definition client_b : bytes := bytes_of "client ".
Definition connected_b : bytes := bytes_of " has connected".
Definition disconnected_b : bytes := bytes_of " has disconnected".

Definition parse (line : string) : option Event :=
  let body := strip_log_prefix (bytes_of line) in
  match extract_quoted_after body client_b connected_b with
  | Some name => Some (EvPeerConnected (string_of name))
  | None =>
    match extract_quoted_after body client_b disconnected_b with
    | Some name => Some (EvPeerDisconnected (string_of name))
    | None =>
      match extract_switch body with
      | Some (_, to) => Some (EvActiveScreen (string_of to))
      | None => None
      end
    end
  end.

(** ** Specification *)

(** The first quote of [name ++ quote :: rest] ends a name without quotes. *)
Lemma split_at_quote i s :
  find_char quote s = Some i →
  quote ∉ take i s ∧ s = take i s ++ quote_b ++ drop (S i) s ∧ drop i s = quote_b ++ drop (S i) s.
Proof.
  intros H. pose proof H as Hi. apply find_char_Some in Hi as [Hn Hs].
  split; [done|]. split; [done|].
  assert (i < length s) as Hlt.
  { destruct (decide (i < length s)) as [|Hge]; [done|].
    rewrite take_ge in Hn by lia. apply find_char_None in Hn. congruence. }
  rewrite Hs at 1. rewrite drop_app_ge by (rewrite length_take; lia).
  rewrite length_take. by replace (i - i `min` length s) with 0 by lia.
Qed.

Lemma find_quote name rest :
  quote ∉ name → find_char quote (name ++ quote_b ++ rest) = Some (length name).
Proof. apply find_char_app. Qed.

Lemma extract_quoted_after_Some body p s name :
  extract_quoted_after body p s = Some name ↔
  quote ∉ name ∧ ∃ rest, body = p ++ quote_b ++ name ++ quote_b ++ s ++ rest.
Proof.
  unfold extract_quoted_after. split.
  - destruct (strip_prefix p body) as [b1|] eqn:E1; [|done]. apply strip_prefix_Some in E1 as ->.
    cbn [mbind option_bind]. destruct (strip_prefix quote_b b1) as [b2|] eqn:E2; [|done].
    apply strip_prefix_Some in E2 as ->. cbn [mbind option_bind].
    destruct (find_char quote b2) as [i|] eqn:Ei; [|done]. cbn [mbind option_bind].
    apply split_at_quote in Ei as (Hn & Hs & Hd). rewrite Hd, strip_prefix_app. cbn [mbind option_bind].
    destruct (strip_prefix s (drop (S i) b2)) as [rest|] eqn:E3; [|done]. apply strip_prefix_Some in E3.
    intros [= <-]. split; [done|]. exists rest. by rewrite <-E3, <-Hs.
  - intros (Hn & rest & ->). rewrite strip_prefix_app. cbn [mbind option_bind].
    rewrite strip_prefix_app. cbn [mbind option_bind].
    rewrite find_quote by done. cbn [mbind option_bind].
    rewrite drop_app_length, strip_prefix_app. cbn [mbind option_bind].
    by rewrite strip_prefix_app, take_app_length.
Qed.

Lemma extract_switch_Some body from to :
  extract_switch body = Some (from, to) ↔
  quote ∉ from ∧ quote ∉ to ∧
  ∃ rest, body = bytes_of "switch from " ++ quote_b ++ from ++ quote_b ++ bytes_of " to "
                 ++ quote_b ++ to ++ quote_b ++ rest.
Proof.
  unfold extract_switch. split.
  - destruct (strip_prefix _ body) as [b1|] eqn:E1; [|done]. apply strip_prefix_Some in E1 as ->.
    cbn [mbind option_bind].
    destruct (find_char quote b1) as [i|] eqn:Ei; [|done]. cbn [mbind option_bind].
    apply split_at_quote in Ei as (Hn & Hs & ->).
    destruct (strip_prefix _ (quote_b ++ _)) as [b2|] eqn:E2; [|done]. cbn [mbind option_bind].
    apply strip_prefix_Some in E2. rewrite <-!app_assoc in E2. apply app_inv_head in E2.
    destruct (find_char quote b2) as [j|] eqn:Ej; [|done]. cbn [mbind option_bind].
    apply split_at_quote in Ej as (Hn2 & Hs2 & _). intros [= <- <-]. split; [done|]. split; [done|].
    exists (drop (S j) b2). rewrite <-app_assoc. f_equal. f_equal. by rewrite <-Hs2, <-E2.
  - intros (Hn & Hn2 & rest & ->). rewrite (app_assoc (bytes_of "switch from ")), strip_prefix_app.
    cbn [mbind option_bind].
    rewrite find_quote by done. cbn [mbind option_bind].
    rewrite drop_app_length, take_app_length.
    assert (quote_b ++ bytes_of " to " ++ quote_b ++ to ++ quote_b ++ rest =
            (quote_b ++ bytes_of " to " ++ quote_b) ++ to ++ quote_b ++ rest) as -> by (by rewrite <-!app_assoc).
    rewrite strip_prefix_app. cbn [mbind option_bind].
    rewrite find_quote by done. cbn [mbind option_bind]. by rewrite take_app_length.
Qed.

(** The lines that carry a signal, after the log prefix. *)
Definition signal (body : bytes) (ev : Event) : Prop :=
  match ev with
  | EvPeerConnected n =>
    quote ∉ bytes_of n ∧ ∃ rest, body = client_b ++ quote_b ++ bytes_of n ++ quote_b ++ connected_b ++ rest
  | EvPeerDisconnected n =>
    quote ∉ bytes_of n ∧ ∃ rest, body = client_b ++ quote_b ++ bytes_of n ++ quote_b ++ disconnected_b ++ rest
  | EvActiveScreen to =>
    ∃ from rest, quote ∉ from ∧ quote ∉ bytes_of to ∧
      body = bytes_of "switch from " ++ quote_b ++ from ++ quote_b ++ bytes_of " to "
             ++ quote_b ++ bytes_of to ++ quote_b ++ rest
  | _ => False
  end.

Lemma quoted_unique p n m s t u v :
  quote ∉ n → quote ∉ m → p ++ quote_b ++ n ++ quote_b ++ s ++ u = p ++ quote_b ++ m ++ quote_b ++ t ++ v →
  n = m ∧ s ++ u = t ++ v.
Proof.
  intros Hn Hm E%app_inv_head%app_inv_head.
  pose proof (find_char_app quote n (s ++ u) Hn) as F1. pose proof (find_char_app quote m (t ++ v) Hm) as F2.
  change (n ++ quote_b ++ s ++ u) with (n ++ quote :: s ++ u) in E.
  change (m ++ quote_b ++ t ++ v) with (m ++ quote :: t ++ v) in E.
  rewrite E, F2 in F1. injection F1 as Hl.
  apply app_inj_1 in E as [-> E]; [|done]. by injection E.
Qed.

(** [parse] recognises exactly the three documented line shapes: it returns
    an event iff the line, without its timestamp and level prefix, has that
    event's shape, with the name taken verbatim between the quotes. *)
Theorem parse_iff line ev :
  parse line = Some ev ↔ signal (strip_log_prefix (bytes_of line)) ev.
Proof.
  unfold parse. set (body := strip_log_prefix _).
  destruct (extract_quoted_after body client_b connected_b) as [n|] eqn:E1.
  { apply extract_quoted_after_Some in E1 as (Hn & rest & Hb). split.
    - intros [= <-]. cbn [signal]. rewrite bytes_of_string_of. eauto.
    - rewrite Hb. destruct ev; cbn [signal]; try done.
      + intros (Hm & r & E). apply quoted_unique in E as [-> _]; [|done..]. by rewrite string_of_bytes_of.
      + intros (Hm & r & E). apply quoted_unique in E as [_ E]; [|done..]. done.
      + intros (f & r & _ & _ & E). done. }
  destruct (extract_quoted_after body client_b disconnected_b) as [n|] eqn:E2.
  { apply extract_quoted_after_Some in E2 as (Hn & rest & Hb). split.
    - intros [= <-]. cbn [signal]. rewrite bytes_of_string_of. eauto.
    - rewrite Hb. destruct ev; cbn [signal]; try done.
      + intros (Hm & r & E). apply quoted_unique in E as [_ E]; [|done..]. done.
      + intros (Hm & r & E). apply quoted_unique in E as [-> _]; [|done..]. by rewrite string_of_bytes_of.
      + intros (f & r & _ & _ & E). done. }
  assert (∀ n s, extract_quoted_after body client_b s = None → ¬ (quote ∉ bytes_of n ∧
    ∃ rest, body = client_b ++ quote_b ++ bytes_of n ++ quote_b ++ s ++ rest)) as Hno.
  { intros n s Hnone Hq. apply extract_quoted_after_Some in Hq. congruence. }
  destruct (extract_switch body) as [[f t]|] eqn:E3.
  - apply extract_switch_Some in E3 as (Hf & Ht & rest & Hb). split.
    + intros [= <-]. cbn [signal]. rewrite bytes_of_string_of. eauto 6.
    + destruct ev; cbn [signal]; try done; [intros []%Hno; done..|].
      intros (f' & r & Hf' & Ht' & E). f_equal.
      assert (extract_switch body = Some (f', bytes_of name)) as X by (apply extract_switch_Some; eauto).
      assert (extract_switch body = Some (f, t)) as Y by (apply extract_switch_Some; eauto).
      rewrite X in Y. injection Y as <- <-. by rewrite string_of_bytes_of.
  - split; [done|]. destruct ev; cbn [signal]; try done; [intros []%Hno; done..|].
    intros (f' & r & Hf' & Ht' & E).
    assert (extract_switch body = Some (f', bytes_of name)) by (apply extract_switch_Some; eauto). congruence.
Qed.

(** ** Prefixes *)

Lemma trim_start_n_id n s : strip_any whitespace s = None → trim_start_n n s = s.
Proof. destruct n; simpl; [done|]. by intros ->. Qed.

Lemma trim_start_id s : strip_any whitespace s = None → trim_start s = s.
Proof. apply trim_start_n_id. Qed.

Lemma level_not_space lvl body : lvl ∈ log_levels → strip_any whitespace (lvl ++ body) = None.
Proof.
  unfold log_levels. intros Hin.
  repeat (apply elem_of_cons in Hin as [->|Hin]; [reflexivity|]). by inversion Hin.
Qed.

Lemma strip_level lvl body : lvl ∈ log_levels → strip_any log_levels (lvl ++ body) = Some body.
Proof.
  unfold log_levels at 1. intros Hin.
  repeat (apply elem_of_cons in Hin as [->|Hin]; [reflexivity|]). by inversion Hin.
Qed.

Lemma trim_space s : strip_any whitespace s = None → trim_start (" "%char :: s) = s.
Proof. intros Hs. unfold trim_start. cbn [length trim_start_n strip_any]. simpl. by apply trim_start_n_id. Qed.

Lemma strip_timestamp_bracket ts body :
  "]"%char ∉ ts → strip_any whitespace body = None →
  strip_timestamp (bytes_of "[" ++ ts ++ bytes_of "] " ++ body) = body.
Proof.
  intros Hts Hns. unfold strip_timestamp. rewrite trim_start_id by reflexivity. unfold bracket_open.
  rewrite strip_prefix_app.
  change (ts ++ bytes_of "] " ++ body) with (ts ++ "]"%char :: " "%char :: body).
  rewrite find_char_app by done. rewrite drop_app_ge by lia.
  replace (S (length ts) - length ts) with 1 by lia. cbn [drop]. by apply trim_space.
Qed.

(** every documented prefix is removed: a known level, alone or after a
    bracketed timestamp or after a bare timestamp that starts with a date,
    leaves exactly the message. *)
Theorem strip_log_prefix_documented lvl ts date rest body :
  lvl ∈ log_levels → "]"%char ∉ ts →
  length date = 10 → forallb is_date_char date = true → " "%char ∉ date ++ rest →
  strip_log_prefix (bytes_of "[" ++ ts ++ bytes_of "] " ++ lvl ++ body) = body ∧
  strip_log_prefix (date ++ rest ++ bytes_of " " ++ lvl ++ body) = body.
Proof.
  intros Hl Hts Hlen Hdate Hsp. pose proof (level_not_space lvl body Hl) as Hns.
  unfold strip_log_prefix.
  assert (strip_timestamp (bytes_of "[" ++ ts ++ bytes_of "] " ++ lvl ++ body) = lvl ++ body) as ->.
  { by apply strip_timestamp_bracket. }
  assert (strip_timestamp (date ++ rest ++ bytes_of " " ++ lvl ++ body) = lvl ++ body) as ->.
  { destruct date as [|d date']; [done|]. pose proof Hdate as Hd. cbn [forallb] in Hd.
    apply andb_true_iff in Hd as [Hd _]. unfold is_date_char in Hd. apply bool_decide_eq_true in Hd.
    assert (strip_any whitespace ((d :: date') ++ rest ++ bytes_of " " ++ lvl ++ body) = None
            ∧ strip_prefix bracket_open ((d :: date') ++ rest ++ bytes_of " " ++ lvl ++ body) = None) as [Hw Hb].
    { clear -Hd. destruct d as [[] [] [] [] [] [] [] []]; vm_compute in Hd; try (split; reflexivity);
        exfalso; destruct Hd as [[H1 H2]|H]; try discriminate; (by apply H1) || (by apply H2). }
    unfold strip_timestamp. rewrite (trim_start_id _ Hw), Hb.
    rewrite take_app_le, firstn_all2, Hdate by lia.
    rewrite (app_assoc (d :: date')).
    change (((d :: date') ++ rest) ++ bytes_of " " ++ lvl ++ body) with (((d :: date') ++ rest) ++ " "%char :: lvl ++ body).
    rewrite find_char_app by done. rewrite drop_app_ge by lia.
    replace (S (length ((d :: date') ++ rest)) - length ((d :: date') ++ rest)) with 1 by lia.
    cbn [drop]. by apply trim_start_id. }
  by rewrite strip_level.
Qed.

Lemma strip_log_prefix_documented_witness :
  strip_log_prefix (bytes_of "[2026-05-19T12:34:56] NOTE: started server") = bytes_of "started server" ∧
  strip_log_prefix (bytes_of "2026-05-19T12:34:56 NOTE: started server") = bytes_of "started server".
Proof.
  apply (strip_log_prefix_documented (bytes_of "NOTE: ") (bytes_of "2026-05-19T12:34:56")
    (bytes_of "2026-05-19") (bytes_of "T12:34:56") (bytes_of "started server")).
  - apply elem_of_cons. by left.
  - by apply find_char_None.
  - reflexivity.
  - reflexivity.
  - by apply find_char_None.
Defined.
