(* ===== verification/CoreProc.v ===== *)
(** * Core child lifecycle ([crates/synbadd/src/supervisor/core_proc.rs] and the
    parts of [mod.rs] its run loop calls)

    The slice of [Supervisor] that starts, watches, stops and restarts the
    supervised Core, one function per method, and the run-loop arms that drive
    them.  Instants and durations are milliseconds.  What the operating system
    answers (the clock, spawned pids, write errors, exits that arrive while
    [stop_core] waits) is an [Env] per call; everything the supervisor does to
    the outside is appended to a trace. *)

From Stdlib Require Import Ascii ZArith Lia.
From S2P Require Import Prelude Config IpcTypes LogParse.

Definition LOG_TAIL : nat := 500.
Definition MIN_BACKOFF : Z := 500.
Definition MAX_BACKOFF : Z := 30000.
Definition CLIENT_MAX_BACKOFF : Z := 10000.
Definition MAX_FAST_FAILS : Z := 5.
Definition CORE_CONNECT_TIMEOUT : Z := 30000.
Definition CORE_HEALTHY_WINDOW : Z := 60000.
Definition CIRCUIT_BREAKER_MAX : Z := 300000.

(** How the release lays out the Core executables ([binaries.rs]). *)
Inductive CoreLayout :=
| Unified (path : string)
| SplitLegacy (server client : string).

(** [std::process::ExitStatus]: its code, if any, and its rendering. *)
Record ExitStatus := { es_code : option Z; es_display : string }.

Inductive Effect :=
| FxEvent (e : Event)
| FxResolve (config : Config)
| FxWrite (path contents : string)
| FxSpawn (pid : Z) (program : string) (args : list string)
| FxKill (pid : Z).

Record Core := {
  co_state : DaemonState;
  co_connected_peers : gset string;
  co_active_screen : option string;
  co_log_tail : list string;
  co_desired_running : bool;
  co_child_kill : option Z;
  co_backoff : Z;
  co_restart_at : option Z;
  co_exit_rx : list (Z * ExitStatus);
  co_child_pid : option Z;
  co_core_resolving : bool;
  co_core_ready_at : option Z;
  co_core_connect_deadline : option Z;
  co_core_disk_log : bool;
  co_fast_fail_count : Z;
  co_trace : list Effect
}.
#[export] Instance Core_eta : Eta Core := λ r,
  {| co_state := co_state r; co_connected_peers := co_connected_peers r; co_active_screen := co_active_screen r;
     co_log_tail := co_log_tail r; co_desired_running := co_desired_running r; co_child_kill := co_child_kill r;
     co_backoff := co_backoff r; co_restart_at := co_restart_at r; co_exit_rx := co_exit_rx r;
     co_child_pid := co_child_pid r; co_core_resolving := co_core_resolving r;
     co_core_ready_at := co_core_ready_at r; co_core_connect_deadline := co_core_connect_deadline r;
     co_core_disk_log := co_core_disk_log r; co_fast_fail_count := co_fast_fail_count r; co_trace := co_trace r |}.

Definition set_co_state (x : DaemonState) (r : Core) : Core := Eval cbv [update_field] in r <| co_state := x |>.
Definition set_co_connected_peers (x : gset string) (r : Core) : Core :=
  Eval cbv [update_field] in r <| co_connected_peers := x |>.
Definition set_co_active_screen (x : option string) (r : Core) : Core :=
  Eval cbv [update_field] in r <| co_active_screen := x |>.
Definition set_co_log_tail (x : list string) (r : Core) : Core := Eval cbv [update_field] in r <| co_log_tail := x |>.
Definition set_co_desired_running (x : bool) (r : Core) : Core :=
  Eval cbv [update_field] in r <| co_desired_running := x |>.
Definition set_co_child_kill (x : option Z) (r : Core) : Core :=
  Eval cbv [update_field] in r <| co_child_kill := x |>.
Definition set_co_backoff (x : Z) (r : Core) : Core := Eval cbv [update_field] in r <| co_backoff := x |>.
Definition set_co_restart_at (x : option Z) (r : Core) : Core :=
  Eval cbv [update_field] in r <| co_restart_at := x |>.
Definition set_co_exit_rx (x : list (Z * ExitStatus)) (r : Core) : Core :=
  Eval cbv [update_field] in r <| co_exit_rx := x |>.
Definition set_co_child_pid (x : option Z) (r : Core) : Core := Eval cbv [update_field] in r <| co_child_pid := x |>.
Definition set_co_core_resolving (x : bool) (r : Core) : Core :=
  Eval cbv [update_field] in r <| co_core_resolving := x |>.
Definition set_co_core_ready_at (x : option Z) (r : Core) : Core :=
  Eval cbv [update_field] in r <| co_core_ready_at := x |>.
Definition set_co_core_connect_deadline (x : option Z) (r : Core) : Core :=
  Eval cbv [update_field] in r <| co_core_connect_deadline := x |>.
Definition set_co_core_disk_log (x : bool) (r : Core) : Core :=
  Eval cbv [update_field] in r <| co_core_disk_log := x |>.
Definition set_co_fast_fail_count (x : Z) (r : Core) : Core :=
  Eval cbv [update_field] in r <| co_fast_fail_count := x |>.
Definition set_co_trace (x : list Effect) (r : Core) : Core := Eval cbv [update_field] in r <| co_trace := x |>.

(** ** Rendering *)

(** [{:?}] of a [Duration] that is a whole number of milliseconds. *)
Definition fmt_duration (ms : Z) : string :=
  let secs := (ms / 1000)%Z in
  let frac := (ms mod 1000)%Z in
  if decide (0 < secs)%Z then
    if decide (frac = 0)%Z then pretty secs +:+ "s"
    else
      let d1 := pretty (frac / 100)%Z in
      let d2 := pretty (frac / 10 mod 10)%Z in
      let d3 := pretty (frac mod 10)%Z in
      pretty secs +:+ "." +:+
        (if decide (frac mod 100 = 0)%Z then d1
         else if decide (frac mod 10 = 0)%Z then d1 +:+ d2 else d1 +:+ d2 +:+ d3) +:+ "s"
  else if decide (0 < ms)%Z then pretty ms +:+ "ms" else "0ns".

(** [{:?}] of an [Option<i32>]. *)
Definition fmt_code (c : option Z) : string :=
  match c with Some z => "Some(" +:+ pretty z +:+ ")" | None => "None" end.

(** ** Small helpers of the supervisor *)

Definition emit (x : Effect) (c : Core) : Core := set_co_trace (co_trace c ++ [x]) c.

Definition set_state (new_state : DaemonState) (c : Core) : Core :=
  if decide (co_state c = new_state) then c else
  let c1 := if is_running new_state then c
            else set_co_active_screen None (set_co_connected_peers ∅ c) in
  emit (FxEvent (EvState new_state)) (set_co_state new_state c1).

(** Note the structured signal of a line, if it has one. *)
Definition note_signal (ev : Event) (c : Core) : Core :=
  match ev with
  | EvPeerConnected name => set_co_connected_peers ({[name]} ∪ co_connected_peers c) c
  | EvPeerDisconnected name => set_co_connected_peers (co_connected_peers c ∖ {[name]}) c
  | EvActiveScreen name => set_co_active_screen (Some name) c
  | _ => c
  end.

Definition record_log (line : string) (c : Core) : Core :=
  let tail := if decide (LOG_TAIL ≤ length (co_log_tail c)) then drop 1 (co_log_tail c)
              else co_log_tail c in
  let c1 := set_co_log_tail (tail ++ [line]) c in
  let c2 := match parse line with
            | Some structured => emit (FxEvent structured) (note_signal structured c1)
            | None => c1
            end in
  emit (FxEvent (EvLog line)) c2.

(** [self.child_kill.take()] followed by [send]; dropping the sender has the
    same effect on the task that watches the child. *)
Definition kill_child (c : Core) : Core :=
  match co_child_kill c with
  | Some pid => emit (FxKill pid) (set_co_child_kill None c)
  | None => c
  end.

(** ** Backoff *)

Definition circuit_breaker_delay (failures : Z) : Z :=
  Z.min (60000 * 2 ^ Z.min (saturating_sub_u failures MAX_FAST_FAILS) 3) CIRCUIT_BREAKER_MAX.

Definition restart_backoff (b : Z) (role : NodeRole) : Z * Z :=
  let cap := match role with Client => CLIENT_MAX_BACKOFF | Server => MAX_BACKOFF end in
  let delay := Z.min b cap in
  (delay, Z.min (delay * 2) cap).

Definition schedule_restart (now : Z) (cfg : Config) (c : Core) : Z * Core :=
  let '(delay0, next) := restart_backoff (co_backoff c) (cfg_role cfg) in
  let delay := if decide (MAX_FAST_FAILS ≤ co_fast_fail_count c)%Z
               then circuit_breaker_delay (co_fast_fail_count c) else delay0 in
  (delay, set_co_restart_at (Some (now + delay)%Z) (set_co_backoff next c)).

(** ** Environment of one call *)

Record Env := {
  env_now : Z;
  env_conf_path : string;            (* [paths::generated_conf()] *)
  env_settings_path : string;        (* [paths::generated_settings()] *)
  env_write_conf : option string;    (* error of the first artefact write *)
  env_write_settings : option string;
  env_spawn : result string Z;       (* pid of the new child *)
  env_open_log : option string;      (* error of [RotatingLog::open] *)
  env_exits : list (Z * ExitStatus)  (* exits that land within the 2 s wait *)
}.

(** ** Starting *)

Definition start_core (cfg : Config) (c : Core) : Core :=
  let c := set_co_restart_at None c in
  if match co_state c with Running _ => true | _ => false end
     || match co_child_kill c with Some _ => true | None => false end then c
  else
    let c := set_state Starting c in
    if co_core_resolving c then c
    else emit (FxResolve cfg) (set_co_core_resolving true c).

(** The resolution task: an override short-circuits the fetch. *)
Definition resolve_core (fetch_binary : result string CoreLayout) (cfg : Config) : result string CoreLayout :=
  match bin_core (cfg_binaries cfg) with
  | Some path => Ok (Unified path)
  | None => fetch_binary
  end.

Definition write_core_artefacts (env : Env) (cfg : Config) (c : Core) : option string * Core :=
  match env_write_conf env with
  | Some e => (Some e, c)
  | None =>
    let c1 := emit (FxWrite (env_conf_path env) (generate_synergy_conf cfg)) c in
    match env_write_settings env with
    | Some e => (Some e, c1)
    | None => (None, emit (FxWrite (env_settings_path env)
                             (generate_deskflow_settings cfg (env_conf_path env))) c1)
    end
  end.

Definition start_failed (now : Z) (cfg : Config) (what : string) (c : Core) : Core :=
  let c := set_co_fast_fail_count (saturating_add_u32 (co_fast_fail_count c) 1) c in
  let '(delay, c) := schedule_restart now cfg c in
  let c := record_log ("[synbad] " +:+ what +:+ "; retrying in " +:+ fmt_duration delay) c in
  set_state (Crashed None) c.

Definition build_command (layout : CoreLayout) (cfg : Config) (conf_path settings_path : string)
    : result string (string * list string) :=
  match layout, cfg_role cfg with
  | Unified path, role =>
    Ok (path, [match role with Server => "server" | Client => "client" end; "-s"; settings_path]%string)
  | SplitLegacy server _, Server =>
    Ok (server, ["-f"; "-1"; "-n"; cfg_server_name cfg; "-a"; ":" +:+ pretty (cfg_port cfg); "-c"; conf_path]%string)
  | SplitLegacy _ client, Client =>
    let? addr := ok_or "client role requires server_address"%string (remote_address cfg) in
    Ok (client, ["-f"; "-1"; "-n"; cfg_server_name cfg; addr]%string)
  end.

Definition spawn_child (env : Env) (program : string) (args : list string) (c : Core)
    : option string * Core :=
  match env_spawn env with
  | Err e => (Some ("failed to spawn " +:+ program +:+ ": " +:+ e +:+ ". Is the binary on PATH?"), c)
  | Ok pid =>
    let c := emit (FxSpawn pid program args) c in
    match (if co_core_disk_log c then None else env_open_log env) with
    | Some e => (Some e, emit (FxKill pid) c)   (* the child is dropped: [kill_on_drop] *)
    | None =>
      let c := set_co_core_disk_log true c in
      let c := set_co_child_kill (Some pid) c in
      let c := set_co_child_pid (Some pid) c in
      let c := set_state (Running pid) c in
      let c := set_co_core_ready_at None c in
      (None, set_co_core_connect_deadline (Some (env_now env + CORE_CONNECT_TIMEOUT)%Z) c)
    end
  end.

Definition on_core_resolved (env : Env) (cfg : Config) (out : result string CoreLayout) (c : Core) : Core :=
  let c := set_co_core_resolving false c in
  if negb (co_desired_running c) then c else
  if match co_state c with Running _ => true | _ => false end
     || match co_child_kill c with Some _ => true | None => false end then c
  else
  match out with
  | Err reason => start_failed (env_now env) cfg ("could not obtain Deskflow Core: " +:+ reason) c
  | Ok layout =>
    match write_core_artefacts env cfg c with
    | (Some e, c) => start_failed (env_now env) cfg e c
    | (None, c) =>
      match build_command layout cfg (env_conf_path env) (env_settings_path env) with
      | Err e => set_state (Crashed None) (record_log ("[synbad] bad Core command line: " +:+ e) c)
      | Ok (program, args) =>
        match spawn_child env program args c with
        | (Some e, c) => start_failed (env_now env) cfg e c
        | (None, c) => c
        end
      end
    end
  end.

(** ** Stopping *)

(** Receive exits until the one of [pid], or until the wait times out. *)
Fixpoint drain_until (pid : Z) (q : list (Z * ExitStatus)) : list (Z * ExitStatus) :=
  match q with
  | [] => []
  | (p, _) :: q' => if decide (p = pid) then q' else drain_until pid q'
  end.

Definition stop_core (env : Env) (c : Core) : Core :=
  let c := set_co_restart_at None c in
  let c := set_co_core_connect_deadline None c in
  let c := set_co_core_ready_at None c in
  let pid := co_child_pid c in
  let c := set_co_child_pid None c in
  let c := match co_child_kill c with
           | Some _ =>
             let c := kill_child c in
             let q := co_exit_rx c ++ env_exits env in
             set_co_exit_rx (match pid with Some p => drain_until p q | None => [] end) c
           | None => c
           end in
  set_state Stopped c.

Definition restart_core (env : Env) (cfg : Config) (c : Core) : Core :=
  let c := set_co_fast_fail_count 0 c in
  let c := set_co_backoff MIN_BACKOFF c in
  start_core cfg (stop_core env c).

(** ** Exits *)

Definition handle_child_exit (now : Z) (cfg : Config) (pid : Z) (status : ExitStatus) (c : Core) : Core :=
  if decide (co_child_pid c ≠ Some pid) then c else
  let code := es_code status in
  let c := record_log ("[synbad] Core " +:+ pretty pid +:+ " exited: " +:+ es_display status
                       +:+ "; diagnostics in core.log") c in
  let c := set_co_child_pid None c in
  let c := kill_child c in
  let c := set_co_core_connect_deadline None c in
  let healthy := match co_core_ready_at c with
                 | Some t => bool_decide (CORE_HEALTHY_WINDOW ≤ now - t)%Z
                 | None => false
                 end in
  let c := set_co_core_ready_at None c in
  let c := if healthy then set_co_backoff MIN_BACKOFF (set_co_fast_fail_count 0 c)
           else set_co_fast_fail_count (saturating_add_u32 (co_fast_fail_count c) 1) c in
  if negb (co_desired_running c) then set_state Stopped c else
  let is_client := bool_decide (cfg_role cfg = Client) in
  let c := if negb is_client && bool_decide (co_fast_fail_count c = MAX_FAST_FAILS)
           then record_log ("[synbad] core failed " +:+ pretty (co_fast_fail_count c)
                 +:+ " consecutive times (exit " +:+ fmt_code code
                 +:+ "); check runtime dependencies and whether the server port is in use. Retrying with capped backoff.") c
           else c in
  let '(delay, c) := schedule_restart now cfg c in
  if is_client then
    let attempt := saturating_add_u32 (co_fast_fail_count c) 1 in
    let c := set_state (Reconnecting attempt (delay / 1000)) c in
    record_log ("[synbad] can't reach server (exit " +:+ fmt_code code +:+ "); retrying in "
                +:+ fmt_duration delay +:+ " (attempt " +:+ pretty attempt +:+ ")") c
  else set_state (Crashed code) c.

(** ** Run-loop arms *)

(** The connect deadline passed. *)
Definition on_core_stalled (cfg : Config) (c : Core) : Core :=
  let c := set_co_core_connect_deadline None c in
  let failure := match cfg_role cfg with
                 | Client => "no input-sharing connection"
                 | Server => "no ready input-sharing listener"
                 end%string in
  let c := record_log ("[synbad] Core made " +:+ failure +:+ " within 30s; terminating stalled Core and retrying with backoff") c in
  kill_child c.

Definition on_restart_due (cfg : Config) (c : Core) : Core :=
  let c := set_co_restart_at None c in
  if co_desired_running c then start_core cfg c else c.

Definition maybe_force_reconnect (cfg : Config) (line : string) (c : Core) : Core :=
  if starts_with (bytes_of "[synbad]") (bytes_of line) then c else
  match cfg_role cfg with
  | Server => c
  | Client => if is_client_server_disconnect line then kill_child c else c
  end.

(** A line from the stdout or stderr of the child [pid]. *)
Definition on_core_log (now : Z) (cfg : Config) (pid : Z) (line : string) (c : Core) : Core :=
  if decide (co_child_pid c = Some pid) then
    let c := match co_core_ready_at c with
             | None => if is_core_ready line then set_co_core_ready_at (Some now) c else c
             | Some _ => c
             end in
    let c := if is_client_connected line
                || (bool_decide (cfg_role cfg = Server) && is_core_ready line)
             then set_co_core_connect_deadline None c else c in
    let c := maybe_force_reconnect cfg line c in
    record_log line c
  else record_log ("[synbad] retired Core " +:+ pretty pid +:+ ": " +:+ line) c.

(** ** Requests on the Core *)

Definition request_start (cfg : Config) (c : Core) : Core :=
  let c := set_co_desired_running true c in
  let c := set_co_fast_fail_count 0 c in
  let c := set_co_backoff MIN_BACKOFF c in
  start_core cfg c.

Definition request_stop (env : Env) (c : Core) : Core :=
  let c := set_co_desired_running false c in
  let c := set_co_fast_fail_count 0 c in
  stop_core env c.

Definition request_restart (env : Env) (cfg : Config) (c : Core) : Core :=
  restart_core env cfg (set_co_desired_running true c).

Definition core_init : Core := {|
  co_state := Stopped; co_connected_peers := ∅; co_active_screen := None; co_log_tail := [];
  co_desired_running := false; co_child_kill := None; co_backoff := MIN_BACKOFF;
  co_restart_at := None; co_exit_rx := []; co_child_pid := None; co_core_resolving := false;
  co_core_ready_at := None; co_core_connect_deadline := None; co_core_disk_log := false;
  co_fast_fail_count := 0; co_trace := [] |}.

(** What can happen to the Core slice: a request, a run-loop arm, or an exit
    being queued by the task that watches a child. *)
Inductive CoreOp :=
| OpStart
| OpStop
| OpRestart
| OpInputsChanged                       (* a config edit that touches Core inputs *)
| OpResolved (out : result string CoreLayout)
| OpExitQueued (pid : Z) (status : ExitStatus)
| OpExit                                (* the loop receives the next queued exit *)
| OpStalled
| OpRestartDue
| OpCoreLog (pid : Z) (line : string)
| OpLog (line : string).

Definition core_exec (env : Env) (cfg : Config) (op : CoreOp) (c : Core) : Core :=
  match op with
  | OpStart => request_start cfg c
  | OpStop => request_stop env c
  | OpRestart => request_restart env cfg c
  | OpInputsChanged => if co_desired_running c then restart_core env cfg c else c
  | OpResolved out => if co_core_resolving c then on_core_resolved env cfg out c else c
  | OpExitQueued pid status => set_co_exit_rx (co_exit_rx c ++ [(pid, status)]) c
  | OpExit => match co_exit_rx c with
              | (pid, status) :: q => handle_child_exit (env_now env) cfg pid status (set_co_exit_rx q c)
              | [] => c
              end
  | OpStalled => match co_core_connect_deadline c with
                 | Some t => if decide (t ≤ env_now env)%Z then on_core_stalled cfg c else c
                 | None => c
                 end
  | OpRestartDue => match co_restart_at c with
                    | Some t => if decide (t ≤ env_now env)%Z then on_restart_due cfg c else c
                    | None => c
                    end
  | OpCoreLog pid line => on_core_log (env_now env) cfg pid line c
  | OpLog line => record_log line c
  end.

(** ** Frame lemmas: what the helpers leave alone *)

Lemma emit_trace x c : co_trace (emit x c) = co_trace c ++ [x].
Proof. reflexivity. Qed.

(** Spawned minus killed, per pid. *)
Definition balance_of (p : Z) (x : Effect) : Z :=
  match x with
  | FxSpawn q _ _ => if decide (q = p) then 1 else 0
  | FxKill q => if decide (q = p) then -1 else 0
  | _ => 0
  end%Z.
Definition balance (p : Z) (tr : list Effect) : Z := foldr (λ x n, balance_of p x + n)%Z 0%Z tr.

Lemma balance_app p t1 t2 : balance p (t1 ++ t2) = (balance p t1 + balance p t2)%Z.
Proof. induction t1 as [|x t1 IH]; simpl; [done|]. rewrite IH. lia. Qed.

(** The fields that decide what the supervisor does next. *)
Record ctl_eq (c d : Core) : Prop := {
  ce_state : co_state c = co_state d;
  ce_desired : co_desired_running c = co_desired_running d;
  ce_kill : co_child_kill c = co_child_kill d;
  ce_backoff : co_backoff c = co_backoff d;
  ce_restart : co_restart_at c = co_restart_at d;
  ce_exits : co_exit_rx c = co_exit_rx d;
  ce_pid : co_child_pid c = co_child_pid d;
  ce_resolving : co_core_resolving c = co_core_resolving d;
  ce_ready : co_core_ready_at c = co_core_ready_at d;
  ce_deadline : co_core_connect_deadline c = co_core_connect_deadline d;
  ce_fails : co_fast_fail_count c = co_fast_fail_count d;
  ce_balance : ∀ p, balance p (co_trace c) = balance p (co_trace d);
  ce_tail : length (co_log_tail c) ≤ LOG_TAIL ↔ length (co_log_tail d) ≤ LOG_TAIL
}.

Global Instance core_equiv : Equiv Core := ctl_eq.
Global Instance core_equivalence : Equivalence (≡@{Core}).
Proof.
  split.
  - intros c. constructor; done.
  - intros c d []. constructor; done.
  - intros c d e [] []. constructor; try congruence; intros; etrans; eauto.
Qed.

Ltac solve_proper_core := intros c d []; constructor; simpl; congruence || done.

Global Instance set_co_state_proper x : Proper ((≡) ==> (≡)) (set_co_state x).
Proof. solve_proper_core. Qed.
Global Instance set_co_desired_running_proper x : Proper ((≡) ==> (≡)) (set_co_desired_running x).
Proof. solve_proper_core. Qed.
Global Instance set_co_child_kill_proper x : Proper ((≡) ==> (≡)) (set_co_child_kill x).
Proof. solve_proper_core. Qed.
Global Instance set_co_backoff_proper x : Proper ((≡) ==> (≡)) (set_co_backoff x).
Proof. solve_proper_core. Qed.
Global Instance set_co_restart_at_proper x : Proper ((≡) ==> (≡)) (set_co_restart_at x).
Proof. solve_proper_core. Qed.
Global Instance set_co_child_pid_proper x : Proper ((≡) ==> (≡)) (set_co_child_pid x).
Proof. solve_proper_core. Qed.
Global Instance set_co_core_ready_at_proper x : Proper ((≡) ==> (≡)) (set_co_core_ready_at x).
Proof. solve_proper_core. Qed.
Global Instance set_co_core_connect_deadline_proper x : Proper ((≡) ==> (≡)) (set_co_core_connect_deadline x).
Proof. solve_proper_core. Qed.
Global Instance set_co_core_resolving_proper x : Proper ((≡) ==> (≡)) (set_co_core_resolving x).
Proof. solve_proper_core. Qed.
Global Instance set_co_fast_fail_count_proper x : Proper ((≡) ==> (≡)) (set_co_fast_fail_count x).
Proof. solve_proper_core. Qed.

(** Effects that neither spawn nor kill are invisible. *)
Lemma emit_neutral x c : (∀ p, balance_of p x = 0%Z) → emit x c ≡ c.
Proof. intros Hx. constructor; try done. intros p. simpl. rewrite balance_app. simpl. rewrite Hx. lia. Qed.

Lemma record_log_equiv line c : record_log line c ≡ c.
Proof.
  unfold record_log.
  set (tail := if decide (LOG_TAIL ≤ length (co_log_tail c)) then _ else _).
  assert (length (tail ++ [line]) ≤ LOG_TAIL ↔ length (co_log_tail c) ≤ LOG_TAIL) as Hl.
  { subst tail. rewrite length_app. case_decide; [rewrite length_drop|]; unfold LOG_TAIL in *; simpl; lia. }
  clearbody tail. destruct (parse line) as [[]|]; (constructor; try done; intros; simpl;
    rewrite ?balance_app; simpl; lia).
Qed.

Lemma set_state_equiv s c : set_state s c ≡ set_co_state s c.
Proof.
  unfold set_state. case_decide as Hs; [rewrite <-Hs; constructor; done|].
  destruct (is_running s); constructor; try done; intros; simpl; rewrite ?balance_app; simpl; lia.
Qed.

Global Instance record_log_proper line : Proper ((≡) ==> (≡)) (record_log line).
Proof. intros c d Hcd. by rewrite !record_log_equiv. Qed.
Global Instance set_state_proper s : Proper ((≡) ==> (≡)) (set_state s).
Proof. intros c d Hcd. by rewrite !set_state_equiv, Hcd. Qed.

(** ** The invariant *)

(** True at every point of every handler: the kill handle, the pid and the
    reported state agree; the watchdogs belong to a live child; every child
    ever spawned is the current one or has been told to die exactly once. *)
Record core_pre (c : Core) : Prop := {
  cp_kill : ∀ p, co_child_kill c = Some p → co_child_pid c = Some p;
  cp_pid : ∀ p, co_child_pid c = Some p ↔ co_state c = Running p;
  cp_watch : co_child_pid c = None → co_core_connect_deadline c = None ∧ co_core_ready_at c = None;
  cp_resolving : is_Some (co_child_pid c) → co_core_resolving c = false;
  cp_backoff : (MIN_BACKOFF ≤ co_backoff c ≤ MAX_BACKOFF)%Z;
  cp_fails : (0 ≤ co_fast_fail_count c ≤ u32_MAX)%Z;
  cp_tail : length (co_log_tail c) ≤ LOG_TAIL;
  cp_balance : ∀ p, balance p (co_trace c) = if decide (co_child_kill c = Some p) then 1%Z else 0%Z
}.

(** True between handlers: a wanted Core is up, coming up, or has a restart
    timer armed; an unwanted one is stopped. *)
Record core_inv (c : Core) : Prop := {
  ci_pre : core_pre c;
  ci_starting : co_state c = Starting → co_core_resolving c = true;
  ci_restart : is_Some (co_restart_at c) →
    co_desired_running c = true ∧ is_running (co_state c) = false ∧ co_state c ≠ Stopped ∧
    co_core_resolving c = false;
  ci_desired : co_desired_running c = true → is_running (co_state c) = true ∨ is_Some (co_restart_at c);
  ci_off : co_desired_running c = false → co_state c = Stopped
}.

Global Instance core_pre_proper : Proper ((≡) ==> iff) core_pre.
Proof.
  assert (∀ c d, c ≡ d → core_pre c → core_pre d) as Hgo.
  { intros c d [E1 E2 E3 E4 E5 E6 E7 E8 E9 E10 E11 E12 E13] []. constructor;
      rewrite <-?E1, <-?E2, <-?E3, <-?E4, <-?E7, <-?E8, <-?E9, <-?E10, <-?E11; try done; [by apply E13|].
    intros p. by rewrite <-E12. }
  intros c d H. split; by apply Hgo.
Qed.

Global Instance core_inv_proper : Proper ((≡) ==> iff) core_inv.
Proof.
  assert (∀ c d, c ≡ d → core_inv c → core_inv d) as Hgo.
  { intros c d H [Hp H1 H2 H3 H4]. rewrite H in Hp. destruct H as [E1 E2 E3 E4 E5 E6 E7 E8 E9 E10 E11 E12 E13].
    constructor; rewrite <-?E1, <-?E2, <-?E5, <-?E8; done. }
  intros c d H. split; by apply Hgo.
Qed.

(** ** Every handler preserves it *)

Lemma kill_child_spec c :
  ∃ tr, kill_child c = set_co_trace (co_trace c ++ tr) (set_co_child_kill None c) ∧
    ∀ p, balance p tr = if decide (co_child_kill c = Some p) then (-1)%Z else 0%Z.
Proof.
  unfold kill_child. destruct (co_child_kill c) as [q|] eqn:Hk.
  - exists [FxKill q]. split; [done|]. intros p. simpl. repeat case_decide; simplify_eq; lia.
  - exists []. split; [destruct c; simpl in *; by rewrite Hk, app_nil_r|done].
Qed.

(** Once its handle is used, a child balances to zero. *)
Lemma balance_after_kill c tr p :
  core_pre c → (∀ q, balance q tr = if decide (co_child_kill c = Some q) then (-1)%Z else 0%Z) →
  balance p (co_trace c ++ tr) = 0%Z.
Proof. intros Hp Htr. rewrite balance_app, Htr, (cp_balance _ Hp). case_decide; lia. Qed.

Lemma kill_child_pre c : core_pre c → core_pre (kill_child c).
Proof.
  intros Hp. destruct (kill_child_spec c) as (tr & -> & Htr).
  destruct (Hp) as []. constructor; simpl; try done. intros p. by apply balance_after_kill.
Qed.

Lemma no_child_no_kill c : core_pre c → co_child_pid c = None → co_child_kill c = None.
Proof.
  intros Hp Hn. destruct (co_child_kill c) as [q|] eqn:E; [|done].
  apply (cp_kill _ Hp) in E. congruence.
Qed.

Lemma no_child_not_running c p : core_pre c → co_child_pid c = None → co_state c ≠ Running p.
Proof. intros Hp Hn Hs. apply (cp_pid _ Hp) in Hs. congruence. Qed.

(** Starting with no child: a resolution is in flight afterwards, whether this
    call or an earlier one launched it. *)
Lemma start_core_fresh cfg c :
  (∀ p, co_state c ≠ Running p) → co_child_kill c = None →
  start_core cfg c ≡ set_co_core_resolving true (set_co_state Starting (set_co_restart_at None c)).
Proof.
  intros Hs Hk. unfold start_core. cbn [co_state co_child_kill set_co_restart_at]. rewrite Hk.
  assert (match co_state c with Running _ => true | _ => false end = false) as ->
    by (destruct (co_state c); done || (exfalso; by eapply Hs)).
  cbn [orb]. pose proof (set_state_equiv Starting (set_co_restart_at None c)) as He.
  destruct (co_core_resolving (set_state Starting (set_co_restart_at None c))) eqn:Hr.
  - rewrite He. rewrite (ce_resolving _ _ He) in Hr. simpl in Hr. constructor; try done.
  - rewrite emit_neutral by done. by rewrite He.
Qed.

Lemma start_core_running cfg c p :
  co_state c = Running p → start_core cfg c = set_co_restart_at None c.
Proof. intros Hs. unfold start_core. simpl. by rewrite Hs. Qed.

Lemma start_core_inv cfg c :
  core_pre c → co_desired_running c = true → core_inv (start_core cfg c).
Proof.
  intros Hp Hd. destruct (co_child_pid c) as [p|] eqn:Hpid.
  - pose proof (proj1 (cp_pid _ Hp p) Hpid) as Hs. rewrite (start_core_running _ _ p) by done.
    constructor; simpl; rewrite ?Hs, ?Hd; try done; [|by left]. destruct Hp. by constructor.
  - rewrite start_core_fresh by (eauto using no_child_not_running, no_child_no_kill).
    pose proof (no_child_no_kill _ Hp Hpid) as Hk.
    constructor; simpl; rewrite ?Hd; try done; [|by left]. destruct Hp as [].
    constructor; simpl; rewrite ?Hpid, ?Hk in *; try done; by intros [].
Qed.

(** Whatever was running is told to die, forgotten, and no timer is left. *)
Lemma stop_core_spec env c :
  core_pre c →
  core_pre (stop_core env c) ∧ co_state (stop_core env c) = Stopped ∧
  co_child_pid (stop_core env c) = None ∧ co_restart_at (stop_core env c) = None ∧
  co_desired_running (stop_core env c) = co_desired_running c.
Proof.
  intros Hp. unfold stop_core. pose proof (set_state_equiv Stopped) as He.
  set (c1 := match co_child_kill _ with Some _ => _ | None => _ end).
  specialize (He c1). pose proof He as [E1 E2 _ _ E5 _ E7 _ _ _ _ _ _].
  rewrite E1, E2, E5, E7, He. clear He E1 E2 E5 E7. subst c1. simpl.
  destruct (co_child_kill c) as [q|] eqn:Hk.
  - unfold kill_child. cbn [co_child_kill set_co_child_pid set_co_core_ready_at set_co_core_connect_deadline set_co_restart_at].
    rewrite Hk. split; [|done]. destruct (Hp) as []. constructor; simpl; try done; try (by intros []).
    intros p. apply balance_after_kill; [done|]. intros r. simpl. rewrite Hk. repeat case_decide; simplify_eq; lia.
  - split; [|done]. destruct (Hp) as []. constructor; simpl; rewrite ?Hk in *; try done; by intros [].
Qed.

Lemma core_pre_budget c ff b :
  core_pre c → (0 ≤ ff ≤ u32_MAX)%Z → (MIN_BACKOFF ≤ b ≤ MAX_BACKOFF)%Z →
  core_pre (set_co_backoff b (set_co_fast_fail_count ff c)).
Proof. intros [] Hf Hb. by constructor. Qed.

Lemma restart_core_inv env cfg c :
  core_pre c → co_desired_running c = true → core_inv (restart_core env cfg c).
Proof.
  intros Hp Hd. unfold restart_core.
  destruct (stop_core_spec env (set_co_backoff MIN_BACKOFF (set_co_fast_fail_count 0 c))) as (Hs & _ & _ & _ & Hd').
  { apply core_pre_budget; [done|unfold u32_MAX; lia|unfold MIN_BACKOFF, MAX_BACKOFF; lia]. }
  apply start_core_inv; [done|]. by rewrite Hd'.
Qed.

(** Bounds of the retry delays. *)
Lemma restart_backoff_bounds b role delay next :
  (MIN_BACKOFF ≤ b ≤ MAX_BACKOFF)%Z → restart_backoff b role = (delay, next) →
  (MIN_BACKOFF ≤ delay ≤ b)%Z ∧ (delay ≤ next ≤ MAX_BACKOFF)%Z ∧
  (next ≤ match role with Client => CLIENT_MAX_BACKOFF | Server => MAX_BACKOFF end)%Z.
Proof.
  unfold restart_backoff, MIN_BACKOFF, MAX_BACKOFF, CLIENT_MAX_BACKOFF. intros Hb [= <- <-].
  destruct role; lia.
Qed.

Lemma circuit_breaker_bounds n :
  (60000 ≤ circuit_breaker_delay n ≤ CIRCUIT_BREAKER_MAX)%Z.
Proof.
  unfold circuit_breaker_delay, saturating_sub_u, CIRCUIT_BREAKER_MAX.
  assert (1 ≤ 2 ^ Z.min (Z.max 0 (n - MAX_FAST_FAILS)) 3)%Z; [|lia].
  change 1%Z with (2 ^ 0)%Z. apply Z.pow_le_mono_r; lia.
Qed.

Lemma schedule_restart_spec now cfg c :
  (MIN_BACKOFF ≤ co_backoff c ≤ MAX_BACKOFF)%Z →
  ∃ delay next, schedule_restart now cfg c =
      (delay, set_co_restart_at (Some (now + delay)%Z) (set_co_backoff next c)) ∧
    (MIN_BACKOFF ≤ delay ≤ CIRCUIT_BREAKER_MAX)%Z ∧ (MIN_BACKOFF ≤ next ≤ MAX_BACKOFF)%Z.
Proof.
  intros Hp. unfold schedule_restart. destruct (restart_backoff _ _) as [d n] eqn:Hr.
  apply restart_backoff_bounds in Hr as (Hd & Hn & _); [|done].
  eexists _, _. split; [reflexivity|]. pose proof (circuit_breaker_bounds (co_fast_fail_count c)).
  unfold MIN_BACKOFF, MAX_BACKOFF, CIRCUIT_BREAKER_MAX in *.
  case_decide; lia.
Qed.

Lemma fails_succ n : (0 ≤ n ≤ u32_MAX)%Z → (0 ≤ saturating_add_u32 n 1 ≤ u32_MAX)%Z.
Proof. unfold saturating_add_u32. lia. Qed.

(** Arming a restart without a child establishes the invariant, whatever state
    was reported before. *)
Lemma armed_inv s t b ff c :
  core_pre (set_co_state Stopped c) → co_child_pid c = None → co_desired_running c = true → co_core_resolving c = false →
  is_running s = false → s ≠ Stopped → (0 ≤ ff ≤ u32_MAX)%Z → (MIN_BACKOFF ≤ b ≤ MAX_BACKOFF)%Z →
  core_inv (set_co_state s (set_co_restart_at (Some t) (set_co_backoff b (set_co_fast_fail_count ff c)))).
Proof.
  intros Hp Hpid Hd Hr Hs Hs' Hff Hb. pose proof (no_child_no_kill _ Hp Hpid) as Hk. simpl in Hk.
  constructor; simpl; rewrite ?Hd; try done; [|by intros ->|right; by eexists].
  destruct (Hp) as []. simpl in *. constructor; simpl; rewrite ?Hpid, ?Hk in *; try done.
  intros p. split; [done|]. intros ->. done.
Qed.

Lemma start_failed_inv now cfg what c :
  core_pre c → co_child_pid c = None → co_desired_running c = true → co_core_resolving c = false →
  core_inv (start_failed now cfg what c).
Proof.
  intros Hp Hpid Hd Hr. unfold start_failed.
  set (ff := saturating_add_u32 _ _).
  destruct (schedule_restart_spec now cfg (set_co_fast_fail_count ff c)) as (d & n & -> & Hd1 & Hn); [apply Hp|].
  rewrite set_state_equiv, record_log_equiv. apply armed_inv; try done; [|apply fails_succ, Hp].
  destruct (Hp). constructor; simpl; try done. intros p. by rewrite Hpid.
Qed.

Lemma valid_build_command layout cfg cp sp :
  validate cfg = Ok tt → is_ok (build_command layout cfg cp sp) = true.
Proof.
  intros Hv%validate_ok_valid. unfold build_command. destruct layout, (cfg_role cfg) eqn:Hr; try done.
  destruct Hv as (_ & _ & Haddr). unfold remote_address. specialize (Haddr Hr).
  destruct (cfg_server_address cfg); [|done]. simpl. repeat case_match; done.
Qed.

Lemma write_core_artefacts_equiv env cfg c : (write_core_artefacts env cfg c).2 ≡ c.
Proof.
  unfold write_core_artefacts. destruct (env_write_conf env); [done|].
  destruct (env_write_settings env); simpl; by rewrite !emit_neutral by done.
Qed.

(** A spawned child owns the slice; a failed spawn leaves it as it was. *)
Lemma spawn_child_spec env prog args c :
  core_pre c → co_child_pid c = None → co_desired_running c = true → co_core_resolving c = false →
  co_restart_at c = None →
  match spawn_child env prog args c with
  | (None, d) => core_inv d
  | (Some _, d) => d ≡ c
  end.
Proof.
  intros Hp Hpid Hd Hr Hre. pose proof (no_child_no_kill _ Hp Hpid) as Hk.
  unfold spawn_child. destruct (env_spawn env) as [pid|e]; [|done].
  cbn [co_core_disk_log emit set_co_trace].
  destruct (if co_core_disk_log c then None else env_open_log env) as [e|].
  - constructor; try done. intros p. simpl. rewrite <-app_assoc, balance_app. simpl. case_decide; lia.
  - rewrite set_state_equiv. destruct (Hp) as [].
    constructor; simpl; rewrite ?Hre, ?Hd; try done; try (by intros []); try (by left).
    constructor; simpl; try done.
    + intros p. split; [by intros [= ->]|by intros [= ->]].
    + intros p. rewrite balance_app, cp_balance0, Hk. simpl. repeat case_decide; simplify_eq; lia.
Qed.

Lemma on_core_resolved_inv env cfg out c :
  core_inv c → validate cfg = Ok tt → co_core_resolving c = true → core_inv (on_core_resolved env cfg out c).
Proof.
  intros [Hp Hst Hre Hde Hoff] Hv Hres. unfold on_core_resolved.
  assert (co_child_pid c = None) as Hpid.
  { destruct (co_child_pid c) eqn:E; [|done]. rewrite (cp_resolving _ Hp) in Hres by (by rewrite E). done. }
  assert (co_restart_at c = None) as Hr0.
  { destruct (co_restart_at c); [|done]. destruct (Hre ltac:(by eexists)) as (_ & _ & _ & Hx). congruence. }
  pose proof (no_child_no_kill _ Hp Hpid) as Hk.
  assert (core_pre (set_co_core_resolving false c)) as Hp0 by (destruct (Hp); by constructor).
  cbn [co_desired_running set_co_core_resolving co_state co_child_kill]. rewrite Hk.
  destruct (co_desired_running c) eqn:Hd; simpl.
  2:{ specialize (Hoff eq_refl). constructor; simpl; rewrite ?Hd, ?Hoff, ?Hr0; try done; by intros []. }
  assert (match co_state c with Running _ => true | _ => false end = false) as ->
    by (destruct (co_state c) eqn:E; try done; by apply no_child_not_running in E).
  simpl. fold (set_co_core_resolving false c). set (c0 := set_co_core_resolving false c) in *.
  destruct out as [layout|reason]; [|by apply start_failed_inv].
  pose proof (write_core_artefacts_equiv env cfg c0) as Hw.
  destruct (write_core_artefacts env cfg c0) as [err c1]. simpl in Hw.
  assert (core_pre c1) as Hp1 by (by rewrite Hw).
  destruct Hw as [_ E2 _ _ E5 _ E7 E8 _ _ _ _ _]. simpl in *.
  destruct err as [e|]; [apply start_failed_inv; congruence|].
  pose proof (valid_build_command layout cfg (env_conf_path env) (env_settings_path env) Hv) as Hb.
  destruct (build_command _ _ _ _) as [[prog args]|e]; [|done].
  pose proof (spawn_child_spec env prog args c1 Hp1 ltac:(congruence) ltac:(congruence) E8 ltac:(congruence)) as Hsp.
  destruct (spawn_child env prog args c1) as [[e|] c2]; [|done].
  apply start_failed_inv; [by rewrite Hsp|..]; destruct Hsp; congruence.
Qed.

Lemma set_co_backoff_id c : set_co_backoff (co_backoff c) c = c.
Proof. by destruct c. Qed.

(** Retiring the exited child: handle, pid and watchdogs are gone. *)
Lemma retire_pre c pid :
  core_pre c → co_child_pid c = Some pid →
  let d := set_co_core_ready_at None (set_co_core_connect_deadline None (kill_child (set_co_child_pid None c))) in
  core_pre (set_co_state Stopped d) ∧ co_child_pid d = None ∧ co_core_resolving d = false ∧
  co_desired_running d = co_desired_running c ∧ co_backoff d = co_backoff c ∧
  co_fast_fail_count d = co_fast_fail_count c ∧ co_restart_at d = co_restart_at c.
Proof.
  intros Hp Hpid d. subst d.
  assert (co_core_resolving c = false) as Hr by (apply (cp_resolving _ Hp); rewrite Hpid; by eexists).
  destruct (kill_child_spec (set_co_child_pid None c)) as (tr & -> & Htr). simpl in *.
  split; [|done]. destruct (Hp) as []. constructor; simpl; try done.
  intros p. by apply balance_after_kill.
Qed.

Lemma handle_child_exit_inv now cfg pid st c :
  core_inv c → core_inv (handle_child_exit now cfg pid st c).
Proof.
  intros [Hp Hst Hre Hde Hoff]. unfold handle_child_exit. case_decide as Hpid; [by constructor|].
  set (c1 := record_log _ c). pose proof (record_log_equiv _ c : c1 ≡ c) as He.
  assert (core_pre c1) as Hp1 by (by rewrite He). destruct He as [_ E2 _ _ _ _ E7 _ _ _ _ _ _]. clearbody c1.
  assert (co_desired_running c1 = true) as Hd.
  { destruct (co_desired_running c1) eqn:E; [done|]. apply (cp_pid _ Hp) in Hpid.
    rewrite Hoff in Hpid by congruence. discriminate Hpid. }
  destruct (retire_pre c1 pid Hp1 ltac:(congruence)) as (Hpre & Hpid' & Hres & Hdes & Hbo & Hff & _).
  set (healthy := match co_core_ready_at _ with Some _ => _ | None => _ end). clearbody healthy.
  set (d := set_co_core_ready_at None _) in *. rewrite Hd in Hdes. clearbody d.
  set (d1 := if healthy then _ else _).
  assert (∃ ff b, d1 = set_co_backoff b (set_co_fast_fail_count ff d) ∧
    (0 ≤ ff ≤ u32_MAX)%Z ∧ (MIN_BACKOFF ≤ b ≤ MAX_BACKOFF)%Z) as (ff & b & -> & Hf & Hb).
  { subst d1. destruct healthy.
    - eexists _, _. split; [reflexivity|]. unfold u32_MAX, MIN_BACKOFF, MAX_BACKOFF; lia.
    - exists (saturating_add_u32 (co_fast_fail_count d) 1), (co_backoff d). split; [symmetry; apply (set_co_backoff_id (set_co_fast_fail_count _ d))|]. split; [apply fails_succ|]; apply Hpre. }
  clear healthy. cbn [co_desired_running set_co_backoff set_co_fast_fail_count]. rewrite Hdes. cbn [negb].
  set (d1 := set_co_backoff b _). set (d2 := if (_ && _)%bool then record_log _ d1 else d1).
  assert (d2 ≡ d1) as He2 by (subst d2; case_match; by rewrite ?record_log_equiv).
  destruct (schedule_restart_spec now cfg d2) as (delay & next & -> & _ & Hn).
  { by rewrite (ce_backoff _ _ He2). }
  assert (∀ s, is_running s = false → s ≠ Stopped →
    core_inv (set_co_state s (set_co_restart_at (Some (now + delay)%Z) (set_co_backoff next d2)))) as Hgoal.
  { intros s Hs Hs'. rewrite He2. by apply (armed_inv s _ next ff d). }
  destruct (bool_decide _); [rewrite record_log_equiv|]; rewrite set_state_equiv; by apply Hgoal.
Qed.

Lemma core_init_inv : core_inv core_init.
Proof.
  constructor; simpl; try done; try (by intros []).
  constructor; simpl; try done; try (by intros []); unfold MIN_BACKOFF, MAX_BACKOFF, u32_MAX, LOG_TAIL; lia.
Qed.

Lemma request_stop_inv env c : core_pre c → core_inv (request_stop env c).
Proof.
  intros Hp. unfold request_stop.
  destruct (stop_core_spec env (set_co_fast_fail_count 0 (set_co_desired_running false c))) as (Hs & Hst & Hpid & Hre & Hd).
  { destruct (Hp). constructor; simpl; try done; unfold u32_MAX; lia. }
  simpl in Hd. constructor; rewrite ?Hst, ?Hre, ?Hd; try done; by intros [].
Qed.

Lemma kill_child_inv c : core_inv c → core_inv (kill_child c).
Proof.
  intros [Hp H1 H2 H3 H4]. pose proof (kill_child_pre _ Hp) as Hk.
  destruct (kill_child_spec c) as (tr & E & _). rewrite E in *. by constructor.
Qed.

Lemma core_inv_watch r d c :
  core_inv c → is_Some (co_child_pid c) →
  core_inv (set_co_core_ready_at r (set_co_core_connect_deadline d c)).
Proof. intros [[] ? ? ? ?] [p Hp]. constructor; try done. constructor; simpl; try done. by rewrite Hp. Qed.

Lemma core_watch_id c :
  set_co_core_ready_at (co_core_ready_at c) (set_co_core_connect_deadline (co_core_connect_deadline c) c) = c.
Proof. by destruct c. Qed.

Lemma on_core_log_inv now cfg pid line c : core_inv c → core_inv (on_core_log now cfg pid line c).
Proof.
  intros Hi. unfold on_core_log. case_decide as Hpid; [|by rewrite record_log_equiv].
  set (c1 := match co_core_ready_at c with Some _ => c | None => _ end).
  set (c2 := if (_ || _)%bool then set_co_core_connect_deadline None c1 else c1).
  assert (∃ r d, c2 = set_co_core_ready_at r (set_co_core_connect_deadline d c)) as (r & d & ->).
  { subst c1 c2. destruct (co_core_ready_at c) eqn:Er, (is_core_ready line), (is_client_connected line);
      destruct (bool_decide (cfg_role cfg = Server)); simpl;
      first [ by exists (Some now), None | by exists (co_core_ready_at c), None; destruct c
            | by exists (Some now), (co_core_connect_deadline c); destruct c
            | by exists (co_core_ready_at c), (co_core_connect_deadline c); rewrite core_watch_id ]. }
  rewrite record_log_equiv. unfold maybe_force_reconnect.
  assert (core_inv (set_co_core_ready_at r (set_co_core_connect_deadline d c)))
    by (apply core_inv_watch; [done|by rewrite Hpid; eexists]).
  repeat case_match; try done; by apply kill_child_inv.
Qed.

Lemma on_core_stalled_inv cfg c :
  core_inv c → is_Some (co_core_connect_deadline c) → core_inv (on_core_stalled cfg c).
Proof.
  intros Hi Hd. unfold on_core_stalled. apply kill_child_inv. rewrite record_log_equiv.
  pose proof (ci_pre _ Hi) as Hp. destruct (co_child_pid c) as [p|] eqn:E.
  - destruct Hi as [[] ? ? ? ?]. constructor; try done. constructor; simpl; try done. by rewrite E.
  - destruct (cp_watch _ Hp E) as [Hn _]. rewrite Hn in Hd. by apply is_Some_None in Hd.
Qed.

(** One step of anything keeps the invariant. *)
Lemma core_exec_inv env cfg op c :
  validate cfg = Ok tt → core_inv c → core_inv (core_exec env cfg op c).
Proof.
  intros Hv Hi. pose proof (ci_pre _ Hi) as Hp. destruct op; simpl.
  - apply start_core_inv; [|done]. destruct (Hp).
    constructor; simpl; try done; unfold u32_MAX, MIN_BACKOFF, MAX_BACKOFF; lia.
  - by apply request_stop_inv.
  - apply restart_core_inv; [|done]. destruct (Hp). by constructor.
  - destruct (co_desired_running c) eqn:Hd; [by apply restart_core_inv|done].
  - destruct (co_core_resolving c) eqn:Hr; [by apply on_core_resolved_inv|done].
  - destruct Hi as [[] ? ? ? ?]. constructor; try done; by constructor.
  - destruct (co_exit_rx c) as [|[pid st] q]; [done|]. apply handle_child_exit_inv.
    destruct Hi as [[] ? ? ? ?]. constructor; try done; by constructor.
  - destruct (co_core_connect_deadline c) eqn:E; [|done]. case_decide; [|done].
    apply on_core_stalled_inv; [done|by rewrite E].
  - destruct (co_restart_at c) eqn:E; [|done]. case_decide; [|done].
    destruct (ci_restart _ Hi) as (Hd & _); [by rewrite E|].
    unfold on_restart_due. simpl. rewrite Hd. apply start_core_inv; [|done].
    destruct (Hp). by constructor.
  - by apply on_core_log_inv.
  - by rewrite record_log_equiv.
Qed.

(** ** Reachable states *)

(** Any sequence of steps, each under its own environment and (valid) config. *)
Inductive core_reachable : Core → Prop :=
| cr_init : core_reachable core_init
| cr_step env cfg op c :
    core_reachable c → validate cfg = Ok tt → core_reachable (core_exec env cfg op c).

Lemma core_reachable_inv c : core_reachable c → core_inv c.
Proof. induction 1; [apply core_init_inv|by apply core_exec_inv]. Qed.

(** C3: the supervisor is never stranded.  In every reachable state, if the user
    wants the Core up, then a child is running, or one is being resolved, or
    a restart timer is armed; if not, the state is [Stopped] with no child, no
    kill handle, no timer and no watchdog. *)
Theorem supervisor_never_stranded c :
  core_reachable c →
  if co_desired_running c then
    (∃ p, co_state c = Running p ∧ co_child_pid c = Some p) ∨
    (co_state c = Starting ∧ co_core_resolving c = true) ∨
    (∃ t, co_restart_at c = Some t ∧ is_active (co_state c) = true)
  else co_state c = Stopped ∧ co_child_pid c = None ∧ co_child_kill c = None ∧
       co_restart_at c = None ∧ co_core_connect_deadline c = None.
Proof.
  intros [Hp Hst Hre Hde Hoff]%core_reachable_inv. destruct (co_desired_running c) eqn:Hd.
  - destruct (Hde eq_refl) as [Hrun|[t Ht]].
    + destruct (co_state c) eqn:Es; try done; [right; left; by auto|left].
      eexists. split; [done|]. by apply (cp_pid _ Hp).
    + right; right. exists t. split; [done|]. destruct (Hre ltac:(by rewrite Ht)) as (_ & Hnr & Hns & _).
      unfold is_active. rewrite Hnr. by destruct (co_state c).
  - specialize (Hoff eq_refl). assert (co_child_pid c = None) as Hpid.
    { destruct (co_child_pid c) as [q|] eqn:E; [|done]. apply (cp_pid _ Hp) in E. congruence. }
    split_and!; try done; [by apply no_child_no_kill| |by apply (cp_watch _ Hp)].
    destruct (co_restart_at c); [|done]. destruct (Hre ltac:(by eexists)) as (Hx & _). done.
Qed.

(** No Core is orphaned.  In every reachable state, for every pid, the
    children spawned minus the kills issued is one exactly when that pid is the
    child whose kill handle is held, and zero otherwise; a held handle is
    always the running child's. *)
Theorem no_orphaned_core c p :
  core_reachable c →
  balance p (co_trace c) = (if decide (co_child_kill c = Some p) then 1%Z else 0%Z) ∧
  (co_child_kill c = Some p → co_child_pid c = Some p ∧ co_state c = Running p).
Proof.
  intros [Hp _ _ _ _]%core_reachable_inv. split; [apply (cp_balance _ Hp)|].
  intros Hk%(cp_kill _ Hp). split; [done|]. by apply (cp_pid _ Hp).
Qed.

(** Recovery.  Whenever a restart is armed, letting its timer fire and then
    resolving a Core whose artefacts can be written and which spawns leads to
    [Running], with the artefacts of the current config on disk before it. *)
Theorem core_recovers c t env1 env2 cfg layout pid :
  core_reachable c → validate cfg = Ok tt →
  co_restart_at c = Some t → (t ≤ env_now env1)%Z →
  env_spawn env2 = Ok pid → env_open_log env2 = None →
  env_write_conf env2 = None → env_write_settings env2 = None →
  let c' := core_exec env2 cfg (OpResolved (Ok layout)) (core_exec env1 cfg OpRestartDue c) in
  co_state c' = Running pid ∧ co_child_kill c' = Some pid ∧
  co_core_connect_deadline c' = Some (env_now env2 + CORE_CONNECT_TIMEOUT)%Z ∧
  FxWrite (env_conf_path env2) (generate_synergy_conf cfg) ∈ co_trace c'.
Proof.
  intros Hr Hv Ht Hnow Hsp Hlog Hw1 Hw2. pose proof (core_reachable_inv _ Hr) as Hi.
  destruct (ci_restart _ Hi) as (Hd & Hnr & _ & _); [by rewrite Ht|]. pose proof (ci_pre _ Hi) as Hp.
  assert (co_child_pid c = None) as Hpid.
  { destruct (co_child_pid c) as [q|] eqn:E; [|done]. apply (cp_pid _ Hp) in E. by rewrite E in Hnr. }
  cbn [core_exec]. rewrite Ht, decide_True by done.
  assert (on_restart_due cfg c ≡ set_co_core_resolving true (set_co_state Starting (set_co_restart_at None c))) as He.
  { unfold on_restart_due. cbn [co_desired_running set_co_restart_at]. rewrite Hd.
    rewrite start_core_fresh; [done| |]; simpl; [intros q Hq; by eapply no_child_not_running|by apply no_child_no_kill]. }
  set (d := on_restart_due cfg c) in *. clearbody d. destruct He as [E1 E2 E3 _ _ _ _ E8 _ _ _ _ _]. simpl in *.
  rewrite E8. cbv zeta. unfold on_core_resolved. cbn [co_desired_running set_co_core_resolving co_state co_child_kill].
  rewrite E2, Hd, E1, E3, (no_child_no_kill _ Hp Hpid). cbn [negb orb].
  unfold write_core_artefacts. rewrite Hw1, Hw2.
  pose proof (valid_build_command layout cfg (env_conf_path env2) (env_settings_path env2) Hv) as Hb.
  destruct (build_command _ _ _ _) as [[prog args]|e]; [|done].
  unfold spawn_child. rewrite Hsp, Hlog. cbn [co_core_disk_log emit set_co_trace].
  assert ((if co_core_disk_log (set_co_core_resolving false d) then None else None) = @None string) as ->
    by (by case_match).
  set (x := set_co_child_pid (Some pid) _).
  pose proof (set_state_equiv (Running pid) x) as [F1 _ F3 _ _ _ _ _ _ _ _ _ _].
  cbn [co_state co_child_kill co_core_connect_deadline co_trace set_co_core_connect_deadline set_co_core_ready_at].
  rewrite F1, F3. split; [done|]. split; [done|]. split; [done|].
  unfold set_state. rewrite decide_False by (simpl; rewrite E1; done). simpl. set_solver.
Qed.


(** ** Retry pacing *)

Lemma start_failed_restart now cfg what c :
  (MIN_BACKOFF ≤ co_backoff c ≤ MAX_BACKOFF)%Z →
  ∃ d, co_restart_at (start_failed now cfg what c) = Some (now + d)%Z ∧
       (MIN_BACKOFF ≤ d ≤ CIRCUIT_BREAKER_MAX)%Z.
Proof.
  intros Hb. unfold start_failed.
  destruct (schedule_restart_spec now cfg (set_co_fast_fail_count (saturating_add_u32 (co_fast_fail_count c) 1) c))
    as (d & n & -> & Hd & _); [done|].
  exists d. split; [|done]. rewrite (ce_restart _ _ (set_state_equiv _ _)). cbn [co_restart_at set_co_state].
  by rewrite (ce_restart _ _ (record_log_equiv _ _)).
Qed.

Lemma kill_child_restart c : co_restart_at (kill_child c) = co_restart_at c.
Proof. unfold kill_child. by case_match. Qed.

(** Either the timer is as before (or cleared), or freshly armed within bounds. *)
Definition paced (now : Z) (c d : Core) : Prop :=
  ∀ t, co_restart_at d = Some t →
    co_restart_at c = Some t ∨ (now + MIN_BACKOFF ≤ t ≤ now + CIRCUIT_BREAKER_MAX)%Z.

Lemma start_core_restart cfg c : co_restart_at (start_core cfg c) = None.
Proof.
  unfold start_core. repeat case_match; try done; simpl;
    by rewrite (ce_restart _ _ (set_state_equiv _ _)).
Qed.

Lemma on_core_resolved_paced env cfg out c :
  core_pre c → paced (env_now env) c (on_core_resolved env cfg out c).
Proof.
  intros Hp t. unfold on_core_resolved. set (c0 := set_co_core_resolving false c).
  assert (∀ what x, x ≡ c0 → co_restart_at (start_failed (env_now env) cfg what x) = Some t →
    co_restart_at c = Some t ∨ (env_now env + MIN_BACKOFF ≤ t ≤ env_now env + CIRCUIT_BREAKER_MAX)%Z) as Hf.
  { intros what x Hx Ht. right. destruct (start_failed_restart (env_now env) cfg what x) as (d & Hd & Hb).
    - rewrite (ce_backoff _ _ Hx). apply Hp.
    - rewrite Hd in Ht. injection Ht as <-. lia. }
  destruct (negb _); [by left|]. destruct (_ || _); [by left|].
  destruct out as [layout|reason]; [|by apply Hf].
  pose proof (write_core_artefacts_equiv env cfg c0) as Hw.
  destruct (write_core_artefacts env cfg c0) as [[e|] c1]; simpl in Hw; [by apply Hf|].
  destruct (build_command _ _ _ _) as [[prog args]|e].
  2:{ rewrite (ce_restart _ _ (set_state_equiv _ _)). cbn [co_restart_at set_co_state].
      rewrite (ce_restart _ _ (record_log_equiv _ _)), (ce_restart _ _ Hw). by left. }
  unfold spawn_child. destruct (env_spawn env) as [pid|e]; [|by apply Hf].
  destruct (if co_core_disk_log _ then None else _) as [e|].
  - apply Hf. rewrite <-Hw. constructor; try done. intros p. simpl.
    rewrite <-app_assoc, balance_app. simpl. case_decide; lia.
  - simpl. rewrite (ce_restart _ _ (set_state_equiv _ _)). simpl. rewrite (ce_restart _ _ Hw). by left.
Qed.

Lemma handle_child_exit_paced now cfg pid st c :
  core_pre c → paced now c (handle_child_exit now cfg pid st c).
Proof.
  intros Hp t. unfold handle_child_exit. case_decide; [by left|].
  set (c1 := record_log _ c). pose proof (record_log_equiv _ c : c1 ≡ c) as He. clearbody c1.
  destruct (kill_child_spec (set_co_child_pid None c1)) as (tr & -> & _).
  set (healthy := match co_core_ready_at _ with Some _ => _ | None => _ end). clearbody healthy.
  set (d := set_co_core_ready_at None _). set (d1 := if healthy then _ else _).
  assert (co_restart_at d1 = co_restart_at c ∧ (MIN_BACKOFF ≤ co_backoff d1 ≤ MAX_BACKOFF)%Z) as [Hr Hb].
  { pose proof (cp_backoff _ Hp). destruct He as [_ _ _ E4 E5 _ _ _ _ _ _ _ _].
    subst d1. destruct healthy; simpl; rewrite ?E4, E5; split; try done; unfold MIN_BACKOFF, MAX_BACKOFF; lia. }
  clearbody d1. destruct (negb _).
  { rewrite (ce_restart _ _ (set_state_equiv _ _)). simpl. rewrite Hr. by left. }
  set (d2 := if (_ && _)%bool then _ else d1).
  assert (co_backoff d2 = co_backoff d1) as Hb2 by (subst d2; case_match; by rewrite ?(ce_backoff _ _ (record_log_equiv _ _))).
  destruct (schedule_restart_spec now cfg d2) as (delay & next & -> & Hdel & _); [by rewrite Hb2|].
  intros Ht. right. enough (Some (now + delay)%Z = Some t) as [= <-] by lia.
  rewrite <-Ht. destruct (bool_decide _); rewrite ?(ce_restart _ _ (record_log_equiv _ _));
    by rewrite (ce_restart _ _ (set_state_equiv _ _)).
Qed.

(** retries are paced.  Any step from a reachable state that arms a restart
    timer sets it at least half a second and at most five minutes ahead. *)
Theorem restart_timer_paced c env cfg op t :
  core_reachable c → co_restart_at (core_exec env cfg op c) = Some t →
  co_restart_at c = Some t ∨
  (env_now env + MIN_BACKOFF ≤ t ≤ env_now env + CIRCUIT_BREAKER_MAX)%Z.
Proof.
  intros Hr%core_reachable_inv. pose proof (ci_pre _ Hr) as Hp.
  destruct op; cbn [core_exec]; unfold request_start, request_restart, restart_core; rewrite ?start_core_restart; try done.
  - unfold request_stop. intros Ht.
    assert (core_pre (set_co_fast_fail_count 0 (set_co_desired_running false c))) as Hp'
      by (destruct (Hp); constructor; simpl; try done; unfold u32_MAX; lia).
    destruct (stop_core_spec env _ Hp') as (_ & _ & _ & Hn & _). congruence.
  - case_match; rewrite ?start_core_restart; auto; done.
  - case_match; [|by left]. by apply on_core_resolved_paced.
  - by left.
  - destruct (co_exit_rx c) as [|[pid st] q]; [by left|].
    apply (handle_child_exit_paced _ _ _ _ (set_co_exit_rx q c)). destruct (Hp). by constructor.
  - destruct (co_core_connect_deadline c); [|by left]. case_decide; [|by left].
    intros Ht. left. rewrite <-Ht. unfold on_core_stalled.
    rewrite kill_child_restart, (ce_restart _ _ (record_log_equiv _ _)). done.
  - intros Ht. destruct (co_restart_at c) as [u|] eqn:E; [|left; congruence].
    case_decide; [|left; congruence]. unfold on_restart_due in Ht.
    case_match; rewrite ?start_core_restart in Ht; done.
  - unfold on_core_log. intros Ht. left.
    case_decide; rewrite (ce_restart _ _ (record_log_equiv _ _)) in Ht; [|done].
    unfold maybe_force_reconnect in Ht. rewrite <-Ht.
    repeat case_match; by rewrite ?kill_child_restart.
  - rewrite (ce_restart _ _ (record_log_equiv _ _)). by left.
Qed.

(** ** Stop is final *)

Definition is_launch (x : Effect) : bool :=
  match x with FxSpawn _ _ _ | FxResolve _ => true | _ => false end.
Definition launches (c : Core) : list Effect := List.filter is_launch (co_trace c).

Lemma launches_emit x c : is_launch x = false → launches (emit x c) = launches c.
Proof. intros Hx. unfold launches. simpl. rewrite List.filter_app. simpl. by rewrite Hx, app_nil_r. Qed.

Lemma launches_record_log line c : launches (record_log line c) = launches c.
Proof.
  unfold record_log. rewrite launches_emit by done. destruct (parse line) as [ev|]; [|done].
  rewrite launches_emit by done. by destruct ev.
Qed.

Lemma launches_set_state s c : launches (set_state s c) = launches c.
Proof.
  unfold set_state. case_decide; [done|]. rewrite launches_emit by done. by destruct (is_running s).
Qed.

Lemma launches_kill c : launches (kill_child c) = launches c.
Proof. unfold kill_child. case_match; [|done]. by rewrite launches_emit. Qed.

Lemma launches_stop env c : launches (stop_core env c) = launches c.
Proof.
  unfold stop_core. rewrite launches_set_state. case_match; [|done].
  match goal with |- launches (set_co_exit_rx _ ?k) = _ => change (launches k = launches c) end.
  by rewrite launches_kill.
Qed.

(** Stop is final.  Once the user has stopped sharing, no later event other
    than a Start or Restart request (a resolution that lands late, exits, log
    lines, timers, config edits) launches anything or leaves [Stopped]. *)
Theorem stop_is_final c env cfg op :
  core_reachable c → co_desired_running c = false → op ≠ OpStart → op ≠ OpRestart →
  let c' := core_exec env cfg op c in
  co_desired_running c' = false ∧ co_state c' = Stopped ∧ launches c' = launches c.
Proof.
  intros Hi%core_reachable_inv Hd Hno1 Hno2. pose proof (ci_off _ Hi Hd) as Hst. pose proof (ci_pre _ Hi) as Hp.
  assert (co_child_pid c = None) as Hpid
    by (destruct (co_child_pid c) as [q|] eqn:E; [apply (cp_pid _ Hp) in E; congruence|done]).
  destruct op; cbn [core_exec]; try done.
  - unfold request_stop.
    assert (core_pre (set_co_fast_fail_count 0 (set_co_desired_running false c))) as Hp'
      by (destruct (Hp); constructor; simpl; try done; unfold u32_MAX; lia).
    destruct (stop_core_spec env _ Hp') as (_ & -> & _ & _ & ->). by rewrite launches_stop.
  - by rewrite Hd.
  - destruct (co_core_resolving c); [|done]. unfold on_core_resolved.
    cbn [co_desired_running set_co_core_resolving]. rewrite Hd. done.
  - destruct (co_exit_rx c) as [|[pid st] q]; [done|]. unfold handle_child_exit.
    rewrite decide_True by (simpl; congruence). done.
  - destruct (cp_watch _ Hp Hpid) as [-> _]. done.
  - destruct (co_restart_at c) eqn:E; [|done].
    destruct (ci_restart _ Hi) as (Hx & _); [by rewrite E|congruence].
  - unfold on_core_log. rewrite Hpid, decide_False by done.
    pose proof (record_log_equiv ("[synbad] retired Core " +:+ pretty pid +:+ ": " +:+ line) c) as [-> -> _].
    rewrite launches_record_log. exact (conj Hd (conj Hst eq_refl)).
  - pose proof (record_log_equiv line c) as [-> -> _].
    rewrite launches_record_log. exact (conj Hd (conj Hst eq_refl)).
Qed.

(** ** Retired children *)

Lemma own_line_no_signal rest : parse ("[synbad] retired Core " +:+ rest) = None.
Proof.
  destruct (parse _) as [ev|] eqn:E; [|done]. apply parse_iff in E. exfalso. revert E.
  rewrite bytes_of_app.
  assert (strip_log_prefix (bytes_of "[synbad] retired Core " ++ bytes_of rest) = bytes_of "retired Core " ++ bytes_of rest) as ->.
  { unfold strip_log_prefix.
    change (bytes_of "[synbad] retired Core " ++ bytes_of rest)
      with (bytes_of "[" ++ bytes_of "synbad" ++ bytes_of "] " ++ (bytes_of "retired Core " ++ bytes_of rest)).
    rewrite strip_timestamp_bracket; [reflexivity|by apply find_char_None|reflexivity]. }
  destruct ev; cbn [signal]; try done.
  - intros (_ & r & E). discriminate E.
  - intros (_ & r & E). discriminate E.
  - intros (f & r & _ & _ & E). discriminate E.
Qed.

(** a retired Core is silent.  A log line of any process other than the
    current child is recorded (marked as retired) but changes nothing the
    supervisor acts on: no readiness, no forced reconnect, no connected peer,
    no active screen. *)
Theorem retired_core_silent now cfg pid line c :
  co_child_pid c ≠ Some pid →
  let c' := on_core_log now cfg pid line c in
  c' ≡ c ∧ co_connected_peers c' = co_connected_peers c ∧ co_active_screen c' = co_active_screen c ∧
  last (co_log_tail c') = Some ("[synbad] retired Core " +:+ pretty pid +:+ ": " +:+ line)%string.
Proof.
  intros Hpid. unfold on_core_log. rewrite decide_False by done. split; [apply record_log_equiv|].
  unfold record_log. rewrite own_line_no_signal. simpl. split; [done|]. split; [done|]. by rewrite last_snoc.
Qed.

(** ** A concrete run *)

Definition wit_env (now : Z) : Env :=
  {| env_now := now; env_conf_path := "synergy.conf"; env_settings_path := "deskflow.conf";
     env_write_conf := None; env_write_settings := None; env_spawn := Ok 42%Z;
     env_open_log := None; env_exits := [] |}.

(** Start, a resolved Core, and its crash two seconds later. *)
Definition wit_crashed : Core :=
  core_exec (wit_env 2000) sample_config OpExit
    (core_exec (wit_env 2000) sample_config (OpExitQueued 42 {| es_code := Some 1%Z; es_display := "exit status: 1" |})
      (core_exec (wit_env 0) sample_config (OpResolved (Ok (Unified "deskflow-core")))
        (core_exec (wit_env 0) sample_config OpStart core_init))).

Definition wit_stopped : Core := core_exec (wit_env 2100) sample_config OpStop wit_crashed.

Ltac reach := repeat first [apply cr_init | apply cr_step; [|vm_compute; reflexivity]].

Lemma supervisor_never_stranded_witness :
  co_state wit_crashed = Crashed (Some 1%Z) ∧ ∃ t, co_restart_at wit_crashed = Some t.
Proof.
  assert (co_state wit_crashed = Crashed (Some 1%Z)) as Es by (vm_compute; reflexivity).
  assert (co_desired_running wit_crashed = true) as Ed by (vm_compute; reflexivity).
  pose proof (supervisor_never_stranded wit_crashed ltac:(unfold wit_crashed; reach)) as H.
  rewrite Ed, Es in H. split; [exact Es|].
  destruct H as [(p & Hs & _)|[[Hs _]|(t & Ht & _)]]; [discriminate Hs|discriminate Hs|exact (ex_intro _ t Ht)].
Defined.

Lemma no_orphaned_core_witness : balance 42 (co_trace wit_crashed) = 0%Z.
Proof. apply (no_orphaned_core wit_crashed 42). unfold wit_crashed. reach. Defined.

Lemma core_recovers_witness :
  co_state (core_exec (wit_env 3000) sample_config (OpResolved (Ok (Unified "deskflow-core")))
    (core_exec (wit_env 3000) sample_config OpRestartDue wit_crashed)) = Running 42.
Proof.
  apply (core_recovers wit_crashed 2500 (wit_env 3000) (wit_env 3000) sample_config (Unified "deskflow-core") 42).
  - unfold wit_crashed. reach.
  - vm_compute. reflexivity.
  - vm_compute. reflexivity.
  - simpl. lia.
  - reflexivity.
  - reflexivity.
  - reflexivity.
  - reflexivity.
Defined.

Lemma restart_timer_paced_witness :
  co_restart_at wit_crashed = None ∨ (2000 + MIN_BACKOFF ≤ 2500 ≤ 2000 + CIRCUIT_BREAKER_MAX)%Z.
Proof.
  destruct (restart_timer_paced
    (core_exec (wit_env 2000) sample_config (OpExitQueued 42 {| es_code := Some 1%Z; es_display := "exit status: 1" |})
      (core_exec (wit_env 0) sample_config (OpResolved (Ok (Unified "deskflow-core")))
        (core_exec (wit_env 0) sample_config OpStart core_init)))
    (wit_env 2000) sample_config OpExit 2500) as [H|H].
  - reach.
  - vm_compute. reflexivity.
  - vm_compute in H. discriminate H.
  - right. exact H.
Defined.

Lemma stop_is_final_witness :
  co_state (core_exec (wit_env 9000) sample_config OpRestartDue wit_stopped) = Stopped.
Proof.
  apply (stop_is_final wit_stopped (wit_env 9000) sample_config OpRestartDue).
  - unfold wit_stopped, wit_crashed. reach.
  - vm_compute. reflexivity.
  - discriminate.
  - discriminate.
Defined.

Lemma retired_core_silent_witness :
  co_connected_peers (on_core_log 0 sample_config 7 "NOTE: started server" wit_crashed) = co_connected_peers wit_crashed.
Proof. apply (retired_core_silent 0 sample_config 7 "NOTE: started server" wit_crashed). vm_compute. discriminate. Defined.
