(* ===== verification/Store.v ===== *)
(** * Files on disk

    A small file system with faults, and the three stores written with the
    write-to-temporary-then-rename pattern: [Config::load]/[save]
    ([synbad-config/src/lib.rs]), [load_sidecar]/[save_sidecar]
    ([synbad-sync/src/versioned.rs]) and [TrustedPeerStore]
    ([synbad-discovery/src/trust.rs]). *)

From Stdlib Require Import Ascii ZArith Lia.
From S2P Require Import Prelude Primitives Config Versioned IpcTypes.

(** ** The file system *)

(** How one system call fares: it succeeds, or fails after [n] bytes took
    effect (only a write has partial effect). *)
Inductive Fault := Works | FailsAfter (n : nat).

Record Fs := { fs_files : gmap string bytes; fs_faults : list Fault }.

Definition next_fault (fs : Fs) : Fault * Fs :=
  match fs_faults fs with
  | [] => (Works, fs)
  | f :: rest => (f, {| fs_files := fs_files fs; fs_faults := rest |})
  end.

Definition set_file (path : string) (b : bytes) (fs : Fs) : Fs :=
  {| fs_files := <[path := b]> (fs_files fs); fs_faults := fs_faults fs |}.

Inductive ReadResult := FileBytes (b : bytes) | NotFound | ReadFailed.

Definition fs_read (path : string) (fs : Fs) : ReadResult * Fs :=
  let '(f, fs) := next_fault fs in
  match f with
  | FailsAfter _ => (ReadFailed, fs)
  | Works => (match fs_files fs !! path with Some b => FileBytes b | None => NotFound end, fs)
  end.

(** [fs::read_to_string]: not UTF-8 is an I/O error. *)
Definition fs_read_to_string (path : string) (fs : Fs) : ReadResult * Fs :=
  match fs_read path fs with
  | (FileBytes b, fs') => (if valid_utf8 b then FileBytes b else ReadFailed, fs')
  | r => r
  end.

(** [fs::write]: creates or truncates, then writes. *)
Definition fs_write (path : string) (b : bytes) (fs : Fs) : bool * Fs :=
  let '(f, fs) := next_fault fs in
  match f with
  | Works => (true, set_file path b fs)
  | FailsAfter n => (false, set_file path (take n b) fs)
  end.

(** [fs::rename]: atomic. *)
Definition fs_rename (src dst : string) (fs : Fs) : bool * Fs :=
  let '(f, fs) := next_fault fs in
  match f, fs_files fs !! src with
  | Works, Some b => (true, {| fs_files := <[dst := b]> (delete src (fs_files fs)); fs_faults := fs_faults fs |})
  | _, _ => (false, fs)
  end.

Definition fs_remove (path : string) (fs : Fs) : bool * Fs :=
  let '(f, fs) := next_fault fs in
  match f with
  | Works => (match fs_files fs !! path with Some _ => true | None => false end,
              {| fs_files := delete path (fs_files fs); fs_faults := fs_faults fs |})
  | FailsAfter _ => (false, fs)
  end.

(** [create_dir_all], [sync_all], opening a directory: only their outcome matters. *)
Definition fs_other (fs : Fs) : bool * Fs :=
  let '(f, fs) := next_fault fs in
  (match f with Works => true | FailsAfter _ => false end, fs).

(** ** Configuration file *)

(** The [toml] package at [Config]. *)
Class TomlOps := {
  toml_to_string_pretty : Config → option string;
  toml_from_str : string → option Config
}.
(** Values that are [==] to themselves (no NaN gain) read back as written. *)
Class TomlLaws `{TomlOps} := {
  toml_utf8 : ∀ c s, toml_to_string_pretty c = Some s → valid_utf8 (bytes_of s) = true;
  toml_roundtrip : ∀ c s, config_eqb c c = true → toml_to_string_pretty c = Some s → toml_from_str s = Some c
}.

(** The temporary of [path.with_extension("toml.tmp")] is a different name. *)
Record PathPair := { pp_path : string; pp_parent : string; pp_tmp : string }.
Definition pp_ok (p : PathPair) : Prop := pp_path p ≠ pp_tmp p.

(** Create the directory, write the temporary, rename it over the target; an
    error names the path it happened at.  The body shared by [Config::save] and
    [save_sidecar]. *)
Definition replace_via_tmp (p : PathPair) (body : bytes) (fs : Fs) : result string unit * Fs :=
  let '(ok, fs) := fs_other fs in
  if negb ok then (Err (pp_parent p), fs) else
  let '(ok, fs) := fs_write (pp_tmp p) body fs in
  if negb ok then (Err (pp_tmp p), fs) else
  let '(ok, fs) := fs_rename (pp_tmp p) (pp_path p) fs in
  if negb ok then (Err (pp_path p), fs) else (Ok tt, fs).

Section config_file.
Context `{TomlOps}.

Definition config_load (path : string) (fs : Fs) : result ConfigError (option Config) * Fs :=
  let '(r, fs) := fs_read_to_string path fs in
  (match r with
   | FileBytes b =>
     match toml_from_str (string_of b) with
     | None => Err TomlDe
     | Some cfg => match validate cfg with Ok _ => Ok (Some cfg) | Err e => Err e end
     end
   | NotFound => Ok None
   | ReadFailed => Err (Io path)
   end, fs).

Definition config_save (c : Config) (p : PathPair) (fs : Fs) : result ConfigError unit * Fs :=
  match validate c with
  | Err e => (Err e, fs)
  | Ok _ =>
    match toml_to_string_pretty c with
    | None => (Err TomlSer, fs)
    | Some body =>
      let '(r, fs) := replace_via_tmp p (bytes_of body) fs in (rmap_err Io r, fs)
    end
  end.
End config_file.

(** ** Version sidecar *)

Inductive VersionedConfigError := VIo (path : string) | VJson.

Section sidecar.
Context `{JsonOps SideCar}.

Definition load_sidecar (path : string) (fs : Fs) : result VersionedConfigError (option SideCar) * Fs :=
  let '(r, fs) := fs_read path fs in
  (match r with
   | FileBytes b => match from_slice b with Some sc => Ok (Some sc) | None => Err VJson end
   | NotFound => Ok None
   | ReadFailed => Err (VIo path)
   end, fs).

Definition save_sidecar (v : VersionedConfig) (p : PathPair) (fs : Fs)
    : result VersionedConfigError unit * Fs :=
  match to_vec (sidecar_of v) with
  | None => (Err VJson, fs)
  | Some body =>
    let '(r, fs) := replace_via_tmp p body fs in (rmap_err VIo r, fs)
  end.
End sidecar.

(** ** Trusted peers *)

Inductive TrustError := TIo (path : string) | TJson.

Record TrustFile := { tf_peers : list TrustedPeer }.

Record TrustedPeerStore := { ts_path : PathPair; ts_peers : list TrustedPeer }.

Definition trust_contains (machine_id : string) (s : TrustedPeerStore) : bool :=
  existsb (λ p, bool_decide (tp_machine_id p = machine_id)) (ts_peers s).

Definition trust_get (machine_id : string) (s : TrustedPeerStore) : option TrustedPeer :=
  List.find (λ p, bool_decide (tp_machine_id p = machine_id)) (ts_peers s).

(** Replace the first entry with the peer's id, or append. *)
Fixpoint upsert_peer (peer : TrustedPeer) (ps : list TrustedPeer) : list TrustedPeer :=
  match ps with
  | [] => [peer]
  | q :: ps' => if decide (tp_machine_id q = tp_machine_id peer) then peer :: ps'
                else q :: upsert_peer peer ps'
  end.

Definition drop_peer (machine_id : string) (ps : list TrustedPeer) : list TrustedPeer :=
  List.filter (λ p, bool_decide (tp_machine_id p ≠ machine_id)) ps.

Section trust.
Context `{JsonOps TrustFile}.

Definition trust_load (p : PathPair) (fs : Fs) : result TrustError TrustedPeerStore * Fs :=
  let '(r, fs) := fs_read (pp_path p) fs in
  (match r with
   | FileBytes b =>
     match from_slice b with
     | Some f => Ok {| ts_path := p; ts_peers := tf_peers f |}
     | None => Err TJson
     end
   | NotFound => Ok {| ts_path := p; ts_peers := [] |}
   | ReadFailed => Err (TIo (pp_path p))
   end, fs).

(** The [io::Result] closure of [save]: create the temporary, write, sync,
    rename, sync the directory. *)
Definition trust_commit (p : PathPair) (body : bytes) (fs : Fs) : bool * Fs :=
  let '(ok, fs) := fs_other fs in           (* open with create_new *)
  if negb ok then (false, fs) else
  let '(ok, fs) := fs_write (pp_tmp p) body fs in
  if negb ok then (false, fs) else
  let '(ok, fs) := fs_other fs in           (* sync_all *)
  if negb ok then (false, fs) else
  let '(ok, fs) := fs_rename (pp_tmp p) (pp_path p) fs in
  if negb ok then (false, fs) else
  fs_other fs.                              (* open and sync the directory *)

Definition trust_save (p : PathPair) (peers : list TrustedPeer) (fs : Fs) : result TrustError unit * Fs :=
  let '(ok, fs) := fs_other fs in
  if negb ok then (Err (TIo (pp_parent p)), fs) else
  match to_vec {| tf_peers := peers |} with
  | None => (Err TJson, fs)
  | Some body =>
    let '(ok, fs) := trust_commit p body fs in
    let '(_, fs) := fs_remove (pp_tmp p) fs in
    if negb ok then (Err (TIo (pp_path p)), fs) else (Ok tt, fs)
  end.

Definition trust_upsert (peer : TrustedPeer) (s : TrustedPeerStore) (fs : Fs)
    : result TrustError unit * TrustedPeerStore * Fs :=
  let peers := upsert_peer peer (ts_peers s) in
  let '(r, fs) := trust_save (ts_path s) peers fs in
  match r with
  | Err e => (Err e, s, fs)
  | Ok _ => (Ok tt, {| ts_path := ts_path s; ts_peers := peers |}, fs)
  end.

Definition trust_remove (machine_id : string) (s : TrustedPeerStore) (fs : Fs)
    : result TrustError bool * TrustedPeerStore * Fs :=
  let peers := drop_peer machine_id (ts_peers s) in
  if decide (length peers ≠ length (ts_peers s)) then
    let '(r, fs) := trust_save (ts_path s) peers fs in
    match r with
    | Err e => (Err e, s, fs)
    | Ok _ => (Ok true, {| ts_path := ts_path s; ts_peers := peers |}, fs)
    end
  else (Ok false, s, fs).
End trust.

(** ** Lemmas: the file system under faults *)

Definition content (path : string) (fs : Fs) : option bytes := fs_files fs !! path.

Lemma next_fault_files fs f fs' : next_fault fs = (f, fs') → fs_files fs' = fs_files fs.
Proof. unfold next_fault. destruct (fs_faults fs); naive_solver. Qed.

Lemma fs_other_files fs ok fs' : fs_other fs = (ok, fs') → fs_files fs' = fs_files fs.
Proof.
  unfold fs_other. destruct (next_fault fs) as [f fs1] eqn:E. intros [= _ <-]. by eapply next_fault_files.
Qed.

Lemma fs_write_other path b fs ok fs' q :
  fs_write path b fs = (ok, fs') → q ≠ path → content q fs' = content q fs.
Proof.
  unfold fs_write, content. destruct (next_fault fs) as [f fs1] eqn:E. apply next_fault_files in E.
  destruct f; intros [= _ <-] Hq; simpl; by rewrite lookup_insert_ne, E.
Qed.

Lemma fs_write_ok path b fs fs' : fs_write path b fs = (true, fs') → content path fs' = Some b.
Proof.
  unfold fs_write, content. destruct (next_fault fs) as [f fs1]. destruct f; intros [= <-]; simpl.
  by rewrite lookup_insert_eq.
Qed.

Lemma fs_rename_spec src dst fs ok fs' :
  src ≠ dst → fs_rename src dst fs = (ok, fs') →
  (∀ q, q ≠ src → q ≠ dst → content q fs' = content q fs) ∧
  content dst fs' = if ok then content src fs else content dst fs.
Proof.
  intros Hne. unfold fs_rename, content. destruct (next_fault fs) as [f fs1] eqn:E. apply next_fault_files in E.
  destruct f as [|n]; [destruct (fs_files fs1 !! src) as [b|] eqn:Eb|]; intros [= <- <-]; simpl;
    (split; [intros q Hs Hd|]); rewrite <-?E; try done.
  - by rewrite lookup_insert_ne, lookup_delete_ne.
  - by rewrite lookup_insert_eq.
Qed.

Lemma fs_remove_other path fs ok fs' q :
  fs_remove path fs = (ok, fs') → q ≠ path → content q fs' = content q fs.
Proof.
  unfold fs_remove, content. destruct (next_fault fs) as [f fs1] eqn:E. apply next_fault_files in E.
  destruct f; intros [= _ <-] Hq; simpl; by rewrite ?lookup_delete_ne, ?E.
Qed.

(** Write a temporary and rename it over the target. *)
Lemma replace_file p body fs ok1 fs1 ok2 fs2 :
  pp_ok p → fs_write (pp_tmp p) body fs = (ok1, fs1) → fs_rename (pp_tmp p) (pp_path p) fs1 = (ok2, fs2) →
  (∀ q, q ≠ pp_path p → q ≠ pp_tmp p → content q fs2 = content q fs) ∧
  content (pp_path p) fs1 = content (pp_path p) fs ∧
  (ok1 = true → content (pp_path p) fs2 = if ok2 then Some body else content (pp_path p) fs).
Proof.
  intros Hp Hw Hr. apply fs_rename_spec in Hr as [Hq Hd]; [|by apply not_eq_sym].
  split; [|split].
  - intros q Hq1 Hq2. rewrite Hq by done. by eapply fs_write_other.
  - by eapply fs_write_other.
  - intros ->. rewrite Hd. destruct ok2; [by eapply fs_write_ok|]. by eapply fs_write_other.
Qed.

(** What a save may do: on success the file holds the new bytes, on failure
    the old ones; nothing but the file and its temporary changes. *)
Definition saved (p : PathPair) (body : bytes) (ok : bool) (fs fs' : Fs) : Prop :=
  content (pp_path p) fs' = (if ok then Some body else content (pp_path p) fs) ∧
  ∀ q, q ≠ pp_path p → q ≠ pp_tmp p → content q fs' = content q fs.

Lemma replace_via_tmp_saved p body fs r fs' :
  pp_ok p → replace_via_tmp p body fs = (r, fs') → saved p body (is_ok r) fs fs'.
Proof.
  intros Hp. unfold replace_via_tmp.
  destruct (fs_other fs) as [ok0 fs0] eqn:E0. apply fs_other_files in E0.
  assert (∀ q, content q fs0 = content q fs) as H0 by (intros q; unfold content; by rewrite E0).
  destruct ok0; [|intros [= <- <-]; split; [apply H0|]; intros; apply H0].
  destruct (fs_write _ _ fs0) as [ok1 fs1] eqn:E1.
  destruct (fs_rename (pp_tmp p) (pp_path p) fs1) as [ok2 fs2] eqn:E2.
  destruct (replace_file _ _ _ _ _ _ _ Hp E1 E2) as (Hq & Hd1 & Hd2).
  destruct ok1; simpl.
  2:{ intros [= <- <-]. split; [by rewrite Hd1, H0|]. intros q Hq1 Hq2. rewrite <-H0. by eapply fs_write_other. }
  specialize (Hd2 eq_refl). destruct ok2; simpl; intros [= <- <-]; (split; [by rewrite Hd2, ?H0|]);
    intros; rewrite Hq, H0; done.
Qed.

(** Reading back without a fault. *)
Lemma fs_read_content path fs :
  fs_faults fs = [] →
  fs_read path fs = (match content path fs with Some b => FileBytes b | None => NotFound end, fs).
Proof. intros Hf. unfold fs_read, next_fault. by rewrite Hf. Qed.

(** The same files with nothing going wrong. *)
Definition healthy (fs : Fs) : Fs := {| fs_files := fs_files fs; fs_faults := [] |}.

Lemma fs_read_to_string_content path fs :
  fs_read_to_string path (healthy fs) =
  (match content path fs with
   | Some b => if valid_utf8 b then FileBytes b else ReadFailed
   | None => NotFound
   end, healthy fs).
Proof.
  unfold fs_read_to_string. rewrite fs_read_content by done.
  change (content path (healthy fs)) with (content path fs). by destruct (content path fs).
Qed.

Lemma config_save_spec `{TomlLaws} c p fs r fs' :
  pp_ok p → config_eqb c c = true → config_save c p fs = (r, fs') →
  (if is_ok r then validate c = Ok tt ∧ (config_load (pp_path p) (healthy fs')).1 = Ok (Some c)
   else content (pp_path p) fs' = content (pp_path p) fs) ∧
  ∀ q, q ≠ pp_path p → q ≠ pp_tmp p → content q fs' = content q fs.
Proof.
  intros Hp Hself. unfold config_save. destruct (validate c) as [[]|e] eqn:Hv; [|by intros [= <- <-]].
  destruct (toml_to_string_pretty c) as [body|] eqn:Eb; [|by intros [= <- <-]].
  destruct (replace_via_tmp p _ fs) as [r0 fs0] eqn:E. intros [= <- <-].
  apply replace_via_tmp_saved in E as [Hc Hq]; [|done]. split; [|done].
  destruct r0 as [[]|]; [|done]. cbn [is_ok rmap_err]. split; [done|]. cbn [is_ok] in Hc.
  unfold config_load. rewrite fs_read_to_string_content, Hc, (toml_utf8 _ _ Eb). simpl. rewrite string_of_bytes_of, (toml_roundtrip _ _ Hself Eb), Hv. done.
Qed.

Lemma save_sidecar_saved `{JsonLaws SideCar} v p fs :
  pp_ok p →
  (∀ q, q ≠ pp_path p → q ≠ pp_tmp p → content q (save_sidecar v p fs).2 = content q fs) ∧
  ((save_sidecar v p fs).1 = Ok tt →
   (load_sidecar (pp_path p) (healthy (save_sidecar v p fs).2)).1 = Ok (Some (sidecar_of v))).
Proof.
  intros Hp. unfold save_sidecar. destruct (to_vec (sidecar_of v)) as [body|] eqn:Eb; [|done].
  destruct (replace_via_tmp p _ fs) as [r0 fs0] eqn:E.
  apply replace_via_tmp_saved in E as [Hc Hq]; [|done]. split; [done|].
  destruct r0 as [[]|]; [|done]. intros _. cbn [fst snd] in *. simpl in Hc.
  unfold load_sidecar. rewrite fs_read_content by done.
  change (content (pp_path p) (healthy fs0)) with (content (pp_path p) fs0).
  by rewrite Hc, (from_slice_to_vec _ _ Eb).
Qed.

(** Without faults every save goes through. *)
Lemma replace_via_tmp_works p body fs :
  fs_faults fs = [] → ∃ fs', replace_via_tmp p body fs = (Ok tt, fs') ∧ fs_faults fs' = [].
Proof.
  intros Hf. destruct fs as [files faults]. simpl in Hf. subst faults.
  unfold replace_via_tmp, fs_other, fs_write, fs_rename, next_fault, set_file. simpl. rewrite lookup_insert_eq. by eexists.
Qed.

(** Saving the config is all or nothing.  Under any faults, for a config
    without a NaN gain, a save that
    reports success leaves a file that loads back as exactly that config (and
    the config was valid); a save that reports an error leaves the previous file
    untouched; no file other than the target and its temporary changes. *)
Theorem config_save_all_or_nothing `{TomlLaws} c p fs r fs' :
  pp_ok p → config_eqb c c = true → config_save c p fs = (r, fs') →
  (if is_ok r then validate c = Ok tt ∧ (config_load (pp_path p) (healthy fs')).1 = Ok (Some c)
   else content (pp_path p) fs' = content (pp_path p) fs) ∧
  ∀ q, q ≠ pp_path p → q ≠ pp_tmp p → content q fs' = content q fs.
Proof. apply config_save_spec. Qed.

(** the version sidecar survives a restart.  A reported save loads back the
    stamps and clock, and [from_parts] over them and the same config rebuilds
    the versioned config. *)
Theorem sidecar_restart `{JsonLaws SideCar} v p fs fs' :
  pp_ok p → save_sidecar v p fs = (Ok tt, fs') →
  ∃ sc, (load_sidecar (pp_path p) (healthy fs')).1 = Ok (Some sc) ∧
        from_parts (vc_config v) (sc_stamps sc) (sc_clock sc) = v.
Proof.
  intros Hp E. destruct (save_sidecar_saved v p fs Hp) as [_ Hl]. rewrite E in Hl.
  exists (sidecar_of v). split; [by apply Hl|by destruct v].
Qed.

(** ** The trust store *)

Definition peer_ids (ps : list TrustedPeer) : list string := map tp_machine_id ps.

Lemma trust_get_upsert peer ps id :
  List.find (λ p, bool_decide (tp_machine_id p = id)) (upsert_peer peer ps) =
  if decide (id = tp_machine_id peer) then Some peer
  else List.find (λ p, bool_decide (tp_machine_id p = id)) ps.
Proof.
  induction ps as [|q ps IH]; simpl.
  - repeat case_decide; repeat case_bool_decide; congruence.
  - destruct (decide (tp_machine_id q = tp_machine_id peer)) as [Hq|Hq]; simpl;
      repeat case_decide; repeat case_bool_decide; try congruence; rewrite ?IH;
      repeat case_decide; repeat case_bool_decide; congruence.
Qed.

Lemma upsert_ids peer ps :
  ∃ k, peer_ids (upsert_peer peer ps) = peer_ids ps ++ k ∧
       (k = [] ∨ (k = [tp_machine_id peer] ∧ tp_machine_id peer ∉ peer_ids ps)).
Proof.
  induction ps as [|q ps (k & E & Hk)]; simpl.
  - exists [tp_machine_id peer]. split; [done|]. right. split; [done|]. set_solver.
  - case_decide as Hq; simpl.
    + exists []. rewrite app_nil_r, Hq. split; [done|by left].
    + exists k. rewrite E. split; [done|]. destruct Hk as [->|[-> Hn]]; [by left|right]. split; [done|]. set_solver.
Qed.

Lemma drop_peer_spec id ps p : p ∈ drop_peer id ps ↔ p ∈ ps ∧ tp_machine_id p ≠ id.
Proof.
  unfold drop_peer. rewrite !list_elem_of_In, filter_In. by rewrite bool_decide_eq_true.
Qed.

Lemma drop_peer_get id ps j :
  List.find (λ p, bool_decide (tp_machine_id p = j)) (drop_peer id ps) =
  if decide (j = id) then None else List.find (λ p, bool_decide (tp_machine_id p = j)) ps.
Proof.
  induction ps as [|q ps IH]; simpl; [by case_decide|].
  repeat (case_bool_decide; simpl); try case_decide; rewrite ?IH; repeat case_decide; try congruence.
Qed.

Lemma trust_commit_spec p body fs ok fs' :
  pp_ok p → trust_commit p body fs = (ok, fs') →
  (content (pp_path p) fs' = Some body ∨ (ok = false ∧ content (pp_path p) fs' = content (pp_path p) fs)).
Proof.
  intros Hp. unfold trust_commit.
  destruct (fs_other fs) as [ok0 fs0] eqn:E0. apply fs_other_files in E0.
  assert (∀ q, content q fs0 = content q fs) as H0 by (intros q; unfold content; by rewrite E0).
  destruct ok0; [|intros [= <- <-]; right; by rewrite H0].
  destruct (fs_write _ _ fs0) as [ok1 fs1] eqn:E1.
  pose proof (fs_write_other _ _ _ _ _ (pp_path p) E1 Hp) as Hw.
  destruct ok1; [|intros [= <- <-]; right; by rewrite Hw, H0]. apply fs_write_ok in E1. simpl.
  destruct (fs_other fs1) as [ok2 fs2] eqn:E2. apply fs_other_files in E2.
  assert (∀ q, content q fs2 = content q fs1) as H2 by (intros q; unfold content; by rewrite E2).
  destruct ok2; [|intros [= <- <-]; right; by rewrite H2, Hw, H0]. simpl.
  destruct (fs_rename _ _ fs2) as [ok3 fs3] eqn:E3. apply fs_rename_spec in E3 as [_ Hd]; [|by apply not_eq_sym].
  destruct ok3; [|intros [= <- <-]; right; by rewrite Hd, H2, Hw, H0]. simpl.
  intros E4%fs_other_files. left. unfold content in *. by rewrite E4, Hd, H2.
Qed.

(** A reported save is on disk; a failed one left the old or the new list. *)
Lemma trust_save_spec `{JsonOps TrustFile} p peers fs r fs' :
  pp_ok p → trust_save p peers fs = (r, fs') →
  (∃ body, to_vec {| tf_peers := peers |} = Some body ∧ content (pp_path p) fs' = Some body) ∨
  (is_ok r = false ∧ content (pp_path p) fs' = content (pp_path p) fs).
Proof.
  intros Hp. unfold trust_save.
  destruct (fs_other fs) as [ok0 fs0] eqn:E0. apply fs_other_files in E0.
  assert (∀ q, content q fs0 = content q fs) as H0 by (intros q; unfold content; by rewrite E0).
  destruct ok0; [|intros [= <- <-]; right; by rewrite H0]. simpl.
  destruct (to_vec _) as [body|] eqn:Eb; [|intros [= <- <-]; right; by rewrite H0].
  destruct (trust_commit p body fs0) as [ok1 fs1] eqn:E1. apply trust_commit_spec in E1; [|done].
  destruct (fs_remove (pp_tmp p) fs1) as [ok2 fs2] eqn:E2.
  pose proof (fs_remove_other _ _ _ _ (pp_path p) E2 Hp) as Hrm.
  destruct E1 as [Hc|[-> Hc]].
  - intros Heq. left. exists body. split; [done|]. destruct ok1; injection Heq as <- <-; by rewrite Hrm.
  - intros [= <- <-]. right. by rewrite Hrm, Hc, H0.
Qed.

Section trust_thms.
Context `{JsonLaws TrustFile}.

Lemma trust_reload p peers body fs' :
  to_vec {| tf_peers := peers |} = Some body → content (pp_path p) fs' = Some body →
  (trust_load p (healthy fs')).1 = Ok {| ts_path := p; ts_peers := peers |}.
Proof.
  intros Eb Hc. unfold trust_load. rewrite fs_read_content by done.
  change (content (pp_path p) (healthy fs')) with (content (pp_path p) fs').
  by rewrite Hc, (from_slice_to_vec _ _ Eb).
Qed.

(** Pairing is durable and exact.  When [upsert] reports success, memory and
    disk agree (a fresh load gives the in-memory store), the peer is found under
    its id with the new key, every other id resolves as before, and ids stay
    unique.  When it reports an error, the in-memory store is unchanged. *)
Theorem trust_upsert_exact peer s fs r s' fs' :
  pp_ok (ts_path s) → NoDup (peer_ids (ts_peers s)) → trust_upsert peer s fs = (r, s', fs') →
  NoDup (peer_ids (ts_peers s')) ∧
  if is_ok r then
    (trust_load (ts_path s) (healthy fs')).1 = Ok s' ∧
    ∀ id, trust_get id s' = if decide (id = tp_machine_id peer) then Some peer else trust_get id s
  else s' = s.
Proof.
  intros Hp Hnd. unfold trust_upsert. destruct (trust_save _ _ fs) as [r0 fs0] eqn:E.
  apply trust_save_spec in E; [|done]. destruct r0 as [[]|e]; intros [= <- <- <-]; simpl; [|done].
  destruct E as [(body & Eb & Hc)|[? _]]; [|done].
  split; [|split; [by eapply trust_reload|intros id; apply trust_get_upsert]].
  destruct (upsert_ids peer (ts_peers s)) as (k & -> & [->|[-> Hn]]); [by rewrite app_nil_r|].
  apply NoDup_app. split; [done|]. split; [set_solver|apply NoDup_singleton].
Qed.

Lemma trust_remove_spec id s fs r s' fs' :
  pp_ok (ts_path s) → trust_remove id s fs = (r, s', fs') →
  match r with
  | Ok true => trust_contains id s = true ∧ (trust_load (ts_path s) (healthy fs')).1 = Ok s' ∧
               ∀ j, trust_get j s' = if decide (j = id) then None else trust_get j s
  | Ok false => trust_contains id s = false ∧ s' = s ∧ fs' = fs
  | Err _ => s' = s
  end.
Proof.
  intros Hp. unfold trust_remove.
  assert (trust_contains id s = false ↔ drop_peer id (ts_peers s) = ts_peers s) as Hno.
  { unfold trust_contains, drop_peer. induction (ts_peers s) as [|q ps IH]; simpl; [done|].
    case_bool_decide as Hq; simpl; case_bool_decide; try congruence; simpl.
    - split; [done|]. intros Hbad. apply (f_equal length) in Hbad.
      pose proof (List.filter_length_le (λ p, bool_decide (tp_machine_id p ≠ id)) ps). simpl in Hbad. lia.
    - rewrite IH. split; congruence. }
  case_decide as Hlen.
  - destruct (trust_save _ _ fs) as [r0 fs0] eqn:E. apply trust_save_spec in E; [|done].
    destruct r0 as [[]|e]; intros [= <- <- <-]; [|done].
    destruct E as [(body & Eb & Hc)|[? _]]; [|done].
    split; [|split; [by eapply trust_reload|intros j; apply drop_peer_get]].
    destruct (trust_contains id s); [done|]. destruct Hno as [Hno _]. by rewrite Hno in Hlen.
  - intros [= <- <- <-]. split; [|done]. apply Hno.
    clear -Hlen. unfold drop_peer in *. induction (ts_peers s) as [|q ps IH]; simpl in *; [done|].
    case_bool_decide; simpl in *; [f_equal; apply IH; lia|].
    pose proof (List.filter_length_le (λ p, bool_decide (tp_machine_id p ≠ id)) ps). lia.
Qed.
(** Revocation is durable and exact.  When [remove] reports that it removed
    the peer, memory and disk agree and the id is gone while every other id
    resolves as before; it reports [false] exactly when the id was not trusted,
    and then nothing was written. *)
Theorem trust_remove_exact id s fs r s' fs' :
  pp_ok (ts_path s) → trust_remove id s fs = (r, s', fs') →
  match r with
  | Ok true => trust_contains id s = true ∧ (trust_load (ts_path s) (healthy fs')).1 = Ok s' ∧
               ∀ j, trust_get j s' = if decide (j = id) then None else trust_get j s
  | Ok false => trust_contains id s = false ∧ s' = s ∧ fs' = fs
  | Err _ => s' = s
  end.
Proof. apply trust_remove_spec. Qed.
End trust_thms.

(** ** Concrete stores *)

Definition peer_codec : Codec TrustedPeer :=
  codec_iso
    (λ p, (tp_machine_id p, (tp_display_name p, (tp_public_key_hex p, (tp_fingerprint p, tp_paired_at_unix p)))))
    (λ '(a, (b, (c, (d, e)))), {| tp_machine_id := a; tp_display_name := b; tp_public_key_hex := c;
                                  tp_fingerprint := d; tp_paired_at_unix := e |})
    ltac:(by intros [])
    (codec_pair codec_str (codec_pair codec_str (codec_pair codec_str (codec_pair codec_str codec_u64)))).

Definition toy_json_trust : JsonOps TrustFile :=
  json_of_codec (codec_iso tf_peers (λ l, {| tf_peers := l |}) ltac:(by intros []) (codec_list peer_codec)).

Definition toy_json_trust_laws : JsonLaws TrustFile (H := toy_json_trust) := json_of_codec_laws _.

Definition wit_peer (id : string) : TrustedPeer :=
  {| tp_machine_id := id; tp_display_name := "Laptop"; tp_public_key_hex := "ab"; tp_fingerprint := "ab";
     tp_paired_at_unix := 7 |}.
Definition wit_paths : PathPair := {| pp_path := "trusted"; pp_parent := "."; pp_tmp := "trusted.tmp" |}.
Definition wit_store : TrustedPeerStore := {| ts_path := wit_paths; ts_peers := [wit_peer "a"] |}.
Definition wit_fs (faults : list Fault) : Fs := {| fs_files := ∅; fs_faults := faults |}.

Lemma trust_upsert_exact_witness :
  trust_get "b" (trust_upsert (H := toy_json_trust) (wit_peer "b") wit_store (wit_fs [])).1.2 = Some (wit_peer "b").
Proof.
  destruct (trust_upsert (H := toy_json_trust) (wit_peer "b") wit_store (wit_fs [])) as [[r s'] fs'] eqn:E.
  destruct (trust_upsert_exact (H := toy_json_trust) (H0 := toy_json_trust_laws) (wit_peer "b") wit_store (wit_fs []) r s' fs') as [_ Hx].
  - discriminate.
  - apply NoDup_singleton.
  - exact E.
  - assert (is_ok r = true) as Hok by (apply (f_equal (λ x, is_ok x.1.1)) in E; vm_compute in E; exact (eq_sym E)).
    rewrite Hok in Hx. destruct Hx as [_ Hg]. exact (Hg "b").
Defined.

Lemma trust_remove_exact_witness :
  trust_get "a" (trust_remove (H := toy_json_trust) "a" wit_store (wit_fs [])).1.2 = None.
Proof.
  destruct (trust_remove (H := toy_json_trust) "a" wit_store (wit_fs [])) as [[r s'] fs'] eqn:E.
  pose proof (trust_remove_exact (H := toy_json_trust) (H0 := toy_json_trust_laws) "a" wit_store (wit_fs []) r s' fs'
    ltac:(discriminate) E) as Hx.
  assert (r = Ok true) as -> by (apply (f_equal (λ x, x.1.1)) in E; vm_compute in E; exact (eq_sym E)).
  destruct Hx as (_ & _ & Hg). exact (Hg "a").
Defined.

(** a failed directory sync splits memory from disk.  If everything up to the
    rename works and only the final sync of the directory fails, [upsert]
    reports an error and memory does not hold the peer, but the file on disk
    does: the next start trusts a peer whose pairing was reported as failed. *)
Theorem dirsync_failure_trusts_on_disk :
  let '(r, s', fs') := trust_upsert (H := toy_json_trust) (wit_peer "b") wit_store
                         (wit_fs [Works; Works; Works; Works; Works; FailsAfter 0]) in
  r = Err (TIo "trusted") ∧ trust_contains "b" s' = false ∧
  ∃ s2, (trust_load (H := toy_json_trust) wit_paths (healthy fs')).1 = Ok s2 ∧ trust_contains "b" s2 = true.
Proof. vm_compute. split; [done|]. split; [done|]. eexists. by split. Qed.

(** A serialiser for the one config used below. *)
Definition toy_toml : TomlOps :=
  {| toml_to_string_pretty c := if decide (c = sample_config) then Some "sample"%string else None;
     toml_from_str s := if decide (s = "sample"%string) then Some sample_config else None |}.
Lemma toy_toml_laws : TomlLaws (H := toy_toml).
Proof.
  split; simpl; intros c s; case_decide; try done.
  - by intros [= <-].
  - intros _ [= <-]. by subst.
Qed.

Lemma config_save_all_or_nothing_witness :
  (config_load (H := toy_toml) "trusted" (healthy (config_save (H := toy_toml) sample_config wit_paths (wit_fs [])).2)).1
  = Ok (Some sample_config).
Proof.
  destruct (config_save (H := toy_toml) sample_config wit_paths (wit_fs [])) as [r fs'] eqn:E.
  destruct (config_save_all_or_nothing (H := toy_toml) (H0 := toy_toml_laws) sample_config wit_paths (wit_fs []) r fs') as [Hx _].
  - discriminate.
  - reflexivity.
  - exact E.
  - assert (is_ok r = true) as Hok by (apply (f_equal (λ x, is_ok x.1)) in E; vm_compute in E; exact (eq_sym E)).
    rewrite Hok in Hx. apply Hx.
Defined.

Definition stamp_codec : Codec LamportTime :=
  codec_iso (λ t, (lt_counter t, lt_origin t)) (λ '(c, o), {| lt_counter := c; lt_origin := o |})
    ltac:(by intros []) (codec_pair codec_u64 codec_str).

Definition stamps_codec : Codec FieldStamps :=
  codec_iso
    (λ s, (st_role s, (st_server_name s, (st_server_address s, (st_port s, (st_service_port s, (st_screens s,
       (st_links s, (st_options s, (st_clipboard_sharing s, st_binaries s))))))))))
    (λ '(a, (b, (c, (d, (e, (f, (g, (h, (i, j))))))))),
       {| st_role := a; st_server_name := b; st_server_address := c; st_port := d; st_service_port := e;
          st_screens := f; st_links := g; st_options := h; st_clipboard_sharing := i; st_binaries := j |})
    ltac:(by intros [])
    (let s := stamp_codec in codec_pair s (codec_pair s (codec_pair s (codec_pair s (codec_pair s (codec_pair s
       (codec_pair s (codec_pair s (codec_pair s s))))))))).

Definition toy_json_sidecar : JsonOps SideCar :=
  json_of_codec (codec_iso (λ s, (sc_stamps s, sc_clock s)) (λ '(a, b), {| sc_stamps := a; sc_clock := b |})
    ltac:(by intros []) (codec_pair stamps_codec codec_u64)).
Definition toy_json_sidecar_laws : JsonLaws SideCar (H := toy_json_sidecar) := json_of_codec_laws _.

Lemma sidecar_restart_witness :
  ∃ sc, (load_sidecar (H := toy_json_sidecar) "trusted"
          (healthy (save_sidecar (H := toy_json_sidecar) wit_a wit_paths (wit_fs [])).2)).1 = Ok (Some sc) ∧
        from_parts (vc_config wit_a) (sc_stamps sc) (sc_clock sc) = wit_a.
Proof.
  destruct (save_sidecar (H := toy_json_sidecar) wit_a wit_paths (wit_fs [])) as [r fs'] eqn:E.
  assert (r = Ok tt) as -> by (apply (f_equal fst) in E; vm_compute in E; exact (eq_sym E)).
  apply (sidecar_restart (H := toy_json_sidecar) (H0 := toy_json_sidecar_laws) wit_a wit_paths (wit_fs []) fs');
    [discriminate|exact E].
Defined.
