(* ===== verification/SupState.v ===== *)
(** * The supervisor's state ([crates/synbadd/src/supervisor/mod.rs])

    The fields of [Supervisor] that its handlers read and write, around the Core
    slice of [CoreProc]: configuration and its versions, the files they live in,
    discovered and trusted peers, pairing, sync and audio bookkeeping.  Tasks
    the supervisor spawns are represented by what it can observe of them: a
    sync task by its result once finished, a listener or bridge task by whether
    it has ended, the mDNS pair by whether its event channel has closed.  Everything sent outside the Core slice goes to [sv_out]. *)

From Stdlib Require Import ZArith Lia.
From S2P Require Import Prelude Primitives Config Versioned IpcTypes Store CoreProc.

Definition AUDIO_BACKOFF_MIN : Z := 1.
Definition AUDIO_BACKOFF_MAX : Z := 60.

Record AudioBackoff := { ab_next_attempt : Z; ab_attempts : Z }.

(** [AudioBackoff::delay], in seconds: [1u64.checked_shl] is [None] from 64 on. *)
Definition backoff_delay (attempts : Z) : Z :=
  let n := saturating_sub_u attempts 1 in
  Z.min (if decide (n < 64)%Z then AUDIO_BACKOFF_MIN * 2 ^ n else AUDIO_BACKOFF_MAX) AUDIO_BACKOFF_MAX.

Definition after_failure (now : Z) (prev : option AudioBackoff) : AudioBackoff :=
  let attempts := match prev with Some p => saturating_add_u32 (ab_attempts p) 1 | None => 1%Z end in
  {| ab_attempts := attempts; ab_next_attempt := now + 1000 * backoff_delay attempts |}.

(** Commands to the audio bridge. *)
Inductive AudioCommand :=
| AcReconfigure (cfg : AudioConfig)
| AcClosePeer (peer_machine_id : string)
| AcShutdown.

Inductive AudioEvent :=
| AePeerStatus (status : PeerAudioStatus)
| AeError (peer : option string) (message : string)
| AeDevicesChanged
| AeSessionClosed (peer : string).

Inductive AudioDialOutcome :=
| DialOk (peer_machine_id : string)
| DialErr (peer_machine_id : string) (error : string).

Inductive DiscoveryEvent :=
| Found (peer : DiscoveredPeer)
| Lost (machine_id : string).

Inductive SupFx :=
| SxEvent (e : Event)
| SxReply (r : Response)
| SxSyncReply (v : VersionedConfig)
| SxSyncDial (peer : DiscoveredPeer)
| SxSyncAbort (machine_id : string)
| SxAudioDial (peer : DiscoveredPeer)
| SxAudio (cmd : AudioCommand)              (* offered to the bridge: [try_send], lost if its channel is full *)
| SxAdvertiseAudioPort (port : Z)
| SxAdvertise (service_port sync_port core_port audio_port : Z) (head : string)
| SxDiscoveryStart (head : string)
| SxPairDial (peer : DiscoveredPeer)
| SxPairVerdict (session_id : string) (accept : bool).

Record Sup := {
  sv_core : Core;
  sv_config : Config;
  sv_versioned : VersionedConfig;
  sv_fs : Fs;
  sv_user_stopped : bool;
  sv_shutdown : bool;
  sv_peers : gmap string DiscoveredPeer;
  sv_trust : TrustedPeerStore;
  sv_pairing_confirm : gmap string bool;
  sv_pairing_tasks : list (string * bool);
  sv_sync_tasks : gmap string (string * option bool);
  sv_sync_confirmed : gmap string string;
  sv_sync_backoff : gmap string AudioBackoff;
  sv_audio : bool;
  sv_audio_listener : option bool;
  sv_audio_task : option bool;
  sv_audio_dial_deps : bool;
  sv_audio_inflight : gset string;
  sv_audio_live : gset string;
  sv_audio_backoff : gmap string AudioBackoff;
  sv_listener_ports : Z * Z * Z;
  sv_pairing_display : string;
  sv_pairing_listener : option bool;
  sv_incoming_pairings : bool;
  sv_sync_listener : option bool;
  sv_discovery : option bool;
  sv_out : list SupFx
}.
#[export] Instance Sup_eta : Eta Sup := λ r,
  {| sv_core := sv_core r; sv_config := sv_config r; sv_versioned := sv_versioned r; sv_fs := sv_fs r;
     sv_user_stopped := sv_user_stopped r; sv_shutdown := sv_shutdown r; sv_peers := sv_peers r;
     sv_trust := sv_trust r; sv_pairing_confirm := sv_pairing_confirm r; sv_pairing_tasks := sv_pairing_tasks r;
     sv_sync_tasks := sv_sync_tasks r; sv_sync_confirmed := sv_sync_confirmed r;
     sv_sync_backoff := sv_sync_backoff r; sv_audio := sv_audio r; sv_audio_listener := sv_audio_listener r;
     sv_audio_task := sv_audio_task r; sv_audio_dial_deps := sv_audio_dial_deps r;
     sv_audio_inflight := sv_audio_inflight r; sv_audio_live := sv_audio_live r;
     sv_audio_backoff := sv_audio_backoff r; sv_listener_ports := sv_listener_ports r;
     sv_pairing_display := sv_pairing_display r; sv_pairing_listener := sv_pairing_listener r;
     sv_incoming_pairings := sv_incoming_pairings r; sv_sync_listener := sv_sync_listener r;
     sv_discovery := sv_discovery r; sv_out := sv_out r |}.

Definition set_sv_core (x : Core) (r : Sup) : Sup := Eval cbv [update_field] in r <| sv_core := x |>.
Definition set_sv_config (x : Config) (r : Sup) : Sup := Eval cbv [update_field] in r <| sv_config := x |>.
Definition set_sv_versioned (x : VersionedConfig) (r : Sup) : Sup :=
  Eval cbv [update_field] in r <| sv_versioned := x |>.
Definition set_sv_fs (x : Fs) (r : Sup) : Sup := Eval cbv [update_field] in r <| sv_fs := x |>.
Definition set_sv_user_stopped (x : bool) (r : Sup) : Sup := Eval cbv [update_field] in r <| sv_user_stopped := x |>.
Definition set_sv_shutdown (x : bool) (r : Sup) : Sup := Eval cbv [update_field] in r <| sv_shutdown := x |>.
Definition set_sv_peers (x : gmap string DiscoveredPeer) (r : Sup) : Sup :=
  Eval cbv [update_field] in r <| sv_peers := x |>.
Definition set_sv_trust (x : TrustedPeerStore) (r : Sup) : Sup := Eval cbv [update_field] in r <| sv_trust := x |>.
Definition set_sv_pairing_confirm (x : gmap string bool) (r : Sup) : Sup :=
  Eval cbv [update_field] in r <| sv_pairing_confirm := x |>.
Definition set_sv_pairing_tasks (x : list (string * bool)) (r : Sup) : Sup :=
  Eval cbv [update_field] in r <| sv_pairing_tasks := x |>.
Definition set_sv_sync_tasks (x : gmap string (string * option bool)) (r : Sup) : Sup :=
  Eval cbv [update_field] in r <| sv_sync_tasks := x |>.
Definition set_sv_sync_confirmed (x : gmap string string) (r : Sup) : Sup :=
  Eval cbv [update_field] in r <| sv_sync_confirmed := x |>.
Definition set_sv_sync_backoff (x : gmap string AudioBackoff) (r : Sup) : Sup :=
  Eval cbv [update_field] in r <| sv_sync_backoff := x |>.
Definition set_sv_audio (x : bool) (r : Sup) : Sup := Eval cbv [update_field] in r <| sv_audio := x |>.
Definition set_sv_audio_listener (x : option bool) (r : Sup) : Sup :=
  Eval cbv [update_field] in r <| sv_audio_listener := x |>.
Definition set_sv_audio_task (x : option bool) (r : Sup) : Sup :=
  Eval cbv [update_field] in r <| sv_audio_task := x |>.
Definition set_sv_audio_dial_deps (x : bool) (r : Sup) : Sup :=
  Eval cbv [update_field] in r <| sv_audio_dial_deps := x |>.
Definition set_sv_audio_inflight (x : gset string) (r : Sup) : Sup :=
  Eval cbv [update_field] in r <| sv_audio_inflight := x |>.
Definition set_sv_audio_live (x : gset string) (r : Sup) : Sup :=
  Eval cbv [update_field] in r <| sv_audio_live := x |>.
Definition set_sv_audio_backoff (x : gmap string AudioBackoff) (r : Sup) : Sup :=
  Eval cbv [update_field] in r <| sv_audio_backoff := x |>.
Definition set_sv_listener_ports (x : Z * Z * Z) (r : Sup) : Sup :=
  Eval cbv [update_field] in r <| sv_listener_ports := x |>.
Definition set_sv_pairing_display (x : string) (r : Sup) : Sup :=
  Eval cbv [update_field] in r <| sv_pairing_display := x |>.
Definition set_sv_pairing_listener (x : option bool) (r : Sup) : Sup :=
  Eval cbv [update_field] in r <| sv_pairing_listener := x |>.
Definition set_sv_incoming_pairings (x : bool) (r : Sup) : Sup :=
  Eval cbv [update_field] in r <| sv_incoming_pairings := x |>.
Definition set_sv_sync_listener (x : option bool) (r : Sup) : Sup :=
  Eval cbv [update_field] in r <| sv_sync_listener := x |>.
Definition set_sv_discovery (x : option bool) (r : Sup) : Sup := Eval cbv [update_field] in r <| sv_discovery := x |>.
Definition set_sv_out (x : list SupFx) (r : Sup) : Sup := Eval cbv [update_field] in r <| sv_out := x |>.

Definition out (x : SupFx) (s : Sup) : Sup := set_sv_out (sv_out s ++ [x]) s.
Definition send_event (e : Event) (s : Sup) : Sup := out (SxEvent e) s.
Definition on_core (f : Core → Core) (s : Sup) : Sup := set_sv_core (f (sv_core s)) s.

(** ** What is said about the visible peers *)

Definition peer_event (x : SupFx) : bool :=
  match x with SxEvent (EvPeerDiscovered _) | SxEvent (EvPeerLost _) => true | _ => false end.

(** [l'] adds to [l] nothing about the visible peers. *)
Definition mum (l l' : list SupFx) : Prop := ∃ k, l' = l ++ k ∧ existsb peer_event k = false.

Lemma mum_refl l : mum l l.
Proof. exists []. by rewrite app_nil_r. Qed.
Lemma mum_app l l' k : existsb peer_event k = false → mum l l' → mum l (l' ++ k).
Proof. intros Hk (k' & -> & Hk'). exists (k' ++ k). by rewrite app_assoc, existsb_app, Hk', Hk. Qed.
Lemma mum_snoc l l' x : peer_event x = false → mum l l' → mum l (l' ++ [x]).
Proof. intros Hx. apply mum_app. by cbn; rewrite Hx. Qed.
Lemma mum_trans a b c : mum a b → mum b c → mum a c.
Proof. intros Ha (k & -> & Hk). by apply mum_app. Qed.
Ltac stay_mum := simpl; repeat (simple apply mum_snoc; [reflexivity|]); apply mum_refl.
#[export] Hint Extern 0 (mum _ _) => solve [stay_mum] : core.

(** What the outside answers during one handler: the Core environment, whether
    the trust mutex is held by a pairing session, which ports can be bound, and
    whether mDNS can be started. *)
Record SEnv := {
  se_core : Env;
  se_trust_busy : bool;
  se_can_bind : Z → bool;
  se_discovery_ok : bool
}.
Definition se_now (e : SEnv) : Z := env_now (se_core e).

(** ** A concrete supervisor *)

Definition wit_discovered (id : string) : DiscoveredPeer :=
  {| dp_machine_id := id; dp_display_name := "Laptop"; dp_host := "10.0.0.2"; dp_addresses := ["10.0.0.2"%string];
     dp_service_port := 24850; dp_core_port := 24800; dp_sync_port := 24851; dp_audio_port := 24852;
     dp_fingerprint := "ab"; dp_protocol_version := 1; dp_config_head := "" |}.

(** Machine "a", which sees and trusts "b"; stopped, audio off. *)
Definition wit_sup : Sup :=
  {| sv_core := core_init; sv_config := sample_config; sv_versioned := initial sample_config "a";
     sv_fs := wit_fs []; sv_user_stopped := false; sv_shutdown := false;
     sv_peers := {["b"%string := wit_discovered "b"]};
     sv_trust := {| ts_path := wit_paths; ts_peers := [wit_peer "b"] |};
     sv_pairing_confirm := ∅; sv_pairing_tasks := []; sv_sync_tasks := ∅; sv_sync_confirmed := ∅;
     sv_sync_backoff := ∅; sv_audio := false; sv_audio_listener := None; sv_audio_task := None;
     sv_audio_dial_deps := false; sv_audio_inflight := ∅; sv_audio_live := ∅; sv_audio_backoff := ∅;
     sv_listener_ports := (24850, 24851, 24852)%Z; sv_pairing_display := "a"; sv_pairing_listener := Some false;
     sv_incoming_pairings := true; sv_sync_listener := Some false; sv_discovery := Some false;
     sv_out := [] |}.

Definition wit_senv (now : Z) (bind : bool) : SEnv :=
  {| se_core := wit_env now; se_trust_busy := false; se_can_bind := λ _, bind; se_discovery_ok := true |}.

(** The same machine with its audio enabled. *)
Definition wit_audio_sup : Sup :=
  set_sv_config (set_cfg_audio
    {| aud_enabled := true; aud_input_device := None; aud_output_device := None; aud_input_gain := default_gain;
       aud_output_gain := default_gain; aud_per_peer := ∅; aud_signal_port := 24852 |} sample_config) wit_sup.
