(* ===== verification/NetSync.v ===== *)
(** * Discovery, sync and audio bookkeeping ([crates/synbadd/src/supervisor/mod.rs])

    The handlers that decide which peers are dialled and when: discovery
    events, the sync sweep, and the audio subsystem with its dials. *)

From Stdlib Require Import ZArith Lia.
From S2P Require Import Prelude Primitives Config Versioned IpcTypes Store CoreProc SupState.

(** [synbad_audio::peer_audio_active] ([synbad-audio/src/bridge.rs]). *)
Definition peer_audio_active (cfg : AudioConfig) (peer : string) : bool :=
  if negb (aud_enabled cfg) then false else
  match aud_per_peer cfg !! peer with
  | Some r => par_enabled r && (par_send_to_peer r || par_receive_from_peer r)
  | None => true
  end.

(** [b.next_attempt > Instant::now()]. *)
Definition backing_off (now : Z) (b : option AudioBackoff) : bool :=
  match b with Some b => bool_decide (now < ab_next_attempt b)%Z | None => false end.

(** [self.peers.values()], in the map's own order. *)
Definition visible (s : Sup) : list DiscoveredPeer := (map_to_list (sv_peers s)).*2.

Section net.
Context `{JsonSharedOps, Sha256Ops, HexOps}.
Context (our_id : string).     (* [identity.machine_id] *)

(** ** Sync dials *)

Definition maybe_pull_from (env : SEnv) (peer : DiscoveredPeer) (s : Sup) : Sup :=
  if decide (dp_sync_port peer = 0%Z) then s else
  let head := head_hash (sv_versioned s) in
  let id := dp_machine_id peer in
  if bool_decide (is_Some (sv_sync_tasks s !! id))
     || bool_decide (sv_sync_confirmed s !! id = Some head)
     || backing_off (se_now env) (sv_sync_backoff s !! id) then s else
  if se_trust_busy env then s else
  if negb (trust_contains id (sv_trust s)) then s else
  set_sv_sync_tasks (<[id := (head, None)]> (sv_sync_tasks s)) (out (SxSyncDial peer) s).

Definition pull_from_all (env : SEnv) (ps : list DiscoveredPeer) (s : Sup) : Sup :=
  fold_left (λ s p, maybe_pull_from env p s) ps s.

(** Consume the result of one finished sync task. *)
Definition collect_sync (env : SEnv) (peer : string) (s : Sup) : Sup :=
  match sv_sync_tasks s !! peer with
  | Some (head, Some result) =>
    let s := set_sv_sync_tasks (delete peer (sv_sync_tasks s)) s in
    if (result : bool) then
      set_sv_sync_backoff (delete peer (sv_sync_backoff s))
        (set_sv_sync_confirmed (<[peer := head]> (sv_sync_confirmed s)) s)
    else
      set_sv_sync_backoff
        (<[peer := after_failure (se_now env) (sv_sync_backoff s !! peer)]> (sv_sync_backoff s)) s
  | _ => s
  end.

Definition finished_syncs (s : Sup) : list string :=
  (filter (λ x, is_Some x.2.2) (map_to_list (sv_sync_tasks s))).*1.

Definition reconcile_sync_sessions (env : SEnv) (s : Sup) : Sup :=
  let s := fold_left (λ s p, collect_sync env p s) (finished_syncs s) s in
  pull_from_all env (visible s) s.

(** [push_to_trusted_peers] ([config_edit.rs]). *)
Definition push_to_trusted_peers (env : SEnv) (s : Sup) : Sup :=
  let s := set_sv_sync_confirmed ∅ s in
  let s := set_sv_sync_backoff ∅ s in
  pull_from_all env (visible s) s.

(** ** Audio dials *)

Definition dial_audio_one (env : SEnv) (peer : DiscoveredPeer) (s : Sup) : Sup :=
  let id := dp_machine_id peer in
  if negb (sv_audio_dial_deps s) then s else
  if decide (dp_audio_port peer = 0%Z) then s else
  if negb (peer_audio_active (cfg_audio (sv_config s)) id) then s else
  if negb (String.ltb our_id id) then s else
  if bool_decide (id ∈ sv_audio_live s) then s else
  if bool_decide (id ∈ sv_audio_inflight s) then s else
  if backing_off (se_now env) (sv_audio_backoff s !! id) then s else
  if se_trust_busy env then s else
  if negb (trust_contains id (sv_trust s)) then s else
  out (SxAudioDial peer) (set_sv_audio_inflight ({[id]} ∪ sv_audio_inflight s) s).

Definition reconcile_audio_sessions (env : SEnv) (s : Sup) : Sup :=
  if negb (sv_audio_dial_deps s) then s
  else fold_left (λ s p, dial_audio_one env p s) (visible s) s.

Definition handle_audio_dial_outcome (env : SEnv) (o : AudioDialOutcome) (s : Sup) : Sup :=
  match o with
  | DialOk id =>
    set_sv_audio_backoff (delete id (sv_audio_backoff s))
      (set_sv_audio_inflight (sv_audio_inflight s ∖ {[id]}) s)
  | DialErr id _ =>
    set_sv_audio_backoff
      (<[id := after_failure (se_now env) (sv_audio_backoff s !! id)]> (sv_audio_backoff s))
      (set_sv_audio_inflight (sv_audio_inflight s ∖ {[id]}) s)
  end.

Definition handle_audio_event (env : SEnv) (ev : AudioEvent) (s : Sup) : Sup :=
  match ev with
  | AePeerStatus status =>
    let id := as_machine_id status in
    let s := match as_last_error status with
             | Some _ => set_sv_audio_live (sv_audio_live s ∖ {[id]}) s
             | None => set_sv_audio_backoff (delete id (sv_audio_backoff s))
                         (set_sv_audio_live ({[id]} ∪ sv_audio_live s) s)
             end in
    send_event (EvAudioPeerStatus status) s
  | AeError peer message =>
    let s := match peer with
             | Some id =>
               let s := set_sv_audio_live (sv_audio_live s ∖ {[id]}) s in
               let s := set_sv_audio_inflight (sv_audio_inflight s ∖ {[id]}) s in
               set_sv_audio_backoff
                 (<[id := after_failure (se_now env) (sv_audio_backoff s !! id)]> (sv_audio_backoff s)) s
             | None => s
             end in
    send_event (EvAudioError peer message) s
  | AeDevicesChanged => send_event EvAudioDevicesChanged s
  | AeSessionClosed peer =>
    send_event (EvAudioPeerRemoved peer) (set_sv_audio_live (sv_audio_live s ∖ {[peer]}) s)
  end.

(** ** Audio subsystem *)

(** Always succeeds: a listener that cannot bind is only logged. *)
Definition ensure_audio_subsystem (env : SEnv) (s : Sup) : Sup :=
  if sv_audio s then s else
  if negb (aud_enabled (cfg_audio (sv_config s))) then s else
  let port := aud_signal_port (cfg_audio (sv_config s)) in
  let bound := se_can_bind env port in
  let s := set_sv_audio true s in
  let s := set_sv_audio_task (Some false) s in
  let s := set_sv_audio_listener (if bound then Some false else None) s in
  let s := set_sv_audio_dial_deps true s in
  let s := if bound then out (SxAdvertiseAudioPort port) s else s in
  reconcile_audio_sessions env s.

Definition teardown_audio_subsystem (s : Sup) : Sup :=
  let s := set_sv_audio_listener None s in
  let s := if sv_audio s then out (SxAudio AcShutdown) (set_sv_audio false s) else s in
  let s := set_sv_audio_task None s in
  let s := set_sv_audio_dial_deps false s in
  let s := set_sv_audio_live ∅ s in
  let s := set_sv_audio_inflight ∅ s in
  let s := set_sv_audio_backoff ∅ s in
  out (SxAdvertiseAudioPort 0) s.

Definition reconcile_audio_subsystem (env : SEnv) (s : Sup) : Sup :=
  if co_desired_running (sv_core s) && aud_enabled (cfg_audio (sv_config s))
  then ensure_audio_subsystem env s
  else if sv_audio s then teardown_audio_subsystem s else s.

(** ** Discovery *)

(** The fields whose change is worth a new announcement. *)
Definition same_announcement (p q : DiscoveredPeer) : bool :=
  bool_decide (dp_machine_id p = dp_machine_id q) && bool_decide (dp_fingerprint p = dp_fingerprint q)
  && bool_decide (dp_config_head p = dp_config_head q) && bool_decide (dp_audio_port p = dp_audio_port q)
  && bool_decide (dp_host p = dp_host q) && bool_decide (dp_addresses p = dp_addresses q)
  && bool_decide (dp_service_port p = dp_service_port q) && bool_decide (dp_sync_port p = dp_sync_port q)
  && bool_decide (dp_core_port p = dp_core_port q) && bool_decide (dp_display_name p = dp_display_name q).

Definition handle_discovery (env : SEnv) (ev : DiscoveryEvent) (s : Sup) : Sup :=
  match ev with
  | Found peer =>
    let id := dp_machine_id peer in
    let unchanged := match sv_peers s !! id with Some p => same_announcement p peer | None => false end in
    let was_present := bool_decide (is_Some (sv_peers s !! id)) in
    let s := set_sv_peers (<[id := peer]> (sv_peers s)) s in
    if negb unchanged || negb was_present then
      let s := send_event (EvPeerDiscovered peer) s in
      let s := set_sv_sync_confirmed (delete id (sv_sync_confirmed s)) s in
      let s := set_sv_sync_backoff (delete id (sv_sync_backoff s)) s in
      let s := maybe_pull_from env peer s in
      reconcile_audio_sessions env s
    else s
  | Lost id =>
    match sv_peers s !! id with
    | None => s
    | Some _ =>
      let s := set_sv_peers (delete id (sv_peers s)) s in
      let s := send_event (EvPeerLost id) s in
      let s := set_sv_audio_live (sv_audio_live s ∖ {[id]}) s in
      let s := set_sv_audio_backoff (delete id (sv_audio_backoff s)) s in
      let s := set_sv_sync_confirmed (delete id (sv_sync_confirmed s)) s in
      let s := set_sv_sync_backoff (delete id (sv_sync_backoff s)) s in
      let s := match sv_sync_tasks s !! id with
               | Some _ => out (SxSyncAbort id) (set_sv_sync_tasks (delete id (sv_sync_tasks s)) s)
               | None => s
               end in
      if sv_audio s then out (SxAudio (AcClosePeer id)) s else s
    end
  end.
End net.

(** ** Backoff *)

Lemma backoff_delay_bounds n : (1 ≤ backoff_delay n ≤ 60)%Z.
Proof.
  unfold backoff_delay, saturating_sub_u, AUDIO_BACKOFF_MIN, AUDIO_BACKOFF_MAX. case_decide; [|lia].
  assert (1 ≤ 2 ^ Z.max 0 (n - 1))%Z; [|lia]. change 1%Z with (2 ^ 0)%Z. apply Z.pow_le_mono_r; lia.
Qed.

(** retry pacing of sync and audio dials: the first failure waits one
    second, each further one at most doubles and never shortens the wait, and
    no wait exceeds a minute. *)
Theorem dial_backoff_paced now prev :
  (0 ≤ ab_attempts prev)%Z →
  let first := after_failure now None in
  let next := after_failure now (Some prev) in
  ab_next_attempt first = (now + 1000)%Z ∧
  (backoff_delay (ab_attempts prev) ≤ backoff_delay (ab_attempts next))%Z ∧
  (now + 1000 ≤ ab_next_attempt next ≤ now + 60000)%Z ∧
  (backoff_delay (ab_attempts next) ≤ 2 * backoff_delay (ab_attempts prev))%Z.
Proof.
  intros Hp. cbv zeta. unfold after_failure. cbn [ab_next_attempt ab_attempts].
  set (m := saturating_add_u32 (ab_attempts prev) 1).
  pose proof (backoff_delay_bounds m). pose proof (backoff_delay_bounds (ab_attempts prev)).
  split; [done|].
  assert (ab_attempts prev = m ∨ (ab_attempts prev ≤ m ≤ ab_attempts prev + 1)%Z ∨ (62 < m ∧ 62 < ab_attempts prev)%Z) as Hm
    by (subst m; unfold saturating_add_u32, u32_MAX; lia).
  assert (backoff_delay (ab_attempts prev) ≤ backoff_delay m ≤ 2 * backoff_delay (ab_attempts prev))%Z; [|lia].
  assert (∀ k, (7 ≤ k)%Z → backoff_delay k = 60%Z) as Hbig.
  { intros k Hk. unfold backoff_delay, saturating_sub_u, AUDIO_BACKOFF_MIN, AUDIO_BACKOFF_MAX. case_decide; [|lia].
    assert (2 ^ 6 ≤ 2 ^ Z.max 0 (k - 1))%Z by (apply Z.pow_le_mono_r; lia). change (2 ^ 6)%Z with 64%Z in *. lia. }
  destruct Hm as [<-|[Hm|[H1 H2]]]; [lia| |rewrite !Hbig by lia; lia].
  destruct (decide (7 ≤ ab_attempts prev)%Z); [rewrite !Hbig by lia; lia|].
  assert (ab_attempts prev = 0 ∨ ab_attempts prev = 1 ∨ ab_attempts prev = 2 ∨ ab_attempts prev = 3 ∨
          ab_attempts prev = 4 ∨ ab_attempts prev = 5 ∨ ab_attempts prev = 6)%Z as Hc by lia.
  assert (m = ab_attempts prev ∨ m = ab_attempts prev + 1)%Z as [->| ->] by lia; [lia|].
  destruct Hc as [-> | [-> | [-> | [-> | [-> | [-> | ->]]]]]]; vm_compute; split; discriminate.
Qed.

Section net_laws.
Context `{JsonSharedOps, Sha256Ops, HexOps}.
Context (our_id : string).

(** ** The sync sweep *)

(** What [maybe_pull_from] never touches. *)
Definition sync_frame (s s' : Sup) : Prop :=
  sv_versioned s' = sv_versioned s ∧ sv_trust s' = sv_trust s ∧ sv_peers s' = sv_peers s ∧
  sv_sync_confirmed s' = sv_sync_confirmed s ∧ sv_sync_backoff s' = sv_sync_backoff s ∧
  sv_core s' = sv_core s ∧ sv_config s' = sv_config s.

(** A peer is taken care of: a task runs, the current head is confirmed, or a
    retry is scheduled. *)
Definition attended (now : Z) (s : Sup) (id : string) : Prop :=
  is_Some (sv_sync_tasks s !! id) ∨ sv_sync_confirmed s !! id = Some (head_hash (sv_versioned s)) ∨
  backing_off now (sv_sync_backoff s !! id) = true.

Definition dialable (s : Sup) (p : DiscoveredPeer) : Prop :=
  dp_sync_port p ≠ 0%Z ∧ trust_contains (dp_machine_id p) (sv_trust s) = true.

Lemma maybe_pull_from_spec env p s :
  let s' := maybe_pull_from env p s in
  sync_frame s s' ∧ (∀ id, attended (se_now env) s id → attended (se_now env) s' id) ∧
  (se_trust_busy env = false → dialable s p → attended (se_now env) s' (dp_machine_id p)) ∧
  (sv_out s' = sv_out s ∨
   (sv_out s' = sv_out s ++ [SxSyncDial p] ∧ dialable s p ∧ ¬ attended (se_now env) s (dp_machine_id p))).
Proof.
  unfold maybe_pull_from. set (head := head_hash (sv_versioned s)). set (id := dp_machine_id p).
  case_decide as Hport; [split_and!; try done; [by intros _ [? _]|by left]|].
  destruct (_ || _) eqn:Hor.
  { split_and!; try done; [|by left]. intros _ _. unfold attended.
    apply orb_true_iff in Hor as [Hor|Hb]; [apply orb_true_iff in Hor as [Ht|Hc]|by auto].
    - left. by apply bool_decide_eq_true in Ht.
    - right; left. by apply bool_decide_eq_true in Hc. }
  apply orb_false_iff in Hor as [[Ht Hc]%orb_false_iff Hb].
  apply bool_decide_eq_false in Ht, Hc.
  destruct (se_trust_busy env); [split_and!; try done; by left|].
  destruct (trust_contains id (sv_trust s)) eqn:Htr; simpl.
  2:{ split_and!; try done; [intros _ [_ Hx]; fold id in Hx; congruence|by left]. }
  split_and!; try done.
  - intros j [Hj|Hj]; [left|right; done]. simpl. destruct (decide (j = id)) as [->|];
      [rewrite lookup_insert_eq; by eexists|by rewrite lookup_insert_ne].
  - intros _ _. left. simpl. rewrite lookup_insert_eq. by eexists.
  - right. split_and!; try done. intros [Hx|[Hx|Hx]]; [by apply Ht|by apply Hc|fold id in Hx; congruence].
Qed.

Lemma sync_frame_trans s1 s2 s3 : sync_frame s1 s2 → sync_frame s2 s3 → sync_frame s1 s3.
Proof. unfold sync_frame. intuition congruence. Qed.

Lemma pull_from_all_spec env ps s :
  let s' := pull_from_all env ps s in
  sync_frame s s' ∧ (∀ id, attended (se_now env) s id → attended (se_now env) s' id) ∧
  (se_trust_busy env = false → ∀ p, p ∈ ps → dialable s p → attended (se_now env) s' (dp_machine_id p)) ∧
  ∃ ds, sv_out s' = sv_out s ++ map SxSyncDial ds ∧ ∀ d, d ∈ ds → d ∈ ps ∧ dialable s d.
Proof.
  unfold pull_from_all. revert s. induction ps as [|p ps IH]; intros s; simpl.
  - split_and!; try done; [by intros _ p Hp; inversion Hp|]. exists []. rewrite app_nil_r. split; [done|]. intros d Hd. inversion Hd.
  - destruct (maybe_pull_from_spec env p s) as (Hf1 & Hm1 & Ha1 & Ho1).
    destruct (IH (maybe_pull_from env p s)) as (Hf2 & Hm2 & Ha2 & ds & Ho2 & Hd2).
    assert (∀ d, dialable (maybe_pull_from env p s) d ↔ dialable s d) as Hdial
      by (intros d; unfold dialable; by rewrite (proj1 (proj2 Hf1))).
    split; [by eapply sync_frame_trans|]. split; [by auto|]. split.
    + intros Hb q [->|Hq]%elem_of_cons Hd; [by auto|]. apply Ha2; [done|done|by apply Hdial].
    + destruct Ho1 as [Ho1|(Ho1 & Hd & _)].
      * exists ds. rewrite Ho2, Ho1. split; [done|]. intros d Hin. apply Hd2 in Hin as [? ?%Hdial].
        split; [by apply elem_of_cons; right|done].
      * exists (p :: ds). rewrite Ho2, Ho1, <-app_assoc. split; [done|].
        intros d [->|Hin]%elem_of_cons; [split; [by apply elem_of_cons; left|done]|].
        apply Hd2 in Hin as [? ?%Hdial]. split; [by apply elem_of_cons; right|done].
Qed.

(** Peers are filed under their own id. *)
Definition peers_keyed (s : Sup) : Prop :=
  map_Forall (λ id p, dp_machine_id p = id) (sv_peers s).

Lemma visible_spec s p : peers_keyed s → p ∈ visible s ↔ sv_peers s !! dp_machine_id p = Some p.
Proof.
  intros Hk. unfold visible. rewrite list_elem_of_fmap. split.
  - intros ([id q] & -> & Hin%elem_of_map_to_list). simpl. by rewrite (Hk _ _ Hin).
  - intros Hl. exists (dp_machine_id p, p). split; [done|]. by apply elem_of_map_to_list.
Qed.

Lemma collect_sync_frame env id s :
  sv_trust (collect_sync env id s) = sv_trust s ∧ sv_peers (collect_sync env id s) = sv_peers s ∧
  sv_out (collect_sync env id s) = sv_out s ∧ sv_versioned (collect_sync env id s) = sv_versioned s ∧
  sv_core (collect_sync env id s) = sv_core s ∧ sv_config (collect_sync env id s) = sv_config s.
Proof. unfold collect_sync. by repeat case_match. Qed.

Lemma collect_all_frame env ids s :
  let s' := fold_left (λ s p, collect_sync env p s) ids s in
  sv_trust s' = sv_trust s ∧ sv_peers s' = sv_peers s ∧ sv_out s' = sv_out s ∧
  sv_versioned s' = sv_versioned s ∧ sv_core s' = sv_core s ∧ sv_config s' = sv_config s.
Proof.
  revert s. induction ids as [|i ids IH]; intros s; simpl; [done|].
  destruct (IH (collect_sync env i s)) as (-> & -> & -> & -> & -> & ->). apply collect_sync_frame.
Qed.

(** The sync sweep misses nobody and dials nobody it should not.  After the
    periodic reconcile, unless the trust store was locked, every visible
    trusted peer that advertises a sync port has a sync task, or has confirmed
    the current head, or is waiting out a backoff; and every peer it dialled is
    visible, trusted and advertises a sync port. *)
Theorem sync_sweep_complete env s :
  peers_keyed s → se_trust_busy env = false →
  let s' := reconcile_sync_sessions env s in
  (∀ id p, sv_peers s !! id = Some p → dialable s p → attended (se_now env) s' id) ∧
  ∃ ds, sv_out s' = sv_out s ++ map SxSyncDial ds ∧
    ∀ d, d ∈ ds → sv_peers s !! dp_machine_id d = Some d ∧ dialable s d.
Proof.
  intros Hk Hb. cbv zeta. unfold reconcile_sync_sessions.
  set (s1 := fold_left _ _ s).
  destruct (collect_all_frame env (finished_syncs s) s) as (Ht & Hp & Ho & _). fold s1 in Ht, Hp, Ho.
  assert (peers_keyed s1) as Hk1 by (unfold peers_keyed; by rewrite Hp).
  assert (∀ p, dialable s1 p ↔ dialable s p) as Hd by (intros p; unfold dialable; by rewrite Ht).
  destruct (pull_from_all_spec env (visible s1) s1) as (_ & _ & Ha & ds & Ho2 & Hds). split.
  - intros id p Hid Hdial. rewrite <-(Hk _ _ Hid). apply Ha; [done| |by apply Hd].
    apply visible_spec; [done|]. rewrite Hp. by rewrite (Hk _ _ Hid).
  - exists ds. rewrite Ho2, Ho. split; [done|]. intros d [Hin Hdial]%Hds.
    apply visible_spec in Hin; [|done]. rewrite <-Hp. split; [done|by apply Hd].
Qed.

(** ** The audio sweep *)

(** The gates a peer must pass before it is dialled for audio, apart from the
    bookkeeping of earlier dials. *)
Definition audio_wanted (s : Sup) (p : DiscoveredPeer) : Prop :=
  dp_audio_port p ≠ 0%Z ∧ peer_audio_active (cfg_audio (sv_config s)) (dp_machine_id p) = true ∧
  String.ltb our_id (dp_machine_id p) = true ∧ trust_contains (dp_machine_id p) (sv_trust s) = true.

Definition audio_attended (now : Z) (s : Sup) (id : string) : Prop :=
  id ∈ sv_audio_live s ∨ id ∈ sv_audio_inflight s ∨ backing_off now (sv_audio_backoff s !! id) = true.

Definition audio_frame (s s' : Sup) : Prop :=
  sv_config s' = sv_config s ∧ sv_trust s' = sv_trust s ∧ sv_audio_live s' = sv_audio_live s ∧
  sv_audio_backoff s' = sv_audio_backoff s ∧ sv_audio_dial_deps s' = sv_audio_dial_deps s ∧
  sv_core s' = sv_core s ∧ sv_versioned s' = sv_versioned s ∧ sv_audio s' = sv_audio s ∧
  sv_peers s' = sv_peers s ∧ sv_audio_inflight s ⊆ sv_audio_inflight s'.

Lemma dial_audio_one_spec env p s :
  let s' := dial_audio_one our_id env p s in
  audio_frame s s' ∧
  (sv_audio_dial_deps s = true → se_trust_busy env = false → audio_wanted s p →
   audio_attended (se_now env) s' (dp_machine_id p)) ∧
  (sv_out s' = sv_out s ∨
   (sv_out s' = sv_out s ++ [SxAudioDial p] ∧ audio_wanted s p ∧
    ¬ audio_attended (se_now env) s (dp_machine_id p))).
Proof.
  unfold dial_audio_one, audio_frame, audio_wanted, audio_attended.
  destruct (sv_audio_dial_deps s) eqn:Hdeps; simpl; [|split_and!; try done; by left].
  case_decide as Hport; [split_and!; try done; [by intros _ _ [? _]|by left]|].
  destruct (peer_audio_active _ _) eqn:Hact; simpl; [|split_and!; try done; [intros _ _ (_ & ? & _); done|by left]].
  destruct (String.ltb our_id _) eqn:Hlt; simpl; [|split_and!; try done; [intros _ _ (_ & _ & ? & _); done|by left]].
  case_bool_decide as Hlive; [split_and!; try done; [by left|by left]|].
  case_bool_decide as Hinf; [split_and!; try done; [by right; left|by left]|].
  destruct (backing_off _ _) eqn:Hb; [split_and!; try done; [by right; right|by left]|].
  destruct (se_trust_busy env); [split_and!; try done; by left|].
  destruct (trust_contains _ _) eqn:Htr; simpl; [|split_and!; try done; [intros _ _ (_ & _ & _ & ?); done|by left]].
  split_and!; try done; [set_solver|right; left; set_solver|].
  right. split_and!; try done. intros [?|[?|?]]; done.
Qed.

Lemma audio_frame_trans s1 s2 s3 : audio_frame s1 s2 → audio_frame s2 s3 → audio_frame s1 s3.
Proof.
  unfold audio_frame. intros (? & ? & ? & ? & ? & ? & ? & ? & ? & ?) (? & ? & ? & ? & ? & ? & ? & ? & ? & ?).
  split_and!; try congruence. etrans; done.
Qed.

Lemma audio_attended_mono now s s' id :
  audio_frame s s' → audio_attended now s id → audio_attended now s' id.
Proof.
  unfold audio_frame, audio_attended. intros (_ & _ & -> & -> & _ & _ & _ & _ & _ & Hin) [?|[?|?]]; auto.
Qed.

Lemma dial_audio_all_spec env ps s :
  let s' := fold_left (λ s p, dial_audio_one our_id env p s) ps s in
  audio_frame s s' ∧
  (sv_audio_dial_deps s = true → se_trust_busy env = false →
   ∀ p, p ∈ ps → audio_wanted s p → audio_attended (se_now env) s' (dp_machine_id p)) ∧
  ∃ ds, sv_out s' = sv_out s ++ map SxAudioDial ds ∧
    ∀ d, d ∈ ds → d ∈ ps ∧ audio_wanted s d ∧ ¬ audio_attended (se_now env) s (dp_machine_id d).
Proof.
  revert s. induction ps as [|p ps IH]; intros s; simpl.
  - split_and!; try done; [by intros _ _ p Hp; inversion Hp|]. exists []. rewrite app_nil_r. split; [done|].
    intros d Hd. inversion Hd.
  - destruct (dial_audio_one_spec env p s) as (Hf1 & Ha1 & Ho1).
    destruct (IH (dial_audio_one our_id env p s)) as (Hf2 & Ha2 & ds & Ho2 & Hd2).
    assert (∀ d, audio_wanted (dial_audio_one our_id env p s) d ↔ audio_wanted s d) as Hw.
    { intros d. unfold audio_wanted. destruct Hf1 as (-> & -> & _). done. }
    assert (sv_audio_dial_deps (dial_audio_one our_id env p s) = sv_audio_dial_deps s) as Hdeps by apply Hf1.
    split; [by eapply audio_frame_trans|]. split.
    + intros Hdd Hb q [->|Hq]%elem_of_cons Hwant.
      * eapply audio_attended_mono; [done|]. by apply Ha1.
      * apply Ha2; [congruence|done|done|by apply Hw].
    + assert (∀ d, d ∈ ds → d ∈ p :: ps ∧ audio_wanted s d ∧ ¬ audio_attended (se_now env) s (dp_machine_id d)) as Hds.
      { intros d (Hin & Hwd%Hw & Hn)%Hd2. split; [by apply elem_of_cons; right|]. split; [done|].
        intros Hatt. apply Hn. by eapply audio_attended_mono. }
      destruct Ho1 as [Ho1|(Ho1 & Hwp & Hn)].
      * exists ds. by rewrite Ho2, Ho1.
      * exists (p :: ds). rewrite Ho2, Ho1, <-app_assoc. split; [done|].
        intros d [->|Hin]%elem_of_cons; [split; [by apply elem_of_cons; left|done]|by apply Hds].
Qed.

Lemma reconcile_audio_sessions_frame env s : audio_frame s (reconcile_audio_sessions our_id env s).
Proof.
  unfold reconcile_audio_sessions. destruct (sv_audio_dial_deps s); simpl;
    [apply dial_audio_all_spec|unfold audio_frame; split_and!; done].
Qed.

(** The audio sweep misses nobody and dials nobody it should not.  With the
    subsystem up and the trust store free, every visible peer that should have
    an audio session (it advertises a port, its routing is on, it is trusted,
    and the dial is ours to make) ends up live, in flight or backing off; and
    every peer dialled passed all of those gates and was none of the three. *)
Theorem audio_sweep_complete env s :
  peers_keyed s → se_trust_busy env = false → sv_audio_dial_deps s = true →
  let s' := reconcile_audio_sessions our_id env s in
  (∀ id p, sv_peers s !! id = Some p → audio_wanted s p → audio_attended (se_now env) s' id) ∧
  ∃ ds, sv_out s' = sv_out s ++ map SxAudioDial ds ∧
    ∀ d, d ∈ ds → sv_peers s !! dp_machine_id d = Some d ∧ audio_wanted s d ∧
      ¬ audio_attended (se_now env) s (dp_machine_id d).
Proof.
  intros Hk Hb Hd. cbv zeta. unfold reconcile_audio_sessions. rewrite Hd. simpl.
  destruct (dial_audio_all_spec env (visible s) s) as (_ & Ha & ds & Ho & Hds). split.
  - intros id p Hid Hw. rewrite <-(Hk _ _ Hid). apply Ha; try done.
    apply visible_spec; [done|]. by rewrite (Hk _ _ Hid).
  - exists ds. split; [done|]. intros d (Hin & ?)%Hds. split; [by apply visible_spec|done].
Qed.
End net_laws.

(** glare.  Of two daemons that see each other, at most one considers the
    audio dial its own to make. *)
Theorem audio_dial_one_side a b sa sb pa pb :
  dp_machine_id pa = a → dp_machine_id pb = b → audio_wanted a sa pb → ¬ audio_wanted b sb pa.
Proof.
  intros <- <- (_ & _ & Hab & _) (_ & _ & Hba & _).
  unfold String.ltb in *. rewrite String.compare_antisym in Hba. by destruct (String.compare _ _).
Qed.

Section subsystem.
Context (our_id : string).

(** Audio follows the run state.  After [reconcile_audio_subsystem] the bridge
    is up exactly when sharing is on and audio is enabled, dials are possible
    exactly when the bridge is up, and when it is down nothing is in flight or
    live. *)
Theorem audio_follows_run_state env s :
  sv_audio_dial_deps s = sv_audio s →
  (sv_audio s = false → sv_audio_inflight s = ∅ ∧ sv_audio_live s = ∅) →
  let s' := reconcile_audio_subsystem our_id env s in
  sv_audio s' = (co_desired_running (sv_core s) && aud_enabled (cfg_audio (sv_config s))) ∧
  sv_audio_dial_deps s' = sv_audio s' ∧ sv_core s' = sv_core s ∧ sv_config s' = sv_config s ∧
  (sv_audio s' = false → sv_audio_inflight s' = ∅ ∧ sv_audio_live s' = ∅).
Proof.
  intros Hd Hoff. cbv zeta. unfold reconcile_audio_subsystem.
  destruct (co_desired_running (sv_core s)) eqn:Hr, (aud_enabled (cfg_audio (sv_config s))) eqn:He; simpl;
    try (destruct (sv_audio s) eqn:Ha; simpl; rewrite ?Ha; split_and!; try done; apply Hoff; done).
  unfold ensure_audio_subsystem. destruct (sv_audio s) eqn:Ha; [by rewrite Ha|].
  rewrite He. simpl. set (s1 := if se_can_bind env _ then _ else _).
  destruct (reconcile_audio_sessions_frame our_id env s1) as (Ec & _ & _ & _ & Ed & Eco & _ & Ea & _).
  rewrite Ea, Ed, Eco, Ec. subst s1. by destruct (se_can_bind env _).
Qed.

(** a signal port that cannot be bound is not reported.  [ensure_audio_subsystem]
    then leaves the bridge up without a listener and emits no [AudioError]: what
    it sends consists of outbound dials only. *)
Theorem audio_bind_failure_silent env s :
  sv_audio s = false → aud_enabled (cfg_audio (sv_config s)) = true →
  se_can_bind env (aud_signal_port (cfg_audio (sv_config s))) = false →
  let s' := ensure_audio_subsystem our_id env s in
  sv_audio s' = true ∧ ∃ ds, sv_out s' = sv_out s ++ map SxAudioDial ds.
Proof.
  intros Ha He Hb. cbv zeta. unfold ensure_audio_subsystem. rewrite Ha, He, Hb. simpl.
  set (s1 := set_sv_audio_dial_deps true _).
  split; [by destruct (reconcile_audio_sessions_frame our_id env s1) as (_ & _ & _ & _ & _ & _ & _ & -> & _)|].
  unfold reconcile_audio_sessions. simpl.
  destruct (dial_audio_all_spec our_id env (visible s1) s1) as (_ & _ & ds & Ho & _). by exists ds.
Qed.
End subsystem.

(** ** Concrete sweeps *)

Lemma wit_peers_keyed s : sv_peers s = {["b"%string := wit_discovered "b"]} → peers_keyed s.
Proof. intros Hs. unfold peers_keyed. rewrite Hs. by apply map_Forall_singleton. Qed.

Lemma dial_backoff_paced_witness :
  (500 + 1000 ≤ ab_next_attempt (after_failure 500 (Some {| ab_next_attempt := 0; ab_attempts := 3 |})) ≤ 500 + 60000)%Z.
Proof. apply (dial_backoff_paced 500 {| ab_next_attempt := 0; ab_attempts := 3 |}). simpl. lia. Defined.

Lemma sync_sweep_complete_witness :
  attended (H := toy_json_shared) (H0 := toy_sha) (H1 := toy_hex) 0
    (reconcile_sync_sessions (H := toy_json_shared) (H0 := toy_sha) (H1 := toy_hex) (wit_senv 0 true) wit_sup) "b".
Proof.
  apply (sync_sweep_complete (H := toy_json_shared) (H0 := toy_sha) (H1 := toy_hex) (wit_senv 0 true) wit_sup)
    with (p := wit_discovered "b").
  - by apply wit_peers_keyed.
  - reflexivity.
  - reflexivity.
  - split; [discriminate|reflexivity].
Defined.

Lemma audio_sweep_complete_witness :
  audio_attended 0 (reconcile_audio_sessions "a" (wit_senv 0 true) (set_sv_audio_dial_deps true wit_audio_sup)) "b".
Proof.
  apply (audio_sweep_complete "a" (wit_senv 0 true) (set_sv_audio_dial_deps true wit_audio_sup)) with (p := wit_discovered "b").
  - by apply wit_peers_keyed.
  - reflexivity.
  - reflexivity.
  - reflexivity.
  - split; [discriminate|]. split; [reflexivity|]. split; reflexivity.
Defined.

Lemma audio_dial_one_side_witness : ¬ audio_wanted "b" wit_audio_sup (wit_discovered "a").
Proof.
  apply (audio_dial_one_side "a" "b" wit_audio_sup wit_audio_sup (wit_discovered "a") (wit_discovered "b")).
  - reflexivity.
  - reflexivity.
  - split; [discriminate|]. split; [reflexivity|]. split; reflexivity.
Defined.

Lemma audio_follows_run_state_witness :
  sv_audio (reconcile_audio_subsystem "a" (wit_senv 0 true)
    (on_core (request_start sample_config) wit_audio_sup)) = true.
Proof.
  apply (audio_follows_run_state "a" (wit_senv 0 true) (on_core (request_start sample_config) wit_audio_sup)).
  - reflexivity.
  - intros _. split; reflexivity.
Defined.

Lemma audio_bind_failure_silent_witness :
  sv_audio (ensure_audio_subsystem "a" (wit_senv 0 false) wit_audio_sup) = true.
Proof. apply (audio_bind_failure_silent "a" (wit_senv 0 false) wit_audio_sup); reflexivity. Defined.
