(* ===== verification/Supervisor.v ===== *)
(** * The supervisor ([crates/synbadd/src/supervisor/])

    Config edits and merges ([config_edit.rs]), the IPC dispatcher
    ([requests.rs]), the constructor, the service reconcile and the run loop
    ([mod.rs]), over the Core slice and the network bookkeeping. *)

From Stdlib Require Import ZArith Lia.
From S2P Require Import Prelude Primitives Config Versioned IpcTypes LogParse Store CoreProc SupState NetSync.

(** Answers to one request from outside the supervisor: the audio bridge's (or
    the device probe's) reply, whether the stop marker could be written, and a
    fresh session id. *)
Record REnv := {
  re_env : SEnv;
  re_devices : result string (list AudioDeviceInfo * list AudioDeviceInfo);
  re_status : result string (list PeerAudioStatus);
  re_marker_ok : bool;
  re_session_id : string
}.

Inductive SyncOp :=
| Snapshot
| Merge (peer_machine_id : string) (incoming : VersionedConfig).

Section supervisor.
Context `{JsonSharedOps, Sha256Ops, HexOps, TomlOps, JsonOps SideCar, JsonOps TrustFile}.
Context (our_id our_fingerprint : string) (config_path versions_path : PathPair).
(** [Display] of the errors that reach a client. *)
Context (show_config_error : ConfigError → string) (show_trust_error : TrustError → string).

(** ** Config edits *)

Definition apply_local_edit (env : SEnv) (new_config : Config) (restart_if_running : bool) (s : Sup) : Sup :=
  let differ := core_inputs_differ (sv_config s) new_config in
  let '(v, changed) := apply_local (sv_versioned s) new_config our_id in
  let s := set_sv_versioned v s in
  let s := set_sv_config new_config s in
  let s := if changed then set_sv_fs (save_sidecar v versions_path (sv_fs s)).2 s else s in
  let s := send_event EvConfigChanged s in
  let s := if restart_if_running && co_desired_running (sv_core s) && differ
           then on_core (restart_core (se_core env) new_config) s else s in
  if changed then push_to_trusted_peers env s else s.

Definition set_config (env : SEnv) (new_config : Config) (s : Sup) : result string unit * Sup :=
  match validate new_config with
  | Err e => (Err (show_config_error e), s)
  | Ok _ =>
    let '(r, fs) := config_save new_config config_path (sv_fs s) in
    let s := set_sv_fs fs s in
    match r with
    | Err _ => (Err "persisting new config"%string, s)
    | Ok _ => (Ok tt, apply_local_edit env new_config true s)
    end
  end.

(** The file watcher fired (a burst of events is one call). *)
Definition handle_config_changed (env : SEnv) (s : Sup) : Sup :=
  let '(r, fs) := config_load (pp_path config_path) (sv_fs s) in
  let s := set_sv_fs fs s in
  match r with
  | Ok (Some cfg) => if config_eqb cfg (sv_config s) then s else apply_local_edit env cfg true s
  | Ok None | Err _ => s
  end.

Definition handle_sync_op (env : SEnv) (op : SyncOp) (s : Sup) : Sup :=
  match op with
  | Snapshot => out (SxSyncReply (sv_versioned s)) s
  | Merge _ incoming =>
    let '(v, outcome) := merge (sv_versioned s) incoming in
    let s := set_sv_versioned v s in
    match outcome with
    | NoChange => out (SxSyncReply (sv_versioned s)) s
    | Updated =>
      match validate (vc_config v) with
      | Err _ =>
        let '(r, fs) := config_load (pp_path config_path) (sv_fs s) in
        let s := set_sv_fs fs s in
        let s := match r with
                 | Ok (Some c) =>
                   set_sv_config c
                     (set_sv_versioned {| vc_config := c; vc_stamps := vc_stamps v; vc_clock := vc_clock v |} s)
                 | _ => s
                 end in
        out (SxSyncReply (sv_versioned s)) s
      | Ok _ =>
        let differ := core_inputs_differ (sv_config s) (vc_config v) in
        let s := set_sv_config (vc_config v) s in
        let s := set_sv_fs (config_save (vc_config v) config_path (sv_fs s)).2 s in
        let s := set_sv_fs (save_sidecar v versions_path (sv_fs s)).2 s in
        let s := send_event EvConfigChanged s in
        let s := if co_desired_running (sv_core s) && differ
                 then on_core (restart_core (se_core env) (vc_config v)) s else s in
        out (SxSyncReply (sv_versioned s)) s
      end
    end
  end.

(** ** Pairing bookkeeping *)

Definition gc_pairing_tasks (s : Sup) : Sup :=
  let s := set_sv_pairing_tasks (List.filter (λ t, negb t.2) (sv_pairing_tasks s)) s in
  set_sv_pairing_confirm (filter (λ x, x.2 = false) (sv_pairing_confirm s)) s.

Definition handle_incoming_pairing (session_id : string) (s : Sup) : Sup :=
  let s := set_sv_pairing_confirm (<[session_id := false]> (sv_pairing_confirm s)) s in
  let s := set_sv_pairing_tasks (sv_pairing_tasks s ++ [(session_id, false)]) s in
  gc_pairing_tasks s.

Definition start_pairing (session_id machine_id : string) (s : Sup) : result string unit * Sup :=
  let s := gc_pairing_tasks s in
  if decide (¬ length (sv_pairing_tasks s) < 64) then (Err "too many pairing sessions; retry shortly"%string, s) else
  match sv_peers s !! machine_id with
  | None => (Err ("peer " +:+ machine_id +:+ " not currently discovered"), s)
  | Some peer =>
    let s := out (SxPairDial peer) s in
    let s := set_sv_pairing_confirm (<[session_id := false]> (sv_pairing_confirm s)) s in
    let s := set_sv_pairing_tasks (sv_pairing_tasks s ++ [(session_id, false)]) s in
    (Ok tt, gc_pairing_tasks s)
  end.

(** ** Requests *)

Definition persist_user_stopped (ok stopped : bool) (s : Sup) : Sup :=
  if ok then set_sv_user_stopped stopped s else s.

(** The peers whose audio the edit switched off. *)
Definition demoted (old new : AudioConfig) (s : Sup) : list string :=
  List.filter (λ id, peer_audio_active old id && negb (peer_audio_active new id)) (map_to_list (sv_peers s)).*1.

Definition update_audio_config (env : SEnv) (audio : AudioConfig) (s : Sup) : result string unit * Sup :=
  let old_audio := cfg_audio (sv_config s) in
  let '(r, s) := set_config env (set_cfg_audio audio (sv_config s)) s in
  match r with
  | Err e => (Err e, s)
  | Ok _ =>
    let s := if negb (Bool.eqb (aud_enabled old_audio) (aud_enabled audio))
             then reconcile_audio_subsystem our_id env s else s in
    let s := if sv_audio s then out (SxAudio (AcReconfigure audio)) s else s in
    let s := if aud_enabled old_audio && aud_enabled audio then
               fold_left (λ s id,
                   set_sv_audio_backoff (delete id (sv_audio_backoff s))
                     (set_sv_audio_live (sv_audio_live s ∖ {[id]}) s))
                 (demoted old_audio audio s) s
             else s in
    (Ok tt, reconcile_audio_sessions our_id env s)
  end.

Definition reply_of (r : result string unit) : Response :=
  match r with Ok _ => RsOk | Err e => RsError e end.

Definition dispatch (renv : REnv) (req : Request) (s : Sup) : Response * Sup :=
  let env := re_env renv in
  match req with
  | RqGetStatus =>
    let c := sv_core s in
    (RsStatus (co_state c) (co_log_tail c)
       (merge_sort String.le (elements (co_connected_peers c))) (co_active_screen c), s)
  | RqGetConfig => (RsConfig (sv_config s), s)
  | RqSetConfig config => let '(r, s) := set_config env config s in (reply_of r, s)
  | RqStart =>
    let s := persist_user_stopped (re_marker_ok renv) false s in
    let s := on_core (request_start (sv_config s)) s in
    (RsOk, reconcile_audio_subsystem our_id env s)
  | RqStop =>
    let s := persist_user_stopped (re_marker_ok renv) true s in
    let s := on_core (request_stop (se_core env)) s in
    (RsOk, reconcile_audio_subsystem our_id env s)
  | RqRestart =>
    let s := persist_user_stopped (re_marker_ok renv) false s in
    let s := on_core (request_restart (se_core env) (sv_config s)) s in
    (RsOk, reconcile_audio_subsystem our_id env s)
  | RqSubscribe => (RsOk, s)
  | RqListPeers => (RsPeers (visible s), s)
  | RqGetLocalIdentity => (RsLocalIdentity our_id our_fingerprint, s)
  | RqStartPairing machine_id =>
    let '(r, s) := start_pairing (re_session_id renv) machine_id s in (reply_of r, s)
  | RqConfirmPairing session_id accept =>
    match sv_pairing_confirm s !! session_id with
    | Some _ => (RsOk, out (SxPairVerdict session_id accept)
                         (set_sv_pairing_confirm (delete session_id (sv_pairing_confirm s)) s))
    | None => (RsError ("no pending pairing session " +:+ session_id), s)
    end
  | RqListTrustedPeers => (RsTrustedPeers (ts_peers (sv_trust s)), s)
  | RqShutdown => (RsOk, set_sv_shutdown true s)
  | RqRevokeTrust machine_id =>
    let '(r, trust, fs) := trust_remove machine_id (sv_trust s) (sv_fs s) in
    let s := set_sv_fs fs (set_sv_trust trust s) in
    match r with
    | Ok true =>
      let s := send_event (EvTrustRevoked machine_id) s in
      (RsOk, if sv_audio s then out (SxAudio (AcClosePeer machine_id)) s else s)
    | Ok false => (RsError ("peer " +:+ machine_id +:+ " is not trusted"), s)
    | Err e => (RsError (show_trust_error e), s)
    end
  | RqListAudioDevices =>
    (match re_devices renv with Ok (i, o) => RsAudioDevices i o | Err e => RsError e end, s)
  | RqSetAudioConfig config => let '(r, s) := update_audio_config env config s in (reply_of r, s)
  | RqGetAudioStatus =>
    (if sv_audio s then match re_status renv with Ok ps => RsAudioStatus ps | Err e => RsError e end
     else RsAudioStatus [], s)
  end.

Definition handle_request (renv : REnv) (req : Request) (s : Sup) : Sup :=
  let '(response, s) := dispatch renv req s in out (SxReply response) s.
(** ** Services *)

Definition reconcile_pairing (env : SEnv) (s : Sup) : Sup :=
  let port := cfg_service_port (sv_config s) in
  let '(p0, p1, p2) := sv_listener_ports s in
  let s := if bool_decide (p0 ≠ port) || bool_decide (sv_pairing_listener s = Some true)
           then set_sv_incoming_pairings false (set_sv_pairing_listener None s) else s in
  match sv_pairing_listener s with
  | Some _ => s
  | None => if se_can_bind env port
            then set_sv_listener_ports (port, p1, p2)
                   (set_sv_incoming_pairings true (set_sv_pairing_listener (Some false) s))
            else s
  end.

Definition reconcile_sync_listener (env : SEnv) (s : Sup) : Sup :=
  let port := cfg_sync_port (sv_config s) in
  let '(p0, p1, p2) := sv_listener_ports s in
  let s := if bool_decide (p1 ≠ port) || bool_decide (sv_sync_listener s = Some true)
           then set_sv_sync_listener None s else s in
  match sv_sync_listener s with
  | Some _ => s
  | None => if se_can_bind env port
            then set_sv_listener_ports (p0, port, p2) (set_sv_sync_listener (Some false) s) else s
  end.

Definition reconcile_audio_service (env : SEnv) (s : Sup) : Sup :=
  let port := aud_signal_port (cfg_audio (sv_config s)) in
  let s := if bool_decide ((sv_listener_ports s).2 ≠ port) || bool_decide (sv_audio_task s = Some true)
           then teardown_audio_subsystem s else s in
  let s := reconcile_audio_subsystem our_id env s in
  let s := if sv_audio s then out (SxAudio (AcReconfigure (cfg_audio (sv_config s)))) s else s in
  let s := set_sv_listener_ports ((sv_listener_ports s).1, port) s in
  let s := if bool_decide (sv_audio_listener s = Some true) then set_sv_audio_listener None s else s in
  match sv_audio_listener s with
  | Some _ => s
  | None => if sv_audio_dial_deps s && se_can_bind env port
            then set_sv_audio_listener (Some false) s else s
  end.

(** [start_discovery] ([core_proc.rs]): the audio port is 0 until its listener
    is bound. *)
Definition start_discovery (env : SEnv) (s : Sup) : Sup :=
  if se_discovery_ok env
  then out (SxDiscoveryStart (head_hash (sv_versioned s))) (set_sv_discovery (Some false) s)
  else s.

Definition reconcile_network_services (env : SEnv) (s : Sup) : Sup :=
  let s := if decide (sv_pairing_display s ≠ cfg_server_name (sv_config s))
           then set_sv_pairing_listener None (set_sv_pairing_display (cfg_server_name (sv_config s)) s) else s in
  let s := if bool_decide (sv_discovery s = Some true) then set_sv_discovery None s else s in
  let s := match sv_discovery s with Some _ => s | None => start_discovery env s end in
  let s := reconcile_pairing env s in
  let s := reconcile_sync_listener env s in
  let s := reconcile_audio_service env s in
  let c := sv_config s in
  let audio_port := match sv_audio_listener s with
                    | Some _ => aud_signal_port (cfg_audio c) | None => 0%Z end in
  match sv_discovery s with
  | Some _ => out (SxAdvertise (cfg_service_port c) (cfg_sync_port c) (cfg_port c) audio_port
                     (head_hash (sv_versioned s))) s
  | None => s
  end.

(** ** Construction *)

(** What [new] meets outside: the steps that abort it (watcher, resolver,
    identity) and the stop marker. *)
Record NEnv := {
  ne_env : SEnv;
  ne_watcher_ok : bool;
  ne_resolver_ok : bool;
  ne_identity_ok : bool;
  ne_user_stopped : bool
}.

(** The supervisor as constructed, the two listeners bound if they can be. *)
Definition sup_initial (env : SEnv) (config : Config) (versioned : VersionedConfig) (trust : TrustedPeerStore)
    (user_stopped : bool) (fs : Fs) : Sup := {|
  sv_core := core_init; sv_config := config; sv_versioned := versioned; sv_fs := fs;
  sv_user_stopped := user_stopped; sv_shutdown := false; sv_peers := ∅; sv_trust := trust;
  sv_pairing_confirm := ∅; sv_pairing_tasks := []; sv_sync_tasks := ∅; sv_sync_confirmed := ∅;
  sv_sync_backoff := ∅; sv_audio := false; sv_audio_listener := None; sv_audio_task := None;
  sv_audio_dial_deps := false; sv_audio_inflight := ∅; sv_audio_live := ∅; sv_audio_backoff := ∅;
  sv_listener_ports := (cfg_service_port config, cfg_sync_port config, aud_signal_port (cfg_audio config));
  sv_pairing_display := cfg_server_name config;
  sv_pairing_listener := if se_can_bind env (cfg_service_port config) then Some false else None;
  sv_incoming_pairings := true;
  sv_sync_listener := if se_can_bind env (cfg_sync_port config) then Some false else None;
  sv_discovery := None; sv_out := [] |}.

Definition sup_new (nenv : NEnv) (trust_path : PathPair) (fs : Fs) : option Sup * Fs :=
  let env := ne_env nenv in
  let '(r, fs) := config_load (pp_path config_path) fs in
  match r with
  | Err _ => (None, fs)
  | Ok loaded =>
    let config := default default_Config loaded in
    if negb (ne_watcher_ok nenv && ne_resolver_ok nenv && ne_identity_ok nenv) then (None, fs) else
    let '(side, fs) := load_sidecar (pp_path versions_path) fs in
    let '(versioned, fs) :=
      match side with
      | Ok (Some sc) => (from_parts config (sc_stamps sc) (sc_clock sc), fs)
      | Ok None => let v := initial config our_id in (v, (save_sidecar v versions_path fs).2)
      | Err _ => (initial config our_id, fs)
      end in
    let '(t, fs) := trust_load trust_path fs in
    match t with
    | Err _ => (None, fs)
    | Ok trust =>
      let s := sup_initial env config versioned trust (ne_user_stopped nenv) fs in
      let s := start_discovery env s in
      let s := if negb (ne_user_stopped nenv)
               then on_core (λ c, start_core config (set_co_desired_running true c)) s else s in
      (Some (reconcile_audio_subsystem our_id env s), fs)
    end
  end.

(** ** The run loop *)

(** The [select!] arms, and what other tasks, the user and the file system may
    do between two of them. *)
Inductive SupOp :=
| SoRequest (req : Request)
| SoCore (op : CoreOp)                     (* the arms that only touch the Core *)
| SoTick
| SoAudioDialDone (o : AudioDialOutcome)
| SoFsEvent
| SoDiscovery (ev : DiscoveryEvent)
| SoIncomingPairing (session_id : string)
| SoSync (op : SyncOp)
| SoAudioEvent (ev : AudioEvent)
| SoSignal
| SoEnvSyncDone (machine_id : string) (ok : bool)
| SoEnvPairingDone (session_id : string)
| SoEnvTrust (trust : TrustedPeerStore)     (* a pairing session updated the shared store *)
| SoEnvFiles (fs : Fs)
| SoEnvPairingListenerEnded
| SoEnvSyncListenerEnded
| SoEnvAudioListenerEnded
| SoEnvAudioTaskEnded
| SoEnvDiscoveryClosed.

Definition core_arm (op : CoreOp) : bool :=
  match op with
  | OpStart | OpStop | OpRestart | OpInputsChanged => false
  | _ => true
  end.

(** Leaving the loop: on a client's request and on a signal alike. *)
Definition wind_down (env : SEnv) (s : Sup) : Sup :=
  teardown_audio_subsystem (on_core (stop_core (se_core env)) s).

Definition tick (env : SEnv) (s : Sup) : Sup :=
  let s := reconcile_network_services env s in
  let s := reconcile_sync_sessions env s in
  let s := gc_pairing_tasks s in
  reconcile_audio_sessions our_id env s.

(** One turn; the flag says that [run] returned. *)
Definition sup_exec (renv : REnv) (op : SupOp) (s : Sup) : bool * Sup :=
  let env := re_env renv in
  match op with
  | SoRequest req =>
    let s := handle_request renv req s in
    if sv_shutdown s then (true, wind_down env s) else (false, s)
  | SoCore op => (false, if core_arm op then on_core (core_exec (se_core env) (sv_config s) op) s else s)
  | SoTick => (false, tick env s)
  | SoAudioDialDone o => (false, handle_audio_dial_outcome env o s)
  | SoFsEvent => (false, handle_config_changed env s)
  | SoDiscovery ev =>
    (false, match sv_discovery s with Some false => handle_discovery our_id env ev s | _ => s end)
  | SoIncomingPairing sid =>
    (false, if sv_incoming_pairings s then handle_incoming_pairing sid s else s)
  | SoSync op => (false, handle_sync_op env op s)
  | SoAudioEvent ev => (false, if sv_audio s then handle_audio_event env ev s else s)
  | SoSignal => (true, wind_down env s)
  | SoEnvSyncDone id ok =>
    (false, match sv_sync_tasks s !! id with
            | Some (head, None) => set_sv_sync_tasks (<[id := (head, Some ok)]> (sv_sync_tasks s)) s
            | _ => s
            end)
  | SoEnvPairingDone sid =>
    (false, set_sv_pairing_confirm (alter (λ _, true) sid (sv_pairing_confirm s))
              (set_sv_pairing_tasks
                 (map (λ t, (t.1, t.2 || bool_decide (t.1 = sid))) (sv_pairing_tasks s)) s))
  | SoEnvTrust trust => (false, set_sv_trust trust s)
  | SoEnvFiles fs => (false, set_sv_fs fs s)
  | SoEnvPairingListenerEnded =>
    (false, set_sv_pairing_listener ((λ _, true) <$> sv_pairing_listener s) s)
  | SoEnvSyncListenerEnded => (false, set_sv_sync_listener ((λ _, true) <$> sv_sync_listener s) s)
  | SoEnvAudioListenerEnded => (false, set_sv_audio_listener ((λ _, true) <$> sv_audio_listener s) s)
  | SoEnvAudioTaskEnded => (false, set_sv_audio_task ((λ _, true) <$> sv_audio_task s) s)
  | SoEnvDiscoveryClosed => (false, set_sv_discovery ((λ _, true) <$> sv_discovery s) s)
  end.

(** Reachable states of the running loop, under any environment. *)
Inductive sup_reachable : Sup → Prop :=
| sr_new nenv trust_path fs s fs' :
    sup_new nenv trust_path fs = (Some s, fs') → sup_reachable s
| sr_step renv op s s' :
    sup_reachable s → sup_exec renv op s = (false, s') → sup_reachable s'.
End supervisor.

(** ** Invariants of the running supervisor *)

Record sup_inv (s : Sup) : Prop := {
  si_core : core_reachable (sv_core s);
  si_valid : validate (sv_config s) = Ok tt;
  si_keyed : peers_keyed s;
  si_deps : sv_audio_dial_deps s = sv_audio s;
  si_off : sv_audio s = false →
    sv_audio_inflight s = ∅ ∧ sv_audio_live s = ∅ ∧ sv_audio_listener s = None;
  si_pairing : sv_pairing_listener s ≠ None → sv_incoming_pairings s = true
}.

(** The in-memory config and the versioned one agree (up to [==], as
    [apply_local] compares them). *)
Definition mirrors (s : Sup) : Prop :=
  vc_config (sv_versioned s) = sv_config s ∨ config_eqb (vc_config (sv_versioned s)) (sv_config s) = true.

(** A step that leaves the Core, both configs, the peers and the audio switch alone,
    and says nothing about the peers. *)
Record quiet (s s' : Sup) : Prop := {
  q_core : sv_core s' = sv_core s;
  q_config : sv_config s' = sv_config s;
  q_versioned : sv_versioned s' = sv_versioned s;
  q_peers : sv_peers s' = sv_peers s;
  q_audio : sv_audio s' = sv_audio s;
  q_deps : sv_audio_dial_deps s' = sv_audio_dial_deps s;
  q_inflight : sv_audio_dial_deps s = false → sv_audio_inflight s = ∅ → sv_audio_inflight s' = ∅;
  q_live : sv_audio_live s' ⊆ sv_audio_live s;
  q_listener : sv_audio_dial_deps s = false → sv_audio_listener s = None → sv_audio_listener s' = None;
  q_pairing : (sv_pairing_listener s ≠ None → sv_incoming_pairings s = true) →
              sv_pairing_listener s' ≠ None → sv_incoming_pairings s' = true;
  q_out : mum (sv_out s) (sv_out s')
}.

Lemma quiet_refl s : quiet s s.
Proof. by constructor. Qed.

Lemma quiet_trans s1 s2 s3 : quiet s1 s2 → quiet s2 s3 → quiet s1 s3.
Proof.
  intros [] []. constructor; try congruence.
  - intros Hd Hi. apply q_inflight1; [congruence|]. by apply q_inflight0.
  - by etrans.
  - intros Hd Hi. apply q_listener1; [congruence|]. by apply q_listener0.
  - intros Hp. apply q_pairing1. by apply q_pairing0.
  - by eapply mum_trans.
Qed.

Lemma quiet_inv s s' : quiet s s' → sup_inv s → sup_inv s'.
Proof.
  intros [Ec Ef _ Ep Ea Ed Ei El En Eq _] [Hc Hv Hk Hd Ho Hp]. constructor; unfold peers_keyed; rewrite ?Ec, ?Ef, ?Ep, ?Ea, ?Ed; try done; [|by apply Eq].
  intros Ha. destruct (Ho Ha) as (? & ? & ?). split_and!; [apply Ei; congruence|set_solver|apply En; congruence].
Qed.

Lemma quiet_mirrors s s' : quiet s s' → mirrors s → mirrors s'.
Proof. intros []. unfold mirrors. by rewrite q_config0, q_versioned0. Qed.

Ltac quiet_by_cases := repeat case_match; simplify_eq/=; constructor; simpl; try done; set_solver.

Section frames.
Context `{JsonSharedOps, Sha256Ops, HexOps}.
Context (our_id : string).

Lemma out_quiet x s : peer_event x = false → quiet s (out x s).
Proof. intros Hx. constructor; try done. by apply mum_snoc. Qed.

Lemma maybe_pull_from_quiet env p s : quiet s (maybe_pull_from env p s).
Proof. unfold maybe_pull_from. by repeat case_match; constructor. Qed.

Lemma pull_from_all_quiet env ps s : quiet s (pull_from_all env ps s).
Proof.
  unfold pull_from_all. revert s. induction ps as [|p ps IH]; intros s; simpl; [apply quiet_refl|].
  eapply quiet_trans; [apply maybe_pull_from_quiet|apply IH].
Qed.

Lemma push_quiet env s : quiet s (push_to_trusted_peers env s).
Proof. unfold push_to_trusted_peers. eapply quiet_trans; [|apply pull_from_all_quiet]. by constructor. Qed.

Lemma collect_all_quiet env ids s : quiet s (fold_left (λ s p, collect_sync env p s) ids s).
Proof.
  revert s. induction ids as [|i ids IH]; intros s; simpl; [apply quiet_refl|].
  eapply quiet_trans; [|apply IH]. unfold collect_sync. by repeat case_match; constructor.
Qed.

Lemma reconcile_sync_quiet env s : quiet s (reconcile_sync_sessions env s).
Proof. unfold reconcile_sync_sessions. eapply quiet_trans; [apply collect_all_quiet|apply pull_from_all_quiet]. Qed.

Lemma reconcile_audio_sessions_services env s :
  let s' := reconcile_audio_sessions our_id env s in
  sv_audio_listener s' = sv_audio_listener s ∧ sv_pairing_listener s' = sv_pairing_listener s ∧
  sv_incoming_pairings s' = sv_incoming_pairings s ∧ sv_listener_ports s' = sv_listener_ports s ∧
  sv_sync_listener s' = sv_sync_listener s ∧ sv_discovery s' = sv_discovery s ∧
  sv_pairing_display s' = sv_pairing_display s.
Proof.
  cbv zeta. unfold reconcile_audio_sessions. destruct (negb _); [done|]. generalize (visible s). intros ps.
  revert s. induction ps as [|p ps IH]; intros s; simpl; [done|].
  destruct (IH (dial_audio_one our_id env p s)) as (-> & -> & -> & -> & -> & -> & ->).
  unfold dial_audio_one. by repeat case_match.
Qed.

Lemma reconcile_audio_sessions_quiet env s : quiet s (reconcile_audio_sessions our_id env s).
Proof.
  destruct (reconcile_audio_sessions_frame our_id env s) as (? & ? & ? & ? & ? & ? & ? & ? & ? & ?).
  destruct (reconcile_audio_sessions_services env s) as (? & Ep & Ei & _).
  constructor; try congruence; [intros Hd; unfold reconcile_audio_sessions; by rewrite Hd|by rewrite Ep, Ei|].
  unfold reconcile_audio_sessions. destruct (negb _); [done|].
  destruct (dial_audio_all_spec our_id env (visible s) s) as (_ & _ & ds & -> & _).
  apply mum_app; [|done]. by induction ds.
Qed.

Lemma dial_outcome_quiet env o s : quiet s (handle_audio_dial_outcome env o s).
Proof. unfold handle_audio_dial_outcome. quiet_by_cases. Qed.

Lemma gc_pairing_quiet s : quiet s (gc_pairing_tasks s).
Proof. by constructor. Qed.

Lemma audio_event_inv env ev s : sv_audio s = true → sup_inv s → sup_inv (handle_audio_event env ev s).
Proof.
  intros Ha [Hc Hv Hk Hd Ho Hp]. unfold handle_audio_event.
  repeat case_match; (constructor; simpl; try done; rewrite ?Ha; done).
Qed.

Lemma teardown_inv s : sup_inv s → sup_inv (teardown_audio_subsystem s).
Proof.
  intros [Hc Hv Hk Hd Ho Hp]. unfold teardown_audio_subsystem. simpl. destruct (sv_audio s) eqn:Ha; constructor; simpl; try done; by rewrite Ha.
Qed.

Lemma reconcile_audio_subsystem_inv env s : sup_inv s → sup_inv (reconcile_audio_subsystem our_id env s).
Proof.
  intros Hs. unfold reconcile_audio_subsystem. destruct (_ && _).
  - unfold ensure_audio_subsystem. destruct (sv_audio s) eqn:Ha; [done|]. destruct (negb _); [done|].
    eapply quiet_inv; [apply reconcile_audio_sessions_quiet|].
    destruct Hs as [Hc Hv Hk Hd Ho Hp]. destruct (se_can_bind env _); constructor; simpl; done.
  - destruct (sv_audio s) eqn:Ha; [by apply teardown_inv|done].
Qed.

(** Neither config is touched by audio bring-up and teardown. *)
Lemma reconcile_audio_subsystem_configs env s :
  let s' := reconcile_audio_subsystem our_id env s in
  sv_core s' = sv_core s ∧ sv_config s' = sv_config s ∧ sv_versioned s' = sv_versioned s.
Proof.
  unfold reconcile_audio_subsystem. destruct (_ && _).
  - unfold ensure_audio_subsystem. destruct (sv_audio s); [done|]. destruct (negb _); [done|].
    match goal with |- context [reconcile_audio_sessions our_id env ?x] =>
      destruct (reconcile_audio_sessions_quiet env x) as [-> -> -> _ _ _ _ _ _ _ _] end.
    by destruct (se_can_bind env _).
  - unfold teardown_audio_subsystem. simpl. by destruct (sv_audio s).
Qed.

Lemma out_inv x s : sup_inv s → sup_inv (out x s).
Proof. intros []. by constructor. Qed.

(** Once the peers are updated and the change announced, the rest is quiet. *)
Lemma handle_discovery_spec env ev s :
  handle_discovery our_id env ev s = s ∨
  (∃ p q, ev = Found q ∧ sv_peers s !! dp_machine_id q = Some p ∧ same_announcement p q = true ∧
     handle_discovery our_id env ev s = set_sv_peers (<[dp_machine_id q := q]> (sv_peers s)) s) ∨
  (∃ q, ev = Found q ∧
     quiet (send_event (EvPeerDiscovered q) (set_sv_peers (<[dp_machine_id q := q]> (sv_peers s)) s))
       (handle_discovery our_id env ev s)) ∨
  (∃ id, ev = Lost id ∧ is_Some (sv_peers s !! id) ∧
     quiet (send_event (EvPeerLost id) (set_sv_peers (delete id (sv_peers s)) s)) (handle_discovery our_id env ev s)).
Proof.
  unfold handle_discovery. destruct ev as [peer|id].
  - right. cbv zeta. destruct (_ || _) eqn:E.
    + right; left. exists peer. split; [done|]. eapply quiet_trans; [|apply reconcile_audio_sessions_quiet].
      eapply quiet_trans; [|apply maybe_pull_from_quiet]. by constructor.
    + left. apply orb_false_iff in E as [E1%negb_false_iff _].
      destruct (sv_peers s !! dp_machine_id peer) as [p|] eqn:Ep; [|done]. by exists p, peer.
  - destruct (sv_peers s !! id) eqn:Ei; [|by left]. right; right; right. exists id. split_and!; [done|done|].
    cbv zeta. repeat case_match; constructor; simpl; try done; set_solver.
Qed.

Lemma handle_discovery_inv env ev s : sup_inv s → sup_inv (handle_discovery our_id env ev s).
Proof.
  intros Hs. assert (∀ ps, map_Forall (λ id p, dp_machine_id p = id) ps → sup_inv (set_sv_peers ps s)) as Hps
    by (intros ps ?; destruct Hs; by constructor).
  assert (∀ q, sup_inv (set_sv_peers (<[dp_machine_id q := q]> (sv_peers s)) s)) as Hi
    by (intros q; apply Hps, map_Forall_insert_2; [done|apply Hs]).
  destruct (handle_discovery_spec env ev s) as [->|[(p & q & _ & _ & _ & ->)|[(q & _ & Hq)|(id & _ & _ & Hq)]]]; [done|done| |];
    (eapply quiet_inv; [exact Hq|]); apply out_inv; [done|]. apply Hps, map_Forall_delete, Hs.
Qed.

Lemma handle_discovery_configs env ev s :
  let s' := handle_discovery our_id env ev s in
  sv_config s' = sv_config s ∧ sv_versioned s' = sv_versioned s.
Proof.
  unfold handle_discovery. destruct ev as [peer|id].
  - destruct (_ || _); [|done].
    match goal with |- context [reconcile_audio_sessions our_id env ?x] =>
      destruct (reconcile_audio_sessions_quiet env x) as [_ -> -> _ _ _ _ _ _ _ _] end.
    match goal with |- context [maybe_pull_from env peer ?x] =>
      destruct (maybe_pull_from_quiet env peer x) as [_ -> -> _ _ _ _ _ _ _ _] end. done.
  - cbv zeta. by repeat case_match.
Qed.
End frames.

Section sup_laws.
Context `{JsonSharedOps, Sha256Ops, HexOps, TomlOps, JsonOps SideCar, JsonOps TrustFile}.
Context (our_id our_fingerprint : string) (config_path versions_path : PathPair).
Context (show_config_error : ConfigError → string) (show_trust_error : TrustError → string).

Local Notation apply_edit := (apply_local_edit our_id versions_path).
Local Notation set_cfg := (set_config our_id config_path versions_path show_config_error).
Local Notation sync_op := (handle_sync_op config_path versions_path).
Local Notation exec := (sup_exec our_id our_fingerprint config_path versions_path show_config_error show_trust_error).
Local Notation reachable := (sup_reachable our_id our_fingerprint config_path versions_path show_config_error show_trust_error).

(** Restarting (or not) under a new valid config keeps the Core reachable. *)
Lemma restart_if_reachable env cfg b c :
  validate cfg = Ok tt → core_reachable c →
  core_reachable (if co_desired_running c && b then restart_core env cfg c else c).
Proof.
  intros Hv Hc. pose proof (cr_step env cfg OpInputsChanged c Hc Hv) as Hx. simpl in Hx.
  by destruct (co_desired_running c), b.
Qed.

Lemma on_core_if (b : bool) f s : (if b then on_core f s else s) = on_core (λ c, if b then f c else c) s.
Proof. destruct b; [done|]. by destruct s. Qed.

(** What dialling every visible peer leaves alone besides. *)
Lemma push_services env s :
  let s' := push_to_trusted_peers env s in
  sv_fs s' = sv_fs s ∧ sv_audio_inflight s' = sv_audio_inflight s ∧ sv_audio_live s' = sv_audio_live s ∧
  sv_audio_listener s' = sv_audio_listener s ∧ sv_pairing_listener s' = sv_pairing_listener s ∧
  sv_incoming_pairings s' = sv_incoming_pairings s.
Proof.
  cbv zeta. unfold push_to_trusted_peers, pull_from_all. generalize (visible (set_sv_sync_backoff ∅ (set_sv_sync_confirmed ∅ s))).
  intros ps. set (s0 := set_sv_sync_backoff ∅ _).
  change (sv_fs s) with (sv_fs s0). change (sv_audio_inflight s) with (sv_audio_inflight s0).
  change (sv_audio_live s) with (sv_audio_live s0). change (sv_audio_listener s) with (sv_audio_listener s0).
  change (sv_pairing_listener s) with (sv_pairing_listener s0).
  change (sv_incoming_pairings s) with (sv_incoming_pairings s0). clearbody s0. revert s0.
  induction ps as [|p ps IH]; intros s0; simpl; [done|].
  destruct (IH (maybe_pull_from env p s0)) as (-> & -> & -> & -> & -> & ->).
  unfold maybe_pull_from. by repeat case_match.
Qed.

(** The shape of a local edit: one pair of configs, one possible Core restart. *)
Lemma apply_edit_spec env c s :
  let differ := core_inputs_differ (sv_config s) c in
  let s' := apply_edit env c true s in
  sv_config s' = c ∧ sv_versioned s' = (apply_local (sv_versioned s) c our_id).1 ∧
  sv_core s' = (if co_desired_running (sv_core s) && differ
                then restart_core (se_core env) c (sv_core s) else sv_core s) ∧
  sv_fs s' = (if (apply_local (sv_versioned s) c our_id).2
              then (save_sidecar (apply_local (sv_versioned s) c our_id).1 versions_path (sv_fs s)).2 else sv_fs s) ∧
  sv_peers s' = sv_peers s ∧ sv_audio s' = sv_audio s ∧ sv_audio_dial_deps s' = sv_audio_dial_deps s ∧
  sv_audio_inflight s' = sv_audio_inflight s ∧ sv_audio_live s' = sv_audio_live s ∧
  sv_audio_listener s' = sv_audio_listener s ∧ sv_pairing_listener s' = sv_pairing_listener s ∧
  sv_incoming_pairings s' = sv_incoming_pairings s.
Proof.
  cbv zeta. unfold apply_local_edit. destruct (apply_local (sv_versioned s) c our_id) as [v changed]. cbn [fst snd andb].
  set (s1 := if changed then set_sv_fs _ _ else _).
  set (s2 := if _ && _ then on_core _ _ else _).
  pose proof (push_services env s2) as Hpush.
  assert (sv_config s2 = c ∧ sv_versioned s2 = v ∧
    sv_core s2 = (if co_desired_running (sv_core s) && core_inputs_differ (sv_config s) c
                  then restart_core (se_core env) c (sv_core s) else sv_core s) ∧
    sv_fs s2 = (if changed then (save_sidecar v versions_path (sv_fs s)).2 else sv_fs s) ∧
    sv_peers s2 = sv_peers s ∧ sv_audio s2 = sv_audio s ∧ sv_audio_dial_deps s2 = sv_audio_dial_deps s ∧
    sv_audio_inflight s2 = sv_audio_inflight s ∧ sv_audio_live s2 = sv_audio_live s ∧
    sv_audio_listener s2 = sv_audio_listener s ∧ sv_pairing_listener s2 = sv_pairing_listener s ∧
    sv_incoming_pairings s2 = sv_incoming_pairings s) as Hs2.
  { subst s2 s1. destruct changed; simpl; destruct (_ && _); done. }
  destruct changed; [|done].
  destruct Hpush as (-> & -> & -> & -> & -> & ->). destruct (push_quiet env s2) as [-> -> -> -> -> -> _ _ _ _]. done.
Qed.

Lemma apply_edit_inv env c s : validate c = Ok tt → sup_inv s → sup_inv (apply_edit env c true s).
Proof.
  intros Hv [Hc Hcv Hk Hd Ho Hp].
  destruct (apply_edit_spec env c s) as (E1 & E2 & E3 & _ & E5 & E6 & E7 & E8 & E9 & E10 & E11 & E12).
  cbv zeta in *.
  constructor; unfold peers_keyed; rewrite ?E1, ?E3, ?E5, ?E6, ?E7, ?E8, ?E9, ?E10, ?E11, ?E12; try done. by apply restart_if_reachable.
Qed.

Lemma apply_edit_mirrors env c s : mirrors (apply_edit env c true s).
Proof.
  destruct (apply_edit_spec env c s) as (E1 & E2 & _). cbv zeta in *. unfold mirrors. rewrite E1, E2.
  unfold apply_local. destruct (config_eqb (vc_config (sv_versioned s)) c) eqn:E; simpl; auto.
Qed.

Lemma set_config_inv env c s : sup_inv s → sup_inv (set_cfg env c s).2.
Proof.
  intros Hs. unfold set_config. destruct (validate c) as [[]|] eqn:Hv; [|done].
  destruct (config_save c config_path (sv_fs s)) as [r fs].
  assert (sup_inv (set_sv_fs fs s)) by (destruct Hs; by constructor).
  destruct r; simpl; [by apply apply_edit_inv|done].
Qed.

Lemma set_config_mirrors env c s : mirrors s → mirrors (set_cfg env c s).2.
Proof.
  intros Hm. unfold set_config. destruct (validate c) as [[]|] eqn:Hv; [|done].
  destruct (config_save c config_path (sv_fs s)) as [r fs]. destruct r; simpl; [apply apply_edit_mirrors|done].
Qed.

Lemma config_load_valid path fs c : (config_load path fs).1 = Ok (Some c) → validate c = Ok tt.
Proof.
  unfold config_load. destruct (fs_read_to_string path fs) as [[b| |] fs']; try done. simpl.
  destruct (toml_from_str _) as [cfg|]; [|done]. destruct (validate cfg) as [[]|] eqn:Hv; [|done]. by intros [= <-].
Qed.

Lemma config_changed_inv env s : sup_inv s → sup_inv (handle_config_changed our_id config_path versions_path env s).
Proof.
  intros Hs. unfold handle_config_changed. pose proof (config_load_valid (pp_path config_path) (sv_fs s)) as Hv.
  destruct (config_load _ _) as [r fs]. assert (sup_inv (set_sv_fs fs s)) by (destruct Hs; by constructor).
  destruct r as [[cfg|]|]; try done. destruct (config_eqb _ _); [done|]. apply apply_edit_inv; [|done]. by apply Hv.
Qed.

Lemma config_changed_mirrors env s :
  mirrors s → mirrors (handle_config_changed our_id config_path versions_path env s).
Proof.
  intros Hs. unfold handle_config_changed. destruct (config_load _ _) as [[[cfg|]|] fs]; try done.
  destruct (config_eqb _ _); [done|]. apply apply_edit_mirrors.
Qed.

(** ** Merges *)

Lemma sync_op_inv env op s : sup_inv s → sup_inv (sync_op env op s).
Proof.
  intros Hs. unfold handle_sync_op. destruct op as [|peer incoming]; [by eapply quiet_inv; [by apply out_quiet|]|].
  destruct (merge (sv_versioned s) incoming) as [v o].
  destruct o; [destruct Hs; by constructor|].
  destruct (validate (vc_config v)) as [[]|e] eqn:Hv.
  - rewrite on_core_if. destruct Hs as [Hc Hcv Hk Hd Ho Hp]. constructor; simpl; try done. by apply restart_if_reachable.
  - cbn [sv_fs set_sv_versioned].
    pose proof (config_load_valid (pp_path config_path) (sv_fs s)) as Hl. destruct (config_load _ _) as [r fs].
    eapply quiet_inv; [by apply out_quiet|]. destruct r as [[c|]|]; try (destruct Hs; by constructor).
    specialize (Hl c eq_refl). destruct Hs; by constructor.
Qed.

(** The two ways a merge can fail to be adopted. *)
Definition rollback_unreadable (op : SyncOp) (s : Sup) : Prop :=
  ∃ p m, op = Merge p m ∧ (merge (sv_versioned s) m).2 = Updated ∧
    is_ok (validate (vc_config (merge (sv_versioned s) m).1)) = false ∧
    ∀ c, (config_load (pp_path config_path) (sv_fs s)).1 ≠ Ok (Some c).

Lemma merge_nochange_config a b : (merge a b).2 = NoChange → vc_config (merge a b).1 = vc_config a.
Proof.
  unfold merge, merge_field. cbn [fst snd]. repeat (destruct (stamp_gt _ _); simpl); done.
Qed.

Lemma sync_op_mirrors env op s :
  ¬ rollback_unreadable op s → mirrors s → mirrors (sync_op env op s).
Proof.
  intros Hnr Hm. unfold handle_sync_op. destruct op as [|peer incoming]; [done|].
  pose proof (merge_nochange_config (sv_versioned s) incoming) as Hnc.
  destruct (merge (sv_versioned s) incoming) as [v o] eqn:Em. simpl in Hnc.
  destruct o; [unfold mirrors in *; simpl; by rewrite Hnc|].
  destruct (validate (vc_config v)) as [[]|e] eqn:Hv.
  - rewrite on_core_if. by left.
  - cbn [sv_fs set_sv_versioned].
    destruct (config_load (pp_path config_path) (sv_fs s)) as [r fs] eqn:El.
    destruct r as [[c|]|]; [by left| |]; exfalso; apply Hnr; exists peer, incoming;
      rewrite Em, El; simpl; rewrite Hv; done.
Qed.

(** ** Requests *)

Lemma demote_quiet l s :
  quiet s (fold_left (λ s id, set_sv_audio_backoff (delete id (sv_audio_backoff s))
                                (set_sv_audio_live (sv_audio_live s ∖ {[id]}) s)) l s).
Proof.
  revert s. induction l as [|i l IH]; intros s; simpl; [apply quiet_refl|].
  eapply quiet_trans; [|apply IH]. constructor; simpl; try done. set_solver.
Qed.

Definition edits_keep (P : Sup → Prop) : Prop :=
  (∀ s s', quiet s s' → P s → P s') ∧
  (∀ env s, P s → P (reconcile_audio_subsystem our_id env s)) ∧
  (∀ env c s, P s → P (set_cfg env c s).2).

Lemma update_audio_keep P env a s :
  edits_keep P → P s →
  P (update_audio_config our_id config_path versions_path show_config_error env a s).2.
Proof.
  intros (Hq & Hr & Hsc) Hs. unfold update_audio_config.
  specialize (Hsc env (set_cfg_audio a (sv_config s)) s Hs).
  destruct (set_cfg env _ s) as [r s1]. simpl in Hsc. destruct r; [|done]. simpl.
  eapply Hq; [apply reconcile_audio_sessions_quiet|].
  set (s2 := if negb _ then _ else s1).
  assert (P s2) as Hp2 by (subst s2; destruct (negb _); [by apply Hr|done]).
  set (s3 := if sv_audio s2 then _ else s2).
  assert (P s3) as Hp3 by (subst s3; destruct (sv_audio s2); [eapply Hq; [by apply out_quiet|done]|done]).
  destruct (_ && _); [|done]. eapply Hq; [apply demote_quiet|done].
Qed.

Definition core_requests (req : Request) : bool :=
  match req with RqStart | RqStop | RqRestart => true | _ => false end.

Lemma dispatch_keep P renv req s :
  edits_keep P → core_requests req = false → P s →
  P (dispatch our_id our_fingerprint config_path versions_path show_config_error show_trust_error renv req s).2.
Proof.
  intros HP Hreq Hs. pose proof HP as (Hq & Hr & Hsc).
  destruct req; try done; unfold dispatch.
  - specialize (Hsc (re_env renv) config s Hs). by destruct (set_cfg _ _ s).
  - unfold start_pairing. destruct (decide _).
    + eapply Hq; [apply gc_pairing_quiet|done].
    + destruct (sv_peers _ !! _); simpl.
      * eapply Hq; [|exact Hs]. by constructor.
      * eapply Hq; [apply gc_pairing_quiet|done].
  - case_match; [|done]. eapply Hq; [|exact Hs]. by constructor.
  - destruct (trust_remove _ _ _) as [[r t] fs]. eapply Hq; [|exact Hs].
    destruct r as [[]|]; simpl; repeat case_match; by constructor.
  - pose proof (update_audio_keep P (re_env renv) config s HP Hs) as Hx. by destruct (update_audio_config _ _ _ _ _ _ s).
  - eapply Hq; [|exact Hs]. by constructor.
Qed.

Lemma sup_inv_keeps : edits_keep sup_inv.
Proof.
  split_and!; [apply quiet_inv|intros; by apply reconcile_audio_subsystem_inv|intros; by apply set_config_inv].
Qed.

Lemma mirrors_keeps : edits_keep mirrors.
Proof.
  split_and!; [apply quiet_mirrors| |intros; by apply set_config_mirrors].
  intros env s. unfold mirrors. by destruct (reconcile_audio_subsystem_configs our_id env s) as (_ & -> & ->).
Qed.

Lemma on_core_inv f s : sup_inv s → core_reachable (f (sv_core s)) → sup_inv (on_core f s).
Proof. intros [] ?. by constructor. Qed.

(** Requests are atoms from here on. *)
#[local] Opaque request_start request_stop request_restart.

Lemma request_start_reachable cfg c :
  core_reachable c → validate cfg = Ok tt → core_reachable (request_start cfg c).
Proof. intros Hc Hv. exact (cr_step (wit_env 0) cfg OpStart c Hc Hv). Qed.

Lemma sample_config_valid : validate sample_config = Ok tt.
Proof. by vm_compute. Qed.

Lemma request_stop_reachable env c : core_reachable c → core_reachable (request_stop env c).
Proof. intros Hc. exact (cr_step env sample_config OpStop c Hc sample_config_valid). Qed.

Lemma request_restart_reachable env cfg c :
  core_reachable c → validate cfg = Ok tt → core_reachable (request_restart env cfg c).
Proof. intros Hc Hv. exact (cr_step env cfg OpRestart c Hc Hv). Qed.

Lemma dispatch_inv renv req s :
  sup_inv s →
  sup_inv (dispatch our_id our_fingerprint config_path versions_path show_config_error show_trust_error renv req s).2.
Proof.
  intros Hs. destruct (core_requests req) eqn:Hreq; [|by apply dispatch_keep; [apply sup_inv_keeps| |]].
  assert (∀ b x, sup_inv x → sup_inv (persist_user_stopped (re_marker_ok renv) b x)) as Hp
    by (intros b x []; unfold persist_user_stopped; case_match; by constructor).
  assert (∀ b, core_reachable (sv_core (persist_user_stopped (re_marker_ok renv) b s))) as Hr
    by (intros b; apply (si_core _ (Hp b s Hs))).
  assert (∀ b, sv_config (persist_user_stopped (re_marker_ok renv) b s) = sv_config s) as Hcf
    by (intros b; unfold persist_user_stopped; by case_match).
  destruct req; try done; unfold dispatch; cbn [snd];
    (apply reconcile_audio_subsystem_inv, on_core_inv; [by apply Hp|]); rewrite ?Hcf.
  - apply request_start_reachable; [apply Hr|apply Hs].
  - apply request_stop_reachable, Hr.
  - apply request_restart_reachable; [apply Hr|apply Hs].
Qed.

Lemma dispatch_mirrors renv req s :
  mirrors s →
  mirrors (dispatch our_id our_fingerprint config_path versions_path show_config_error show_trust_error renv req s).2.
Proof.
  intros Hs. destruct (core_requests req) eqn:Hreq; [|by apply dispatch_keep; [apply mirrors_keeps| |]].
  destruct req; try done; unfold dispatch; cbn [snd]; apply mirrors_keeps; unfold mirrors, persist_user_stopped;
    by case_match.
Qed.

(** ** Services *)

Lemma reconcile_pairing_quiet env s : quiet s (reconcile_pairing env s).
Proof.
  unfold reconcile_pairing. destruct (sv_listener_ports s) as [[p0 p1] p2].
  destruct (_ || _); simpl; repeat case_match; by constructor.
Qed.

Lemma reconcile_sync_listener_quiet env s : quiet s (reconcile_sync_listener env s).
Proof.
  unfold reconcile_sync_listener. destruct (sv_listener_ports s) as [[p0 p1] p2].
  destruct (_ || _); simpl; repeat case_match; by constructor.
Qed.

Lemma teardown_configs s :
  sv_core (teardown_audio_subsystem s) = sv_core s ∧ sv_config (teardown_audio_subsystem s) = sv_config s ∧
  sv_versioned (teardown_audio_subsystem s) = sv_versioned s.
Proof. unfold teardown_audio_subsystem. simpl. by destruct (sv_audio s). Qed.

Definition audio_closed (P : Sup → Prop) : Prop :=
  (∀ s s', quiet s s' → P s → P s') ∧ (∀ env s, P s → P (reconcile_audio_subsystem our_id env s)) ∧
  (∀ s, P s → P (teardown_audio_subsystem s)).

Lemma reconcile_audio_service_keep P env s :
  audio_closed P → P s → P (reconcile_audio_service our_id env s).
Proof.
  intros (Hq & Hr & Ht) Hs. unfold reconcile_audio_service.
  set (s1 := if _ || _ then _ else s). assert (P s1) as Hp1 by (subst s1; destruct (_ || _); auto).
  specialize (Hr env s1 Hp1). set (s2 := reconcile_audio_subsystem our_id env s1) in *.
  eapply Hq; [|exact Hr]. clear. destruct (sv_audio s2) eqn:Ea, (sv_audio_dial_deps s2) eqn:Ed; simpl;
    (destruct (bool_decide _); simpl; rewrite ?Ed; repeat case_match; constructor; simpl; rewrite ?Ed; try done;
       match goal with Hb : _ && _ = true |- _ => apply andb_prop in Hb as [Hb _] end; simpl in *; congruence).
Qed.

Lemma reconcile_network_services_keep P env s :
  audio_closed P → P s → P (reconcile_network_services our_id env s).
Proof.
  intros HP Hs. pose proof HP as (Hq & _). unfold reconcile_network_services.
  set (s1 := if decide _ then _ else s). assert (quiet s s1) as Hp1 by (subst s1; case_match; by constructor).
  set (s2 := if bool_decide _ then _ else s1). assert (quiet s1 s2) as Hp2 by (subst s2; case_match; by constructor).
  set (s3 := match sv_discovery s2 with Some _ => s2 | None => _ end).
  assert (quiet s2 s3) as Hp3 by (subst s3; unfold start_discovery; repeat case_match; by constructor).
  set (s4 := reconcile_audio_service _ _ _).
  assert (P s4) as Hp4.
  { apply reconcile_audio_service_keep; [done|]. eapply Hq; [|exact Hs].
    eapply quiet_trans; [|apply reconcile_sync_listener_quiet]. eapply quiet_trans; [|apply reconcile_pairing_quiet].
    eapply quiet_trans; [exact Hp1|]. by eapply quiet_trans. }
  clearbody s4. case_match; [|done]. eapply Hq; [by apply out_quiet|done].
Qed.

Lemma tick_keep P env s : audio_closed P → P s → P (tick our_id env s).
Proof.
  intros HP Hs. pose proof HP as (Hq & _). unfold tick.
  eapply Hq; [apply reconcile_audio_sessions_quiet|]. eapply Hq; [apply gc_pairing_quiet|].
  eapply Hq; [apply reconcile_sync_quiet|]. by apply reconcile_network_services_keep.
Qed.

Lemma sup_inv_audio_closed : audio_closed sup_inv.
Proof.
  split_and!; [apply quiet_inv|intros; by apply reconcile_audio_subsystem_inv|apply teardown_inv].
Qed.

Lemma mirrors_audio_closed : audio_closed mirrors.
Proof.
  split_and!; [apply quiet_mirrors|apply mirrors_keeps|].
  intros s. unfold mirrors. by destruct (teardown_configs s) as (_ & -> & ->).
Qed.

(** ** Steps *)

(** Environment moves touch neither the Core, the configs, the peers nor the
    audio bookkeeping. *)
Definition env_move (op : SupOp) : bool :=
  match op with
  | SoEnvSyncDone _ _ | SoEnvPairingDone _ | SoEnvTrust _ | SoEnvFiles _ | SoEnvPairingListenerEnded
  | SoEnvSyncListenerEnded | SoEnvAudioListenerEnded | SoEnvAudioTaskEnded | SoEnvDiscoveryClosed => true
  | _ => false
  end.

Lemma env_move_quiet renv op s : env_move op = true → quiet s (exec renv op s).2.
Proof.
  intros Hop. destruct op; try done; simpl; repeat case_match; constructor; simpl; try done.
  - intros Hp Hn. apply Hp. by destruct (sv_pairing_listener s).
  - by intros _ ->.
Qed.

Lemma handle_request_eq renv req s :
  handle_request our_id our_fingerprint config_path versions_path show_config_error show_trust_error renv req s =
  out (SxReply (dispatch our_id our_fingerprint config_path versions_path show_config_error show_trust_error renv req s).1)
    (dispatch our_id our_fingerprint config_path versions_path show_config_error show_trust_error renv req s).2.
Proof. unfold handle_request. by destruct (dispatch _ _ _ _ _ _ _ _ _). Qed.

Lemma exec_inv renv op s : sup_inv s → (exec renv op s).1 = false → sup_inv (exec renv op s).2.
Proof.
  intros Hs. destruct (env_move op) eqn:Henv; [intros _; eapply quiet_inv; [by apply env_move_quiet|done]|].
  destruct op; try done; cbn [sup_exec fst snd].
  - rewrite handle_request_eq. cbn [sv_shutdown out set_sv_out].
    pose proof (dispatch_inv renv req s Hs) as Hd. destruct (sv_shutdown _); [done|]. intros _. cbn [snd].
    eapply quiet_inv; [by apply out_quiet|done].
  - intros _. destruct (core_arm op); [|done]. apply on_core_inv; [done|]. apply cr_step; apply Hs.
  - intros _. by apply tick_keep; [apply sup_inv_audio_closed|].
  - intros _. eapply quiet_inv; [apply dial_outcome_quiet|done].
  - intros _. by apply config_changed_inv.
  - intros _. case_match; [|done]. case_match; [done|]. by apply handle_discovery_inv.
  - intros _. case_match; [|done]. eapply quiet_inv; [|done]. by constructor.
  - intros _. by apply sync_op_inv.
  - intros _. destruct (sv_audio s) eqn:Ha; [|done]. by apply audio_event_inv.
Qed.

Lemma exec_mirrors renv op s :
  mirrors s → (exec renv op s).1 = false →
  (∀ o, op = SoSync o → ¬ rollback_unreadable o s) → mirrors (exec renv op s).2.
Proof.
  intros Hs. destruct (env_move op) eqn:Henv; [intros _ _; eapply quiet_mirrors; [by apply env_move_quiet|done]|].
  destruct op; try done; cbn [sup_exec fst snd].
  - rewrite handle_request_eq. cbn [sv_shutdown out set_sv_out].
    pose proof (dispatch_mirrors renv req s Hs) as Hd. destruct (sv_shutdown _); [done|]. intros _ _. cbn [snd].
    eapply quiet_mirrors; [by apply out_quiet|done].
  - intros _ _. by destruct (core_arm op).
  - intros _ _. by apply tick_keep; [apply mirrors_audio_closed|].
  - intros _ _. eapply quiet_mirrors; [apply dial_outcome_quiet|done].
  - intros _ _. by apply config_changed_mirrors.
  - intros _ _. case_match; [|done]. case_match; [done|].
    unfold mirrors. by destruct (handle_discovery_configs our_id (re_env renv) ev s) as [-> ->].
  - intros _ _. case_match; [|done]. eapply quiet_mirrors; [|done]. by constructor.
  - intros _ Hnr. apply sync_op_mirrors; [by apply Hnr|done].
  - intros _ _. destruct (sv_audio s) eqn:Ha; [|done]. unfold handle_audio_event. by repeat case_match.
Qed.

(** ** The audio cache *)

(** Only an event of the bridge adds a peer to the cache. *)
Lemma edit_live env c s :
  sv_audio_live (set_cfg env c s).2 = sv_audio_live s ∧
  sv_audio_live (handle_config_changed our_id config_path versions_path env s) = sv_audio_live s.
Proof.
  split.
  - unfold set_config. destruct (validate c); [|done]. destruct (config_save c config_path (sv_fs s)) as [r fs]. destruct r; [|done].
    destruct (apply_edit_spec env c (set_sv_fs fs s)) as (_ & _ & _ & _ & _ & _ & _ & _ & E & _). exact E.
  - unfold handle_config_changed. destruct (config_load _ _) as [[[cfg|]|] fs]; try done. destruct (config_eqb _ _); [done|].
    destruct (apply_edit_spec env cfg (set_sv_fs fs s)) as (_ & _ & _ & _ & _ & _ & _ & _ & E & _). exact E.
Qed.

Lemma sync_op_live env op s : sv_audio_live (sync_op env op s) = sv_audio_live s.
Proof.
  unfold handle_sync_op. destruct op as [|peer incoming]; [done|]. destruct (merge (sv_versioned s) incoming) as [v []]; [done|].
  destruct (validate (vc_config v)); [by rewrite on_core_if|]. by destruct (config_load _ _) as [[[c|]|] fs].
Qed.

Lemma teardown_live s : sv_audio_live (teardown_audio_subsystem s) = ∅.
Proof. unfold teardown_audio_subsystem. cbn. by destruct (sv_audio s). Qed.

Lemma reconcile_audio_subsystem_live env s : sv_audio_live (reconcile_audio_subsystem our_id env s) ⊆ sv_audio_live s.
Proof.
  unfold reconcile_audio_subsystem. destruct (_ && _).
  - unfold ensure_audio_subsystem. destruct (sv_audio s); [done|]. destruct (negb _); [done|].
    etrans; [apply q_live, reconcile_audio_sessions_quiet|]. by destruct (se_can_bind env _).
  - destruct (sv_audio s); [|done]. rewrite teardown_live. set_solver.
Qed.

Lemma live_within_keeps L :
  edits_keep (λ s, sv_audio_live s ⊆ L) ∧ audio_closed (λ s, sv_audio_live s ⊆ L).
Proof.
  assert (∀ s s', quiet s s' → sv_audio_live s ⊆ L → sv_audio_live s' ⊆ L) as Hq by (intros s s' Hs ?; etrans; [apply (q_live _ _ Hs)|done]).
  assert (∀ env s, sv_audio_live s ⊆ L → sv_audio_live (reconcile_audio_subsystem our_id env s) ⊆ L) as Hr
    by (intros env s ?; etrans; [apply reconcile_audio_subsystem_live|done]).
  split; split_and!; try done.
  intros env c s Hs. by rewrite (proj1 (edit_live env c s)).
Qed.

Lemma exec_live_shrinks renv op s :
  (∀ ev, op ≠ SoAudioEvent ev) → sv_audio_live (exec renv op s).2 ⊆ sv_audio_live s.
Proof.
  intros Hop. destruct (live_within_keeps (sv_audio_live s)) as [He Ha].
  assert (∀ env x, sv_audio_live (wind_down env x) = ∅) as Hw by (intros; apply teardown_live).
  assert (sv_audio_live (handle_request our_id our_fingerprint config_path versions_path show_config_error show_trust_error renv
    match op with SoRequest req => req | _ => RqStop end s) ⊆ sv_audio_live s) as Hreq.
  { set (req := match op with SoRequest _ => _ | _ => _ end). rewrite handle_request_eq. change (sv_audio_live (out ?x ?y)) with (sv_audio_live y).
    destruct (core_requests req) eqn:Er; [|by apply dispatch_keep].
    destruct req; try done; unfold dispatch; cbn [snd]; (etrans; [apply reconcile_audio_subsystem_live|]);
      unfold persist_user_stopped; by case_match. }
  destruct (env_move op) eqn:Henv; [by apply q_live, env_move_quiet|].
  destruct op as [req|cop| |o| |ev|sid|sop|ev| | | | | | | | | |]; try done; cbn [sup_exec fst snd] in *.
  - destruct (sv_shutdown _); cbn [snd]; [rewrite Hw; set_solver|done].
  - by destruct (core_arm cop).
  - by apply tick_keep.
  - apply q_live, dial_outcome_quiet.
  - by rewrite (proj2 (edit_live (re_env renv) (sv_config s) s)).
  - destruct (sv_discovery s) as [[]|]; [done| |done].
    destruct (handle_discovery_spec our_id (re_env renv) ev s) as [->|[(? & ? & _ & _ & _ & ->)|[(? & _ & Hq)|(? & _ & _ & Hq)]]];
      [done|done|exact (q_live _ _ Hq)|exact (q_live _ _ Hq)].
  - by destruct (sv_incoming_pairings s).
  - by rewrite sync_op_live.
  - by destruct (Hop ev).
Qed.

(** ** Start *)

Lemma start_discovery_quiet env s : quiet s (start_discovery env s).
Proof. unfold start_discovery. case_match; [by constructor|apply quiet_refl]. Qed.

Lemma core_start_reachable cfg :
  validate cfg = Ok tt → core_reachable (start_core cfg (set_co_desired_running true core_init)).
Proof. intros Hv. exact (request_start_reachable cfg core_init cr_init Hv). Qed.

Lemma sup_new_spec nenv trust_path fs s fs' :
  sup_new our_id config_path versions_path nenv trust_path fs = (Some s, fs') →
  sup_inv s ∧ mirrors s.
Proof.
  unfold sup_new. pose proof (config_load_valid (pp_path config_path) fs) as Hl.
  destruct (config_load _ fs) as [r fs1]. destruct r as [loaded|]; [|done].
  assert (validate (default default_Config loaded) = Ok tt) as Hv
    by (destruct loaded as [c|]; [by apply Hl|by vm_compute]).
  clear Hl. generalize dependent (default default_Config loaded). intros config Hv.
  destruct (negb _); [done|]. destruct (load_sidecar _ fs1) as [side fs2].
  set (vf := match side with Ok (Some _) => _ | Ok None => _ | Err _ => _ end).
  assert (vc_config vf.1 = config) as Hcf by (subst vf; by destruct side as [[sc|]|]).
  destruct vf as [versioned fs3]. simpl in Hcf. destruct (trust_load trust_path fs3) as [t fs4].
  destruct t as [trust|]; [|done]. cbv zeta.
  match goal with |- context [start_discovery (ne_env nenv) ?x] => set (s0 := x) end.
  assert (sup_inv s0 ∧ mirrors s0) as [Hi0 Hm0]
    by (split; [constructor; simpl; try done; constructor|by left]).
  assert (sv_core s0 = core_init) as Hs0 by done. clearbody s0.
  pose proof (start_discovery_quiet (ne_env nenv) s0) as Hq. set (s1 := start_discovery _ s0) in *.
  apply (quiet_inv _ _ Hq) in Hi0. apply (quiet_mirrors _ _ Hq) in Hm0.
  set (s2 := if negb _ then _ else s1).
  assert (sup_inv s2 ∧ mirrors s2) as [Hi2 Hm2].
  { subst s2. destruct (negb _) eqn:En; [|done]. split; [|exact Hm0]. apply on_core_inv; [done|].
    rewrite (q_core _ _ Hq), Hs0. by apply core_start_reachable. }
  intros [= <- _]. split; [by apply reconcile_audio_subsystem_inv|by apply mirrors_keeps].
Qed.

(** ** Properties *)

Lemma reachable_inv s : reachable s → sup_inv s.
Proof.
  induction 1 as [nenv tp fs s fs' E|renv op s s' _ IH E]; [by eapply sup_new_spec|].
  pose proof (exec_inv renv op s IH) as Hx. rewrite E in Hx. by apply Hx.
Qed.

(** C4: the supervisor's invariant.  However requests, run-loop arms, background
    tasks and the disk interleave, in every state of the running loop the
    configuration in memory is valid, the Core slice is one of [CoreProc]'s
    reachable states (so the Core guarantees apply), peers are filed under their
    own ids, and with the audio bridge down nothing audio is dialled, live or
    listening. *)
Theorem supervisor_invariant s :
  reachable s →
  validate (sv_config s) = Ok tt ∧ core_reachable (sv_core s) ∧ peers_keyed s ∧
  sv_audio_dial_deps s = sv_audio s ∧
  (sv_audio s = false → sv_audio_inflight s = ∅ ∧ sv_audio_live s = ∅ ∧ sv_audio_listener s = None).
Proof.
  intros [Hc Hv Hk Hd Ho _]%reachable_inv. done.
Qed.

(** The two configs stay in step.  [new] starts with the versioned config
    holding the config, and every turn of the loop keeps them equal (as [==]
    compares), except a merge that had to be rolled back while the config file
    could not be read. *)
Theorem config_mirrors_versioned :
  (∀ nenv tp fs s fs', sup_new our_id config_path versions_path nenv tp fs = (Some s, fs') → mirrors s) ∧
  (∀ renv op s s', mirrors s → exec renv op s = (false, s') →
     (∀ o, op = SoSync o → ¬ rollback_unreadable o s) → mirrors s').
Proof.
  split; [intros * E; by eapply sup_new_spec|].
  intros renv op s s' Hm E Hn. pose proof (exec_mirrors renv op s Hm) as Hx. rewrite E in Hx. by apply Hx.
Qed.

(** What the loop does last. *)
Lemma exec_returns renv op s s' :
  sup_inv s → exec renv op s = (true, s') → ∃ s0, sup_inv s0 ∧ s' = wind_down (re_env renv) s0.
Proof.
  intros Hi E. destruct op; simpl in E; try (repeat case_match; simplify_eq; done).
  - rewrite handle_request_eq in E. case_match; [|done]. injection E as <-. eexists. split; [|done].
    eapply quiet_inv; [by apply out_quiet|by apply dispatch_inv].
  - injection E as <-. eauto.
Qed.

(** Nothing of the Core or the audio bridge is left. *)
Definition wound_down (s : Sup) : Prop :=
  (∀ p, balance p (co_trace (sv_core s)) = 0%Z) ∧ co_state (sv_core s) = Stopped ∧
  co_child_pid (sv_core s) = None ∧ co_restart_at (sv_core s) = None ∧
  co_core_connect_deadline (sv_core s) = None ∧
  sv_audio s = false ∧ sv_audio_listener s = None ∧ sv_audio_inflight s = ∅.

Lemma wind_down_spec env s : sup_inv s → wound_down (wind_down env s).
Proof.
  intros [Hc _ _ _ _ _]. unfold wind_down, wound_down. destruct (teardown_configs (on_core (stop_core (se_core env)) s)) as (-> & _).
  cbn [sv_core on_core set_sv_core]. apply core_reachable_inv in Hc as [Hpre _ _ _ _].
  destruct (stop_core_spec (se_core env) (sv_core s) Hpre) as (Hp' & Hs & Hpid & Hre & _). split_and!; try done.
  - intros p. by rewrite (cp_balance _ Hp'), (no_child_no_kill _ Hp' Hpid).
  - by apply (cp_watch _ Hp').
  - unfold teardown_audio_subsystem. simpl. by destruct (sv_audio s) eqn:Ea; simpl; rewrite ?Ea.
  - unfold teardown_audio_subsystem. simpl. by destruct (sv_audio s).
Qed.

(** Leaving is clean.  When the loop returns (shutdown request or signal)
    every Core ever spawned has been killed or has exited, no restart or watchdog
    timer is armed, and the audio bridge is down with nothing left dialling. *)
Theorem shutdown_leaves_nothing_running renv op s s' p :
  reachable s → exec renv op s = (true, s') →
  balance p (co_trace (sv_core s')) = 0%Z ∧ co_state (sv_core s') = Stopped ∧
  co_child_pid (sv_core s') = None ∧ co_restart_at (sv_core s') = None ∧
  co_core_connect_deadline (sv_core s') = None ∧
  sv_audio s' = false ∧ sv_audio_listener s' = None ∧ sv_audio_inflight s' = ∅.
Proof.
  intros Hr%reachable_inv E. destruct (exec_returns _ _ _ _ Hr E) as (s0 & Hi & ->).
  destruct (wind_down_spec (re_env renv) s0 Hi) as (Hb & Hrest). split; [apply Hb|exact Hrest].
Qed.

(** What [SetConfig] promises.  On success the config is valid, it is the one
    in memory, the versioned config holds it, and the file on disk loads back as
    it; the Core is restarted exactly when sharing is on and an input the Core
    consumes changed.  On an error nothing in memory moved and the file on disk
    is the old one. *)
Theorem set_config_outcome `{!TomlLaws, !JsonLaws SideCar} env c s r s' :
  pp_ok config_path → pp_ok versions_path → config_eqb c c = true →
  pp_path config_path ≠ pp_path versions_path → pp_path config_path ≠ pp_tmp versions_path →
  set_cfg env c s = (r, s') →
  if is_ok r then
    validate c = Ok tt ∧ sv_config s' = c ∧ mirrors s' ∧
    (config_load (pp_path config_path) (healthy (sv_fs s'))).1 = Ok (Some c) ∧
    sv_core s' = (if co_desired_running (sv_core s) && core_inputs_differ (sv_config s) c
                  then restart_core (se_core env) c (sv_core s) else sv_core s)
  else sv_config s' = sv_config s ∧ sv_versioned s' = sv_versioned s ∧ sv_core s' = sv_core s ∧
       content (pp_path config_path) (sv_fs s') = content (pp_path config_path) (sv_fs s).
Proof.
  intros Hp1 Hp2 Hself Hd1 Hd2. unfold set_config. destruct (validate c) as [[]|e] eqn:Hv; [|by intros [= <- <-]].
  destruct (config_save c config_path (sv_fs s)) as [r0 fs] eqn:Es.
  destruct (config_save_spec _ _ _ _ _ Hp1 Hself Es) as [Hsave _].
  destruct r0 as [[]|e]; intros [= <- <-]; [|done]. destruct Hsave as [_ Hload].
  destruct (apply_edit_spec env c (set_sv_fs fs s)) as (E1 & _ & E3 & E4 & _). cbv zeta in *.
  cbn [is_ok]. split_and!; [done|exact E1|apply apply_edit_mirrors| |exact E3].
  rewrite E4. destruct (apply_local (sv_versioned (set_sv_fs fs s)) c our_id).2; [|exact Hload]. cbn [sv_fs set_sv_fs] in *.
  destruct (save_sidecar_saved (apply_local (sv_versioned s) c our_id).1 versions_path fs Hp2) as [Hq _].
  specialize (Hq _ Hd1 Hd2).
  unfold config_load in *. rewrite fs_read_to_string_content in *.
  cbn [sv_versioned set_sv_fs] in *. by rewrite Hq.
Qed.

(** A rolled-back merge keeps the peer's stamps.  When a merge would make the
    config invalid and the file can be read, the config returns to the file's,
    but stamps and clock stay the merged ones: the restored values now carry the
    peer's stamps, and merging the same state again is a no-op, so the refused
    edit is also never offered again. *)
Theorem rollback_keeps_foreign_stamps env peer m s c :
  (merge (sv_versioned s) m).2 = Updated →
  is_ok (validate (vc_config (merge (sv_versioned s) m).1)) = false →
  (config_load (pp_path config_path) (sv_fs s)).1 = Ok (Some c) →
  let s' := sync_op env (Merge peer m) s in
  sv_config s' = c ∧ vc_config (sv_versioned s') = c ∧
  vc_stamps (sv_versioned s') = vc_stamps (merge (sv_versioned s) m).1 ∧
  sv_core s' = sv_core s ∧
  (merge (sv_versioned s') m).2 = NoChange.
Proof.
  intros Hu Hv Hl. cbv zeta. unfold handle_sync_op.
  pose proof (merge_twice_nochange (sv_versioned s) m) as Ht.
  destruct (merge (sv_versioned s) m) as [v o]. cbn [fst snd] in *. subst o.
  destruct (validate (vc_config v)) as [[]|e]; [done|]. cbn [sv_fs set_sv_versioned].
  destruct (config_load (pp_path config_path) (sv_fs s)) as [r fs]. cbn [fst] in Hl. subst r.
  split_and!; try done. apply Ht. done.
Qed.

(** ** Services follow the config *)

Lemma reconcile_pairing_spec env s :
  se_can_bind env (cfg_service_port (sv_config s)) = true →
  (sv_pairing_listener s ≠ None → sv_incoming_pairings s = true) →
  let s' := reconcile_pairing env s in
  sv_pairing_listener s' = Some false ∧ sv_incoming_pairings s' = true ∧
  sv_listener_ports s' = (cfg_service_port (sv_config s), (sv_listener_ports s).1.2, (sv_listener_ports s).2) ∧
  sv_sync_listener s' = sv_sync_listener s ∧ sv_pairing_display s' = sv_pairing_display s ∧
  sv_discovery s' = sv_discovery s.
Proof.
  intros Hb Hi. cbv zeta. unfold reconcile_pairing. destruct (sv_listener_ports s) as [[p0 p1] p2] eqn:Ep.
  case_bool_decide as Hp; [simpl; by rewrite Hb|]. case_bool_decide as Hf; simpl; [by rewrite Hb|].
  subst p0. destruct (sv_pairing_listener s) as [[]|] eqn:El; try done; rewrite ?Hb; simpl;
    rewrite ?El, ?Ep; split_and!; try done. by apply Hi.
Qed.

Lemma reconcile_sync_listener_spec env s :
  se_can_bind env (cfg_sync_port (sv_config s)) = true →
  let s' := reconcile_sync_listener env s in
  sv_sync_listener s' = Some false ∧
  sv_listener_ports s' = ((sv_listener_ports s).1.1, cfg_sync_port (sv_config s), (sv_listener_ports s).2) ∧
  sv_pairing_listener s' = sv_pairing_listener s ∧ sv_incoming_pairings s' = sv_incoming_pairings s ∧
  sv_pairing_display s' = sv_pairing_display s ∧ sv_discovery s' = sv_discovery s.
Proof.
  intros Hb. cbv zeta. unfold reconcile_sync_listener. destruct (sv_listener_ports s) as [[p0 p1] p2] eqn:Ep.
  case_bool_decide as Hp; [simpl; by rewrite Hb|]. case_bool_decide as Hf; simpl; [by rewrite Hb|].
  subst p1. by destruct (sv_sync_listener s) as [[]|] eqn:El; try done; rewrite ?Hb; simpl;
    rewrite ?El, ?Ep.
Qed.

(** The services the audio code does not own. *)
Definition services (s : Sup) :=
  (sv_pairing_listener s, sv_incoming_pairings s, sv_sync_listener s, sv_listener_ports s,
   sv_pairing_display s, sv_discovery s).

Lemma reconcile_audio_subsystem_services env s :
  services (reconcile_audio_subsystem our_id env s) = services s ∧
  sv_audio (reconcile_audio_subsystem our_id env s) =
    (co_desired_running (sv_core s) && aud_enabled (cfg_audio (sv_config s))).
Proof.
  unfold reconcile_audio_subsystem.
  destruct (_ && _) eqn:Eb; [|unfold teardown_audio_subsystem; by destruct (sv_audio s) eqn:Ea; simpl; rewrite ?Ea].
  apply andb_prop in Eb as [_ He]. unfold ensure_audio_subsystem. destruct (sv_audio s) eqn:Ea; [done|]. rewrite He. simpl.
  match goal with |- context [reconcile_audio_sessions our_id env ?x] => set (s1 := x) end.
  destruct (reconcile_audio_sessions_services our_id env s1) as (_ & H1' & H2' & H3' & H4' & H5' & H6').
  destruct (reconcile_audio_sessions_quiet our_id env s1) as [_ _ _ _ -> _ _ _ _ _].
  unfold services. rewrite H1', H2', H3', H4', H5', H6'. subst s1. by destruct (se_can_bind env _).
Qed.

Lemma teardown_services s :
  services (teardown_audio_subsystem s) = services s ∧ sv_audio (teardown_audio_subsystem s) = false.
Proof. unfold teardown_audio_subsystem. simpl. by destruct (sv_audio s) eqn:Ea; simpl; rewrite ?Ea. Qed.

Lemma reconcile_audio_service_spec env s :
  (∀ port, se_can_bind env port = true) → sup_inv s →
  let s' := reconcile_audio_service our_id env s in
  let up := co_desired_running (sv_core s) && aud_enabled (cfg_audio (sv_config s)) in
  sv_pairing_listener s' = sv_pairing_listener s ∧ sv_incoming_pairings s' = sv_incoming_pairings s ∧
  sv_sync_listener s' = sv_sync_listener s ∧ sv_pairing_display s' = sv_pairing_display s ∧
  sv_discovery s' = sv_discovery s ∧
  sv_listener_ports s' = ((sv_listener_ports s).1, aud_signal_port (cfg_audio (sv_config s))) ∧
  sv_audio s' = up ∧ sv_audio_listener s' = (if up then Some false else None) ∧
  sv_config s' = sv_config s ∧ sv_versioned s' = sv_versioned s ∧ sv_core s' = sv_core s.
Proof.
  intros Hb Hs. cbv zeta. unfold reconcile_audio_service.
  set (s1 := if _ || _ then _ else s).
  assert (sup_inv s1 ∧ services s1 = services s ∧ sv_core s1 = sv_core s ∧ sv_config s1 = sv_config s ∧
          sv_versioned s1 = sv_versioned s) as (Hi1 & Hse1 & Hc1 & Hf1 & Hv1).
  { subst s1. destruct (_ || _); [|done]. split; [by apply teardown_inv|]. split; [apply teardown_services|apply teardown_configs]. }
  set (s2 := reconcile_audio_subsystem our_id env s1).
  assert (sup_inv s2) as Hi2 by (by apply reconcile_audio_subsystem_inv).
  destruct (reconcile_audio_subsystem_services env s1) as (Hse2 & Hup).
  destruct (reconcile_audio_subsystem_configs our_id env s1) as (Hc2 & Hf2 & Hv2). fold s2 in Hse2, Hup, Hc2, Hf2, Hv2.
  rewrite Hse1 in Hse2. rewrite Hc1 in *. rewrite Hf1 in *. rewrite Hv1 in *.
  destruct Hi2 as [_ _ _ Hd Ho _]. clearbody s2. clear s1 Hi1 Hse1 Hc1 Hf1 Hv1 Hs.
  unfold services in Hse2. simplify_eq.
  set (up := co_desired_running _ && _) in *. clearbody up. destruct up; rewrite Hup in *; simpl.
  - destruct (sv_audio_listener s2) as [[]|] eqn:El; simpl; rewrite ?El, ?Hd, ?Hb; simpl; split_and!; congruence.
  - destruct (Ho eq_refl) as (_ & _ & El). rewrite El. simpl. rewrite Hd, El. simpl. rewrite ?El. split_and!; congruence.
Qed.

(** Services follow the config.  If ports can be bound and mDNS started, one
    service reconcile leaves live pairing and sync listeners recorded on the
    configured ports, the pairing name current, discovery running, the audio
    bridge and its listener up exactly when sharing and audio are on, and ends
    by advertising those ports and the current head. *)
Theorem services_follow_config env s :
  sup_inv s → (∀ port, se_can_bind env port = true) → se_discovery_ok env = true →
  let c := sv_config s in
  let up := co_desired_running (sv_core s) && aud_enabled (cfg_audio c) in
  let s' := reconcile_network_services our_id env s in
  sv_pairing_listener s' = Some false ∧ sv_incoming_pairings s' = true ∧ sv_sync_listener s' = Some false ∧
  sv_listener_ports s' = (cfg_service_port c, cfg_sync_port c, aud_signal_port (cfg_audio c)) ∧
  sv_pairing_display s' = cfg_server_name c ∧ sv_discovery s' = Some false ∧
  sv_audio s' = up ∧ sv_audio_listener s' = (if up then Some false else None) ∧
  last (sv_out s') = Some (SxAdvertise (cfg_service_port c) (cfg_sync_port c) (cfg_port c)
                             (if up then aud_signal_port (cfg_audio c) else 0%Z) (head_hash (sv_versioned s))).
Proof.
  intros Hs Hb Hdisc. cbv zeta. unfold reconcile_network_services.
  set (s1 := if decide _ then _ else s).
  assert (quiet s s1 ∧ sv_pairing_display s1 = cfg_server_name (sv_config s)) as [Hq1 Hn1].
  { subst s1. case_decide as Hdec; [split; [by constructor|done]|]. split; [apply quiet_refl|done]. }
  clearbody s1. set (s2 := if bool_decide _ then _ else s1).
  set (s3 := match sv_discovery s2 with Some _ => s2 | None => _ end).
  assert (quiet s1 s3 ∧ sv_pairing_display s3 = sv_pairing_display s1 ∧ sv_discovery s3 = Some false) as (Hq3 & Hn3 & Hd3).
  { subst s3 s2. unfold start_discovery. rewrite Hdisc. case_bool_decide as Hx; simpl.
    - split; [by constructor|done].
    - destruct (sv_discovery s1) as [[]|] eqn:E; try done; (split; [by constructor|done]). }
  clearbody s2 s3. assert (quiet s s3) as Hq by (by eapply quiet_trans). clear Hq1 Hq3.
  pose proof (quiet_inv _ _ Hq Hs) as Hs3. rewrite Hn1 in Hn3.
  assert (sv_config s3 = sv_config s ∧ sv_core s3 = sv_core s ∧ sv_versioned s3 = sv_versioned s) as (Hcf & Hco & Hve)
    by (split_and!; apply Hq).
  rewrite <-Hcf, <-Hco, <-Hve in *. clear Hq Hs Hcf Hco Hve s s1 s2 Hn1. rename s3 into s.
  pose proof (reconcile_pairing_spec env s (Hb _) (si_pairing _ Hs3)) as (Ha1 & Ha2 & Ha3 & Ha4 & Ha5 & Ha6).
  pose proof (reconcile_pairing_quiet env s) as Hqa. set (sa := reconcile_pairing env s) in *. clearbody sa.
  pose proof (reconcile_sync_listener_spec env sa (Hb _)) as (Hb1 & Hb2 & Hb3 & Hb4 & Hb5 & Hb6).
  pose proof (reconcile_sync_listener_quiet env sa) as Hqb. set (sb := reconcile_sync_listener env sa) in *. clearbody sb.
  pose proof (quiet_trans _ _ _ Hqa Hqb) as Hqab.
  pose proof (reconcile_audio_service_spec env sb Hb (quiet_inv _ _ Hqab Hs3)) as
    (Hc1 & Hc2 & Hc3 & Hc4 & Hc5 & Hc6 & Hc7 & Hc8 & Hc9 & Hc10 & Hc11).
  set (sc := reconcile_audio_service our_id env sb) in *. clearbody sc.
  rewrite (q_config _ _ Hqab), (q_core _ _ Hqab), (q_versioned _ _ Hqab) in *. rewrite (q_config _ _ Hqa) in *.
  assert (sv_discovery sc = Some false) as -> by congruence. cbn [sv_pairing_listener sv_incoming_pairings sv_sync_listener
    sv_listener_ports sv_pairing_display sv_discovery sv_audio sv_audio_listener out set_sv_out sv_out].
  rewrite last_snoc, Hc6, Hb2, Ha3, Hc7, Hc8, Hc9, Hc10. cbn [fst snd]. split_and!; try congruence.
  by destruct (_ && _).
Qed.

(** C17: revocation takes effect.  When [RevokeTrust] answers [Ok], the peer is no
    longer trusted in memory or on disk, a live audio bridge has been sent the command
    to close it (by [try_send]: a full channel loses it), and from that state no sync or audio dial to it is made. *)
Theorem revocation_takes_effect `{!JsonLaws TrustFile} renv id s s' :
  pp_ok (ts_path (sv_trust s)) →
  dispatch our_id our_fingerprint config_path versions_path show_config_error show_trust_error
    renv (RqRevokeTrust id) s = (RsOk, s') →
  trust_get id (sv_trust s') = None ∧
  (trust_load (ts_path (sv_trust s)) (healthy (sv_fs s'))).1 = Ok (sv_trust s') ∧
  (sv_audio s = true → last (sv_out s') = Some (SxAudio (AcClosePeer id))) ∧
  ∀ env p, dp_machine_id p = id →
    maybe_pull_from env p s' = s' ∧ dial_audio_one our_id env p s' = s'.
Proof.
  intros Hp. unfold dispatch.
  destruct (trust_remove id (sv_trust s) (sv_fs s)) as [[r t] fs] eqn:E. apply trust_remove_spec in E; [|done].
  destruct r as [[]|]; try done. destruct E as (_ & Hl & Hg). specialize (Hg id). rewrite decide_True in Hg by done.
  intros Hx. injection Hx as <-.
  match goal with |- context [sv_trust ?x] => set (s' := x) end.
  assert (sv_trust s' = t ∧ sv_fs s' = fs) as [Et Ef] by (subst s'; by destruct (sv_audio _)).
  assert (sv_audio s = true → last (sv_out s') = Some (SxAudio (AcClosePeer id))) as Ho.
  { intros Ha. subst s'. simpl. rewrite Ha. simpl. by rewrite last_snoc. }
  clearbody s'. subst t fs. split_and!; [done|done|done|].
  assert (trust_contains id (sv_trust s') = false) as Hn.
  { unfold trust_get, trust_contains in *. induction (ts_peers (sv_trust s')) as [|q ps IH]; simpl in *; [done|].
    case_bool_decide; [done|]. by apply IH. }
  intros env p <-. unfold maybe_pull_from, dial_audio_one. rewrite Hn. simpl. split; by repeat case_match.
Qed.

(** ** Restart *)

Lemma load_healthy path fs :
  (config_load path (healthy fs)).2 = healthy fs ∧ (load_sidecar path (healthy fs)).2 = healthy fs.
Proof. unfold config_load, load_sidecar. by rewrite fs_read_to_string_content, fs_read_content. Qed.

(** What [new] restores from readable files. *)
Lemma sup_new_restores nenv tp fs c sc :
  (config_load (pp_path config_path) (healthy fs)).1 = Ok (Some c) →
  (load_sidecar (pp_path versions_path) (healthy fs)).1 = Ok (Some sc) →
  ne_watcher_ok nenv && ne_resolver_ok nenv && ne_identity_ok nenv = true →
  is_ok (trust_load tp (healthy fs)).1 = true →
  ∃ s2 fs2, sup_new our_id config_path versions_path nenv tp (healthy fs) = (Some s2, fs2) ∧
    sv_config s2 = c ∧ sv_versioned s2 = from_parts c (sc_stamps sc) (sc_clock sc).
Proof.
  intros Hc Hsc Hok Ht. unfold sup_new.
  pose proof (proj1 (load_healthy (pp_path config_path) fs)) as Hc2.
  pose proof (proj2 (load_healthy (pp_path versions_path) fs)) as Hs2.
  destruct (config_load _ _) as [r fs1]. cbn [fst snd] in *. subst r fs1. cbn [default]. rewrite Hok. cbn [negb].
  destruct (load_sidecar _ _) as [r fs1]. cbn [fst snd] in *. subst r fs1.
  destruct (trust_load tp _) as [[trust|] fs4]; [|done].
  match goal with |- context [start_discovery (ne_env nenv) ?x] => set (s0 := x) end.
  assert (sv_config s0 = c ∧ sv_versioned s0 = from_parts c (sc_stamps sc) (sc_clock sc)) as [H1' H2'] by done.
  clearbody s0. eexists _, _. split; [done|].
  match goal with |- context [reconcile_audio_subsystem our_id _ ?x] =>
    destruct (reconcile_audio_subsystem_configs our_id (ne_env nenv) x) as (_ & -> & ->) end.
  destruct (start_discovery_quiet (ne_env nenv) s0) as [_ Hcf Hvf _ _ _ _ _ _ _].
  destruct (negb _); cbn [sv_config sv_versioned on_core set_sv_core]; split; congruence.
Qed.

(** C14: an edit survives a restart.  On a disk without faults, after a successful
    [SetConfig] that changed something, a new supervisor started from the files
    comes up, with that config and with exactly the stamps and clock the running
    one had, so peers see the same replica before and after. *)
Theorem edit_survives_restart `{!TomlLaws, !JsonLaws SideCar} env c s s' nenv tp :
  pp_ok config_path → pp_ok versions_path → config_eqb c c = true →
  pp_path config_path ≠ pp_path versions_path → pp_path config_path ≠ pp_tmp versions_path →
  fs_faults (sv_fs s) = [] → set_cfg env c s = (Ok tt, s') →
  (apply_local (sv_versioned s) c our_id).2 = true →
  is_Some (to_vec (sidecar_of (apply_local (sv_versioned s) c our_id).1)) →
  ne_watcher_ok nenv && ne_resolver_ok nenv && ne_identity_ok nenv = true →
  is_ok (trust_load tp (healthy (sv_fs s'))).1 = true →
  ∃ s2 fs2, sup_new our_id config_path versions_path nenv tp (healthy (sv_fs s')) = (Some s2, fs2) ∧
    sv_config s2 = c ∧ sv_versioned s2 = sv_versioned s'.
Proof.
  intros Hp1 Hp2 Hself Hd1 Hd2 Hf Es Hch [side Hside] Hok Ht. revert Es Ht. unfold set_config.
  destruct (validate c) as [[]|e] eqn:Hv; [|done].
  assert (∃ fs, config_save c config_path (sv_fs s) = (Ok tt, fs) ∧ fs_faults fs = [] ∨
                is_ok (config_save c config_path (sv_fs s)).1 = false) as [fs Hsave].
  { unfold config_save. rewrite Hv. destruct (toml_to_string_pretty c) as [body|]; [|exists (sv_fs s); by right].
    destruct (replace_via_tmp_works config_path (bytes_of body) (sv_fs s) Hf) as (fs & -> & Hff). exists fs. by left. }
  destruct Hsave as [[Hsave Hff]|Hbad]; [|destruct (config_save _ _ _) as [[]]; done]. rewrite Hsave. cbn [is_ok].
  destruct (config_save_spec _ _ _ _ _ Hp1 Hself Hsave) as [[_ Hload] _].
  intros [= Hs'] Ht.
  destruct (apply_edit_spec env c (set_sv_fs fs s)) as (E1 & E2 & _ & E4 & _). cbv zeta in *. rewrite Hs' in *.
  cbn [sv_versioned sv_fs set_sv_fs] in *. rewrite Hch in E4.
  assert ((apply_local (sv_versioned s) c our_id).1 =
          {| vc_config := c; vc_stamps := vc_stamps (apply_local (sv_versioned s) c our_id).1;
             vc_clock := vc_clock (apply_local (sv_versioned s) c our_id).1 |}) as Ev
    by (revert Hch; unfold apply_local; by destruct (config_eqb (vc_config (sv_versioned s)) c)).
  destruct (save_sidecar_saved (apply_local (sv_versioned s) c our_id).1 versions_path fs Hp2) as [Hq Hl].
  rewrite <-E4 in Hq, Hl. specialize (Hq _ Hd1 Hd2).
  assert ((save_sidecar (apply_local (sv_versioned s) c our_id).1 versions_path fs).1 = Ok tt) as Hsok.
  { unfold save_sidecar. rewrite Hside. destruct (replace_via_tmp_works versions_path side fs Hff) as (? & -> & _). done. }
  destruct (sup_new_restores nenv tp (sv_fs s') c (sidecar_of (apply_local (sv_versioned s) c our_id).1))
    as (s2 & fs2 & Hnew & Hc2 & Hv2); [| |done|done|].
  - revert Hload. unfold config_load. rewrite !fs_read_to_string_content. by rewrite Hq.
  - by apply Hl.
  - exists s2, fs2. split_and!; [done|done|]. by rewrite Hv2, E2, Ev.
Qed.
End sup_laws.

(** ** A concrete daemon

    Machine "a" starting on an empty disk, with the toy codecs. *)

Section witnesses.
#[local] Existing Instances toy_json_shared toy_sha toy_hex toy_toml toy_json_sidecar toy_json_trust.
#[local] Existing Instances toy_toml_laws toy_json_sidecar_laws toy_json_trust_laws.

Definition wit_config_path : PathPair :=
  {| pp_path := "config.toml"; pp_parent := "."; pp_tmp := "config.toml.tmp" |}.
Definition wit_versions_path : PathPair :=
  {| pp_path := "versions.json"; pp_parent := "."; pp_tmp := "versions.json.tmp" |}.
Definition wit_nenv : NEnv :=
  {| ne_env := wit_senv 0 true; ne_watcher_ok := true; ne_resolver_ok := true; ne_identity_ok := true;
     ne_user_stopped := false |}.
Definition wit_renv : REnv :=
  {| re_env := wit_senv 0 true; re_devices := Ok ([], []); re_status := Ok []; re_marker_ok := true;
     re_session_id := "s1" |}.

Definition wit_new : option Sup * Fs :=
  sup_new "a" wit_config_path wit_versions_path wit_nenv wit_paths (wit_fs []).
Definition wit_boot : Sup := default wit_sup wit_new.1.

Local Notation reachable0 :=
  (sup_reachable "a" "ff" wit_config_path wit_versions_path (λ _, "bad config"%string) (λ _, "bad trust"%string)).
Local Notation set_config0 := (set_config "a" wit_config_path wit_versions_path (λ _, "bad config"%string)).

Lemma wit_boot_new : wit_new = (Some wit_boot, wit_new.2).
Proof. by vm_compute. Qed.

Lemma wit_boot_reachable : reachable0 wit_boot.
Proof. eapply sr_new. exact wit_boot_new. Qed.

Lemma supervisor_invariant_witness : validate (sv_config wit_boot) = Ok tt ∧ core_reachable (sv_core wit_boot).
Proof.
  destruct (supervisor_invariant "a" "ff" wit_config_path wit_versions_path (λ _, "bad config"%string) (λ _, "bad trust"%string)
    wit_boot wit_boot_reachable) as (Hv & Hc & _). exact (conj Hv Hc).
Defined.

Lemma shutdown_leaves_nothing_running_witness :
  balance 7 (co_trace (sv_core (wind_down (wit_senv 0 true) wit_boot))) = 0%Z.
Proof.
  destruct (shutdown_leaves_nothing_running "a" "ff" wit_config_path wit_versions_path (λ _, "bad config"%string)
    (λ _, "bad trust"%string) wit_renv SoSignal wit_boot (wind_down (wit_senv 0 true) wit_boot) 7 wit_boot_reachable eq_refl)
    as [Hb _]. exact Hb.
Defined.

Definition wit_edited : Sup := (set_config0 (wit_senv 1 true) sample_config wit_boot).2.

Lemma wit_edit_ok : set_config0 (wit_senv 1 true) sample_config wit_boot = (Ok tt, wit_edited).
Proof. by vm_compute. Qed.

Lemma set_config_outcome_witness :
  (config_load "config.toml" (healthy (sv_fs wit_edited))).1 = Ok (Some sample_config).
Proof.
  destruct (set_config_outcome "a" wit_config_path wit_versions_path (λ _, "bad config"%string) (wit_senv 1 true)
    sample_config wit_boot (Ok tt) wit_edited) as (_ & _ & _ & Hl & _);
    [discriminate|discriminate|vm_compute; reflexivity|discriminate|discriminate|exact wit_edit_ok|exact Hl].
Defined.

Lemma edit_survives_restart_witness :
  ∃ s2 fs2, sup_new "a" wit_config_path wit_versions_path wit_nenv wit_paths (healthy (sv_fs wit_edited)) = (Some s2, fs2) ∧
    sv_config s2 = sample_config ∧ sv_versioned s2 = sv_versioned wit_edited.
Proof.
  apply (edit_survives_restart "a" wit_config_path wit_versions_path (λ _, "bad config"%string) (wit_senv 1 true)
    sample_config wit_boot wit_edited wit_nenv wit_paths);
    [discriminate|discriminate|vm_compute; reflexivity|discriminate|discriminate|vm_compute; reflexivity|exact wit_edit_ok|vm_compute; reflexivity|
     vm_compute; eexists; reflexivity|reflexivity|vm_compute; reflexivity].
Defined.

(** A peer's state whose link names a screen nobody has. *)
Definition wit_bad_state : VersionedConfig :=
  {| vc_config := set_cfg_links [{| lnk_from := "nowhere"; lnk_side := Left; lnk_to := "elsewhere" |}] sample_config;
     vc_stamps := all_stamps {| lt_counter := 9; lt_origin := "b" |}; vc_clock := 9 |}.

Lemma rollback_keeps_foreign_stamps_witness :
  (merge (sv_versioned (handle_sync_op wit_config_path wit_versions_path (wit_senv 2 true) (Merge "b" wit_bad_state)
    wit_edited)) wit_bad_state).2 = NoChange.
Proof.
  destruct (rollback_keeps_foreign_stamps wit_config_path wit_versions_path (wit_senv 2 true) "b" wit_bad_state wit_edited
    sample_config) as (_ & _ & _ & _ & Hn); [vm_compute; reflexivity|vm_compute; reflexivity|vm_compute; reflexivity|exact Hn].
Defined.

Lemma services_follow_config_witness :
  sv_pairing_listener (reconcile_network_services "a" (wit_senv 3 true) wit_boot) = Some false.
Proof.
  destruct (services_follow_config "a" (wit_senv 3 true) wit_boot) as [Hl _];
    [exact (proj1 (sup_new_spec "a" wit_config_path wit_versions_path (λ _, "bad config"%string) _ _ _ _ _ wit_boot_new))|reflexivity|reflexivity|exact Hl].
Defined.

Lemma revocation_takes_effect_witness :
  trust_get "b" (sv_trust (dispatch "a" "ff" wit_config_path wit_versions_path (λ _, "bad config"%string)
    (λ _, "bad trust"%string) wit_renv (RqRevokeTrust "b") wit_sup).2) = None.
Proof.
  set (d := dispatch _ _ _ _ _ _ _ _ _).
  destruct (revocation_takes_effect "a" "ff" wit_config_path wit_versions_path (λ _, "bad config"%string)
    (λ _, "bad trust"%string) wit_renv "b" wit_sup d.2) as [Hg _]; [discriminate|vm_compute; reflexivity|exact Hg].
Defined.
End witnesses.
