(* ===== verification/SyncSession.v ===== *)
(** * Sync sessions ([crates/synbadd/src/sync.rs], [transport.rs])

    The outbound and inbound sides of one config sync: the authenticated
    handshake, the exchange of signed states, and the calls to the supervisor
    that owns the merge.  A session runs over a connection and a channel to the
    supervisor; the supervisor's answers are what the session is given, the
    operations it issued and the events it sent are recorded. *)

From Stdlib Require Import ZArith Lia.
From S2P Require Import Prelude Primitives Lattice Config Versioned SyncProtocol Cipher Conn Handshake IpcTypes Store SupState Supervisor.

Definition SYNC_MAX_FRAME_BYTES : Z := 256 * 1024.

Inductive SyncError :=
| ENoSyncPort (peer : string)
| ENotTrusted (peer : string)
| EConnect
| ETimedOut
| EKeyNotHex
| EKeyLength
| EHandshake (e : HandshakeError)
| EAnonymous
| ETrustGone (peer : string)
| EIdentity (claimed expected : string)
| ESign (e : ProtocolError)
| EVerify (e : ProtocolError)
| EFrameTooBig (len : Z)
| EFrameJson
| ESend (e : FrameError)
| ERecv (e : FrameError)
| ENonceNotHex
| ENonceLength
| EChannelClosed
| EReplyDropped.

(** What becomes of one request to the supervisor. *)
Inductive SupAnswer :=
| Replied (v : VersionedConfig)
| ChannelClosed      (* the request was not delivered *)
| ReplyDropped.      (* delivered, but no reply *)

Record Sess := {
  ss_conn : Conn;
  ss_answers : list SupAnswer;     (* the supervisor's coming answers *)
  ss_ops : list SyncOp;            (* operations delivered to it *)
  ss_events : list Event;
  ss_peer_id : string              (* [peer_id], filled in once the peer is known *)
}.

Definition set_ss_conn (c : Conn) (s : Sess) : Sess :=
  {| ss_conn := c; ss_answers := ss_answers s; ss_ops := ss_ops s; ss_events := ss_events s; ss_peer_id := ss_peer_id s |}.
Definition set_ss_answers (l : list SupAnswer) (s : Sess) : Sess :=
  {| ss_conn := ss_conn s; ss_answers := l; ss_ops := ss_ops s; ss_events := ss_events s; ss_peer_id := ss_peer_id s |}.
Definition add_ss_op (op : SyncOp) (s : Sess) : Sess :=
  {| ss_conn := ss_conn s; ss_answers := ss_answers s; ss_ops := ss_ops s ++ [op]; ss_events := ss_events s;
     ss_peer_id := ss_peer_id s |}.
Definition add_ss_event (e : Event) (s : Sess) : Sess :=
  {| ss_conn := ss_conn s; ss_answers := ss_answers s; ss_ops := ss_ops s; ss_events := ss_events s ++ [e];
     ss_peer_id := ss_peer_id s |}.
Definition set_ss_peer_id (id : string) (s : Sess) : Sess :=
  {| ss_conn := ss_conn s; ss_answers := ss_answers s; ss_ops := ss_ops s; ss_events := ss_events s; ss_peer_id := id |}.

Abbreviation sess := (prog Sess SyncError).

(** Run a connection program, converting its error. *)
Definition on_conn {E A} (f : E → SyncError) (m : conn E A) : sess A := zoom ss_conn set_ss_conn f m.

Definition semit (e : Event) : sess unit := λ s, (Done tt, add_ss_event e s).
Definition know_peer (id : string) : sess unit := λ s, (Done tt, set_ss_peer_id id s).

(** Send an operation to the supervisor and await the reply. *)
Definition ask (op : SyncOp) : sess VersionedConfig := λ s,
  match ss_answers s with
  | Replied v :: rest => (Done v, add_ss_op op (set_ss_answers rest s))
  | ChannelClosed :: rest => (Failed EChannelClosed, set_ss_answers rest s)
  | ReplyDropped :: rest => (Failed EReplyDropped, add_ss_op op (set_ss_answers rest s))
  | [] => (Waiting, add_ss_op op s)
  end.

Definition sync_snapshot : sess VersionedConfig := ask Snapshot.
Definition sync_merge (peer : string) (incoming : VersionedConfig) : sess VersionedConfig := ask (Merge peer incoming).

(** ** Address candidates ([connect_peer]) *)

Definition add_host (hosts : list string) (h : string) : list string :=
  if negb (bool_decide (h ∈ hosts)) && bool_decide (length hosts < 16) then hosts ++ [h] else hosts.

Definition connect_candidates (peer : DiscoveredPeer) : list string :=
  fold_left add_host (dp_addresses peer) [dp_host peer].

Record SessionResult := { sr_updated : bool; sr_new_head : string }.
Record InboundResult := { ir_peer_machine_id : string; ir_updated : bool; ir_new_head : string }.

Section session.
Context `{HexOps, Sha256Ops, Ed25519Ops, X25519Ops, HkdfOps, AeadOps, JsonOps AuthFrame, JsonOps SyncFrame}.
Context `{JsonStateOps, JsonSharedOps}.
Context (our_key : SigningKey) (our_id : string).
(** [e.to_string()]. *)
Context (show_error : SyncError → string).

Definition send_frame (chan : CipherStream) (frame : SyncFrame) : sess CipherStream :=
  body ← plift (ok_or EFrameJson (to_vec frame));
  if decide (SYNC_MAX_FRAME_BYTES ≤ blen body)%Z then pfail (EFrameTooBig (blen body))
  else on_conn ESend (c_send chan body).

Definition recv_frame (chan : CipherStream) : sess (CipherStream * SyncFrame) :=
  '(chan', body) ← on_conn ERecv (c_recv chan);
  if decide (SYNC_MAX_FRAME_BYTES ≤ blen body)%Z then pfail (EFrameTooBig (blen body))
  else frame ← plift (ok_or EFrameJson (from_slice body)); mret (chan', frame).

(** ** Outbound *)

(** After the handshake: push our signed state, pull the peer's, merge. *)
Definition outbound_exchange (nonce : bytes) (trusted : TrustedPeer) (chan : CipherStream) : sess SessionResult :=
  our_state ← sync_snapshot;
  our_frame ← plift (rmap_err ESign (sign_frame our_key our_id nonce our_state));
  chan ← send_frame chan our_frame;
  '(_, peer_frame) ← recv_frame chan;
  if decide (fr_from_machine_id peer_frame ≠ tp_machine_id trusted)
  then pfail (EIdentity (fr_from_machine_id peer_frame) (tp_machine_id trusted)) else
  plift (rmap_err EVerify (verify_frame (tp_public_key_hex trusted) (Some (hex_encode nonce)) peer_frame));;
  merged ← sync_merge (fr_from_machine_id peer_frame) (fr_state peer_frame);
  let new_head := head_hash merged in
  mret {| sr_updated := negb (bool_decide (head_hash (fr_state our_frame) = new_head)); sr_new_head := new_head |}.

(** [eph_sk], [nonce_hs] and [nonce] are the random draws. *)
Definition outbound_inner (eph_sk nonce_hs nonce : bytes) (trusted : TrustedPeer) : sess SessionResult :=
  pk_bytes ← plift (ok_or EKeyNotHex (hex_decode (tp_public_key_hex trusted)));
  peer_pk ← plift (ok_or EKeyLength (to_array 32 pk_bytes));
  '(chan, _) ← on_conn EHandshake
                 (initiate eph_sk nonce_hs (Authenticated our_key our_id) (Some (tp_machine_id trusted, peer_pk)));
  outbound_exchange nonce trusted chan.

(** [tokio::time::timeout]: a session still waiting when its budget is over. *)
Definition timed {A} (m : sess A) : sess A := λ s,
  match m s with (Waiting, s') => (Failed ETimedOut, s') | r => r end.

(** [trust_get] and [connected] are what the trust store and the dial gave. *)
Definition run_outbound (eph_sk nonce_hs nonce : bytes) (peer : DiscoveredPeer)
    (trusted : option TrustedPeer) (connected : bool) : sess unit :=
  let id := dp_machine_id peer in
  if decide (dp_sync_port peer = 0%Z) then pfail (ENoSyncPort id) else
  trusted ← plift (ok_or (ENotTrusted id) trusted);
  if negb connected then pfail EConnect else
  semit (EvSyncStarted id Outbound);;
  result ← timed (outbound_inner eph_sk nonce_hs nonce trusted);
  semit (EvSyncCompleted id Outbound (sr_updated result) (sr_new_head result)).

(** The task's result: whether the sync succeeded. *)
Definition spawn_outbound (eph_sk nonce_hs nonce : bytes) (peer : DiscoveredPeer)
    (trusted : option TrustedPeer) (connected : bool) (s : Sess) : bool * Sess :=
  match run_outbound eph_sk nonce_hs nonce peer trusted connected s with
  | (Done _, s') => (true, s')
  | (Failed e, s') => (false, add_ss_event (EvSyncFailed (dp_machine_id peer) Outbound (show_error e)) s')
  | (Waiting, s') => (false, s')
  end.

(** ** Inbound *)

(** Peers whose stored key decodes to 32 bytes; a later entry replaces an
    earlier one under the same id. *)
Definition trust_snapshot (ps : list TrustedPeer) : gmap string bytes :=
  fold_left (λ m p,
      match hex_decode (tp_public_key_hex p) ≫= to_array 32 with
      | Some k => <[tp_machine_id p := k]> m
      | None => m
      end) ps ∅.

(** After the handshake: read the peer's state, merge, reply with the result. *)
Definition inbound_exchange (trusted : TrustedPeer) (peer_machine_id : string) (chan : CipherStream)
    : sess InboundResult :=
  '(chan, peer_frame) ← recv_frame chan;
  if decide (fr_from_machine_id peer_frame ≠ peer_machine_id)
  then pfail (EIdentity (fr_from_machine_id peer_frame) peer_machine_id) else
  plift (rmap_err EVerify (verify_frame (tp_public_key_hex trusted) None peer_frame));;
  semit (EvSyncStarted (tp_machine_id trusted) Inbound);;
  pre ← sync_snapshot;
  merged ← sync_merge (tp_machine_id trusted) (fr_state peer_frame);
  let new_head := head_hash merged in
  nonce_bytes ← plift (ok_or ENonceNotHex (hex_decode (fr_nonce_hex peer_frame)));
  nonce ← plift (ok_or ENonceLength (to_array 16 nonce_bytes));
  reply ← plift (rmap_err ESign (sign_frame our_key our_id nonce merged));
  _ ← send_frame chan reply;
  mret {| ir_peer_machine_id := tp_machine_id trusted;
          ir_updated := negb (bool_decide (head_hash pre = new_head)); ir_new_head := new_head |}.

(** [trust] is the store when the connection was accepted, [trust'] when it is
    consulted again after the handshake. *)
Definition run_inbound_inner (eph_sk nonce_hs : bytes) (trust trust' : TrustedPeerStore) : sess InboundResult :=
  let snapshot_map := trust_snapshot (ts_peers trust) in
  '(chan, peer_auth) ← on_conn EHandshake
      (accept eph_sk nonce_hs (Authenticated our_key our_id) (λ mid, snapshot_map !! mid));
  peer_machine_id ← plift match peer_auth with
                          | PeerAuthenticated mid _ => Ok mid
                          | PeerAnonymous => Err EAnonymous
                          end;
  know_peer peer_machine_id;;
  trusted ← plift (ok_or (ETrustGone peer_machine_id) (trust_get peer_machine_id trust'));
  inbound_exchange trusted peer_machine_id chan.

(** The inbound task, with the event that reports how it ended. *)
Definition run_session_with_timeout (eph_sk nonce_hs : bytes) (trust trust' : TrustedPeerStore) (s : Sess)
    : result SyncError unit * Sess :=
  match run_inbound_inner eph_sk nonce_hs trust trust' s with
  | (Done info, s') =>
    (Ok tt, add_ss_event (EvSyncCompleted (ir_peer_machine_id info) Inbound (ir_updated info) (ir_new_head info)) s')
  | (Failed e, s') => (Err e, add_ss_event (EvSyncFailed (ss_peer_id s') Inbound (show_error e)) s')
  | (Waiting, s') => (Err ETimedOut, add_ss_event (EvSyncFailed (ss_peer_id s') Inbound "session timed out") s')
  end.
End session.

(** ** Reasoning about sessions

    [issues m P Q]: every operation [m] delivers satisfies [P], and when [m]
    returns, its result satisfies [Q]. *)

Definition issues {A} (m : sess A) (P : SyncOp → Prop) (Q : A → Prop) : Prop :=
  ∀ s o s', m s = (o, s') →
    (∀ op, op ∈ ss_ops s' → op ∈ ss_ops s ∨ P op) ∧ ∀ a, o = Done a → Q a.

Lemma issues_bind {A B} (m : sess A) (k : A → sess B) P Q R :
  issues m P Q → (∀ a, Q a → issues (k a) P R) → issues (m ≫= k) P R.
Proof.
  intros Hm Hk s o s'. unfold mbind, prog_bind. destruct (m s) as [o1 s1] eqn:E.
  destruct (Hm _ _ _ E) as [Hop HQ]. destruct o1 as [a|e|]; [|intros [= <- <-]; done..].
  intros Hrun. destruct (Hk a (HQ a eq_refl) _ _ _ Hrun) as [Hop' HR]. split; [|done].
  intros op Hin. destruct (Hop' op Hin) as [Hin1|?]; [|by right]. by apply Hop.
Qed.

Lemma issues_ret {A} (a : A) P (Q : A → Prop) : Q a → issues (mret a) P Q.
Proof. intros HQ s o s' [= <- <-]. split; [by left|]. by intros ? [= <-]. Qed.

Lemma issues_fail {A} e P (Q : A → Prop) : issues (pfail e) P Q.
Proof. intros s o s' [= <- <-]. split; [by left|done]. Qed.

Lemma issues_lift {A} (r : result SyncError A) P : issues (plift r) P (λ a, r = Ok a).
Proof. destruct r; [by apply issues_ret|apply issues_fail]. Qed.

Lemma issues_conn {E A} (f : E → SyncError) (m : conn E A) P :
  issues (on_conn f m) P (λ a, ∃ c c', m c = (Done a, c')).
Proof.
  intros s o s'. unfold on_conn, zoom. destruct (m (ss_conn s)) as [o1 c] eqn:Em. intros [= <- <-].
  split; [by left|]. intros a. destruct o1; [|done..]. intros [= <-]. eauto.
Qed.

Lemma issues_emit e P : issues (semit e) P (λ _, True).
Proof. intros s o s' [= <- <-]. split; [by left|done]. Qed.

Lemma issues_know id P : issues (know_peer id) P (λ _, True).
Proof. intros s o s' [= <- <-]. split; [by left|done]. Qed.

Lemma issues_ask op (P : SyncOp → Prop) : P op → issues (ask op) P (λ _, True).
Proof.
  intros HP s o s'. unfold ask. destruct (ss_answers s) as [|[] ?]; intros [= <- <-]; (split; [|done]); simpl;
    intros x; rewrite ?elem_of_app, ?list_elem_of_singleton; naive_solver.
Qed.

Lemma issues_weaken {A} (m : sess A) P (Q R : A → Prop) : (∀ a, Q a → R a) → issues m P Q → issues m P R.
Proof. intros HQ Hm s o s' E. destruct (Hm _ _ _ E). naive_solver. Qed.

Create HintDb sess_db.
#[export] Hint Resolve issues_ret issues_fail issues_lift issues_conn issues_emit issues_know issues_ask : sess_db.

(** One statement of a session program. *)
Ltac sess_step := eapply issues_bind; [eauto with sess_db nocore|intros ? ?].

Section safety.
Context `{HexOps, Sha256Ops, Ed25519Ops, X25519Ops, HkdfOps, AeadOps, JsonOps AuthFrame, JsonOps SyncFrame}.
Context `{JsonStateOps, JsonSharedOps}.
Context (our_key : SigningKey) (our_id : string).

Lemma issues_send chan frame P : issues (send_frame chan frame) P (λ _, True).
Proof.
  unfold send_frame. sess_step. case_decide; [apply issues_fail|].
  eapply issues_weaken; [|apply issues_conn]. done.
Qed.

Lemma issues_recv chan P : issues (recv_frame chan) P (λ _, True).
Proof.
  unfold recv_frame. sess_step. destruct a as [chan' body]. case_decide; [apply issues_fail|].
  sess_step. by apply issues_ret.
Qed.

(** What an inbound session may ask the supervisor to merge. *)
Definition authorised (trust trust' : TrustedPeerStore) (op : SyncOp) : Prop :=
  match op with
  | Snapshot => True
  | Merge p st =>
    ∃ tp pk t frame, trust_get p trust' = Some tp ∧ trust_snapshot (ts_peers trust) !! p = Some pk ∧
      vouched pk t ∧ fr_from_machine_id frame = p ∧ fr_state frame = st ∧
      verify_frame (tp_public_key_hex tp) None frame = Ok tt
  end.

Lemma trust_get_id id s tp : trust_get id s = Some tp → tp_machine_id tp = id.
Proof. unfold trust_get. intros [_ Hb]%List.find_some. by apply bool_decide_eq_true in Hb. Qed.

Lemma inbound_issues eph nhs trust trust' :
  issues (run_inbound_inner our_key our_id eph nhs trust trust') (authorised trust trust') (λ _, True).
Proof.
  unfold run_inbound_inner. eapply issues_bind; [apply issues_conn|].
  intros [chan peer_auth] (c & c' & (mid & pk & -> & Hres & Hv)%accept_Done).
  eapply issues_bind; [apply issues_lift|]. intros ? [= <-].
  eapply issues_bind; [apply issues_know|]. intros _ _.
  eapply issues_bind; [apply issues_lift|]. intros tp Htrust%ok_or_Ok. unfold inbound_exchange.
  eapply issues_bind; [apply issues_recv|]. intros [chan2 frame] _.
  case_decide as Hid; [apply issues_fail|].
  eapply issues_bind; [apply issues_lift|]. intros [] Hver%rmap_err_Ok.
  eapply issues_bind; [apply issues_emit|]. intros _ _.
  eapply issues_bind; [by apply issues_ask|]. intros pre _.
  eapply issues_bind.
  { apply issues_ask. rewrite (trust_get_id _ _ _ Htrust). simpl. eauto 10. }
  intros merged _. cbv zeta. do 3 (eapply issues_bind; [apply issues_lift|]; intros ? _).
  eapply issues_bind; [apply issues_send|]. intros _ _. by apply issues_ret.
Qed.

(** What an outbound session may ask the supervisor to merge. *)
Definition outbound_authorised (trusted : TrustedPeer) (nonce : bytes) (op : SyncOp) : Prop :=
  match op with
  | Snapshot => True
  | Merge p st =>
    ∃ pk t frame, p = tp_machine_id trusted ∧ hex_decode (tp_public_key_hex trusted) = Some pk ∧ vouched pk t ∧
      fr_from_machine_id frame = p ∧ fr_state frame = st ∧
      verify_frame (tp_public_key_hex trusted) (Some (hex_encode nonce)) frame = Ok tt
  end.

Lemma outbound_issues eph nhs nonce trusted :
  issues (outbound_inner our_key our_id eph nhs nonce trusted) (outbound_authorised trusted nonce) (λ _, True).
Proof.
  unfold outbound_inner. eapply issues_bind; [apply issues_lift|]. intros pk Hpk%ok_or_Ok.
  eapply issues_bind; [apply issues_lift|]. intros pk' [-> Hlen]%ok_or_Ok%to_array_Some.
  eapply issues_bind; [apply issues_conn|]. intros [chan peer] (c & c' & Hrun%initiate_Done).
  destruct Hrun as [_ Hv]. unfold outbound_exchange.
  eapply issues_bind; [by apply issues_ask|]. intros st _.
  eapply issues_bind; [apply issues_lift|]. intros fr _.
  eapply issues_bind; [apply issues_send|]. intros chan2 _.
  eapply issues_bind; [apply issues_recv|]. intros [chan3 frame] _.
  case_decide as Hid; [apply issues_fail|].
  eapply issues_bind; [apply issues_lift|]. intros [] Hver%rmap_err_Ok.
  eapply issues_bind; [|intros merged _; by apply issues_ret].
  apply issues_ask. simpl. eauto 10.
Qed.
End safety.

(** ** Two honest sessions *)

(** A session as a connection program: given the supervisor's answers, it
    returns its result with its final state. *)
Definition as_conn {A} (m : sess A) (answers : list SupAnswer) : conn (SyncError * Sess) (A * Sess) := λ c,
  let '(o, s) := m {| ss_conn := c; ss_answers := answers; ss_ops := []; ss_events := []; ss_peer_id := "" |} in
  (match o with Done a => Done (a, s) | Failed e => Failed (e, s) | Waiting => Waiting end, ss_conn s).

Lemma on_conn_done {E A} (f : E → SyncError) (m : conn E A) s a c :
  m (ss_conn s) = (Done a, c) → on_conn f m s = (Done a, set_ss_conn c s).
Proof. unfold on_conn, zoom. by intros ->. Qed.

Lemma on_conn_wait {E A} (f : E → SyncError) (m : conn E A) s c :
  m (ss_conn s) = (Waiting, c) → on_conn f m s = (Waiting, set_ss_conn c s).
Proof. unfold on_conn, zoom. by intros ->. Qed.

Section honest.
Context `{HexLaws, Sha256Ops, Ed25519Laws, X25519Laws, HkdfLaws, AeadLaws, JsonLaws AuthFrame, JsonOps SyncFrame}.
Context `{JsonStateOps, JsonSharedOps}.

(** A frame that survives [serde_json] and fits. *)
Definition transportable (f : SyncFrame) (b : bytes) : Prop :=
  to_vec f = Some b ∧ from_slice b = Some f ∧ (blen b < SYNC_MAX_FRAME_BYTES)%Z.

Lemma send_frame_ok chan f b s out :
  transportable f b → cn_fates (ss_conn s) = [] → cs_idle chan →
  sealed (cs_send_key chan) (cs_send_prefix chan) (cs_send_counter chan) b out →
  send_frame chan f s = (Done (cs_sent chan),
    set_ss_conn {| cn_in := cn_in (ss_conn s); cn_out := cn_out (ss_conn s) ++ out; cn_fates := [] |} s).
Proof.
  intros (Hb & _ & Hlen) Hf Hi Hs. unfold send_frame. rewrite Hb. cbn [ok_or plift].
  erewrite bind_step by reflexivity. rewrite decide_False by lia.
  apply on_conn_done. by apply c_send_ok.
Qed.

Lemma recv_frame_ok chan f b s out rest :
  transportable f b → idle_conn (ss_conn s) → cs_idle chan →
  sealed (cs_recv_key chan) (cs_recv_prefix chan) (cs_recv_counter chan) b out →
  flat (cn_in (ss_conn s)) = out ++ rest →
  ∃ pf c, recv_frame chan s = (Done (cs_received chan pf, f), set_ss_conn c s) ∧
    idle_conn c ∧ cn_out c = cn_out (ss_conn s) ∧ pf_inv pf ∧ pf_seen pf = [].
Proof.
  intros (_ & Hb & Hlen) (Hwf & Hf & He) Hi Hs Hflat.
  destruct (c_recv_ok chan b (ss_conn s) out rest) as (pf & src & Hr & Hrest & Hwf' & Hinv & Hseen & He'); try done.
  eexists pf, _. unfold recv_frame. erewrite bind_step by (by apply on_conn_done; exact Hr).
  cbn beta iota. rewrite decide_False by lia. rewrite Hb. cbn [ok_or plift]. erewrite bind_step by reflexivity.
  split; [reflexivity|]. split; [split; [exact Hwf'|split; simpl; congruence]|done].
Qed.

Lemma recv_frame_wait chan s :
  idle_conn (ss_conn s) → cs_idle chan → flat (cn_in (ss_conn s)) = [] →
  ∃ c, recv_frame chan s = (Waiting, set_ss_conn c s) ∧ cn_out c = cn_out (ss_conn s).
Proof.
  intros (Hwf & Hf & He) Hi Hflat. destruct (c_recv_wait chan (ss_conn s)) as (src & Hr); try done.
  eexists. unfold recv_frame. erewrite bind_wait by (by apply on_conn_wait; exact Hr). done.
Qed.

Lemma verify_signed key id nonce st f :
  sign_frame key id nonce st = Ok f → ∀ e, e = None ∨ e = Some (hex_encode nonce) →
  verify_frame (hex_encode (verifying_key key)) e f = Ok tt ∧ fr_from_machine_id f = id ∧ fr_state f = st ∧
  fr_nonce_hex f = hex_encode nonce.
Proof.
  unfold sign_frame. intros Hs e He. destruct (canonical_state_bytes id nonce st) as [b|] eqn:Eb; [|done].
  cbn [rbind] in Hs. injection Hs as <-. split; [|done]. apply verify_frame_Ok. simpl.
  split; [intros x ->; by destruct He as [?|[= ->]]|].
  exists nonce, b, (verifying_key key), (sign key b). rewrite !hex_decode_encode.
  split_and!; try done; [apply verifying_key_length|apply verifying_key_valid|apply sign_length|apply sign_verifies].
Qed.

Section run.
Context (ski skr ni nr nonce : bytes) (ki kr : SigningKey) (idi idr : string).
Context (tpi tpr : TrustedPeer) (trust trust' : TrustedPeerStore).
Let t := transcript_hash 1 (x_public ski) ni (x_public skr) nr.
Context (jsi jsr : bytes) (vi vr mi mr : VersionedConfig) (fi fr : SyncFrame) (bi br : bytes).
Hypothesis Hni : length ni = 16.
Hypothesis Hnr : length nr = 16.
Hypothesis Hnonce : length nonce = 16.
(** Each is in the other's trust store under its own key. *)
Hypothesis Htpr : tp_machine_id tpr = idr ∧ tp_public_key_hex tpr = hex_encode (verifying_key kr).
Hypothesis Htpi : tp_machine_id tpi = idi ∧ tp_public_key_hex tpi = hex_encode (verifying_key ki).
Hypothesis Hsnap : trust_snapshot (ts_peers trust) !! idi = Some (verifying_key ki).
Hypothesis Hget : trust_get idi trust' = Some tpi.
(** The authentication frames fit. *)
Hypothesis Hji : to_vec (our_auth_frame ki idi t) = Some jsi.
Hypothesis Hli : length jsi ≤ MAX_AUTH_FRAME_BYTES.
Hypothesis Hjr : to_vec (our_auth_frame kr idr t) = Some jsr.
Hypothesis Hlr : length jsr ≤ MAX_AUTH_FRAME_BYTES.
(** The states exchanged can be signed and sent. *)
Hypothesis Hfi : sign_frame ki idi nonce vi = Ok fi.
Hypothesis Hfr : sign_frame kr idr nonce mr = Ok fr.
Hypothesis Hbi : transportable fi bi.
Hypothesis Hbr : transportable fr br.

Let O := as_conn (outbound_inner ki idi ski ni nonce tpr) [Replied vi; Replied mi].
Let N := as_conn (run_inbound_inner kr idr skr nr trust trust') [Replied vr; Replied mr].

Lemma outbound_handshake (c : Conn) (o : outcome HandshakeError (CipherStream * PeerAuth)) c1 :
  initiate ski ni (Authenticated ki idi) (Some (idr, verifying_key kr)) c = (o, c1) →
  match o with
  | Waiting => O c = (Waiting, c1)
  | Done (chan, _) =>
    O c = as_conn (outbound_exchange ki idi nonce tpr chan) [Replied vi; Replied mi] c1
  | Failed _ => True
  end.
Proof.
  intros Hrun. subst O. unfold as_conn, outbound_inner. destruct Htpr as [Hid Hkey].
  rewrite Hkey, hex_decode_encode, Hid. cbn [ok_or plift].
  erewrite bind_step by reflexivity. unfold to_array. rewrite verifying_key_length, decide_True by done.
  cbn [ok_or plift]. erewrite bind_step by reflexivity.
  destruct o as [[chan peer]|e|]; [|done|].
  - erewrite bind_step by (apply on_conn_done; exact Hrun). reflexivity.
  - erewrite bind_wait by (apply on_conn_wait; exact Hrun). reflexivity.
Qed.

Lemma inbound_handshake (c : Conn) (o : outcome HandshakeError (CipherStream * PeerAuth)) c1 :
  accept skr nr (Authenticated kr idr) (λ mid, trust_snapshot (ts_peers trust) !! mid) c = (o, c1) →
  match o with
  | Waiting => N c = (Waiting, c1)
  | Done (chan, peer) =>
    peer = PeerAuthenticated idi (verifying_key ki) →
    N c = as_conn (know_peer idi;; inbound_exchange kr idr tpi idi chan) [Replied vr; Replied mr] c1
  | Failed _ => True
  end.
Proof.
  intros Hrun. subst N. unfold as_conn, run_inbound_inner.
  destruct o as [[chan peer]|e|]; [|done|].
  - intros ->. erewrite bind_step by (apply on_conn_done; exact Hrun). cbn beta iota.
    erewrite bind_step by reflexivity. rewrite Hget. reflexivity.
  - erewrite bind_wait by (apply on_conn_wait; exact Hrun). reflexivity.
Qed.

Local Notation a := (init_chan ski skr ni nr).
Local Notation b := (resp_chan ski skr ni nr).
Let sI c := {| ss_conn := c; ss_answers := [Replied mi]; ss_ops := [Snapshot]; ss_events := []; ss_peer_id := "" |}.

(** The initiator's exchange: one frame out, then wait or take the reply. *)
Lemma outbound_exchange_run pf c out1 out2 :
  pf_inv pf → pf_seen pf = [] → idle_conn c →
  sealed (cs_send_key (a pf)) (cs_send_prefix (a pf)) 1 bi out1 →
  sealed (cs_recv_key (a pf)) (cs_recv_prefix (a pf)) 1 br out2 →
  (flat (cn_in c) = [] → ∃ c', as_conn (outbound_exchange ki idi nonce tpr (a pf)) [Replied vi; Replied mi] c = (Waiting, c') ∧
     cn_out c' = cn_out c ++ out1) ∧
  (flat (cn_in c) = out2 → ∃ c' s r, as_conn (outbound_exchange ki idi nonce tpr (a pf)) [Replied vi; Replied mi] c =
     (Done (r, s), c') ∧ cn_out c' = cn_out c ++ out1 ∧ sr_new_head r = head_hash mi ∧
     sr_updated r = negb (bool_decide (head_hash vi = head_hash mi)) ∧ ss_ops s = [Snapshot; Merge idr mr]).
Proof.
  intros Hpf Hseen Hc Hs1 Hs2.
  assert (cs_idle (a pf)) as Hidle by (by apply (chans_mirrored ski skr ni nr pf pf)).
  unfold as_conn, outbound_exchange.
  set (s0 := {| ss_conn := c; ss_answers := _ |}).
  assert (sync_snapshot s0 = (Done vi, sI c)) as Hs0 by done.
  pose proof (send_frame_ok (a pf) fi bi (sI c) out1 Hbi ltac:(apply Hc) Hidle Hs1) as Hsend.
  set (c1 := {| cn_in := _; cn_out := _; cn_fates := _ |}) in Hsend.
  assert (idle_conn c1) as Hc1 by (destruct Hc as (? & ? & ?); by split_and!).
  assert (cs_idle (cs_sent (a pf))) as Hidle2.
  { destruct (chans_keyed ski skr ni nr pf) as (_ & _ & E1 & E2 & _).
    apply (cs_idle_step (a pf) pf); [exact Hidle|exact Hpf|exact Hseen|rewrite E1; unfold u64_MAX; lia|rewrite E2; unfold u64_MAX; lia]. }
  rewrite (bind_step _ _ _ _ _ Hs0), Hfi. cbn [rmap_err plift]. erewrite bind_step by reflexivity.
  rewrite (bind_step _ _ _ _ _ Hsend). split; intros Hflat.
  - destruct (recv_frame_wait (cs_sent (a pf)) (set_ss_conn c1 (sI c))) as (c2 & Hr & Ho); try done.
    rewrite (bind_wait _ _ _ _ Hr). exists c2. by rewrite Ho.
  - destruct (recv_frame_ok (cs_sent (a pf)) fr br (set_ss_conn c1 (sI c)) out2 []) as (pf2 & c2 & Hr & _ & Ho & _ & _); try done.
    { simpl. by rewrite app_nil_r. }
    rewrite (bind_step _ _ _ _ _ Hr). cbn beta iota.
    destruct (verify_signed kr idr nonce mr fr Hfr (Some (hex_encode nonce))) as (Hv & Hfrom & Hst & _); [by right|].
    destruct Htpr as [-> ->]. rewrite Hfrom, Hst, Hv, decide_False by (intros Hn; by apply Hn). cbn [rmap_err plift].
    erewrite bind_step by reflexivity. erewrite bind_step by reflexivity.
    eexists c2, _, _. split; [reflexivity|]. simpl. split; [done|].
    destruct (verify_signed ki idi nonce vi fi Hfi None) as (_ & _ & -> & _); [by left|]. done.
Qed.

(** The responder's exchange. *)
Lemma inbound_exchange_run pf c out1 out2 :
  pf_inv pf → pf_seen pf = [] → idle_conn c →
  sealed (cs_recv_key (b pf)) (cs_recv_prefix (b pf)) 1 bi out1 →
  sealed (cs_send_key (b pf)) (cs_send_prefix (b pf)) 1 br out2 →
  let prog := know_peer idi;; inbound_exchange kr idr tpi idi (b pf) in
  (flat (cn_in c) = [] → ∃ c', as_conn prog [Replied vr; Replied mr] c = (Waiting, c') ∧ cn_out c' = cn_out c) ∧
  (flat (cn_in c) = out1 → ∃ c' s r, as_conn prog [Replied vr; Replied mr] c = (Done (r, s), c') ∧
     cn_out c' = cn_out c ++ out2 ∧ ir_new_head r = head_hash mr ∧ ir_peer_machine_id r = idi ∧
     ir_updated r = negb (bool_decide (head_hash vr = head_hash mr)) ∧ ss_ops s = [Snapshot; Merge idi vi]).
Proof.
  intros Hpf Hseen Hc Hs1 Hs2 prog. subst prog.
  assert (cs_idle (b pf)) as Hidle by (by apply (chans_mirrored ski skr ni nr pf pf)).
  unfold as_conn, inbound_exchange. erewrite bind_step by reflexivity.
  set (s0 := set_ss_peer_id idi _).
  split; intros Hflat.
  - destruct (recv_frame_wait (b pf) s0) as (c2 & Hr & Ho); try done.
    rewrite (bind_wait _ _ _ _ Hr). by exists c2.
  - destruct (recv_frame_ok (b pf) fi bi s0 out1 []) as (pf2 & c2 & Hr & Hc2 & Ho & Hpf2 & Hseen2); try done.
    { simpl. by rewrite app_nil_r. }
    rewrite (bind_step _ _ _ _ _ Hr). cbn beta iota.
    destruct (verify_signed ki idi nonce vi fi Hfi None) as (Hv & Hfrom & Hst & Hnh); [by left|].
    destruct Htpi as [-> ->]. rewrite Hfrom, Hst, Hv, Hnh, decide_False by (intros Hn; by apply Hn). cbn [rmap_err plift].
    do 4 (erewrite bind_step by reflexivity). rewrite hex_decode_encode. cbn [ok_or plift].
    erewrite bind_step by reflexivity. unfold to_array. rewrite decide_True by done. cbn [ok_or plift].
    erewrite bind_step by reflexivity. rewrite Hfr. cbn [rmap_err plift]. erewrite bind_step by reflexivity.
    erewrite bind_step.
    2:{ eapply (send_frame_ok (cs_received (b pf) pf2) fr br _ out2 Hbr); [apply Hc2| |exact Hs2].
        eapply (cs_idle_step (b pf) pf2); done. }
    eexists _, _, _. split; [reflexivity|]. simpl. rewrite Ho. done.
Qed.

(** Both sessions finish, each having handed the other's state to its supervisor. *)
Lemma sessions_complete :
  ∃ ro so co rn sn cn,
    dialogue 6 O N = ((Done (ro, so), co), (Done (rn, sn), cn)) ∧
    sr_new_head ro = head_hash mi ∧ ir_new_head rn = head_hash mr ∧ ir_peer_machine_id rn = idi ∧
    ss_ops so = [Snapshot; Merge idr mr] ∧ ss_ops sn = [Snapshot; Merge idi vi].
Proof.
  set (resolve := λ mid, trust_snapshot (ts_peers trust) !! mid).
  destruct (honest_stages ski skr ni nr ki kr idi idr resolve jsi jsr Hni Hnr Hsnap Hji Hli Hjr Hlr)
    as (ai & ar & (c1 & E1 & O1) & (c2 & E2 & O2) & (c3 & E3 & O3) & (c4 & E4 & O4) & HI & HR).
  set (p0 := default_PendingFrame).
  assert (pf_inv p0 ∧ pf_seen p0 = []) as [Hp0 Hs0] by (split; [split_and!; [done|simpl; lia|by left]|done]).
  pose proof (chans_mirrored ski skr ni nr p0 p0 Hp0 Hs0 Hp0 Hs0) as (M1 & M2 & M3 & M4 & _).
  destruct (chans_keyed ski skr ni nr p0) as (Ka & Kb & _).
  destruct (seal_exists (cs_send_key (a p0)) (cs_send_prefix (a p0)) 1 bi) as (f1 & Hf1 & _);
    [exact Ka|destruct Hbi as (_ & _ & ?); unfold SYNC_MAX_FRAME_BYTES, MAX_FRAME_BYTES in *; lia|].
  destruct (seal_exists (cs_send_key (b p0)) (cs_send_prefix (b p0)) 1 br) as (f2 & Hf2 & _);
    [exact Kb|destruct Hbr as (_ & _ & ?); unfold SYNC_MAX_FRAME_BYTES, MAX_FRAME_BYTES in *; lia|].
  assert (sealed (cs_recv_key (a p0)) (cs_recv_prefix (a p0)) 1 br f2) as Hf2' by (rewrite M2, M4; exact Hf2).
  assert (sealed (cs_recv_key (b p0)) (cs_recv_prefix (b p0)) 1 bi f1) as Hf1' by (rewrite <-M1, <-M3; exact Hf1).
  set (h1 := hello1 ski ni 1) in *. set (h2 := hello2 skr nr) in *.
  assert (cn_out (O (fresh_conn [])).2 = h1) as A1 by (by rewrite (outbound_handshake _ _ _ E1)).
  assert (cn_out (N (fresh_conn [])).2 = []) as A2 by (by rewrite (inbound_handshake _ _ _ E2)).
  assert (cn_out (N (fresh_conn h1)).2 = h2) as A3 by (by rewrite (inbound_handshake _ _ _ E3)).
  assert (cn_out (O (fresh_conn h2)).2 = h1 ++ ai) as A4 by (by rewrite (outbound_handshake _ _ _ E4)).
  assert (cn_out (N (fresh_conn (h1 ++ ai))).2 = h2 ++ ar) as A5.
  { destruct (HR []) as (pf & c & ER & Hc & Hflat & Ho & Hpf & Hseen). rewrite app_nil_r in ER.
    rewrite (inbound_handshake _ _ _ ER eq_refl).
    destruct (inbound_exchange_run pf c f1 f2 Hpf Hseen Hc Hf1' Hf2) as [Hw _].
    destruct (Hw Hflat) as (c' & -> & Ho'). simpl. congruence. }
  assert (cn_out (O (fresh_conn (h2 ++ ar))).2 = h1 ++ ai ++ f1) as A6.
  { destruct (HI []) as (pf & c & EI & Hc & Hflat & Ho & Hpf & Hseen). rewrite app_nil_r in EI.
    rewrite (outbound_handshake _ _ _ EI).
    destruct (outbound_exchange_run pf c f1 f2 Hpf Hseen Hc Hf1 Hf2') as [Hw _].
    destruct (Hw Hflat) as (c' & -> & Ho'). simpl. by rewrite Ho', Ho, <-app_assoc. }
  destruct (HR f1) as (pf & c & ER & Hc & Hflat & Ho & Hpf & Hseen).
  pose proof (inbound_handshake _ _ _ ER eq_refl) as EN.
  destruct (inbound_exchange_run pf c f1 f2 Hpf Hseen Hc Hf1' Hf2) as [_ Hd].
  destruct (Hd Hflat) as (cn & sn & rn & ED & Hon & Hhn & Hidn & _ & Hopn).
  rewrite ED in EN. clear ED Hd.
  destruct (HI f2) as (pf' & c' & EI & Hc' & Hflat' & Ho' & Hpf' & Hseen').
  pose proof (outbound_handshake _ _ _ EI) as EO.  cbn beta iota in EO.
  destruct (outbound_exchange_run pf' c' f1 f2 Hpf' Hseen' Hc' Hf1 Hf2') as [_ Hd].
  destruct (Hd Hflat') as (co & so & ro & ED & Hoo & Hho & _ & Hopo).
  rewrite ED in EO. clear ED Hd.
  exists ro, so, co, rn, sn, cn. split; [|done].
  assert (dialogue 1 O N = (O (fresh_conn []), N (fresh_conn h1))) as D1
    by (rewrite dialogue_S; cbn [dialogue fst snd]; by rewrite A1, A2).
  assert (dialogue 2 O N = (O (fresh_conn h2), N (fresh_conn h1))) as D2
    by (rewrite dialogue_S, D1; cbn [fst snd]; by rewrite A1, A3).
  assert (dialogue 3 O N = (O (fresh_conn h2), N (fresh_conn (h1 ++ ai)))) as D3
    by (rewrite dialogue_S, D2; cbn [fst snd]; by rewrite A3, A4).
  assert (dialogue 4 O N = (O (fresh_conn (h2 ++ ar)), N (fresh_conn (h1 ++ ai)))) as D4
    by (rewrite dialogue_S, D3; cbn [fst snd]; by rewrite A4, A5).
  assert (dialogue 5 O N = (O (fresh_conn (h2 ++ ar)), N (fresh_conn (h1 ++ ai ++ f1)))) as D5
    by (rewrite dialogue_S, D4; cbn [fst snd]; by rewrite A5, A6).
  rewrite dialogue_S, D5. cbn [fst snd]. rewrite EN, A6. cbn [fst snd].
  by rewrite Hon, Ho, <-app_assoc, EO, EN.
Qed.
End run.

(** One sync round makes two coherent replicas equal: both become the join. *)
Lemma sync_round_shared vi vr mr mi :
  coherent (shared vi) (shared vr) → mr = (merge vr vi).1 → mi = (merge vi mr).1 →
  shared mi = join_shared (shared vi) (shared vr) ∧ shared mr = shared mi ∧ head_hash mi = head_hash mr.
Proof.
  intros Hc -> ->. assert (shared (merge vr vi).1 = join_shared (shared vi) (shared vr)) as Hr.
  { rewrite merge_shared. change join_shared with (ml_join (S := Shared)). by apply ml_comm, ml_compat_sym. }
  assert (shared (merge vi (merge vr vi).1).1 = join_shared (shared vi) (shared vr)) as Hs.
  { rewrite merge_shared, Hr. change join_shared with (ml_join (S := Shared)). by rewrite <-ml_assoc, ml_idemp. }
  split; [done|]. split; [congruence|]. unfold head_hash. by rewrite (shared_hash_shared _ (merge vr vi).1) by congruence.
Qed.
End honest.

(** The reply the supervisor sends to a merge it can adopt. *)
Lemma sync_op_versioned `{JsonSharedOps, Sha256Ops, HexOps, TomlOps, JsonOps SideCar} cp vp env p m s :
  is_ok (validate (vc_config (merge (sv_versioned s) m).1)) = true →
  sv_versioned (handle_sync_op cp vp env (Merge p m) s) = (merge (sv_versioned s) m).1 ∧
  last (sv_out (handle_sync_op cp vp env (Merge p m) s)) =
    Some (SxSyncReply (sv_versioned (handle_sync_op cp vp env (Merge p m) s))).
Proof.
  unfold handle_sync_op. destruct (merge (sv_versioned s) m) as [v o]. cbn [fst]. intros Hv.
  destruct o; [cbn; by rewrite last_snoc|]. destruct (validate (vc_config v)); [|done].
  rewrite on_core_if. cbn. by rewrite last_snoc.
Qed.

Section convergence.
Context `{HexLaws, Sha256Ops, Ed25519Laws, X25519Laws, HkdfLaws, AeadLaws, JsonLaws AuthFrame, JsonOps SyncFrame}.
Context `{JsonStateOps, JsonSharedOps, TomlOps, JsonOps SideCar}.

(** C5: two paired daemons that sync converge.  Let the supervisors of two
    machines hold coherent replicas (as all reachable replicas are), each trust
    the other's key, and let the merges be valid configs.  Then an outbound
    session against an inbound one, each answered by its own supervisor,
    completes within six exchanges; each supervisor was asked to merge exactly
    the other's state, and afterwards both hold the same shared configuration,
    every shared field with its value and stamp: the join of the two they had.  So
    the two heads they report are equal. *)
Theorem paired_daemons_converge
    ski skr ni nr nonce ki kr idi idr tpi tpr trust trust' jsi jsr fi fr bi br
    cpi vpi cpr vpr envi envr (supi supr : Sup) :
  let t := transcript_hash 1 (x_public ski) ni (x_public skr) nr in
  let vi := sv_versioned supi in let vr := sv_versioned supr in
  let supr' := handle_sync_op cpr vpr envr (Merge idi vi) supr in
  let mr := sv_versioned supr' in
  let supi' := handle_sync_op cpi vpi envi (Merge idr mr) supi in
  let mi := sv_versioned supi' in
  length ni = 16 → length nr = 16 → length nonce = 16 →
  tp_machine_id tpr = idr ∧ tp_public_key_hex tpr = hex_encode (verifying_key kr) →
  tp_machine_id tpi = idi ∧ tp_public_key_hex tpi = hex_encode (verifying_key ki) →
  trust_snapshot (ts_peers trust) !! idi = Some (verifying_key ki) → trust_get idi trust' = Some tpi →
  to_vec (our_auth_frame ki idi t) = Some jsi → length jsi ≤ MAX_AUTH_FRAME_BYTES →
  to_vec (our_auth_frame kr idr t) = Some jsr → length jsr ≤ MAX_AUTH_FRAME_BYTES →
  sign_frame ki idi nonce vi = Ok fi → transportable fi bi →
  sign_frame kr idr nonce mr = Ok fr → transportable fr br →
  coherent (shared vi) (shared vr) →
  is_ok (validate (vc_config (merge vr vi).1)) = true → is_ok (validate (vc_config (merge vi mr).1)) = true →
  ∃ ro so co rn sn cn,
    dialogue 6 (as_conn (outbound_inner ki idi ski ni nonce tpr) [Replied vi; Replied mi])
               (as_conn (run_inbound_inner kr idr skr nr trust trust') [Replied vr; Replied mr])
      = ((Done (ro, so), co), (Done (rn, sn), cn)) ∧
    ss_ops so = [Snapshot; Merge idr mr] ∧ ss_ops sn = [Snapshot; Merge idi vi] ∧
    shared mi = join_shared (shared vi) (shared vr) ∧ shared mr = shared mi ∧
    sr_new_head ro = head_hash mi ∧ ir_new_head rn = head_hash mr ∧ head_hash mi = head_hash mr.
Proof.
  intros t vi vr supr' mr supi' mi. intros. 
  destruct (sync_op_versioned cpr vpr envr idi vi supr) as [Emr _]; [done|].
  destruct (sync_op_versioned cpi vpi envi idr mr supi) as [Emi _]; [done|].
  destruct (sessions_complete ski skr ni nr nonce ki kr idi idr tpi tpr trust trust' jsi jsr vi vr mi mr fi fr bi br)
    as (ro & so & co & rn & sn & cn & Hd & Hho & Hhn & _ & Hopo & Hopn); try done.
  destruct (sync_round_shared vi vr mr mi) as (Hj & Hsh & Hhh); try done.
  exists ro, so, co, rn, sn, cn. by split_and!.
Qed.
End convergence.

(** C11: inbound sessions only merge what a paired peer signed.  Whatever arrives on
    the connection and however the session ends, every state it asked the
    supervisor to merge came in a frame whose sender is the machine id the
    handshake authenticated, under a key the trust store held for that id when
    the connection was accepted, and the frame's signature verifies under the
    key the store holds now. *)
Theorem inbound_merges_only_signed
    `{HexOps, Sha256Ops, Ed25519Ops, X25519Ops, HkdfOps, AeadOps, JsonOps AuthFrame, JsonOps SyncFrame}
    `{JsonStateOps, JsonSharedOps} key id eph nhs trust trust' s o s' p st :
  ss_ops s = [] → run_inbound_inner key id eph nhs trust trust' s = (o, s') → Merge p st ∈ ss_ops s' →
  ∃ tp pk t frame, trust_get p trust' = Some tp ∧ trust_snapshot (ts_peers trust) !! p = Some pk ∧
    vouched pk t ∧ fr_from_machine_id frame = p ∧ fr_state frame = st ∧
    verify_frame (tp_public_key_hex tp) None frame = Ok tt.
Proof.
  intros Hs Hrun Hin. destruct (inbound_issues key id eph nhs trust trust' s o s' Hrun) as [Hop _].
  destruct (Hop _ Hin) as [Hbad|Hauth]; [rewrite Hs in Hbad; by apply elem_of_nil in Hbad|exact Hauth].
Qed.

(** Outbound sessions only merge a fresh, signed reply.  Every state an outbound
    session asked the supervisor to merge came from the peer it dialled, in a
    frame that echoes the nonce drawn for this session and verifies under the
    stored key of that peer, which also signed the handshake. *)
Theorem outbound_merges_only_fresh
    `{HexOps, Sha256Ops, Ed25519Ops, X25519Ops, HkdfOps, AeadOps, JsonOps AuthFrame, JsonOps SyncFrame}
    `{JsonStateOps, JsonSharedOps} key id eph nhs nonce trusted s o s' p st :
  ss_ops s = [] → outbound_inner key id eph nhs nonce trusted s = (o, s') → Merge p st ∈ ss_ops s' →
  ∃ pk t frame, p = tp_machine_id trusted ∧ hex_decode (tp_public_key_hex trusted) = Some pk ∧ vouched pk t ∧
    fr_from_machine_id frame = p ∧ fr_state frame = st ∧
    verify_frame (tp_public_key_hex trusted) (Some (hex_encode nonce)) frame = Ok tt.
Proof.
  intros Hs Hrun Hin. destruct (outbound_issues key id eph nhs nonce trusted s o s' Hrun) as [Hop _].
  destruct (Hop _ Hin) as [Hbad|Hauth]; [rewrite Hs in Hbad; by apply elem_of_nil in Hbad|exact Hauth].
Qed.

(** ** Concrete sessions: machines "a" and "b", which differ in the Core port *)

Section wit.
#[local] Existing Instances toy_hex toy_sha toy_ed toy_x toy_hkdf toy_aead toy_json_auth toy_json_shared toy_json_state toy_toml toy_json_sidecar.
#[local] Existing Instances toy_hex_laws toy_sha_laws toy_ed_laws toy_x_laws toy_hkdf_laws toy_aead_laws toy_json_auth_laws.

Definition wit_vi : VersionedConfig := initial sample_config "a".
Definition wit_vr : VersionedConfig := initial (set_cfg_port 9999 sample_config) "b".

(** Frames that carry one of the two states. *)
#[local] Instance toy_json_frame : JsonOps SyncFrame :=
  {| to_vec f := Some (byte_of_Z (if decide (cfg_port (vc_config (fr_state f)) = 9999%Z) then 1 else 0)
                       :: toy_enc_str (bytes_of (fr_from_machine_id f)) ++ toy_enc_str (bytes_of (fr_nonce_hex f))
                       ++ toy_enc_str (bytes_of (fr_sig_hex f)));
     from_slice b :=
       match b with
       | tag :: b0 =>
         match toy_dec_str b0 with
         | Some (m, b1) =>
           match toy_dec_str b1 with
           | Some (n, b2) =>
             match toy_dec_str b2 with
             | Some (s, _) => Some {| fr_from_machine_id := string_of m; fr_nonce_hex := string_of n;
                                      fr_state := if decide (tag = byte_of_Z 1) then wit_vr else wit_vi;
                                      fr_sig_hex := string_of s |}
             | None => None
             end
           | None => None
           end
         | None => None
         end
       | [] => None
       end |}.

Definition wit_tp (id key : string) : TrustedPeer :=
  {| tp_machine_id := id; tp_display_name := id; tp_public_key_hex := hex_encode (verifying_key (hs_key key));
     tp_fingerprint := ""; tp_paired_at_unix := 0 |}.
Definition wit_trust_b : TrustedPeerStore := {| ts_path := wit_paths; ts_peers := [wit_tp "a" "ki"] |}.
Definition wit_sup_b : Sup := set_sv_config (vc_config wit_vr) (set_sv_versioned wit_vr wit_sup).
Definition wit_sup_b' : Sup :=
  handle_sync_op wit_config_path wit_versions_path (wit_senv 0 true) (Merge "a" wit_vi) wit_sup_b.
Definition wit_sup_a' : Sup :=
  handle_sync_op wit_config_path wit_versions_path (wit_senv 0 true) (Merge "b" (sv_versioned wit_sup_b')) wit_sup.

Definition wit_out : conn (SyncError * Sess) (SessionResult * Sess) :=
  as_conn (outbound_inner (hs_key "ki") "a" (bytes_of "ei") hs_nonce hs_nonce (wit_tp "b" "kr"))
    [Replied wit_vi; Replied (sv_versioned wit_sup_a')].
Definition wit_in : conn (SyncError * Sess) (InboundResult * Sess) :=
  as_conn (run_inbound_inner (hs_key "kr") "b" (bytes_of "er") hs_nonce wit_trust_b wit_trust_b)
    [Replied wit_vr; Replied (sv_versioned wit_sup_b')].

Definition wit_frame (key : SigningKey) (id : string) (v : VersionedConfig) : SyncFrame :=
  {| fr_from_machine_id := id; fr_nonce_hex := hex_encode hs_nonce; fr_state := v;
     fr_sig_hex := match canonical_state_bytes id hs_nonce v with Ok b => hex_encode (sign key b) | Err _ => "" end |}.
Definition wit_body (f : SyncFrame) : bytes := default [] (to_vec f).

Lemma wit_frame_a_ok : transportable (wit_frame (hs_key "ki") "a" wit_vi) (wit_body (wit_frame (hs_key "ki") "a" wit_vi)).
Proof. split_and!; vm_compute; reflexivity. Qed.
Lemma wit_frame_b_ok :
  transportable (wit_frame (hs_key "kr") "b" (sv_versioned wit_sup_b')) (wit_body (wit_frame (hs_key "kr") "b" (sv_versioned wit_sup_b'))).
Proof. split_and!; vm_compute; reflexivity. Qed.

Lemma wit_coherent : coherent (shared wit_vi) (shared wit_vr).
Proof. split_and!; intros Hx%(f_equal lt_origin); discriminate. Qed.

Lemma wit_merges_valid :
  is_ok (validate (vc_config (merge wit_vr wit_vi).1)) = true ∧
  is_ok (validate (vc_config (merge wit_vi (sv_versioned wit_sup_b')).1)) = true.
Proof. split; vm_compute; reflexivity. Qed.

Lemma paired_daemons_converge_witness :
  shared (sv_versioned wit_sup_b') = shared (sv_versioned wit_sup_a').
Proof.
  edestruct (paired_daemons_converge (bytes_of "ei") (bytes_of "er") hs_nonce hs_nonce hs_nonce (hs_key "ki") (hs_key "kr")
    "a" "b" (wit_tp "a" "ki") (wit_tp "b" "kr") wit_trust_b wit_trust_b)
    with (cpi := wit_config_path) (vpi := wit_versions_path) (cpr := wit_config_path) (vpr := wit_versions_path)
         (envi := wit_senv 0 true) (envr := wit_senv 0 true) (supi := wit_sup) (supr := wit_sup_b)
         (fi := wit_frame (hs_key "ki") "a" wit_vi) (fr := wit_frame (hs_key "kr") "b" (sv_versioned wit_sup_b'))
    as (ro & so & co & rn & sn & cn & _ & _ & _ & _ & Hh & _);
    [reflexivity|reflexivity|reflexivity|split; reflexivity|split; reflexivity|vm_compute; reflexivity|vm_compute; reflexivity
    |reflexivity|vm_compute; lia|reflexivity|vm_compute; lia|reflexivity|exact wit_frame_a_ok|reflexivity|exact wit_frame_b_ok
    |exact wit_coherent|exact (proj1 wit_merges_valid)|exact (proj2 wit_merges_valid)|exact Hh].
Defined.

Definition wit_dialogue := dialogue 6 wit_out wit_in.

Definition wit_start (c : Conn) (answers : list SupAnswer) : Sess :=
  {| ss_conn := c; ss_answers := answers; ss_ops := []; ss_events := []; ss_peer_id := "" |}.
Definition wit_in_start : Sess :=
  wit_start (fresh_conn (cn_out wit_dialogue.1.2)) [Replied wit_vr; Replied (sv_versioned wit_sup_b')].
Definition wit_out_start : Sess :=
  wit_start (fresh_conn (cn_out wit_dialogue.2.2)) [Replied wit_vi; Replied (sv_versioned wit_sup_a')].

Definition merge_names (ops : list SyncOp) : list string :=
  map (λ op, match op with Merge p _ => p | Snapshot => ""%string end) ops.

Lemma wit_in_merges :
  merge_names (ss_ops (run_inbound_inner (hs_key "kr") "b" (bytes_of "er") hs_nonce wit_trust_b wit_trust_b wit_in_start).2)
  = [""; "a"]%string.
Proof. vm_compute; reflexivity. Qed.

Lemma wit_out_merges :
  merge_names (ss_ops (outbound_inner (hs_key "ki") "a" (bytes_of "ei") hs_nonce hs_nonce (wit_tp "b" "kr") wit_out_start).2)
  = [""; "b"]%string.
Proof. vm_compute; reflexivity. Qed.

Lemma merge_in_ops ops p :
  merge_names ops = [""%string; p] → p ≠ ""%string →
  ∃ st, Merge p st ∈ ops.
Proof.
  destruct ops as [|x [|[|q st] [|? ?]]]; try done; intros [= _ Hq] Hne; subst; [done|].
  exists st. set_solver.
Qed.

Lemma inbound_merges_only_signed_witness :
  ∃ tp pk t frame, trust_get "a" wit_trust_b = Some tp ∧ vouched pk t ∧ fr_from_machine_id frame = "a"%string ∧
    verify_frame (tp_public_key_hex tp) None frame = Ok tt.
Proof.
  pose proof wit_in_merges as Hm.
  destruct (run_inbound_inner _ _ _ _ _ _ wit_in_start) as [o s'] eqn:E. cbn [snd] in Hm.
  destruct (merge_in_ops (ss_ops s') "a" Hm) as [st Hin]; [discriminate|].
  destruct (inbound_merges_only_signed (hs_key "kr") "b" (bytes_of "er") hs_nonce wit_trust_b wit_trust_b
    wit_in_start o s' "a" st eq_refl E Hin)
    as (tp & pk & t & frame & Hg & _ & Hv & Hf & _ & Hver).
  exact (ex_intro _ tp (ex_intro _ pk (ex_intro _ t (ex_intro _ frame (conj Hg (conj Hv (conj Hf Hver))))))).
Defined.

Lemma outbound_merges_only_fresh_witness :
  ∃ frame, fr_from_machine_id frame = "b"%string ∧
    verify_frame (tp_public_key_hex (wit_tp "b" "kr")) (Some (hex_encode hs_nonce)) frame = Ok tt.
Proof.
  pose proof wit_out_merges as Hm.
  destruct (outbound_inner _ _ _ _ _ _ wit_out_start) as [o s'] eqn:E. cbn [snd] in Hm.
  destruct (merge_in_ops (ss_ops s') "b" Hm) as [st Hin]; [discriminate|].
  destruct (outbound_merges_only_fresh (hs_key "ki") "a" (bytes_of "ei") hs_nonce hs_nonce (wit_tp "b" "kr")
    wit_out_start o s' "b" st eq_refl E Hin)
    as (pk & t & frame & _ & _ & _ & Hf & _ & Hver).
  exact (ex_intro _ frame (conj Hf Hver)).
Defined.
End wit.
