(* ===== verification/IpcWire.v ===== *)
(** * IPC transport ([crates/synbad-ipc/src/server.rs], [client.rs])

    Newline-delimited JSON between the daemon and its clients: the bounded line
    reader that survives cancellation, the writers, one server connection as a
    state machine between the socket, the daemon and the event bus, and the
    recovery of a stale socket file. *)

From Stdlib Require Import Ascii ZArith Lia.
From S2P Require Import Prelude Primitives IpcTypes Cipher.

Definition newline : ascii := byte_of_Z 10.
Definition max_message : nat := Z.to_nat MAX_MESSAGE_BYTES.

Lemma max_message_Z : Z.of_nat max_message = MAX_MESSAGE_BYTES.
Proof. apply Z2Nat.id. discriminate. Qed.
#[local] Opaque max_message.
Ltac max_lia := pose proof max_message_Z; lia.

(** ** Reading lines *)

Inductive LineRead :=
| LineOf (line : bytes)
| LineEof
| LineSuspended     (* no complete line yet *)
| LineIo
| LineTooLarge.

(** [fill_buf] shows the next chunk; the part that is taken is [consume]d. *)
Fixpoint read_chunks (buffer : bytes) (cs : list bytes) (e : StreamEnd) : LineRead * bytes * Source :=
  match cs with
  | [] => (match e with StillOpen => LineSuspended | AtEof => LineEof | Broken => LineIo end, buffer,
           {| src_chunks := []; src_end := e |})
  | c :: cs' =>
    if decide (c = []) then (LineEof, buffer, {| src_chunks := cs; src_end := e |}) else
    let end_ := find_char newline c in
    let n := match end_ with Some i => i + 1 | None => length c end in
    if decide (MAX_MESSAGE_BYTES < Z.of_nat (length buffer + n))%Z
    then (LineTooLarge, buffer, {| src_chunks := cs; src_end := e |}) else
    match end_ with
    | Some _ =>
      (LineOf (buffer ++ take n c), [],
       {| src_chunks := if decide (drop n c = []) then cs' else drop n c :: cs'; src_end := e |})
    | None => read_chunks (buffer ++ c) cs' e
    end
  end.

Definition read_message (buffer : bytes) (src : Source) : LineRead * bytes * Source :=
  read_chunks buffer (src_chunks src) (src_end src).

(** ** Writing *)

Section wire.
Context `{JsonOps Message}.

(** The line for a message, if there is one that is not too large. *)
Definition message_line (m : Message) : option bytes :=
  match to_vec m with
  | Some b => let line := b ++ [newline] in if decide (MAX_MESSAGE_BYTES < Z.of_nat (length line))%Z then None else Some line
  | None => None
  end.

(** [write_all] and [flush] go through exactly when [written]. *)
Definition send_message (written : bool) (m : Message) : bool :=
  match message_line m with Some _ => written | None => false end.

(** ** The client's blocking calls *)

Inductive ClientError :=
| ClIo
| ClTimedOut
| ClTooLarge
| ClJson
| ClDaemon (message : string)
| ClUnexpected
| ClClosed.

(** One [write] and the clock after it. *)
Inductive WriteStep :=
| Wrote (n : nat)
| WriteInterrupted
| WriteBlocked
| WriteBroken.

Definition past (deadline : option Z) (now : Z) : bool :=
  match deadline with Some d => bool_decide (d ≤ now)%Z | None => false end.

(** The writing loop: [sent] of [len] bytes are out.  The steps are what the
    coming [write] calls give, each with the clock read after it; a loop that
    runs out of steps is still going. *)
Fixpoint client_send_loop (deadline : option Z) (len sent : nat) (steps : list (WriteStep * Z))
    : option (result ClientError unit) * nat :=
  if decide (sent < len) then
    match steps with
    | [] => (None, sent)
    | (st, now) :: steps' =>
      match st with
      | Wrote n =>
        if decide (n = 0) then (Some (Err ClIo), sent) else
        let sent := sent + Nat.min n (len - sent) in
        if past deadline now && bool_decide (sent < len) then (Some (Err ClTimedOut), sent)
        else client_send_loop deadline len sent steps'
      | WriteInterrupted => client_send_loop deadline len sent steps'
      | WriteBlocked =>
        (* [wait], then the check at the end of the loop body *)
        if past deadline now then (Some (Err ClTimedOut), sent) else client_send_loop deadline len sent steps'
      | WriteBroken => (Some (Err ClIo), sent)
      end
    end
  else (Some (Ok tt), sent).

(** [send]: the result, if it is decided, and the bytes written. *)
Definition client_send (deadline : option Z) (req : Request) (steps : list (WriteStep * Z))
    : option (result ClientError unit) * bytes :=
  match to_vec (MsgRequest req) with
  | None => (Some (Err ClJson), [])
  | Some b =>
    let line := b ++ [newline] in
    if decide (MAX_MESSAGE_BYTES < Z.of_nat (length line))%Z then (Some (Err ClTooLarge), []) else
    let '(r, sent) := client_send_loop deadline (length line) 0 steps in (r, take sent line)
  end.

(** [recv] with a deadline that does not pass before the source stalls. *)
Definition client_recv (src : Source) : option (result ClientError Message) * Source :=
  let '(r, _, src') := read_message [] src in
  (match r with
   | LineOf line => Some (match from_slice line with Some m => Ok m | None => Err ClJson end)
   | LineEof => Some (Err ClClosed)
   | LineIo => Some (Err ClIo)
   | LineTooLarge => Some (Err ClTooLarge)
   | LineSuspended => None
   end, src').

(** [request], from the outcome of [send] and what [recv] returned. *)
Definition client_request (sent : result ClientError unit) (received : result ClientError Message)
    : result ClientError Response :=
  let? _ := sent in
  let? m := received in
  match m with
  | MsgResponse (RsError message) => Err (ClDaemon message)
  | MsgResponse r => Ok r
  | MsgEvent _ => Err ClUnexpected
  | MsgRequest _ => Err ClUnexpected
  end.

(** ** A server connection *)

(** A receiver of the event bus: what was published since it subscribed, and
    how much of it was received. *)
Record Subscription := { su_log : list Event; su_next : nat }.

Inductive ConnPhase :=
| Reading
| Awaiting (is_subscribe : bool) (pending : option Subscription)   (* for the daemon's reply *)
| ConnClosed.

Record ServerConn := {
  sc_phase : ConnPhase;
  sc_buffer : bytes;
  sc_src : Source;
  sc_sub : option Subscription;
  sc_ack : nat;                  (* messages written when the subscription took effect *)
  sc_requests : list Request;    (* handed to the daemon *)
  sc_out : list Message          (* written *)
}.

Definition sc_fresh : ServerConn :=
  {| sc_phase := Reading; sc_buffer := []; sc_src := {| src_chunks := []; src_end := StillOpen |};
     sc_sub := None; sc_ack := 0; sc_requests := []; sc_out := [] |}.

(** [broadcast::channel(capacity)]; [{other:?}] of a line that is no request. *)
Context (capacity : nat) (show_bad : option Message → string).

Definition sc_close (c : ServerConn) : ServerConn :=
  {| sc_phase := ConnClosed; sc_buffer := sc_buffer c; sc_src := sc_src c; sc_sub := sc_sub c; sc_ack := sc_ack c;
     sc_requests := sc_requests c; sc_out := sc_out c |}.

(** [send_message], then go on, or [break]. *)
Definition sc_send (written : bool) (m : Message) (next : ServerConn → ServerConn) (c : ServerConn) : ServerConn :=
  if send_message written m then
    next {| sc_phase := sc_phase c; sc_buffer := sc_buffer c; sc_src := sc_src c; sc_sub := sc_sub c; sc_ack := sc_ack c;
            sc_requests := sc_requests c; sc_out := sc_out c ++ [m] |}
  else sc_close c.

Definition sc_reading (c : ServerConn) : ServerConn :=
  {| sc_phase := Reading; sc_buffer := sc_buffer c; sc_src := sc_src c; sc_sub := sc_sub c; sc_ack := sc_ack c;
     sc_requests := sc_requests c; sc_out := sc_out c |}.

(** The reply is written; a [Subscribe] now takes effect. *)
Definition sc_replied (is_subscribe : bool) (pending : option Subscription) (c : ServerConn) : ServerConn :=
  {| sc_phase := Reading; sc_buffer := sc_buffer c; sc_src := sc_src c;
     sc_sub := if is_subscribe then pending else sc_sub c;
     sc_ack := if is_subscribe then length (sc_out c) else sc_ack c;
     sc_requests := sc_requests c; sc_out := sc_out c |}.

Definition is_subscribe_request (r : Request) : bool := match r with RqSubscribe => true | _ => false end.

(** A complete line. *)
Definition sc_line (written : bool) (line : bytes) (c : ServerConn) : ServerConn :=
  match from_slice line with
  | Some (MsgRequest req) =>
    let is_subscribe := is_subscribe_request req in
    let pending := if is_subscribe then Some {| su_log := []; su_next := 0 |} else None in
    {| sc_phase := Awaiting is_subscribe pending; sc_buffer := sc_buffer c; sc_src := sc_src c; sc_sub := sc_sub c;
       sc_ack := sc_ack c; sc_requests := sc_requests c ++ [req]; sc_out := sc_out c |}
  | other => sc_send written (MsgResponse (RsError ("expected valid request: " +:+ show_bad other))) sc_reading c
  end.

Definition su_publish (e : Event) (s : Subscription) : Subscription :=
  {| su_log := su_log s ++ [e]; su_next := su_next s |}.

(** What happens around one connection. *)
Inductive ConnOp :=
| CoBytes (chunks : list bytes) (e : StreamEnd)   (* the client writes *)
| CoRead (written : bool)                         (* the read branch is polled *)
| CoTimeout                                       (* [OP_TIMEOUT] on a connection without subscription *)
| CoPublish (e : Event)                           (* the daemon publishes *)
| CoEvent (written : bool)                        (* the event branch wins *)
| CoBusClosed
| CoReply (r : option Response) (written : bool). (* the daemon answers, or does not in time *)

Definition handle_connection (op : ConnOp) (c : ServerConn) : ServerConn :=
  match op with
  | CoBytes chunks e =>
    {| sc_phase := sc_phase c; sc_buffer := sc_buffer c;
       sc_src := {| src_chunks := src_chunks (sc_src c) ++ chunks; src_end := e |};
       sc_sub := sc_sub c; sc_ack := sc_ack c; sc_requests := sc_requests c; sc_out := sc_out c |}
  | CoRead written =>
    match sc_phase c with
    | Reading =>
      let '(r, buffer, src) := read_message (sc_buffer c) (sc_src c) in
      let c := {| sc_phase := Reading; sc_buffer := buffer; sc_src := src; sc_sub := sc_sub c; sc_ack := sc_ack c;
                  sc_requests := sc_requests c; sc_out := sc_out c |} in
      match r with
      | LineOf line => sc_line written line c
      | LineSuspended => c
      | _ => sc_close c
      end
    | _ => c
    end
  | CoTimeout =>
    match sc_phase c, sc_sub c with
    | Reading, None => sc_close c
    | _, _ => c
    end
  | CoPublish e =>
    {| sc_phase := match sc_phase c with
                   | Awaiting b pending => Awaiting b (su_publish e <$> pending)
                   | p => p
                   end;
       sc_buffer := sc_buffer c; sc_src := sc_src c; sc_sub := su_publish e <$> sc_sub c; sc_ack := sc_ack c;
       sc_requests := sc_requests c; sc_out := sc_out c |}
  | CoEvent written =>
    match sc_phase c, sc_sub c with
    | Reading, Some su =>
      if decide (capacity < length (su_log su) - su_next su) then sc_close c else
      match su_log su !! su_next su with
      | Some e =>
        sc_send written (MsgEvent e)
          (λ c, {| sc_phase := Reading; sc_buffer := sc_buffer c; sc_src := sc_src c;
                   sc_sub := Some {| su_log := su_log su; su_next := S (su_next su) |}; sc_ack := sc_ack c;
                   sc_requests := sc_requests c; sc_out := sc_out c |}) c
      | None => c
      end
    | _, _ => c
    end
  | CoBusClosed =>
    match sc_phase c, sc_sub c with
    | Reading, Some su => if decide (su_next su < length (su_log su)) then c else sc_close c
    | _, _ => c
    end
  | CoReply r written =>
    match sc_phase c with
    | Awaiting is_subscribe pending =>
      match r with
      | Some response => sc_send written (MsgResponse response) (sc_replied is_subscribe pending) c
      | None => sc_close c
      end
    | _ => c
    end
  end.

Inductive sc_reachable : ServerConn → Prop :=
| sr_fresh : sc_reachable sc_fresh
| sr_step op c : sc_reachable c → sc_reachable (handle_connection op c).
End wire.

(** ** Binding the socket *)

(** What the system says while binding. *)
Record BindEnv := {
  be_parent_ok : bool;
  be_locked : bool;           (* the lock file opened and [flock] was granted *)
  be_created : result bool unit;   (* [Err true]: the address is in use *)
  be_is_socket : bool;
  be_probe_refused : bool;    (* the probe was refused, within its second *)
  be_removed : bool;
  be_recreated : bool
}.

(** The listener is up or not, and whether the socket file was unlinked. *)
Definition bind (env : BindEnv) : bool * bool :=
  if negb (be_parent_ok env) then (false, false) else
  if negb (be_locked env) then (false, false) else
  match be_created env with
  | Ok _ => (true, false)
  | Err true =>
    if negb (be_is_socket env) then (false, false) else
    if be_probe_refused env then
      if be_removed env then (be_recreated env, true) else (false, false)
    else (false, false)
  | Err false => (false, false)
  end.

(** ** Lines are delivered however the bytes arrive *)

Definition line_end (e : StreamEnd) : LineRead :=
  match e with StillOpen => LineSuspended | AtEof => LineEof | Broken => LineIo end.

Definition read_post (buffer : bytes) (src : Source) (out : LineRead * bytes * Source) : Prop :=
  let '(r, buffer', src') := out in
  src_wf src' ∧ src_end src' = src_end src ∧ length buffer' ≤ max_message ∧
  match r with
  | LineOf line => buffer ++ flat src = line ++ flat src' ∧ buffer' = [] ∧ length line ≤ max_message ∧
                   ∃ body, line = body ++ [newline] ∧ newline ∉ body
  | LineTooLarge => newline ∉ take max_message (buffer ++ flat src) ∧ max_message < length (buffer ++ flat src)
  | r => r = line_end (src_end src) ∧ buffer' = buffer ++ flat src ∧ newline ∉ buffer' ∧ src_chunks src' = []
  end.

Lemma not_in_take {A} (x : A) n l : x ∉ l → x ∉ take n l.
Proof. intros Hn Hin. apply Hn. rewrite <-(take_drop n l). apply elem_of_app. by left. Qed.

Lemma read_message_spec buffer src :
  src_wf src → newline ∉ buffer → length buffer ≤ max_message → read_post buffer src (read_message buffer src).
Proof.
  destruct src as [cs e]. unfold read_message, src_wf, flat. cbn [src_chunks src_end].
  revert buffer; induction cs as [|c cs IH]; intros buffer Hwf Hn Hl; cbn [read_chunks].
  - unfold read_post, flat, src_wf, line_end; simpl. rewrite app_nil_r. by destruct e.
  - apply Forall_cons in Hwf as [Hc Hcs]. rewrite decide_False by done.
    destruct (find_char newline c) as [i|] eqn:Ef.
    + apply find_char_Some in Ef as [Hni Hci].
      assert (length (take i c) = i) as Hi.
      { apply (f_equal length) in Hci. rewrite length_app in Hci. cbn [length] in Hci. rewrite length_drop in Hci.
        rewrite length_take in *. lia. }
      assert (take (i + 1) c = take i c ++ [newline]) as Htake.
      { rewrite Hci at 1. rewrite take_app. rewrite firstn_all2 by (rewrite Hi; lia). f_equal. rewrite Hi.
        by replace (i + 1 - i) with 1 by lia. }
      case_decide as Hbig; unfold read_post, flat, src_wf; cbn [src_chunks src_end concat].
      * split; [by constructor|]. split; [done|]. split; [done|].
        assert (buffer ++ c ++ concat cs = (buffer ++ take i c) ++ newline :: drop (S i) c ++ concat cs) as E
          by (rewrite Hci at 1; by rewrite <-!app_assoc).
        rewrite E. split.
        -- rewrite take_app_le by (rewrite length_app, Hi; max_lia). apply not_in_take. set_solver.
        -- rewrite length_app, length_app, Hi. simpl. max_lia.
      * split; [case_decide; [done|by constructor]|]. split; [done|]. split; [simpl; lia|].
        split; [|split; [done|split]].
        -- case_decide as Hd; cbn [concat]; rewrite <-app_assoc; f_equal.
           ++ rewrite <-(take_drop (i + 1) c) at 1. by rewrite Hd, app_nil_r.
           ++ by rewrite app_assoc, take_drop.
        -- rewrite length_app, Htake, length_app, Hi. simpl. max_lia.
        -- exists (buffer ++ take i c). rewrite Htake, app_assoc. split; [done|set_solver].
    + apply find_char_None in Ef. case_decide as Hbig; unfold read_post.
      * unfold flat, src_wf. cbn [src_chunks src_end concat]. split; [by constructor|]. split; [done|]. split; [done|].
        rewrite !length_app. split; [|max_lia].
        rewrite app_assoc, take_app_le by (rewrite length_app; max_lia). apply not_in_take. set_solver.
      * specialize (IH (buffer ++ c) Hcs). rewrite length_app in IH.
        destruct (read_chunks (buffer ++ c) cs e) as [[r buffer'] src'] eqn:Er.
        unfold read_post, flat in *. cbn [src_chunks src_end concat] in *. rewrite <-app_assoc in IH. apply IH; [set_solver|max_lia].
Qed.

(** Read lines until none is complete. *)
Fixpoint read_lines (fuel : nat) (buffer : bytes) (src : Source) : list bytes * LineRead * bytes :=
  match fuel with
  | O => ([], LineSuspended, buffer)
  | S fuel' =>
    let '(r, buffer', src') := read_message buffer src in
    match r with
    | LineOf line => let '(ls, r', b) := read_lines fuel' buffer' src' in (line :: ls, r', b)
    | _ => ([], r, buffer')
    end
  end.

(** The bytes come in bursts; the pending read is cancelled after each burst and
    started again, its progress kept in [buffer]. *)
Fixpoint read_bursts (buffer : bytes) (bursts : list (list bytes)) : list bytes :=
  match bursts with
  | [] => []
  | chunks :: rest =>
    let '(ls, _, b) := read_lines (S (length (concat chunks))) buffer {| src_chunks := chunks; src_end := StillOpen |} in
    ls ++ read_bursts b rest
  end.

Definition one_line (l : bytes) : Prop := length l ≤ max_message ∧ ∃ body, l = body ++ [newline] ∧ newline ∉ body.

(** A line is determined by what follows it. *)
Lemma line_split b1 b2 r1 r2 :
  newline ∉ b1 → newline ∉ b2 → b1 ++ newline :: r1 = b2 ++ newline :: r2 → b1 = b2 ∧ r1 = r2.
Proof.
  revert b2; induction b1 as [|x b1 IH]; intros [|y b2] H1 H2 E; cbn [app] in E.
  - by injection E as ->.
  - injection E as E1 E2. destruct H2. rewrite E1. left.
  - injection E as E1 E2. destruct H1. rewrite E1. left.
  - injection E as E1 E2. rewrite not_elem_of_cons in H1, H2. destruct (IH b2) as [-> ->]; naive_solver.
Qed.

Lemma no_newline_shorter b x body y : newline ∉ b → b ++ x = body ++ newline :: y → length b ≤ length body.
Proof.
  intros Hn E. destruct (decide (length b ≤ length body)) as [|Hgt]; [done|]. exfalso. apply Hn.
  assert ((b ++ x) !! length body = Some newline) as Hl by (by rewrite E, lookup_app_r, Nat.sub_diag).
  rewrite lookup_app_l in Hl by lia. by eapply list_elem_of_lookup_2.
Qed.

(** How [lines] and an unfinished tail split at the end of a burst. *)
Lemma read_lines_spec fuel buffer src lines rest :
  length (flat src) < fuel → src_wf src → src_end src = StillOpen → newline ∉ buffer → length buffer ≤ max_message →
  Forall one_line lines → buffer ++ flat src ++ rest = concat lines →
  ∃ dn todo b, read_lines fuel buffer src = (dn, LineSuspended, b) ∧ lines = dn ++ todo ∧
    b ++ rest = concat todo ∧ newline ∉ b ∧ length b ≤ max_message.
Proof.
  revert buffer src lines; induction fuel as [|fuel IH]; intros buffer src lines Hf Hwf He Hn Hl Hlines E; [lia|].
  cbn [read_lines]. pose proof (read_message_spec buffer src Hwf Hn Hl) as Hspec.
  destruct (read_message buffer src) as [[r buffer'] src']. destruct Hspec as (Hwf' & He' & Hl' & Hspec).
  rewrite app_assoc in E. destruct r as [line| | | |]; rewrite ?He in Hspec; try (by destruct Hspec).
  - destruct Hspec as (Heq & -> & Hline & body & -> & Hbody).
    destruct Hlines as [|l lines (Hll & body' & -> & Hb') Hlines].
    { rewrite Heq in E. by destruct body. }
    pose proof Heq as Hlen. rewrite <-app_assoc in Hlen. apply no_newline_shorter in Hlen; [|done].
    pose proof (f_equal length Heq) as Hlens. rewrite !length_app in Hlens. simpl in Hlens.
    rewrite Heq in E. cbn [concat] in E. rewrite <-!app_assoc in E. cbn [app] in E. apply line_split in E as [-> E]; [|done..].
    destruct (IH [] src' lines) as (dn & todo & b & -> & -> & Ht & Hnb & Hlb); [lia|done|congruence|set_solver|simpl; lia|done|done|].
    exists ((body' ++ [newline]) :: dn), todo, b. by split_and!.
  - destruct Hspec as (_ & -> & Hnb & _). exists [], lines, (buffer ++ flat src). by split_and!.
  - destruct Hspec as [Hno Hbig]. exfalso. destruct Hlines as [|l lines (Hll & body & -> & Hb) Hlines].
    { apply app_nil in E as [E _]. rewrite E in Hbig. simpl in Hbig. lia. }
    apply Hno. rewrite length_app in Hll. simpl in Hll. cbn [concat] in E. rewrite <-(app_assoc body [newline]) in E.
    assert ((buffer ++ flat src) !! length body = Some newline) as Hat.
    { rewrite <-(lookup_app_l (buffer ++ flat src) rest) by lia. by rewrite E, lookup_app_r, Nat.sub_diag. }
    apply (list_elem_of_lookup_2 _ (length body)). by rewrite lookup_take_lt by lia.
Qed.

(** C24: The line transport loses and invents nothing.  However a sequence of
    lines (each within the size limit and with its newline last) is cut into
    bursts and chunks, and although the pending read is cancelled between bursts,
    the reader returns exactly those lines in order. *)
Theorem lines_delivered bursts lines :
  Forall (λ chunks, Forall (λ c, c ≠ []) chunks) bursts → Forall one_line lines →
  concat (concat bursts) = concat lines → read_bursts [] bursts = lines.
Proof.
  assert (∀ bursts buffer lines, newline ∉ buffer → length buffer ≤ max_message →
    Forall (λ chunks, Forall (λ c, c ≠ []) chunks) bursts → Forall one_line lines →
    buffer ++ concat (concat bursts) = concat lines → read_bursts buffer bursts = lines) as Hgen.
  { clear. induction bursts as [|chunks bursts IH]; intros buffer lines Hn Hl Hb Hlines E; cbn [read_bursts concat] in *.
    - rewrite app_nil_r in E. destruct Hlines as [|l lines (_ & body & -> & _) _]; [done|]. exfalso. apply Hn. rewrite E.
      cbn [concat]. set_solver.
    - apply Forall_cons in Hb as [Hc Hb]. rewrite concat_app in E.
      destruct (read_lines_spec (S (length (concat chunks))) buffer {| src_chunks := chunks; src_end := StillOpen |} lines
        (concat (concat bursts))) as (dn & todo & b & -> & -> & Ht & Hnb & Hlb); try done; [unfold flat; cbn; lia|].
      f_equal. apply IH; try done. by apply Forall_app in Hlines as [_ ?]. }
  intros Hb Hl E. apply Hgen; try done; [set_solver|simpl; lia].
Qed.

(** ** Messages over lines *)

(** [serde_json] on a message: compact output has no raw newline, and a trailing
    newline is white space to the parser. *)
Class JsonLineLaws `{JsonOps Message} := {
  json_no_newline : ∀ m b, to_vec m = Some b → newline ∉ b;
  json_line_roundtrip : ∀ m b, to_vec m = Some b → from_slice (b ++ [newline]) = Some m
}.

Section connection.
Context `{JsonLineLaws}.

Lemma message_line_spec m line :
  message_line m = Some line → one_line line ∧ from_slice line = Some m.
Proof.
  unfold message_line. destruct (to_vec m) as [b|] eqn:Eb; [|done]. case_decide; [done|]. intros [= <-].
  split; [split; [max_lia|exists b; split; [done|by eapply json_no_newline]]|by apply json_line_roundtrip].
Qed.

(** ** The writing loop of the client *)

(** A step that moves the loop on: bytes go out, it fails, or the deadline has passed. *)
Definition progress_step (deadline : option Z) (st : WriteStep * Z) : bool :=
  match st.1 with
  | Wrote _ | WriteBroken => true
  | WriteInterrupted => false
  | WriteBlocked => past deadline st.2
  end.

Lemma client_send_loop_spec deadline len steps sent r n :
  sent ≤ len → client_send_loop deadline len sent steps = (r, n) →
  sent ≤ n ≤ len ∧ (r = Some (Ok tt) → n = len) ∧ (r = None → sent + length (List.filter (progress_step deadline) steps) ≤ n).
Proof.
  revert sent; induction steps as [|[st now] steps IH]; intros sent Hs; cbn [client_send_loop List.filter].
  - case_decide; intros [= <- <-]; simpl; split_and!; try done; lia.
  - case_decide as Hlt; [|intros [= <- <-]; split_and!; try done; lia].
    destruct st as [k| | |].
    + change (progress_step deadline (Wrote k, now)) with true. cbn [length].
      case_decide; [by intros [= <- <-]; split_and!; try done; lia|].
      case_match; [intros [= <- <-]; split_and!; try done; lia|].
      intros E. apply IH in E as (? & ? & Hn); [|lia]. split_and!; try done; [lia..|]. intros Hr. specialize (Hn Hr). lia.
    + change (progress_step deadline (WriteInterrupted, now)) with false. intros E. by apply IH in E.
    + change (progress_step deadline (WriteBlocked, now)) with (past deadline now).
      destruct (past deadline now) eqn:Ep; [intros [= <- <-]; split_and!; try done; lia|].
      intros E. by apply IH in E.
    + intros [= <- <-]. split_and!; try done; lia.
Qed.

(** A client call that sends is all or a prefix, and it ends.  What is on the
    wire is always a prefix of the request's line; success means the whole line;
    and the loop has decided after at most as many progress-making writes as the
    line has bytes, where a blocked write past the deadline counts as progress. *)
Theorem client_send_decides deadline req steps line :
  message_line (MsgRequest req) = Some line →
  let '(r, out) := client_send deadline req steps in
  (∃ n, out = take n line) ∧ (r = Some (Ok tt) → out = line) ∧
  (length line ≤ length (List.filter (progress_step deadline) steps) → is_Some r).
Proof.
  unfold message_line, client_send. destruct (to_vec (MsgRequest req)) as [b|] eqn:Eb; [|done].
  case_decide; [done|]. intros [= <-]. set (line := b ++ [newline]) in *.
  destruct (client_send_loop deadline (length line) 0 steps) as [r n] eqn:E.
  pose proof E as (Hn & Hok & Hnone)%client_send_loop_spec; [|lia]. split_and!.
  - by exists n.
  - intros ->. rewrite Hok by done. apply firstn_all.
  - intros Hlen. destruct r as [x|]; [by eexists|]. exfalso. specialize (Hnone eq_refl).
    assert (n = length line) as -> by lia. clear -E. revert E. generalize 0.
    induction steps as [|[st now] steps IH]; intros s; cbn [client_send_loop]; case_decide as Hd; try done.
    + intros [= Hs]. lia.
    + destruct st as [k| | |]; repeat (case_decide || case_match); try done; apply IH.
Qed.

(** ** Subscriptions *)

Definition events_of (l : list Message) : list Event :=
  omap (λ m, match m with MsgEvent e => Some e | _ => None end) l.

Context (capacity : nat) (show_bad : option Message → string).
Local Abbreviation step := (handle_connection capacity show_bad).
Local Abbreviation reachable := (sc_reachable capacity show_bad).

(** What a subscription has received is exactly what was written since its
    acknowledgement, which is a response. *)
Definition sub_ok (ack : nat) (out : list Message) (su : Subscription) : Prop :=
  su_next su ≤ length (su_log su) ∧ events_of (drop ack out) = take (su_next su) (su_log su) ∧
  ∃ before r after, out = before ++ MsgResponse r :: after ∧ ack = S (length before).

Record sc_inv (c : ServerConn) : Prop := {
  si_silent : sc_sub c = None → events_of (sc_out c) = [];
  si_sub : ∀ su, sc_sub c = Some su → sub_ok (sc_ack c) (sc_out c) su;
  si_pending : ∀ b p, sc_phase c = Awaiting b p →
    (b = true → is_Some p) ∧ ∀ su, p = Some su → su_next su = 0
}.

Lemma events_of_app a b : events_of (a ++ b) = events_of a ++ events_of b.
Proof. apply omap_app. Qed.

Lemma sub_ok_publish ack out su e : sub_ok ack out su → sub_ok ack out (su_publish e su).
Proof.
  intros (Hn & He & Ha). unfold sub_ok, su_publish; cbn. split; [rewrite length_app; lia|].
  split; [|done]. by rewrite take_app_le.
Qed.

Lemma sub_ok_response ack out su r : sub_ok ack out su → sub_ok ack (out ++ [MsgResponse r]) su.
Proof.
  intros (Hn & He & before & r' & after & -> & ->). unfold sub_ok. split; [done|]. split.
  - rewrite drop_app_le, events_of_app by (rewrite length_app; simpl; lia). simpl. by rewrite app_nil_r.
  - exists before, r', (after ++ [MsgResponse r]). by rewrite <-app_assoc.
Qed.

Lemma sub_ok_event ack out su e :
  sub_ok ack out su → su_log su !! su_next su = Some e →
  sub_ok ack (out ++ [MsgEvent e]) {| su_log := su_log su; su_next := S (su_next su) |}.
Proof.
  intros (Hn & He & before & r' & after & -> & ->) Hl. unfold sub_ok; cbn [su_log su_next].
  split; [by apply lookup_lt_Some in Hl|]. split.
  - rewrite drop_app_le, events_of_app, He by (rewrite length_app; simpl; lia). symmetry. by apply take_S_r.
  - exists before, r', (after ++ [MsgEvent e]). by rewrite <-app_assoc.
Qed.

Lemma sc_inv_close c : sc_inv c → sc_inv (sc_close c).
Proof. intros [G1 G2 G3]. split; [exact G1|exact G2|done]. Qed.

(** Writing a response. *)
Lemma sc_inv_reply w r (b : bool) p c :
  sc_inv c → (b = true → is_Some p) → (∀ su, p = Some su → su_next su = 0) →
  sc_inv (sc_send w (MsgResponse r) (sc_replied b p) c).
Proof.
  intros Hinv Hp Hz. unfold sc_send. destruct (send_message w _); [|by apply sc_inv_close]. destruct Hinv as [G1 G2 G3].
  split; cbn [sc_sub sc_ack sc_out sc_phase sc_replied]; [| |done].
  - intros Hs. rewrite events_of_app. destruct b; [by destruct (Hp eq_refl) as [? ->]|]. by rewrite G1.
  - intros su Hs. destruct b; [|by apply sub_ok_response, G2].
    unfold sub_ok. rewrite (Hz su Hs), take_0, drop_all. split; [lia|]. split; [done|].
    exists (sc_out c), r, []. split; [done|]. rewrite length_app. simpl. lia.
Qed.

Lemma sc_inv_error w r c : sc_inv c → sc_inv (sc_send w (MsgResponse r) sc_reading c).
Proof. intros Hinv. apply (sc_inv_reply w r false None c Hinv); done. Qed.

Lemma sc_inv_line w line c : sc_inv c → sc_inv (sc_line show_bad w line c).
Proof.
  intros Hinv. unfold sc_line. destruct (from_slice line) as [[req|resp|ev]|]; [|by apply sc_inv_error..].
  destruct Hinv as [G1 G2 G3]. split; [exact G1|exact G2|]. cbn [sc_phase]. intros b p [= <- <-].
  destruct (is_subscribe_request req); split; try done; intros su [= <-]; done.
Qed.

Lemma sc_inv_event w c : sc_inv c → sc_inv (step (CoEvent w) c).
Proof.
  intros Hinv. cbn [handle_connection]. destruct (sc_phase c); try done. destruct (sc_sub c) as [su|] eqn:Es; [|done].
  case_decide; [by apply sc_inv_close|]. destruct (su_log su !! su_next su) as [e|] eqn:El; [|done].
  unfold sc_send. destruct (send_message w _); [|by apply sc_inv_close]. destruct Hinv as [G1 G2 G3].
  split; cbn; try done. intros su' [= <-]. by apply sub_ok_event; [apply G2|].
Qed.

Lemma sc_inv_step op c : sc_inv c → sc_inv (step op c).
Proof.
  intros Hinv. destruct op as [chunks e|w| |e|w| |r w]; [| | | |by apply sc_inv_event| |]; cbn [handle_connection].
  - destruct Hinv as [G1 G2 G3]. by split.
  - destruct (sc_phase c); try done. destruct (read_message _ _) as [[r buffer] src]. set (c' := Build_ServerConn _ _ _ _ _ _ _).
    assert (sc_inv c') by (destruct Hinv as [G1 G2 G3]; by split).
    destruct r; try (by apply sc_inv_close); [by apply sc_inv_line|done].
  - destruct (sc_phase c); try done. destruct (sc_sub c); [done|by apply sc_inv_close].
  - destruct Hinv as [G1 G2 G3]. split; cbn [sc_sub sc_ack sc_out sc_phase].
    + intros Hs%fmap_None. by apply G1.
    + intros su (su' & Hs & ->)%fmap_Some. by apply sub_ok_publish, G2.
    + intros b p Hp. destruct (sc_phase c) as [|b' p'|] eqn:Ep; [done| |done]. injection Hp as <- <-.
      destruct (G3 _ _ eq_refl) as [Hb Hz]. split; [intros Hbt; destruct (Hb Hbt) as [? ->]; by eexists|].
      intros su (su' & Hs & ->)%fmap_Some. exact (Hz su' Hs).
  - destruct (sc_phase c); try done. destruct (sc_sub c); [|done]. case_decide; [done|by apply sc_inv_close].
  - destruct (sc_phase c) as [|b p|] eqn:Ep; try done. destruct r as [r|]; [|by apply sc_inv_close].
    destruct (si_pending _ Hinv _ _ Ep) as [? ?]. by apply sc_inv_reply.
Qed.

Lemma sc_reachable_inv c : reachable c → sc_inv c.
Proof. induction 1 as [|op c _ IH]; [by split|by apply sc_inv_step]. Qed.

(** A subscriber sees every event, in order, and none before its
    acknowledgement.  In every reachable state of a connection, whatever the
    client, the daemon and the bus did: without a subscription in effect no event
    was ever written; with one, the events written since its acknowledgement (a
    response) are exactly the first ones published since it was requested, with
    no gap, repetition or reordering. *)
Theorem subscriber_sees_prefix c :
  reachable c →
  match sc_sub c with
  | None => events_of (sc_out c) = []
  | Some su =>
    su_next su ≤ length (su_log su) ∧ events_of (drop (sc_ack c) (sc_out c)) = take (su_next su) (su_log su) ∧
    ∃ before r after, sc_out c = before ++ MsgResponse r :: after ∧ sc_ack c = S (length before)
  end.
Proof. intros [G1 G2 _]%sc_reachable_inv. destruct (sc_sub c) as [su|]; [by apply G2|by apply G1]. Qed.

Lemma deliver_all n c su :
  reachable c → sc_phase c = Reading → sc_sub c = Some su → n = length (su_log su) - su_next su → n ≤ capacity →
  Forall (λ e, is_Some (message_line (MsgEvent e))) (su_log su) →
  let c' := Nat.iter n (step (CoEvent true)) c in
  sc_phase c' = Reading ∧ sc_ack c' = sc_ack c ∧ ∃ su', sc_sub c' = Some su' ∧ su_log su' = su_log su ∧ length (su_log su) ≤ su_next su'.
Proof.
  revert c su; induction n as [|n IH]; intros c su Hr Hp Hs Hn Hcap Hall c'.
  - subst c'. simpl. split; [done|]. split; [done|]. exists su. split_and!; try done. lia.
  - subst c'. rewrite Nat.iter_succ_r.
    destruct (lookup_lt_is_Some_2 (su_log su) (su_next su)) as [e He]; [lia|].
    assert (step (CoEvent true) c =
      {| sc_phase := Reading; sc_buffer := sc_buffer c; sc_src := sc_src c;
         sc_sub := Some {| su_log := su_log su; su_next := S (su_next su) |}; sc_ack := sc_ack c;
         sc_requests := sc_requests c; sc_out := sc_out c ++ [MsgEvent e] |}) as Hstep.
    { cbn [handle_connection]. rewrite Hp, Hs, decide_False, He by lia. unfold sc_send, send_message.
      rewrite Forall_lookup in Hall. destruct (Hall _ _ He) as [line ->]. reflexivity. }
    destruct (IH (step (CoEvent true) c) {| su_log := su_log su; su_next := S (su_next su) |}) as (G1 & G2 & su' & G3 & G4 & G5);
      rewrite ?Hstep; cbn; try done; try lia; [rewrite <-Hstep; by constructor|].
    rewrite <-Hstep. split; [done|]. split; [by rewrite G2, Hstep|]. by exists su'.
Qed.

(** A subscriber that keeps up gets everything.  Whenever the unread backlog of a
    subscription fits the bus and its events fit a line, letting the event branch
    win as often as there are unread events writes all of them: everything
    published since the subscription is then on the wire, in order. *)
Theorem subscriber_catches_up c su :
  reachable c → sc_phase c = Reading → sc_sub c = Some su →
  length (su_log su) - su_next su ≤ capacity → Forall (λ e, is_Some (message_line (MsgEvent e))) (su_log su) →
  let c' := Nat.iter (length (su_log su) - su_next su) (step (CoEvent true)) c in
  sc_phase c' = Reading ∧ events_of (drop (sc_ack c) (sc_out c')) = su_log su.
Proof.
  intros Hr Hp Hs Hcap Hall c'.
  destruct (deliver_all _ c su Hr Hp Hs eq_refl Hcap Hall) as (Hp' & Ha & su' & Hs' & Hl & Hn). fold c' in Hp', Ha, Hs'.
  split; [done|]. assert (reachable c') as Hr'.
  { subst c'. clear -Hr. induction (length (su_log su) - su_next su) as [|n IH]; [done|].
    change (reachable (step (CoEvent true) (Nat.iter n (step (CoEvent true)) c))). by constructor. }
  destruct (si_sub _ (sc_reachable_inv _ Hr') su' Hs') as (_ & He & _).
  rewrite <-Ha, He, Hl. apply firstn_all2. lia.
Qed.

(** A second [Subscribe] on a connection replaces the receiver: events of the
    first one that were not yet written are dropped without closing. *)
Lemma resubscribe_drops_backlog c su r line :
  sc_phase c = Reading → sc_sub c = Some su → from_slice line = Some (MsgRequest RqSubscribe) →
  is_Some (message_line (MsgResponse r)) →
  let c' := step (CoReply (Some r) true) (sc_line show_bad true line c) in
  sc_phase c' = Reading ∧ sc_sub c' = Some {| su_log := []; su_next := 0 |} ∧ sc_out c' = sc_out c ++ [MsgResponse r].
Proof.
  intros Hp Hs Hl [b Hb] c'. subst c'. unfold sc_line. rewrite Hl. cbn [handle_connection sc_phase].
  unfold sc_send, send_message. rewrite Hb. done.
Qed.
End connection.

(** The socket file is only ever unlinked by a daemon that holds the lock, after
    the address was found in use by a socket whose owner refused the probe. *)
Lemma bind_unlinks_only_stale env :
  (bind env).2 = true →
  be_locked env = true ∧ be_created env = Err true ∧ be_is_socket env = true ∧ be_probe_refused env = true.
Proof. destruct env as [[] [] [[]|[]] [] [] ? ?]; done. Qed.

(** ** A concrete connection *)

Section wit.

(** Subscribe requests, acknowledgements and log events, one letter each. *)
#[local] Instance toy_json_message_line : JsonOps Message :=
  {| to_vec m := match m with
                 | MsgRequest RqSubscribe => Some (bytes_of "s")
                 | MsgResponse RsOk => Some (bytes_of "k")
                 | MsgEvent EvConfigChanged => Some (bytes_of "c")
                 | _ => None
                 end;
     from_slice b := match string_of b with
                     | String c r =>
                       if decide (r = "" ∨ r = String newline "") then
                         if decide (c = "s"%char) then Some (MsgRequest RqSubscribe)
                         else if decide (c = "k"%char) then Some (MsgResponse RsOk)
                         else if decide (c = "c"%char) then Some (MsgEvent EvConfigChanged) else None
                       else None
                     | EmptyString => None
                     end |}.
#[local] Instance toy_json_line_laws : JsonLineLaws.
Proof.
  split; intros [[]|[]|[]] b; simpl; try done; intros [= <-]; try (by vm_compute); cbn; intros Hin;
    repeat (apply elem_of_cons in Hin as [Hin|Hin]; [discriminate Hin|]); by apply elem_of_nil in Hin.
Qed.

Definition wit_show (_ : option Message) : string := "".
Definition wit_ops : list ConnOp :=
  [CoBytes [bytes_of "s"; [newline]] StillOpen; CoRead true; CoPublish EvConfigChanged; CoReply (Some RsOk) true; CoPublish EvConfigChanged].
Definition wit_server_conn : ServerConn :=
  fold_left (λ c op, handle_connection 1024 wit_show op c) wit_ops sc_fresh.

Lemma subscriber_catches_up_witness :
  events_of (sc_out (Nat.iter 2 (handle_connection 1024 wit_show (CoEvent true)) wit_server_conn)) = [EvConfigChanged; EvConfigChanged].
Proof.
  destruct (subscriber_catches_up 1024 wit_show wit_server_conn {| su_log := [EvConfigChanged; EvConfigChanged]; su_next := 0 |})
    as [_ He]; [repeat constructor|reflexivity|reflexivity|cbn; lia|repeat constructor; by eexists|exact He].
Defined.

Lemma subscriber_sees_prefix_witness :
  events_of (drop 1 (sc_out (handle_connection 1024 wit_show (CoEvent true) wit_server_conn))) = [EvConfigChanged].
Proof.
  destruct (subscriber_sees_prefix 1024 wit_show (handle_connection 1024 wit_show (CoEvent true) wit_server_conn)) as (_ & He & _);
    [repeat constructor|exact He].
Defined.

Lemma wit_short_line c : c ≠ newline → one_line ([c] ++ [newline]).
Proof.
  intros Hc. split; [pose proof max_message_Z as Hm; unfold MAX_MESSAGE_BYTES in Hm; cbn [app length]; lia|].
  exists [c]. split; [done|]. intros Hin%list_elem_of_singleton. by apply Hc.
Qed.

Lemma lines_delivered_witness :
  read_bursts [] [[bytes_of "s"]; [[newline]; bytes_of "k"]; [[newline]]] = [bytes_of "s" ++ [newline]; bytes_of "k" ++ [newline]].
Proof.
  apply lines_delivered.
  - repeat constructor; discriminate.
  - repeat (apply Forall_cons; split; [apply (wit_short_line "s") || apply (wit_short_line "k"); discriminate|]). apply Forall_nil_2.
  - reflexivity.
Defined.

Lemma client_send_decides_witness :
  is_Some (client_send (Some 10%Z) RqSubscribe [(Wrote 1, 1%Z); (WriteBlocked, 20%Z)]).1.
Proof.
  destruct (client_send (Some 10%Z) RqSubscribe [(Wrote 1, 1%Z); (WriteBlocked, 20%Z)]) as [r out] eqn:E.
  pose proof (client_send_decides (Some 10%Z) RqSubscribe [(Wrote 1, 1%Z); (WriteBlocked, 20%Z)] (bytes_of "s" ++ [newline])) as Hx.
  rewrite E in Hx. destruct Hx as (_ & _ & Hd); [reflexivity|]. apply Hd. vm_compute. lia.
Defined.
End wit.
