(* ===== verification/Identity.v ===== *)
(** * Machine identity ([crates/synbad-discovery/src/identity.rs])

    The machine id and the ed25519 key pair, loaded from disk or created on
    first use, and the fingerprint shown to the user. *)

From Stdlib Require Import Ascii ZArith Lia.
From S2P Require Import Prelude Primitives LogParse Store.

(** The [uuid] package: parsing and printing. *)
Class UuidOps := {
  Uuid : Type;
  uuid_parse : string → option Uuid;
  uuid_to_string : Uuid → string
}.
(** The text is lower-case hex digits and hyphens. *)
Class UuidLaws `{UuidOps} := {
  uuid_roundtrip : ∀ u, uuid_parse (uuid_to_string u) = Some u;
  uuid_text : ∀ u, Forall (λ c, byte_in 45 102 c = true) (bytes_of (uuid_to_string u))
}.

(** A 32-byte secret and the key it stands for. *)
Class SecretOps `{Ed25519Ops} := {
  key_from_bytes : bytes → SigningKey;
  key_to_bytes : SigningKey → bytes
}.
Class SecretLaws `{SecretOps} := {
  key_from_to_bytes : ∀ k, key_from_bytes (key_to_bytes k) = k;
  key_to_bytes_length : ∀ k, length (key_to_bytes k) = 32
}.

Inductive IdentityError :=
| IdIo (path : string)
| BadMachineId (path : string)
| BadKeyLength (path : string).

(** A hyphen before every [n]-th character but the first. *)
Fixpoint hyphenate_from (n i : nat) (s : bytes) : bytes :=
  match s with
  | [] => []
  | c :: s' => (if decide (0 < i ∧ i mod n = 0) then bytes_of "-" else []) ++ c :: hyphenate_from n (S i) s'
  end.
Definition hyphenate (n : nat) (s : string) : string := string_of (hyphenate_from n 0 (bytes_of s)).

Section identity.
Context `{HexOps, Sha256Ops, SecretOps, UuidOps}.

Definition fingerprint_for (public_key : bytes) : string :=
  hyphenate 4 (hex_encode (take 8 (sha256 public_key))).

Record Identity := {
  id_machine_id : Uuid;
  id_public_key : bytes;
  id_secret_key : bytes;
  id_fingerprint : string
}.

Definition signing_key (i : Identity) : SigningKey := key_from_bytes (id_secret_key i).

(** [dir.join(_)] of the three files. *)
Record IdentityPaths := { ip_dir : string; ip_machine_id : string; ip_secret : string; ip_public : string }.

(** [fresh] is what [Uuid::new_v4] would draw. *)
Definition load_or_create_machine_id (p : IdentityPaths) (fresh : Uuid) (fs : Fs)
    : result IdentityError Uuid * Fs :=
  let path := ip_machine_id p in
  let '(r, fs) := fs_read_to_string path fs in
  match r with
  | FileBytes b =>
    (match uuid_parse (string_of (trim b)) with Some u => Ok u | None => Err (BadMachineId path) end, fs)
  | NotFound =>
    let '(ok, fs) := fs_write path (bytes_of (uuid_to_string fresh)) fs in
    (if ok then Ok fresh else Err (IdIo path), fs)
  | ReadFailed => (Err (IdIo path), fs)
  end.

(** [fresh] is what [SigningKey::generate] would draw. *)
Definition load_or_create_keypair (p : IdentityPaths) (fresh : SigningKey) (fs : Fs)
    : result IdentityError (bytes * bytes) * Fs :=
  match fs_files fs !! ip_secret p with
  | Some _ =>                                   (* [secret_path.exists()] *)
    let '(r, fs) := fs_read (ip_secret p) fs in
    match r with
    | FileBytes b =>
      match to_array 32 b with
      | Some secret =>
        let public := verifying_key (key_from_bytes secret) in
        (Ok (secret, public), (fs_write (ip_public p) public fs).2)
      | None => (Err (BadKeyLength (ip_secret p)), fs)
      end
    | _ => (Err (IdIo (ip_secret p)), fs)
    end
  | None =>
    let secret := key_to_bytes fresh in
    let public := verifying_key fresh in
    let '(ok, fs) := fs_write (ip_secret p) secret fs in
    if negb ok then (Err (IdIo (ip_secret p)), fs) else
    let '(ok, fs) := fs_write (ip_public p) public fs in
    if negb ok then (Err (IdIo (ip_public p)), fs) else (Ok (secret, public), fs)
  end.

Definition load_or_create (p : IdentityPaths) (fresh_id : Uuid) (fresh_key : SigningKey) (fs : Fs)
    : result IdentityError Identity * Fs :=
  let '(ok, fs) := fs_other fs in
  if negb ok then (Err (IdIo (ip_dir p)), fs) else
  let '(r, fs) := load_or_create_machine_id p fresh_id fs in
  match r with
  | Err e => (Err e, fs)
  | Ok machine_id =>
    let '(r, fs) := load_or_create_keypair p fresh_key fs in
    match r with
    | Err e => (Err e, fs)
    | Ok (secret_key, public_key) =>
      (Ok {| id_machine_id := machine_id; id_public_key := public_key; id_secret_key := secret_key;
             id_fingerprint := fingerprint_for public_key |}, fs)
    end
  end.
End identity.

(** Text without white space is its own trimmed text. *)
Lemma strip_any_none ps c s :
  Forall (λ p, match p with [] => False | h :: _ => byte_in 45 102 h = false end) ps →
  byte_in 45 102 c = true → strip_any ps (c :: s) = None.
Proof.
  intros Hps Hc. induction Hps as [|q ps Hq _ IH]; [done|]. simpl. destruct q as [|h q]; [done|]. simpl.
  case_decide as Heq; [congruence|exact IH].
Qed.

Lemma whitespace_heads :
  Forall (λ p, match p with [] => False | h :: _ => byte_in 45 102 h = false end) whitespace ∧
  Forall (λ p, match p with [] => False | h :: _ => byte_in 45 102 h = false end) (map (@reverse ascii) whitespace).
Proof. split; repeat constructor. Qed.

Lemma trim_plain s : Forall (λ c, byte_in 45 102 c = true) s → trim s = s.
Proof.
  intros Hs. unfold trim. assert (trim_start s = s) as ->.
  { apply trim_start_id. destruct Hs as [|c s Hc _]; [reflexivity|]. by apply strip_any_none; [apply whitespace_heads|]. }
  unfold trim_end. assert (∀ n r, Forall (λ c, byte_in 45 102 c = true) r → trim_end_n n r = r) as Hr.
  { intros n r Hf. destruct n; [done|]. cbn [trim_end_n]. destruct Hf as [|c r Hc _]; [reflexivity|].
    by rewrite strip_any_none by (apply whitespace_heads || done). }
  rewrite Hr by (by apply Forall_reverse). apply reverse_involutive.
Qed.

Lemma plain_utf8 s : Forall (λ c, byte_in 45 102 c = true) s → valid_utf8 s = true.
Proof.
  induction 1 as [|c s Hc _ IH]; [done|]. cbn [valid_utf8].
  assert (byte_in 0 0x7F c = true) as ->; [|done]. unfold byte_in in *.
  rewrite andb_true_iff, !Z.leb_le in *. lia.
Qed.

Section identity_laws.
Context `{HexOps, Sha256Ops, SecretLaws, UuidLaws}.
Context (p : IdentityPaths).
Context (Hpaths : NoDup [ip_machine_id p; ip_secret p; ip_public p]).

Local Notation load_id := (load_or_create_machine_id p).
Local Notation load_key := (load_or_create_keypair p).
Local Notation load := (load_or_create p).

(** A file that reads back as this id; one that holds this secret. *)
Definition id_on_disk (u : Uuid) (fs : Fs) : Prop :=
  ∃ b, content (ip_machine_id p) fs = Some b ∧ valid_utf8 b = true ∧ uuid_parse (string_of (trim b)) = Some u.
Definition key_on_disk (secret : bytes) (fs : Fs) : Prop :=
  content (ip_secret p) fs = Some secret ∧ length secret = 32.

Lemma fs_read_ok path fs b fs' :
  fs_read path fs = (FileBytes b, fs') → content path fs = Some b ∧ fs_files fs' = fs_files fs.
Proof.
  unfold fs_read, content. destruct (next_fault fs) as [f fs1] eqn:E. apply next_fault_files in E.
  destruct f; [|done]. destruct (fs_files fs1 !! path) eqn:El; [|done]. intros [= <- <-]. by rewrite <-E.
Qed.

Lemma fs_read_to_string_ok path fs r fs' :
  fs_read_to_string path fs = (r, fs') →
  fs_files fs' = fs_files fs ∧ ∀ b, r = FileBytes b → content path fs = Some b ∧ valid_utf8 b = true.
Proof.
  unfold fs_read_to_string, fs_read, content. destruct (next_fault fs) as [f fs1] eqn:E. apply next_fault_files in E.
  destruct f; [|by intros [= <- <-]]. rewrite <-E. destruct (fs_files fs1 !! path) as [b|] eqn:El; [|by intros [= <- <-]].
  destruct (valid_utf8 b) eqn:Ev; intros [= <- <-]; (split; [done|]); [by intros ? [= <-]|done].
Qed.

Lemma load_id_spec fresh fs u fs' :
  load_id fresh fs = (Ok u, fs') →
  id_on_disk u fs' ∧ ∀ q, q ≠ ip_machine_id p → content q fs' = content q fs.
Proof.
  unfold load_or_create_machine_id. destruct (fs_read_to_string _ fs) as [r fs1] eqn:Er.
  apply fs_read_to_string_ok in Er as [Hf Hb].
  assert (∀ q, content q fs1 = content q fs) as Hq by (intros q; unfold content; by rewrite Hf).
  destruct r as [b| |]; [| |done].
  - destruct (Hb b eq_refl) as [Hc Hv]. destruct (uuid_parse _) as [v|] eqn:Ep; [|done]. intros [= <- <-].
    split; [|intros q _; apply Hq]. exists b. by rewrite Hq.
  - destruct (fs_write _ _ fs1) as [ok fs2] eqn:Ew. destruct ok; [|done]. intros [= <- <-]. split.
    + exists (bytes_of (uuid_to_string fresh)). rewrite (fs_write_ok _ _ _ _ Ew), trim_plain, plain_utf8 by apply uuid_text.
      by rewrite string_of_bytes_of, uuid_roundtrip.
    + intros q Hne. rewrite <-Hq. by eapply fs_write_other.
Qed.

Lemma load_key_spec fresh fs secret public fs' :
  load_key fresh fs = (Ok (secret, public), fs') →
  key_on_disk secret fs' ∧ public = verifying_key (key_from_bytes secret) ∧
  content (ip_machine_id p) fs' = content (ip_machine_id p) fs.
Proof.
  assert (ip_machine_id p ≠ ip_secret p ∧ ip_machine_id p ≠ ip_public p ∧ ip_secret p ≠ ip_public p) as (Hd1 & Hd2 & Hd3).
  { apply NoDup_cons in Hpaths as [H1' H2']. apply NoDup_cons in H2' as [H3' _]. set_solver. }
  unfold load_or_create_keypair. destruct (fs_files fs !! ip_secret p) as [b0|] eqn:Eex.
  - destruct (fs_read _ fs) as [r fs1] eqn:Er. destruct r as [b| |]; [|done..].
    apply fs_read_ok in Er as [Hc Hf]. destruct (to_array 32 b) as [sec|] eqn:Et; [|done].
    apply to_array_Some in Et as [-> Hlen]. intros [= <- <- <-].
    destruct (fs_write (ip_public p) _ fs1) as [ok fs2] eqn:Ew. simpl.
    assert (∀ q, q ≠ ip_public p → content q fs2 = content q fs) as Hq
      by (intros q Hne; rewrite (fs_write_other _ _ _ _ _ _ Ew Hne); unfold content; by rewrite Hf).
    split; [split; [by rewrite Hq|done]|]. split; [done|by apply Hq].
  - destruct (fs_write (ip_secret p) _ fs) as [ok fs1] eqn:E1. destruct ok; [|done]. simpl.
    destruct (fs_write (ip_public p) _ fs1) as [ok fs2] eqn:E2. destruct ok; [|done]. simpl. intros [= <- <- <-].
    split; [split; [|apply key_to_bytes_length]|split; [by rewrite key_from_to_bytes|]].
    + rewrite (fs_write_other _ _ _ _ _ _ E2) by done. by eapply fs_write_ok.
    + rewrite (fs_write_other _ _ _ _ _ _ E2), (fs_write_other _ _ _ _ _ _ E1) by done. done.
Qed.

(** The identity is stable.  Once [load_or_create] has succeeded (creating or
    loading), every later start from the same disk without faults returns the
    same machine id, keys and fingerprint, whatever randomness it draws; the
    public key is the one the secret signs for. *)
Theorem identity_stable u k fs i fs' u' k' :
  load u k fs = (Ok i, fs') →
  (load u' k' (healthy fs')).1 = Ok i ∧ id_public_key i = verifying_key (signing_key i).
Proof.
  unfold load_or_create. destruct (fs_other fs) as [ok fs0]. destruct ok; [|done]. simpl.
  destruct (load_id u fs0) as [[mid|] fs1] eqn:E1; [|done]. apply load_id_spec in E1 as [(b & Hb & Hs & Hu) _].
  destruct (load_key k fs1) as [[[secret public]|] fs2] eqn:E2; [|done].
  apply load_key_spec in E2 as ((Hsec & Hlen) & -> & Hmid). intros [= <- <-]. split; [|done].
  assert (content (ip_machine_id p) fs2 = Some b) as Hb2 by (by rewrite Hmid).
  unfold load_or_create_machine_id. rewrite fs_read_to_string_content, Hb2, Hs, Hu. unfold load_or_create_keypair.
  change (fs_files (healthy fs2) !! ip_secret p) with (content (ip_secret p) fs2). rewrite Hsec.
  rewrite fs_read_content by done. change (content (ip_secret p) (healthy fs2)) with (content (ip_secret p) fs2).
  rewrite Hsec. unfold to_array. by rewrite decide_True by done.
Qed.

(** A key write that fails part-way is permanent.  The first start reports the
    error, but leaves a short secret file behind; every later start finds it,
    reports [BadKeyLength] and never regenerates it. *)
Theorem interrupted_key_write_is_permanent k k' fs n :
  content (ip_secret p) fs = None → fs_faults fs = [FailsAfter n] → n < 32 →
  is_ok (load_key k fs).1 = false ∧
  (load_key k' (healthy (load_key k fs).2)).1 = Err (BadKeyLength (ip_secret p)).
Proof.
  intros Hc Hf Hn.
  assert (load_key k fs = (Err (IdIo (ip_secret p)),
    set_file (ip_secret p) (take n (key_to_bytes k)) {| fs_files := fs_files fs; fs_faults := [] |})) as ->.
  { unfold load_or_create_keypair. unfold content in Hc. rewrite Hc. unfold fs_write, next_fault. by rewrite Hf. }
  split; [done|]. set (fs1 := set_file _ _ _). cbn [snd].
  assert (content (ip_secret p) fs1 = Some (take n (key_to_bytes k))) as Hc1 by (unfold content; simpl; by rewrite lookup_insert_eq).
  clearbody fs1. unfold load_or_create_keypair.
  change (fs_files (healthy fs1) !! ip_secret p) with (content (ip_secret p) fs1). rewrite Hc1.
  rewrite fs_read_content by done. change (content (ip_secret p) (healthy fs1)) with (content (ip_secret p) fs1).
  rewrite Hc1. unfold to_array. rewrite decide_False; [done|].
  rewrite length_take, key_to_bytes_length. lia.
Qed.
End identity_laws.

(** ** A concrete identity *)

Definition toy_uuid : UuidOps :=
  {| Uuid := bool; uuid_parse s := if decide (s = "a"%string) then Some true else if decide (s = "b"%string) then Some false else None;
     uuid_to_string b := if b then "a"%string else "b"%string |}.
Lemma toy_uuid_laws : UuidLaws (H := toy_uuid).
Proof. split; intros []; try done; repeat constructor. Qed.

(** Two keys, told apart by their first byte. *)
Definition toy_key_bytes (k : bool) : bytes := fit 32 [byte_of_Z (if k then 1 else 0)].
Definition toy_ed_bool : Ed25519Ops :=
  {| SigningKey := bool; verifying_key := toy_key_bytes; sign k m := toy_key_bytes k ++ fit 32 m;
     vk_valid _ := true; ed_verify pk m s := bool_decide (s = pk ++ fit 32 m) |}.
Definition toy_secret : SecretOps (H := toy_ed_bool) :=
  {| key_from_bytes b := bool_decide (b = toy_key_bytes true) : @SigningKey toy_ed_bool; key_to_bytes := toy_key_bytes |}.
Lemma toy_secret_laws : SecretLaws (H0 := toy_secret).
Proof. split; intros []; by vm_compute. Qed.

Definition wit_id_paths : IdentityPaths :=
  {| ip_dir := "id"; ip_machine_id := "id/machine-id"; ip_secret := "id/secret"; ip_public := "id/public" |}.

Section wit.
#[local] Existing Instances toy_hex toy_sha toy_ed_bool toy_secret toy_secret_laws toy_uuid toy_uuid_laws.

Definition wit_first : result IdentityError Identity * Fs :=
  load_or_create wit_id_paths (true : @Uuid toy_uuid) (true : @SigningKey toy_ed_bool) (wit_fs []).
Definition wit_identity : Identity :=
  {| id_machine_id := (true : @Uuid toy_uuid); id_public_key := toy_key_bytes true; id_secret_key := toy_key_bytes true;
     id_fingerprint := fingerprint_for (toy_key_bytes true) |}.

Lemma identity_stable_witness :
  (load_or_create wit_id_paths (false : @Uuid toy_uuid) (false : @SigningKey toy_ed_bool) (healthy wit_first.2)).1 = Ok wit_identity.
Proof.
  apply (identity_stable wit_id_paths) with (u := true : @Uuid toy_uuid) (k := true : @SigningKey toy_ed_bool) (fs := wit_fs []).
  - repeat constructor; set_solver.
  - vm_compute. reflexivity.
Defined.

Lemma interrupted_key_write_is_permanent_witness :
  (load_or_create_keypair wit_id_paths (false : @SigningKey toy_ed_bool)
     (healthy (load_or_create_keypair wit_id_paths (true : @SigningKey toy_ed_bool) (wit_fs [FailsAfter 5])).2)).1
  = Err (BadKeyLength "id/secret").
Proof. apply (interrupted_key_write_is_permanent (H1 := toy_ed_bool) wit_id_paths (true : @SigningKey toy_ed_bool) (false : @SigningKey toy_ed_bool) (wit_fs [FailsAfter 5]) 5); [reflexivity|reflexivity|lia]. Defined.
End wit.
