(* ===== verification/PairProtocol.v ===== *)
(** * Pairing messages ([crates/synbad-discovery/src/pairing.rs])

    The transport-independent part of pairing: the two messages, the transcript
    both sides compute from the two hellos, the code shown to the users and the
    signature over the transcript. *)

From Stdlib Require Import Ascii ZArith Lia.
From S2P Require Import Prelude Primitives Identity.

Definition SAS_DOMAIN : bytes := bytes_of "synbad-pair-sas-v1".

Inductive PairingError :=
| PairMalformed (what : string)
| BadSignature
| PeerDeclined
| BadPublicKey.

Record PairHello := { ph_pubkey_hex : string; ph_nonce_hex : string; ph_machine_id : string; ph_display_name : string }.
Record PairConfirm := { pc_accepted : bool; pc_sig_hex : string }.

Global Instance PairHello_eq_dec : EqDecision PairHello.
Proof. solve_decision. Defined.

(** The four fields of one side, in the order they are pushed. *)
Definition push_side (out : bytes) (side : PairHello) : bytes :=
  push_field (push_field (push_field (push_field out
    (bytes_of (ph_pubkey_hex side))) (bytes_of (ph_nonce_hex side)))
    (bytes_of (ph_machine_id side))) (bytes_of (ph_display_name side)).

Definition canonical_transcript (a b : PairHello) : bytes :=
  let '(lo, hi) := if String.leb (ph_pubkey_hex a) (ph_pubkey_hex b) then (a, b) else (b, a) in
  fold_left push_side [lo; hi] [].

Section ops.
Context `{HexOps, Sha256Ops, Ed25519Ops}.

Definition sas_code (transcript : bytes) : string :=
  hyphenate 2 (hex_encode (take 6 (sha256 (transcript ++ SAS_DOMAIN)))).

Definition sign_transcript (key : SigningKey) (transcript : bytes) : string :=
  hex_encode (sign key transcript).

Definition verify_signature (peer_pubkey_hex : string) (transcript : bytes) (sig_hex : string)
    : result PairingError unit :=
  let? pk_bytes := ok_or BadPublicKey (hex_decode peer_pubkey_hex) in
  let? pk := ok_or BadPublicKey (to_array 32 pk_bytes) in
  let? _ := if vk_valid pk then Ok tt else Err BadPublicKey in
  let? sig_bytes := ok_or BadSignature (hex_decode sig_hex) in
  let? sig := ok_or BadSignature (to_array 64 sig_bytes) in
  if ed_verify pk transcript sig then Ok tt else Err BadSignature.
End ops.

(** ** The transcript *)

Definition side_fields (h : PairHello) : list bytes :=
  [bytes_of (ph_pubkey_hex h); bytes_of (ph_nonce_hex h); bytes_of (ph_machine_id h); bytes_of (ph_display_name h)].

(** Fields short enough for their length prefix. *)
Definition hello_ok (h : PairHello) : Prop := Forall field_ok (side_fields h).

Lemma push_side_enc out h : push_side out h = out ++ enc_fields (side_fields h).
Proof.
  unfold push_side, enc_fields, side_fields. rewrite !push_field_enc. cbn [map concat].
  by rewrite app_nil_r, <-!app_assoc.
Qed.

Lemma side_fields_inj g h : side_fields g = side_fields h → g = h.
Proof. destruct g, h. unfold side_fields; simpl. intros [= E1 E2 E3 E4]. f_equal; by apply (inj bytes_of). Qed.

Definition lo_hi (a b : PairHello) : PairHello * PairHello :=
  if String.leb (ph_pubkey_hex a) (ph_pubkey_hex b) then (a, b) else (b, a).

Lemma canonical_transcript_enc a b :
  canonical_transcript a b = enc_fields (side_fields (lo_hi a b).1 ++ side_fields (lo_hi a b).2).
Proof.
  unfold canonical_transcript. fold (lo_hi a b). destruct (lo_hi a b) as [lo hi]. cbn [fold_left fst snd].
  rewrite !push_side_enc. cbn [app]. unfold enc_fields. by rewrite map_app, concat_app.
Qed.

Lemma lo_hi_cases a b : lo_hi a b = (a, b) ∨ lo_hi a b = (b, a).
Proof. unfold lo_hi. case_match; auto. Qed.

Lemma lo_hi_sym a b : ph_pubkey_hex a ≠ ph_pubkey_hex b → lo_hi a b = lo_hi b a.
Proof.
  intros Hne. unfold lo_hi, String.leb. rewrite (String.compare_antisym (ph_pubkey_hex b) (ph_pubkey_hex a)).
  destruct (String.compare (ph_pubkey_hex a) (ph_pubkey_hex b)) eqn:E; simpl; try done.
  by apply String.compare_eq_iff in E.
Qed.

Lemma transcript_sym a b :
  ph_pubkey_hex a ≠ ph_pubkey_hex b → canonical_transcript a b = canonical_transcript b a.
Proof. intros Hne. by rewrite !canonical_transcript_enc, lo_hi_sym. Qed.

Lemma transcript_inj a b c d :
  hello_ok a → hello_ok b → hello_ok c → hello_ok d →
  canonical_transcript a b = canonical_transcript c d → lo_hi a b = lo_hi c d.
Proof.
  intros Ha Hb Hc Hd. rewrite !canonical_transcript_enc. intros E.
  assert (∀ x y, hello_ok x → hello_ok y → Forall field_ok (side_fields (lo_hi x y).1 ++ side_fields (lo_hi x y).2)) as Hok.
  { intros x y Hx Hy. destruct (lo_hi_cases x y) as [-> | ->]; by apply Forall_app. }
  apply enc_fields_inj in E; [|by apply Hok..|done].
  apply app_inj_1 in E as [E1 E2]; [|done]. apply side_fields_inj in E1, E2.
  destruct (lo_hi a b), (lo_hi c d). simpl in *. congruence.
Qed.

(** C8: what the transcript pins down.  Two machines with different keys compute
    the same transcript exactly when each has received the other's hello as it
    was sent; so a signature over it, or a code derived from it, vouches for
    both public keys, nonces, machine ids and names. *)
Theorem transcript_agreement own_a got_a own_b got_b :
  hello_ok own_a → hello_ok got_a → hello_ok own_b → hello_ok got_b →
  ph_pubkey_hex own_a ≠ ph_pubkey_hex own_b →
  canonical_transcript own_a got_a = canonical_transcript own_b got_b ↔ got_a = own_b ∧ got_b = own_a.
Proof.
  intros Ha Hga Hb Hgb Hne. split.
  - intros E%transcript_inj; [|done..].
    destruct (lo_hi_cases own_a got_a) as [E1|E1], (lo_hi_cases own_b got_b) as [E2|E2];
      rewrite E1, E2 in E; naive_solver.
  - intros [-> ->]. by apply transcript_sym.
Qed.

(** Without different keys the order is the caller's: each side puts itself first. *)
Lemma same_key_transcripts_differ a b :
  hello_ok a → hello_ok b → ph_pubkey_hex a = ph_pubkey_hex b → a ≠ b →
  canonical_transcript a b ≠ canonical_transcript b a.
Proof.
  intros Ha Hb Hk Hne E%transcript_inj; [|done..]. unfold lo_hi, String.leb in E.
  rewrite Hk, str_compare_refl in E. naive_solver.
Qed.

(** ** Signatures *)

Section laws.
Context `{HexLaws, Sha256Ops, Ed25519Laws}.

Lemma verify_signature_Ok pkh t sig :
  verify_signature pkh t sig = Ok tt ↔
  ∃ pk s, hex_decode pkh = Some pk ∧ length pk = 32 ∧ vk_valid pk = true ∧
    hex_decode sig = Some s ∧ length s = 64 ∧ ed_verify pk t s = true.
Proof.
  unfold verify_signature. split.
  - intros Hv. invert_ok. destruct (vk_valid _) eqn:?; invert_ok. destruct (ed_verify _ _ _) eqn:?; invert_ok.
    repeat match goal with Ha : to_array _ _ = Some _ |- _ => apply to_array_Some in Ha as [? ?]; subst end. naive_solver.
  - unfold to_array. intros (pk & s & -> & Hl & Hv & -> & Hs & Hed). simpl. rewrite (decide_True _ _ Hl). simpl. rewrite Hv. simpl.
    rewrite (decide_True _ _ Hs). simpl. by rewrite Hed.
Qed.

Lemma verify_own_signature key t :
  verify_signature (hex_encode (verifying_key key)) t (sign_transcript key t) = Ok tt.
Proof.
  apply verify_signature_Ok. eexists _, _. unfold sign_transcript. rewrite !hex_decode_encode.
  split_and!; try done; [apply verifying_key_length|apply verifying_key_valid|apply sign_length|apply sign_verifies].
Qed.
End laws.

(** ** Witness *)

Definition wit_hello (k n m d : string) : PairHello :=
  {| ph_pubkey_hex := k; ph_nonce_hex := n; ph_machine_id := m; ph_display_name := d |}.

Lemma transcript_agreement_witness :
  let a := wit_hello "aa" "01" "left" "Desk" in let b := wit_hello "bb" "02" "right" "Sofa" in
  let forged := wit_hello "cc" "02" "right" "Sofa" in
  canonical_transcript a b = canonical_transcript b a ∧
  canonical_transcript a forged ≠ canonical_transcript b forged.
Proof.
  intros a b forged.
  split; [|intros E]; [apply (transcript_agreement a b b a)|apply (transcript_agreement a forged b forged) in E as [? ?]];
    try (repeat constructor); discriminate.
Defined.
