(* ===== verification/Pairing.v ===== *)
(** * Pairing sessions ([crates/synbadd/src/pairing.rs])

    One pairing session from the connected socket to the stored key.  The session
    runs over a connection, owns the trust store and its file while it commits,
    and records the events it sends.  The user's verdict and which branch of the
    [select!] wins are what the environment gives. *)

From Stdlib Require Import Ascii ZArith Lia.
From S2P Require Import Prelude Primitives Identity PairProtocol Cipher Conn Handshake IpcTypes Store.

Inductive PairMessage :=
| MHello (h : PairHello)
| MConfirm (c : PairConfirm).

(** What ends a session early. *)
Inductive PairError :=
| PeHandshake (e : HandshakeError)
| PeSend (e : FrameError)
| PeRecv (e : FrameError)
| PeJson
| PeExpectedHello
| PeWrongPeer (claimed expected : string)
| PeSelfPairing
| PeBadPubkeyHex
| PePubkeyLength
| PeUserDropped
| PeExpectedConfirm
| PePeerDeclined
| PeUserDeclined
| PeVerify (e : PairingError)
| PePersist (e : TrustError).

(** The user's side of the confirmation channel. *)
Inductive Verdict :=
| UserSays (accept : bool)
| UserDropped      (* the sender is gone *)
| UserSilent.

Record Pair := {
  pa_conn : Conn;
  pa_trust : TrustedPeerStore;
  pa_fs : Fs;
  pa_events : list Event;
  pa_received : list PairMessage;   (* what it has read from the channel, in order *)
  pa_deadline : string      (* what is reported if the session is still waiting when its time is up *)
}.

#[export] Instance Pair_eta : Eta Pair := λ r,
  {| pa_conn := pa_conn r; pa_trust := pa_trust r; pa_fs := pa_fs r; pa_events := pa_events r; pa_received := pa_received r;
     pa_deadline := pa_deadline r |}.

Definition set_pa_conn (c : Conn) (s : Pair) : Pair := Eval cbv [update_field] in s <| pa_conn := c |>.
Definition set_pa_store (t : TrustedPeerStore) (fs : Fs) (s : Pair) : Pair :=
  Eval cbv [update_field] in s <| pa_trust := t |> <| pa_fs := fs |>.
Definition add_pa_event (e : Event) (s : Pair) : Pair := Eval cbv [update_field] in s <| pa_events := pa_events s ++ [e] |>.
Definition add_pa_received (m : PairMessage) (s : Pair) : Pair := Eval cbv [update_field] in s <| pa_received := pa_received s ++ [m] |>.
Definition set_pa_deadline (d : string) (s : Pair) : Pair := Eval cbv [update_field] in s <| pa_deadline := d |>.

Abbreviation pair := (prog Pair PairError).

Definition pair_conn {E A} (f : E → PairError) (m : conn E A) : pair A := zoom pa_conn set_pa_conn f m.
Definition pair_emit (e : Event) : pair unit := λ s, (Done tt, add_pa_event e s).
Definition pair_heard (m : PairMessage) : pair unit := λ s, (Done tt, add_pa_received m s).

Definition SESSION_TIMED_OUT : string := "pairing session timed out".

(** [timeout(d, m).await.map_err(reason)] inside the session: while [m] waits,
    [reason] is what the session will report. *)
Definition within {A} (reason : string) (m : pair A) : pair A := λ s,
  match m (set_pa_deadline reason s) with
  | (Waiting, s') => (Waiting, s')
  | (o, s') => (o, set_pa_deadline SESSION_TIMED_OUT s')
  end.

Section session.
Context `{HexOps, Sha256Ops, Ed25519Ops, X25519Ops, HkdfOps, AeadOps, JsonOps AuthFrame, JsonOps PairMessage, JsonOps TrustFile}.
Context `{!SecretOps, UuidOps}.
Context (show_error : PairError → string).

Record SessionDeps := { sd_identity : Identity; sd_display_name : string }.

(** The random draws, the clock and the user, as one session meets them. *)
Record PairEnv := {
  pe_eph : bytes;
  pe_nonce_hs : bytes;
  pe_nonce : bytes;
  pe_now_unix : Z;
  pe_user : Verdict;
  pe_user_first : bool      (* the verdict is there before the peer's next message *)
}.

Definition send_msg (chan : CipherStream) (msg : PairMessage) : pair CipherStream :=
  body ← plift (ok_or PeJson (to_vec msg));
  within "pairing write timed out" (pair_conn PeSend (c_send chan body)).

Definition recv_msg (chan : CipherStream) : pair (CipherStream * PairMessage) :=
  '(chan, body) ← pair_conn PeRecv (c_recv chan);
  msg ← plift (ok_or PeJson (from_slice body));
  pair_heard msg;;
  mret (chan, msg).

Definition pubkey_from_hex (s : string) : result PairError bytes :=
  let? b := ok_or PeBadPubkeyHex (hex_decode s) in ok_or PePubkeyLength (to_array 32 b).

Definition user_verdict (v : Verdict) : pair bool :=
  match v with
  | UserSays b => mret b
  | UserDropped => pfail PeUserDropped
  | UserSilent => λ s, (Waiting, s)
  end.

(** The [select!] of step 3: the user's verdict, or the peer's confirmation first. *)
Definition await_confirmation (env : PairEnv) (chan : CipherStream) : pair (CipherStream * option PairConfirm * bool) :=
  match pe_user env, pe_user_first env with
  | UserSays b, true => mret (chan, None, b)
  | UserDropped, true => pfail PeUserDropped
  | v, _ =>
    '(chan, message) ← recv_msg chan;
    match message with
    | MConfirm confirm =>
      if negb (pc_accepted confirm) then pfail PePeerDeclined else
      b ← user_verdict v; mret (chan, Some confirm, b)
    | MHello _ => pfail PeExpectedConfirm
    end
  end.

(** Step 5: persist, then announce. *)
Definition commit_trust (trusted : TrustedPeer) : pair unit := λ s,
  let '(r, store, fs) := trust_upsert trusted (pa_trust s) (pa_fs s) in
  let s := set_pa_store store fs s in
  match r with
  | Err e => (Failed (PePersist e), s)
  | Ok _ => (Done tt, add_pa_event (EvPairingCompleted trusted) s)
  end.

Definition our_hello (env : PairEnv) (deps : SessionDeps) : PairHello :=
  {| ph_pubkey_hex := hex_encode (id_public_key (sd_identity deps)); ph_nonce_hex := hex_encode (pe_nonce env);
     ph_machine_id := uuid_to_string (id_machine_id (sd_identity deps)); ph_display_name := sd_display_name deps |}.

(** Steps 2 to 5, once both hellos are known. *)
Definition confirm_and_commit (session_id : string) (env : PairEnv) (deps : SessionDeps) (peer_hello : PairHello) (chan : CipherStream)
    : pair unit :=
  let transcript := canonical_transcript (our_hello env deps) peer_hello in
  let sas := sas_code transcript in
  peer_pk ← plift (pubkey_from_hex (ph_pubkey_hex peer_hello));
  pair_emit (EvPairingProposed session_id (ph_machine_id peer_hello) (ph_display_name peer_hello)
               (fingerprint_for peer_pk) sas);;
  '(chan, early_confirm, our_accept) ← await_confirmation env chan;
  let sig := if our_accept : bool then sign_transcript (signing_key (sd_identity deps)) transcript else ""%string in
  chan ← send_msg chan (MConfirm {| pc_accepted := our_accept; pc_sig_hex := sig |});
  if negb our_accept then pfail PeUserDeclined else
  peer_confirm ← match early_confirm with
                 | Some confirm => mret confirm
                 | None => '(_, message) ← recv_msg chan;
                           match message with MConfirm c => mret c | MHello _ => pfail PeExpectedConfirm end
                 end;
  if negb (pc_accepted peer_confirm) then pfail PePeerDeclined else
  plift (rmap_err PeVerify (verify_signature (ph_pubkey_hex peer_hello) transcript (pc_sig_hex peer_confirm)));;
  peer_pk ← plift (pubkey_from_hex (ph_pubkey_hex peer_hello));
  commit_trust {| tp_machine_id := ph_machine_id peer_hello; tp_display_name := ph_display_name peer_hello;
                  tp_public_key_hex := ph_pubkey_hex peer_hello; tp_fingerprint := fingerprint_for peer_pk;
                  tp_paired_at_unix := pe_now_unix env |}.

(** Step 1: the hellos. *)
Definition exchange_hellos (env : PairEnv) (deps : SessionDeps) (expected_peer_id : option string) (chan : CipherStream)
    : pair (CipherStream * PairHello) :=
  chan ← send_msg chan (MHello (our_hello env deps));
  '(chan, message) ← within "pairing Hello timed out" (recv_msg chan);
  peer_hello ← match message with MHello h => mret h | MConfirm _ => pfail PeExpectedHello end;
  match expected_peer_id with
  | Some expected =>
    if decide (expected ≠ ph_machine_id peer_hello) then pfail (PeWrongPeer (ph_machine_id peer_hello) expected) else mret tt
  | None => mret tt
  end;;
  if decide (ph_machine_id peer_hello = uuid_to_string (id_machine_id (sd_identity deps)))
  then pfail PeSelfPairing else mret (chan, peer_hello).

(** Step 0: the anonymous transport handshake. *)
Definition open_channel (env : PairEnv) (expected_peer_id : option string) : pair CipherStream :=
  '(chan, _) ← within "pairing transport handshake timed out"
    (pair_conn PeHandshake
       match expected_peer_id with
       | Some _ => initiate (pe_eph env) (pe_nonce_hs env) Anonymous None
       | None => accept (pe_eph env) (pe_nonce_hs env) Anonymous (λ _, None)
       end);
  mret chan.

Definition run_session_inner (session_id : string) (env : PairEnv) (deps : SessionDeps) (expected_peer_id : option string)
    : pair unit :=
  chan ← open_channel env expected_peer_id;
  '(chan, peer_hello) ← exchange_hellos env deps expected_peer_id chan;
  confirm_and_commit session_id env deps peer_hello chan.

(** The session task, with the event that reports a failure. *)
Definition run_session (session_id : string) (env : PairEnv) (deps : SessionDeps) (expected_peer_id : option string)
    (s : Pair) : bool * Pair :=
  match run_session_inner session_id env deps expected_peer_id (set_pa_deadline SESSION_TIMED_OUT s) with
  | (Done _, s') => (true, s')
  | (Failed e, s') => (false, add_pa_event (EvPairingFailed session_id (show_error e)) s')
  | (Waiting, s') => (false, add_pa_event (EvPairingFailed session_id (pa_deadline s')) s')
  end.

(** The outbound task; [connected] is what the dial gave. *)
Definition spawn_outbound_pairing (session_id : string) (env : PairEnv) (deps : SessionDeps) (peer : DiscoveredPeer)
    (connected : result string unit) (s : Pair) : bool * Pair :=
  match connected with
  | Err e =>
    (false, add_pa_event (EvPairingFailed session_id
              ("connect to " +:+ dp_host peer +:+ ":" +:+ pretty (dp_service_port peer) +:+ ": " +:+ e)) s)
  | Ok _ => run_session session_id env deps (Some (dp_machine_id peer)) s
  end.

(** The inbound task runs once the supervisor has registered it. *)
Definition inbound_pairing (session_id : string) (env : PairEnv) (deps : SessionDeps) (registered : bool) (s : Pair)
    : bool * Pair :=
  if registered then run_session session_id env deps None s else (false, s).
End session.

(** [N.fetch_add] names each session. *)
Definition new_session_id (now_unix n : Z) : string * Z :=
  ("pair-" +:+ pretty now_unix +:+ "-" +:+ pretty n, wrap_u64 (n + 1)).

(** ** What a session can do to the trust store

    [quietly m Q]: [m] touches neither the store nor its file and sends no
    event, and when it returns, [Q] holds of its result and of the messages it
    read. *)

Definition kept (s s' : Pair) : Prop :=
  pa_trust s' = pa_trust s ∧ pa_fs s' = pa_fs s ∧ pa_events s' = pa_events s.

Global Instance kept_preorder : PreOrder kept.
Proof. split; [done|]. intros ??? (?&?&?) (?&?&?). split_and!; congruence. Qed.

Definition unfinished {E A} (o : outcome E A) : Prop := ∀ a, o ≠ Done a.

Definition quietly {A} (m : pair A) (Q : A → list PairMessage → Prop) : Prop :=
  ∀ s o s', m s = (o, s') → kept s s' ∧ ∀ a, o = Done a → ∃ l, pa_received s' = pa_received s ++ l ∧ Q a l.

Lemma quietly_step {A B} (m : pair A) (k : A → pair B) Q s o s' :
  quietly m Q → (m ≫= k) s = (o, s') →
  (kept s s' ∧ unfinished o) ∨ ∃ a l s1, kept s s1 ∧ pa_received s1 = pa_received s ++ l ∧ Q a l ∧ k a s1 = (o, s').
Proof.
  intros Hm. unfold mbind, prog_bind. destruct (m s) as [o1 s1] eqn:E.
  destruct (Hm _ _ _ E) as [Hk HQ].
  destruct o1 as [a|e|]; [|intros [= <- <-]; left; split; [exact Hk|by intros ?]..].
  right. destruct (HQ a eq_refl) as (l & Hl & Hq). by exists a, l, s1.
Qed.

Lemma quietly_bind {A B} (m : pair A) (k : A → pair B) Q R :
  quietly m Q → (∀ a l, Q a l → quietly (k a) (λ b l', R b (l ++ l'))) → quietly (m ≫= k) R.
Proof.
  intros Hm Hk s o s' E. destruct (quietly_step _ _ _ _ _ _ Hm E) as [[? Hu]|(a & l & s1 & Hs & Hl & HQ & E1)].
  - split; [done|]. intros b ->. by destruct (Hu b).
  - destruct (Hk a l HQ _ _ _ E1) as [? HR]. split; [by etrans|]. intros b Hb. destruct (HR b Hb) as (l' & Hl' & ?).
    exists (l ++ l'). by rewrite Hl', Hl, app_assoc.
Qed.

Lemma quietly_ret {A} (a : A) (Q : A → list PairMessage → Prop) : Q a [] → quietly (mret a) Q.
Proof. intros HQ s o s' [= <- <-]. split; [done|]. intros ? [= <-]. exists []. by rewrite app_nil_r. Qed.

Lemma quietly_fail {A} e (Q : A → list PairMessage → Prop) : quietly (pfail e) Q.
Proof. by intros s o s' [= <- <-]. Qed.

Lemma quietly_lift {A} (r : result PairError A) : quietly (plift r) (λ a l, r = Ok a ∧ l = []).
Proof. destruct r; [by apply quietly_ret|apply quietly_fail]. Qed.

Lemma quietly_conn {E A} (f : E → PairError) (m : conn E A) : quietly (pair_conn f m) (λ _ l, l = []).
Proof.
  intros s o s'. unfold pair_conn, zoom. destruct (m _) as [o1 c]. intros [= <- <-]. split; [done|]. intros a _. exists [].
  by rewrite app_nil_r.
Qed.

Lemma quietly_heard msg : quietly (pair_heard msg) (λ _ l, l = [msg]).
Proof. intros s o s' [= <- <-]. split; [done|]. by exists [msg]. Qed.

Lemma quietly_within {A} reason (m : pair A) Q : quietly m Q → quietly (within reason m) Q.
Proof.
  intros Hm s o s'. unfold within. destruct (m _) as [o1 s1] eqn:E. apply Hm in E as [Hk HQ].
  destruct o1; intros [= <- <-]; by split.
Qed.

Lemma quietly_weaken {A} (m : pair A) (Q R : A → list PairMessage → Prop) : quietly m Q → (∀ a l, Q a l → R a l) → quietly m R.
Proof. intros Hm HQ s o s' E. destruct (Hm _ _ _ E) as [? Hd]. split; [done|]. intros a Ha. destruct (Hd a Ha) as (l & ? & ?). eauto. Qed.

Create HintDb pair_db.
#[export] Hint Resolve quietly_ret quietly_fail quietly_lift quietly_conn quietly_heard quietly_within : pair_db.

(** One statement of a session program. *)
Ltac pair_step := eapply quietly_bind; [eauto with pair_db nocore|intros ? ? ?; simplify_eq/=].

Section outcomes.
Context `{HexOps, Sha256Ops, Ed25519Ops, X25519Ops, HkdfOps, AeadOps, JsonOps AuthFrame, JsonOps PairMessage, JsonOps TrustFile}.
Context `{!SecretOps, UuidOps}.
Context (show_error : PairError → string).

Lemma quietly_send chan msg : quietly (send_msg chan msg) (λ _ l, l = []).
Proof. unfold send_msg. eapply quietly_bind; [apply quietly_lift|intros ? ? [_ ->]]. apply quietly_within, quietly_conn. Qed.

Lemma quietly_recv chan : quietly (recv_msg chan) (λ r l, l = [r.2]).
Proof.
  unfold recv_msg. eapply quietly_bind; [apply quietly_conn|intros [c b] ? ->]. eapply quietly_bind; [apply quietly_lift|intros m ? [_ ->]].
  eapply quietly_bind; [apply quietly_heard|intros _ ? ->]. by apply quietly_ret.
Qed.

Lemma quietly_open env expected : quietly (open_channel env expected) (λ _ l, l = []).
Proof. unfold open_channel. eapply quietly_bind; [apply quietly_within, quietly_conn|intros [c ?] ? ->]. by apply quietly_ret. Qed.

(** The peer is the one that was dialled and is not ourselves. *)
Definition plausible_peer (deps : SessionDeps) (expected : option string) (h : PairHello) : Prop :=
  (∀ x, expected = Some x → ph_machine_id h = x) ∧ ph_machine_id h ≠ uuid_to_string (id_machine_id (sd_identity deps)).

Lemma quietly_hellos env deps expected chan :
  quietly (exchange_hellos env deps expected chan) (λ r l, plausible_peer deps expected r.2 ∧ l = [MHello r.2]).
Proof.
  unfold exchange_hellos. eapply quietly_bind; [apply quietly_send|intros ? ? ->].
  eapply quietly_bind; [apply quietly_within, quietly_recv|intros [c m] ? ->].
  eapply quietly_bind with (Q := λ h l, l = [] ∧ m = MHello h); [destruct m; [by apply quietly_ret|apply quietly_fail]|intros h ? [-> ->]].
  eapply quietly_bind with (Q := λ _ l, l = [] ∧ ∀ x, expected = Some x → ph_machine_id h = x).
  { destruct expected; [case_decide as Hd; [apply quietly_fail|]|]; apply quietly_ret; (split; [done|]); [|done].
    intros x [= <-]. destruct (decide (ph_machine_id h = s)); [done|]. by destruct Hd. }
  intros _ ? [-> Hx]. case_decide; [apply quietly_fail|]. by apply quietly_ret.
Qed.

(** What the [select!] has read of the peer's confirmation. *)
Definition heard_early (early : option PairConfirm) (l : list PairMessage) : Prop :=
  match early with Some c => l = [MConfirm c] | None => l = [] end.

Lemma quietly_await env chan :
  quietly (await_confirmation env chan) (λ r l, heard_early r.1.2 l ∧ (r.2 = true → pe_user env = UserSays true)).
Proof.
  unfold await_confirmation.
  assert (quietly ('(c, message) ← recv_msg chan;
                   match message with
                   | MConfirm confirm => if negb (pc_accepted confirm) then pfail PePeerDeclined else
                     b ← user_verdict (pe_user env); mret (c, Some confirm, b)
                   | MHello _ => pfail PeExpectedConfirm
                   end) (λ r l, heard_early r.1.2 l ∧ (r.2 = true → pe_user env = UserSays true))) as Hrace.
  { eapply quietly_bind; [apply quietly_recv|intros [c m] ? ->]. destruct m as [|confirm]; [apply quietly_fail|].
    destruct (pc_accepted confirm); [|apply quietly_fail]. simpl.
    eapply quietly_bind with (Q := λ b l, l = [] ∧ (b = true → pe_user env = UserSays true)).
    - destruct (pe_user env); [apply quietly_ret; split; [done|by intros ->]|apply quietly_fail|]. by intros ??? [= <- <-].
    - intros b ? [-> Hb]. by apply quietly_ret. }
  destruct (pe_user env) as [b| |] eqn:Eu; [destruct (pe_user_first env)..|exact Hrace]; try exact Hrace.
  - apply quietly_ret. simpl. split; [done|]. by intros ->.
  - apply quietly_fail.
Qed.

(** The proposal shown to the user, and the record that is stored. *)
Definition proposal (session_id : string) (env : PairEnv) (deps : SessionDeps) (h : PairHello) (pk : bytes) : Event :=
  EvPairingProposed session_id (ph_machine_id h) (ph_display_name h) (fingerprint_for pk)
    (sas_code (canonical_transcript (our_hello env deps) h)).
Definition pairing_record (env : PairEnv) (h : PairHello) (pk : bytes) : TrustedPeer :=
  {| tp_machine_id := ph_machine_id h; tp_display_name := ph_display_name h; tp_public_key_hex := ph_pubkey_hex h;
     tp_fingerprint := fingerprint_for pk; tp_paired_at_unix := pe_now_unix env |}.

(** Both users agreed: ours said yes, and the one message read after the hello is a
    confirmation that says the peer's did, signed with the peer's key over this
    transcript. *)
Definition consented (env : PairEnv) (deps : SessionDeps) (h : PairHello) (read : list PairMessage) : Prop :=
  pe_user env = UserSays true ∧
  ∃ confirm, read = [MHello h; MConfirm confirm] ∧ pc_accepted confirm = true ∧
    verify_signature (ph_pubkey_hex h) (canonical_transcript (our_hello env deps) h) (pc_sig_hex confirm) = Ok tt.

(** The session reached the store: one [upsert] of the peer, reported as it went. *)
Definition committed (session_id : string) (env : PairEnv) (deps : SessionDeps) (h : PairHello) (s : Pair)
    (o : outcome PairError unit) (s' : Pair) : Prop :=
  ∃ pk r, pubkey_from_hex (ph_pubkey_hex h) = Ok pk ∧
    trust_upsert (pairing_record env h pk) (pa_trust s) (pa_fs s) = (r, pa_trust s', pa_fs s') ∧
    match r with
    | Ok _ => o = Done tt ∧
              pa_events s' = pa_events s ++ [proposal session_id env deps h pk; EvPairingCompleted (pairing_record env h pk)]
    | Err e => o = Failed (PePersist e) ∧ pa_events s' = pa_events s ++ [proposal session_id env deps h pk]
    end.

(** It did not. *)
Definition aborted (session_id : string) (env : PairEnv) (deps : SessionDeps) (s : Pair)
    (o : outcome PairError unit) (s' : Pair) : Prop :=
  unfinished o ∧ pa_trust s' = pa_trust s ∧ pa_fs s' = pa_fs s ∧
  (pa_events s' = pa_events s ∨ ∃ h pk, pa_events s' = pa_events s ++ [proposal session_id env deps h pk]).

Lemma commit_cases trusted s o s' :
  commit_trust trusted s = (o, s') →
  pa_received s' = pa_received s ∧ ∃ r, trust_upsert trusted (pa_trust s) (pa_fs s) = (r, pa_trust s', pa_fs s') ∧
    match r with
    | Ok _ => o = Done tt ∧ pa_events s' = pa_events s ++ [EvPairingCompleted trusted]
    | Err e => o = Failed (PePersist e) ∧ pa_events s' = pa_events s
    end.
Proof.
  unfold commit_trust. destruct (trust_upsert _ _ _) as [[r store] fs]. destruct r as [[]|e]; intros [= <- <-]; (split; [done|]).
  - by exists (Ok tt).
  - by exists (Err e).
Qed.

(** Step 4: the confirmation that is acted on is the one message read since the
    proposal. *)
Lemma quietly_confirm early c l :
  heard_early early l →
  quietly (match early with
           | Some confirm => mret confirm
           | None => '(_, message) ← recv_msg c;
                     match message with MConfirm c => mret c | MHello _ => pfail PeExpectedConfirm end
           end) (λ confirm l', l ++ l' = [MConfirm confirm]).
Proof.
  destruct early as [confirm|]; cbn [heard_early]; intros ->; [by apply quietly_ret|].
  eapply quietly_bind; [apply quietly_recv|intros [? []] ? ->]; [apply quietly_fail|by apply quietly_ret].
Qed.

Lemma agree_cases session_id env deps h chan s o s' :
  pa_received s = [MHello h] → confirm_and_commit session_id env deps h chan s = (o, s') →
  aborted session_id env deps s o s' ∨ (consented env deps h (pa_received s') ∧ committed session_id env deps h s o s').
Proof.
  unfold confirm_and_commit. intros Hread E.
  destruct (quietly_step _ _ _ _ _ _ (quietly_lift _) E) as [[(?&?&?) ?]|(pk & l1 & s1 & (Ht1&Hf1&He1) & Hl1 & [Hpk ->] & E1)];
    [left; split_and!; auto|]. clear E.
  rewrite (bind_step _ _ _ tt (add_pa_event (proposal session_id env deps h pk) s1)) in E1 by done.
  set (s2 := add_pa_event _ _) in E1.
  assert (∀ (o : outcome PairError unit) s', kept s2 s' → unfinished o → aborted session_id env deps s o s') as Hab.
  { intros o0 s0 (?&?&?) ?. split_and!; [done|simpl in *; congruence..|]. right. exists h, pk. simpl in *. congruence. }
  destruct (quietly_step _ _ _ _ _ _ (quietly_await _ _) E1) as [[? ?]|([[c early] b] & l3 & s3 & Hk3 & Hl3 & [Hearly Hb] & E3)];
    [left; by apply Hab|]. clear E1. simpl in Hb, Hearly.
  destruct (quietly_step _ _ _ _ _ _ (quietly_send _ _) E3) as [[? ?]|(c4 & l4 & s4 & Hk4 & Hl4 & -> & E4)];
    [left; apply Hab; [by etrans|done]|]. clear E3.
  destruct b; [|injection E4 as <- <-; left; apply Hab; [by etrans|by intros ?]]. simpl in E4.
  destruct (quietly_step _ _ _ _ _ _ (quietly_confirm _ _ _ Hearly) E4) as [[? ?]|(confirm & l5 & s5 & Hk5 & Hl5 & Hconfirm & E5)];
    [left; apply Hab; [by do 2 etrans|done]|]. clear E4.
  assert (kept s2 s5) as Hk by (by do 2 etrans). clear Hk3 Hk4 Hk5.
  destruct (pc_accepted confirm) eqn:Hacc; [|injection E5 as <- <-; left; apply Hab; [done|by intros ?]]. simpl in E5.
  destruct (quietly_step _ _ _ _ _ _ (quietly_lift _) E5) as [[? ?]|([] & l6 & s6 & Hk6 & Hl6 & [Hver ->] & E6)];
    [left; apply Hab; [by etrans|done]|]. clear E5.
  rewrite Hpk in E6. cbn [plift] in E6. rewrite (bind_step _ _ _ pk s6) in E6 by done.
  assert (pa_received s6 = [MHello h; MConfirm confirm]) as Hr6.
  { rewrite Hl6, Hl5, Hl4, Hl3. cbn [pa_received add_pa_event s2]. rewrite Hl1, Hread, !app_nil_r, <-app_assoc, Hconfirm. done. }
  apply commit_cases in E6 as (Hrec & r & Hup & Hend). assert (kept s2 s6) as (Ht&Hf&He) by (by etrans). simpl in Ht, Hf, He.
  right. split; [split; [by apply Hb|exists confirm; rewrite Hrec; apply rmap_err_Ok in Hver; done]|].
  exists pk, r. fold (pairing_record env h pk) in Hup, Hend. rewrite Ht, Hf, Ht1, Hf1 in Hup. rewrite He, He1 in Hend.
  split_and!; [done..|]. destruct r; destruct Hend as [-> ->]; (split; [done|]); by rewrite <-?app_assoc.
Qed.

Lemma session_cases session_id env deps expected s o s' :
  pa_received s = [] → run_session_inner session_id env deps expected s = (o, s') →
  aborted session_id env deps s o s' ∨
  ∃ h, plausible_peer deps expected h ∧ consented env deps h (pa_received s') ∧ committed session_id env deps h s o s'.
Proof.
  unfold run_session_inner. intros Hread E.
  destruct (quietly_step _ _ _ _ _ _ (quietly_open _ _) E) as [[(?&?&?) ?]|(c & l1 & s1 & Hk1 & Hl1 & -> & E1)];
    [left; split_and!; auto|]. clear E.
  destruct (quietly_step _ _ _ _ _ _ (quietly_hellos _ _ _ _) E1) as [[Hk2 ?]|([c2 h] & l2 & s2 & Hk2 & Hl2 & [Hp ->] & E2)].
  { left. assert (kept s s') as (?&?&?) by (by etrans). split_and!; auto. }
  assert (kept s s2) as (Ht&Hf&He) by (by etrans). simpl in Hp. rewrite Hl1, Hread in Hl2.
  apply agree_cases in E2 as [(Hu & Ht' & Hf' & He')|[Hc (pk & r & Hpk & Hup & Hr)]]; [| |exact Hl2].
  - left. split_and!; [done|congruence..|]. rewrite He in He'. naive_solver.
  - right. exists h. split; [done|]. split; [done|]. exists pk, r. rewrite Ht, Hf, He in *. done.
Qed.

(** C7: every way a pairing session can end.  Either the trust store and its file
    are untouched and the last event is the failure, at most preceded by one
    proposal; or both users agreed: our user said yes to the code derived from
    the transcript, the two messages read from the channel are the peer's hello and
    a confirmation that says its user accepted, with a signature of the peer's key
    over that same transcript, the peer is the one that was dialled and not
    ourselves, and exactly one [upsert] of exactly that key under that id was
    made, announced as complete if and only if it was reported as persisted. *)
Theorem pairing_needs_consent session_id env deps expected s ok s' :
  pa_received s = [] → run_session show_error session_id env deps expected s = (ok, s') →
  (ok = false ∧ pa_trust s' = pa_trust s ∧ pa_fs s' = pa_fs s ∧
   ∃ l reason, pa_events s' = pa_events s ++ l ++ [EvPairingFailed session_id reason] ∧
     (l = [] ∨ ∃ h pk, l = [proposal session_id env deps h pk])) ∨
  (∃ h pk r, plausible_peer deps expected h ∧ consented env deps h (pa_received s') ∧ pubkey_from_hex (ph_pubkey_hex h) = Ok pk ∧
     trust_upsert (pairing_record env h pk) (pa_trust s) (pa_fs s) = (r, pa_trust s', pa_fs s') ∧ ok = is_ok r ∧
     pa_events s' = pa_events s ++ [proposal session_id env deps h pk;
       match r with
       | Ok _ => EvPairingCompleted (pairing_record env h pk)
       | Err e => EvPairingFailed session_id (show_error (PePersist e))
       end]).
Proof.
  intros Hread. unfold run_session. destruct (run_session_inner _ _ _ _ _) as [o s1] eqn:E.
  apply session_cases in E; [|exact Hread]. destruct E as [(Hu & Ht & Hf & He)|(h & Hp & Hc & pk & r & Hpk & Hup & Hr)].
  - intros Eo. left. assert (∃ reason, (ok, s') = (false, add_pa_event (EvPairingFailed session_id reason) s1)) as [reason [= -> ->]].
    { destruct o as [[]|e|]; [by destruct (Hu tt)|by eexists..]. }
    split_and!; try done. simpl in *. destruct He as [->|(h & pk & ->)].
    + exists [], reason. split; [done|by left].
    + exists [proposal session_id env deps h pk], reason. rewrite <-app_assoc. split; [done|right; by eexists _, _].
  - intros Eo. right. exists h, pk, r. destruct r as [[]|e]; destruct Hr as [-> He]; injection Eo as <- <-; simpl in *;
      split_and!; try done. by rewrite He, <-app_assoc.
Qed.
End outcomes.

(** ** Two honest machines whose users both accept *)

(** A session as a connection program. *)
Definition as_pair_conn {A} (m : pair A) (trust : TrustedPeerStore) (fs : Fs) : conn (PairError * Pair) (A * Pair) := λ c,
  let '(o, s) := m {| pa_conn := c; pa_trust := trust; pa_fs := fs; pa_events := []; pa_received := []; pa_deadline := SESSION_TIMED_OUT |} in
  (match o with Done a => Done (a, s) | Failed e => Failed (e, s) | Waiting => Waiting end, pa_conn s).

(** [s'] is [s] after reading up to [rest] and writing [out]. *)
Definition advanced (s s' : Pair) (rest out : bytes) : Prop :=
  kept s s' ∧ idle_conn (pa_conn s') ∧ flat (cn_in (pa_conn s')) = rest ∧ cn_out (pa_conn s') = cn_out (pa_conn s) ++ out.

(** A message and its wire form under a channel's next send key. *)
Definition travels `{AeadOps, JsonOps PairMessage} (key prefix : bytes) (counter : Z) (m : PairMessage) (out : bytes) : Prop :=
  ∃ js, to_vec m = Some js ∧ sealed key prefix counter js out.

Section honest_pairing.
Context `{HexLaws, Sha256Ops, Ed25519Laws, X25519Laws, HkdfLaws, AeadLaws, JsonOps AuthFrame, JsonLaws PairMessage, JsonOps TrustFile}.
Context `{!SecretOps, UuidOps}.

Lemma send_msg_ok chan msg s out :
  travels (cs_send_key chan) (cs_send_prefix chan) (cs_send_counter chan) msg out →
  cs_idle chan → idle_conn (pa_conn s) →
  ∃ s', send_msg chan msg s = (Done (cs_sent chan), s') ∧ advanced s s' (flat (cn_in (pa_conn s))) out.
Proof.
  intros (js & Hjs & Hout) Hidle Hc. pose proof Hc as (Hwf & Hf & He). unfold send_msg. rewrite Hjs. cbn [ok_or plift].
  rewrite (bind_step _ _ _ js s) by done. eexists. split.
  - unfold within, pair_conn. erewrite zoom_done by (by apply c_send_ok). reflexivity.
  - split_and!; try done.
Qed.

Lemma recv_msg_ok chan msg s out rest :
  travels (cs_recv_key chan) (cs_recv_prefix chan) (cs_recv_counter chan) msg out →
  cs_idle chan → idle_conn (pa_conn s) → flat (cn_in (pa_conn s)) = out ++ rest →
  ∃ pf s', recv_msg chan s = (Done (cs_received chan pf, msg), s') ∧ advanced s s' rest [] ∧ pf_inv pf ∧ pf_seen pf = [].
Proof.
  intros (js & Hjs & Hout) Hidle (Hwf & Hf & He) Hflat.
  destruct (c_recv_ok chan js (pa_conn s) out rest) as (pf & src & Hr & Hrest & Hwf' & Hinv & Hseen & He'); try done.
  eexists pf, _. unfold recv_msg. erewrite bind_step by (by apply zoom_done; exact Hr). cbn beta iota.
  rewrite (from_slice_to_vec _ _ Hjs). cbn [ok_or plift]. do 2 (erewrite bind_step by done).
  split; [reflexivity|]. split; [|done]. split; [done|]. split; [split_and!; simpl; [done|done|congruence]|].
  simpl. by rewrite app_nil_r.
Qed.

Lemma recv_msg_wait chan s :
  cs_idle chan → idle_conn (pa_conn s) → flat (cn_in (pa_conn s)) = [] →
  ∃ s', recv_msg chan s = (Waiting, s') ∧ cn_out (pa_conn s') = cn_out (pa_conn s).
Proof.
  intros Hidle (Hwf & Hf & He) Hflat. destruct (c_recv_wait chan (pa_conn s)) as (src & Hr); try done.
  eexists. unfold recv_msg. erewrite bind_wait by (by apply zoom_wait; exact Hr). done.
Qed.

Lemma advanced_trans s1 s2 s3 r1 r2 o1 o2 :
  advanced s1 s2 r1 o1 → advanced s2 s3 r2 o2 → advanced s1 s3 r2 (o1 ++ o2).
Proof. intros (?&?&?&Ho1) (?&?&?&Ho2). split_and!; try done; [by etrans|by rewrite Ho2, Ho1, app_assoc]. Qed.

(** A channel with room for [n] more frames each way. *)
Definition roomy (chan : CipherStream) (n : Z) : Prop :=
  cs_idle chan ∧ (cs_send_counter chan + n < u64_MAX)%Z ∧ (cs_recv_counter chan + n < u64_MAX)%Z.

Lemma roomy_sent chan n : roomy chan n → (1 ≤ n)%Z → cs_idle (cs_sent chan).
Proof.
  intros ((?&?&?&?) & ? & ?) ?. unfold cs_idle; simpl. split_and!; try done; lia.
Qed.

Lemma roomy_received chan pf n : roomy chan n → (1 ≤ n)%Z → pf_inv pf → pf_seen pf = [] → cs_idle (cs_received chan pf).
Proof. intros ((?&?&?&?) & ? & ?) ? ? ?. unfold cs_idle; simpl. split_and!; try done; lia. Qed.

Lemma roomy_both chan pf n :
  roomy chan n → (2 ≤ n)%Z → pf_inv pf → pf_seen pf = [] → roomy (cs_received (cs_sent chan) pf) (n - 1).
Proof. intros ((?&?&?&?) & ? & ?) ? ? ?. unfold roomy, cs_idle; simpl. split_and!; try done; lia. Qed.

Lemma hellos_run deps env expected h chan s fo fp rest :
  travels (cs_send_key chan) (cs_send_prefix chan) (cs_send_counter chan) (MHello (our_hello env deps)) fo →
  travels (cs_recv_key chan) (cs_recv_prefix chan) (cs_recv_counter chan) (MHello h) fp →
  roomy chan 2 → idle_conn (pa_conn s) → plausible_peer deps expected h →
  (flat (cn_in (pa_conn s)) = [] →
   ∃ s', exchange_hellos env deps expected chan s = (Waiting, s') ∧ cn_out (pa_conn s') = cn_out (pa_conn s) ++ fo) ∧
  (flat (cn_in (pa_conn s)) = fp ++ rest →
   ∃ pf s', exchange_hellos env deps expected chan s = (Done (cs_received (cs_sent chan) pf, h), s') ∧
     advanced s s' rest fo ∧ pf_inv pf ∧ pf_seen pf = []).
Proof.
  intros Ho Hp Hroom Hc [Hexp Hself].
  destruct (send_msg_ok chan _ s fo Ho) as (s1 & Hs & Ha1); [apply Hroom|done|].
  pose proof (roomy_sent _ _ Hroom ltac:(lia)) as Hidle. pose proof Ha1 as (_ & Hc1 & Hf1 & Ho1).
  unfold exchange_hellos. rewrite (bind_step _ _ _ _ _ Hs). split; intros Hflat.
  - destruct (recv_msg_wait (cs_sent chan) (set_pa_deadline "pairing Hello timed out" s1)) as (s2 & Hr & Ho2);
      [done|done|by simpl; rewrite Hf1|].
    exists s2. erewrite bind_wait by (unfold within; by rewrite Hr). split; [done|]. by rewrite Ho2.
  - destruct (recv_msg_ok (cs_sent chan) (MHello h) (set_pa_deadline "pairing Hello timed out" s1) fp rest)
      as (pf & s2 & Hr & Ha2 & Hpf); [done..|by simpl; rewrite Hf1|].
    exists pf. eexists. erewrite bind_step by (unfold within; by rewrite Hr). cbn beta iota.
    erewrite bind_step by done. destruct expected as [x|].
    + rewrite (decide_False (P := x ≠ ph_machine_id h)) by (intros Hn; apply Hn; symmetry; by apply Hexp).
      erewrite bind_step by done. rewrite decide_False by done. split; [reflexivity|]. split; [|done].
      rewrite <-(app_nil_r fo). eapply advanced_trans; [exact Ha1|exact Ha2].
    + erewrite bind_step by done. rewrite decide_False by done. split; [reflexivity|]. split; [|done].
      rewrite <-(app_nil_r fo). eapply advanced_trans; [exact Ha1|exact Ha2].
Qed.

(** Both confirmations, whichever comes first. *)
Lemma agree_run session_id deps env h key_h chan s sig_h fo fp store' fs' :
  let t := canonical_transcript (our_hello env deps) h in
  let rec := pairing_record env h (verifying_key key_h) in
  ph_pubkey_hex h = hex_encode (verifying_key key_h) → sig_h = sign_transcript key_h t →
  pe_user env = UserSays true →
  travels (cs_send_key chan) (cs_send_prefix chan) (cs_send_counter chan)
    (MConfirm {| pc_accepted := true; pc_sig_hex := sign_transcript (signing_key (sd_identity deps)) t |}) fo →
  travels (cs_recv_key chan) (cs_recv_prefix chan) (cs_recv_counter chan)
    (MConfirm {| pc_accepted := true; pc_sig_hex := sig_h |}) fp →
  roomy chan 1 → idle_conn (pa_conn s) → trust_upsert rec (pa_trust s) (pa_fs s) = (Ok tt, store', fs') →
  (flat (cn_in (pa_conn s)) = [] →
   ∃ s', confirm_and_commit session_id env deps h chan s = (Waiting, s') ∧
     cn_out (pa_conn s') = cn_out (pa_conn s) ++ (if pe_user_first env then fo else [])) ∧
  (flat (cn_in (pa_conn s)) = fp →
   ∃ s', confirm_and_commit session_id env deps h chan s = (Done tt, s') ∧ cn_out (pa_conn s') = cn_out (pa_conn s) ++ fo ∧
     pa_trust s' = store' ∧ pa_fs s' = fs' ∧
     pa_events s' = pa_events s ++ [proposal session_id env deps h (verifying_key key_h); EvPairingCompleted rec]).
Proof.
  intros t rec Hkey Hsig Huser Ho Hp Hroom Hc Hup.
  assert (pubkey_from_hex (ph_pubkey_hex h) = Ok (verifying_key key_h)) as Hpk.
  { unfold pubkey_from_hex. rewrite Hkey, hex_decode_encode. cbn [ok_or rbind]. unfold to_array.
    by rewrite decide_True by apply verifying_key_length. }
  assert (∀ s1 out, kept (add_pa_event (proposal session_id env deps h (verifying_key key_h)) s) s1 →
    cn_out (pa_conn s1) = cn_out (pa_conn s) ++ out → ∃ s',
    (plift (rmap_err PeVerify (verify_signature (ph_pubkey_hex h) t sig_h));;
     peer_pk ← mret (verifying_key key_h); commit_trust (pairing_record env h peer_pk)) s1 = (Done tt, s') ∧
    cn_out (pa_conn s') = cn_out (pa_conn s) ++ out ∧ pa_trust s' = store' ∧ pa_fs s' = fs' ∧
    pa_events s' = pa_events s ++ [proposal session_id env deps h (verifying_key key_h); EvPairingCompleted rec]) as Hend.
  { intros s1 out (Ht & Hf & He) Hout. rewrite Hkey, Hsig, verify_own_signature. cbn [rmap_err plift].
    do 2 (erewrite bind_step by done).
    unfold commit_trust. fold rec. rewrite Ht, Hf. cbn [pa_trust pa_fs add_pa_event]. rewrite Hup.
    eexists. split; [reflexivity|]. simpl. split_and!; try done. rewrite He. cbn [pa_events add_pa_event]. by rewrite <-app_assoc. }
  unfold confirm_and_commit. rewrite Hpk. cbn [plift]. rewrite (bind_step _ _ _ (verifying_key key_h) s) by done.
  rewrite (bind_step _ _ _ tt (add_pa_event (proposal session_id env deps h (verifying_key key_h)) s)) by done.
  set (s1 := add_pa_event _ _) in *. fold t. unfold await_confirmation. rewrite Huser.
  destruct (send_msg_ok chan _ s1 fo Ho) as (s2 & Hs & Ha2); [apply Hroom|done|]. pose proof Ha2 as (Hk2 & Hc2 & Hf2 & Ho2).
  pose proof (roomy_sent _ _ Hroom ltac:(lia)) as Hidle.
  split; intros Hflat; destruct (pe_user_first env).
  - erewrite bind_step by done. cbn beta iota. rewrite (bind_step _ _ _ _ _ Hs). cbn [negb].
    destruct (recv_msg_wait (cs_sent chan) s2) as (s3 & Hr & Ho3); [done|done|by rewrite Hf2|].
    exists s3. erewrite bind_wait by (by erewrite bind_wait by exact Hr). split; [done|]. by rewrite Ho3, Ho2.
  - destruct (recv_msg_wait chan s1) as (s3 & Hr & Ho3); [apply Hroom|done|done|].
    exists s3. erewrite bind_wait by (by erewrite bind_wait by exact Hr). split; [done|]. by rewrite Ho3, app_nil_r.
  - erewrite bind_step by done. cbn beta iota. rewrite (bind_step _ _ _ _ _ Hs). cbn [negb].
    destruct (recv_msg_ok (cs_sent chan) _ s2 fp [] Hp) as (pf & s3 & Hr & (Hk3 & _ & _ & Ho3) & _);
      [done|done|by rewrite Hf2, app_nil_r|].
    erewrite bind_step by (erewrite bind_step by exact Hr; done). cbn [pc_accepted pc_sig_hex negb].
    apply Hend; [by etrans|]. by rewrite Ho3, Ho2, app_nil_r.
  - destruct (recv_msg_ok chan _ s1 fp [] Hp) as (pf & s3 & Hr & (Hk3 & Hc3 & Hf3 & Ho3) & Hpf & Hseen);
      [apply Hroom|done|by simpl; rewrite Hflat, app_nil_r|].
    erewrite bind_step by (erewrite bind_step by exact Hr; cbn beta iota; cbn [pc_accepted negb user_verdict];
                           erewrite bind_step by done; reflexivity). cbn beta iota.
    destruct (send_msg_ok (cs_received chan pf) _ s3 fo Ho) as (s4 & Hs4 & (Hk4 & _ & _ & Ho4));
      [by eapply roomy_received|done|].
    rewrite (bind_step _ _ _ _ _ Hs4). cbn [negb]. erewrite bind_step by done. cbn [pc_accepted pc_sig_hex negb].
    apply Hend; [by etrans|]. by rewrite Ho4, Ho3, app_nil_r.
Qed.

Definition transport (env : PairEnv) (expected : option string) : conn HandshakeError (CipherStream * PeerAuth) :=
  match expected with
  | Some _ => initiate (pe_eph env) (pe_nonce_hs env) Anonymous None
  | None => accept (pe_eph env) (pe_nonce_hs env) Anonymous (λ _, None)
  end.

Definition pair_start (c : Conn) (trust : TrustedPeerStore) (fs : Fs) : Pair :=
  {| pa_conn := c; pa_trust := trust; pa_fs := fs; pa_events := []; pa_received := []; pa_deadline := SESSION_TIMED_OUT |}.

Definition signed_confirm (key : SigningKey) (t : bytes) : PairMessage :=
  MConfirm {| pc_accepted := true; pc_sig_hex := sign_transcript key t |}.

(** One end of a session over an open transport: what it has written after each
    prefix of the peer's messages, and how it ends. *)
Section one_end.
Context (session_id : string) (env : PairEnv) (deps : SessionDeps) (expected : option string) (h : PairHello) (key_h : SigningKey).
Context (trust store' : TrustedPeerStore) (fs fs' : Fs) (chan : CipherStream) (fo1 fo2 fp1 fp2 : bytes).
Let t := canonical_transcript (our_hello env deps) h.
Let run := as_pair_conn (run_session_inner session_id env deps expected) trust fs.
Hypothesis Hkey : ph_pubkey_hex h = hex_encode (verifying_key key_h).
Hypothesis Huser : pe_user env = UserSays true.
Hypothesis Hplausible : plausible_peer deps expected h.
Hypothesis Hroom : roomy chan 2.
Hypothesis Ho1 : travels (cs_send_key chan) (cs_send_prefix chan) (cs_send_counter chan) (MHello (our_hello env deps)) fo1.
Hypothesis Ho2 : travels (cs_send_key chan) (cs_send_prefix chan) (cs_send_counter chan + 1)
  (signed_confirm (signing_key (sd_identity deps)) t) fo2.
Hypothesis Hp1 : travels (cs_recv_key chan) (cs_recv_prefix chan) (cs_recv_counter chan) (MHello h) fp1.
Hypothesis Hp2 : travels (cs_recv_key chan) (cs_recv_prefix chan) (cs_recv_counter chan + 1) (signed_confirm key_h t) fp2.
Hypothesis Hup : trust_upsert (pairing_record env h (verifying_key key_h)) trust fs = (Ok tt, store', fs').

Lemma one_end_wait c c1 :
  transport env expected c = (Waiting, c1) → ∃ c2, run c = (Waiting, c2) ∧ cn_out c2 = cn_out c1.
Proof.
  intros Ht. subst run. unfold as_pair_conn, run_session_inner. fold (pair_start c trust fs).
  assert (open_channel env expected (pair_start c trust fs) =
          (Waiting, set_pa_conn c1 (set_pa_deadline "pairing transport handshake timed out" (pair_start c trust fs)))) as Hw.
  { unfold open_channel. fold (transport env expected). apply bind_wait. unfold within, pair_conn.
    by erewrite zoom_wait by exact Ht. }
  rewrite (bind_wait _ _ _ _ Hw). eexists. split; [reflexivity|done].
Qed.

Lemma one_end_runs c c1 :
  transport env expected c = (Done (chan, PeerAnonymous), c1) → idle_conn c1 →
  (flat (cn_in c1) = [] → ∃ c2, run c = (Waiting, c2) ∧ cn_out c2 = cn_out c1 ++ fo1) ∧
  (flat (cn_in c1) = fp1 →
   ∃ c2, run c = (Waiting, c2) ∧ cn_out c2 = cn_out c1 ++ fo1 ++ (if pe_user_first env then fo2 else [])) ∧
  (flat (cn_in c1) = fp1 ++ fp2 →
   ∃ c2 s2, run c = (Done (tt, s2), c2) ∧ cn_out c2 = cn_out c1 ++ fo1 ++ fo2 ∧ pa_trust s2 = store' ∧ pa_fs s2 = fs' ∧
     pa_events s2 = [proposal session_id env deps h (verifying_key key_h);
                     EvPairingCompleted (pairing_record env h (verifying_key key_h))]).
Proof.
  intros Ht Hc1. subst run. unfold as_pair_conn, run_session_inner. fold (pair_start c trust fs).
  assert (open_channel env expected (pair_start c trust fs) = (Done chan, pair_start c1 trust fs)) as Hopen.
  { unfold open_channel. fold (transport env expected).
    erewrite bind_step by (unfold within, pair_conn; erewrite zoom_done by exact Ht; reflexivity). reflexivity. }
  rewrite (bind_step _ _ _ _ _ Hopen). set (s1 := pair_start c1 trust fs).
  assert (∀ rest, flat (cn_in c1) = fp1 ++ rest → ∃ pf s2,
    exchange_hellos env deps expected chan s1 = (Done (cs_received (cs_sent chan) pf, h), s2) ∧
    advanced s1 s2 rest fo1 ∧ pf_inv pf ∧ pf_seen pf = []) as Hx.
  { intros rest Hf. by apply (hellos_run deps env expected h chan s1 fo1 fp1 rest). }
  assert (∀ pf s2 rest, advanced s1 s2 rest fo1 → pf_inv pf → pf_seen pf = [] →
    let chan2 := cs_received (cs_sent chan) pf in
    (rest = [] → ∃ s', confirm_and_commit session_id env deps h chan2 s2 = (Waiting, s') ∧
       cn_out (pa_conn s') = cn_out c1 ++ fo1 ++ (if pe_user_first env then fo2 else [])) ∧
    (rest = fp2 → ∃ s', confirm_and_commit session_id env deps h chan2 s2 = (Done tt, s') ∧ cn_out (pa_conn s') = cn_out c1 ++ fo1 ++ fo2 ∧
       pa_trust s' = store' ∧ pa_fs s' = fs' ∧ pa_events s' = [proposal session_id env deps h (verifying_key key_h);
         EvPairingCompleted (pairing_record env h (verifying_key key_h))])) as Hag.
  { intros pf s2 rest ((Ht2 & Hf2 & He2) & Hc2 & Hr2 & Hout2) Hpf Hseen chan2.
    destruct (agree_run session_id deps env h key_h chan2 s2 _ fo2 fp2 store' fs' Hkey eq_refl Huser) as [Hw Hd]; try done.
    { by apply (roomy_both _ pf 2). } { by rewrite Ht2, Hf2. }
    rewrite Hr2, He2, Hout2 in *. cbn [pa_conn pair_start s1] in *. rewrite <-app_assoc in Hw, Hd. split; [exact Hw|exact Hd]. }
  split_and!.
  - intros Hf. destruct (hellos_run deps env expected h chan s1 fo1 fp1 []) as [Hw _]; try done.
    destruct (Hw Hf) as (s2 & Hrun & Hout). rewrite (bind_wait _ _ _ _ Hrun). eexists. split; [reflexivity|done].
  - intros Hf. destruct (Hx []) as (pf & s2 & Hrun & Hadv & Hpf & Hseen); [by rewrite app_nil_r|].
    destruct (Hag pf s2 [] Hadv Hpf Hseen) as [Hw _]. destruct (Hw eq_refl) as (s3 & Hrun3 & Hout3).
    rewrite (bind_step _ _ _ _ _ Hrun). cbn beta iota. rewrite Hrun3. eexists. split; [reflexivity|done].
  - intros Hf. destruct (Hx fp2 Hf) as (pf & s2 & Hrun & Hadv & Hpf & Hseen).
    destruct (Hag pf s2 fp2 Hadv Hpf Hseen) as [_ Hd]. destruct (Hd eq_refl) as (s3 & Hrun3 & Hout3 & ? & ? & ?).
    rewrite (bind_step _ _ _ _ _ Hrun). cbn beta iota. rewrite Hrun3. eexists _, s3. split; [reflexivity|done].
Qed.
End one_end.

Lemma upsert_get peer s fs s' fs' :
  trust_upsert peer s fs = (Ok tt, s', fs') → trust_get (tp_machine_id peer) s' = Some peer.
Proof.
  unfold trust_upsert. destruct (trust_save _ _ _) as [[[]|] ?]; [|done]. intros [= <- _].
  unfold trust_get. cbn [ts_peers]. rewrite trust_get_upsert. by rewrite decide_True.
Qed.

(** The machine's public key belongs to its secret, as [load_or_create] makes it. *)
Definition honest_identity (i : Identity) : Prop := id_public_key i = verifying_key (signing_key i).

(** A message the wire can carry. *)
Definition sendable (m : PairMessage) : Prop := ∃ js, to_vec m = Some js ∧ (blen js ≤ MAX_FRAME_BYTES)%Z.

Lemma sendable_travels key prefix ctr m : keyed key prefix → sendable m → ∃ out, travels key prefix ctr m out.
Proof. intros Hk (js & Hjs & Hl). destruct (seal_exists key prefix ctr js Hk Hl) as (out & Hs & _). exists out. by exists js. Qed.

(** Two messages one end sends are what the other end, with the mirrored keys, reads. *)
Lemma two_travel key prefix ctr key' prefix' ctr' m1 m2 :
  keyed key prefix → sendable m1 → sendable m2 → key' = key → prefix' = prefix → ctr' = ctr →
  ∃ out1 out2, (travels key prefix ctr m1 out1 ∧ travels key prefix (ctr + 1) m2 out2) ∧
               travels key' prefix' ctr' m1 out1 ∧ travels key' prefix' (ctr' + 1) m2 out2.
Proof.
  intros Hk H1' H2' -> -> ->. destruct (sendable_travels key prefix ctr m1 Hk H1') as (o1 & T1).
  destruct (sendable_travels key prefix (ctr + 1) m2 Hk H2') as (o2 & T2). by exists o1, o2.
Qed.

(** Two sessions that each wait and then end, on what the other has sent: the second
    has the last message, or the first has. *)
Lemma dialogue_four {E F A B} (p : conn E A) (q : conn F B) o1 o2 o3 rp rq c1 c2 c3 c4 c5 c6 :
  p (fresh_conn []) = (Waiting, c1) → cn_out c1 = o1 → q (fresh_conn []) = (Waiting, c2) → cn_out c2 = [] →
  q (fresh_conn o1) = (Waiting, c3) → cn_out c3 = o2 → p (fresh_conn o2) = (Waiting, c4) → cn_out c4 = o3 →
  q (fresh_conn o3) = (rq, c5) → p (fresh_conn (cn_out c5)) = (rp, c6) → cn_out c6 = o3 →
  dialogue 4 p q = ((rp, c6), (rq, c5)).
Proof.
  intros D1 E1 D2 E2 D3 E3 D4 E4 D5 D6 E6. do 4 (rewrite dialogue_S). cbn [dialogue fst snd].
  repeat (rewrite ?D1, ?D2, ?D3, ?D4, ?D5, ?D6, ?E1, ?E2, ?E3, ?E4, ?E6; cbn [fst snd]). done.
Qed.

Lemma dialogue_five {E F A B} (p : conn E A) (q : conn F B) o1 o2 o3 o4 rp rq c1 c2 c3 c4 c5 c6 c7 :
  p (fresh_conn []) = (Waiting, c1) → cn_out c1 = o1 → q (fresh_conn []) = (Waiting, c2) → cn_out c2 = [] →
  q (fresh_conn o1) = (Waiting, c3) → cn_out c3 = o2 → p (fresh_conn o2) = (Waiting, c4) → cn_out c4 = o3 →
  q (fresh_conn o3) = (Waiting, c5) → cn_out c5 = o4 → p (fresh_conn o4) = (rp, c6) →
  q (fresh_conn (cn_out c6)) = (rq, c7) → cn_out c7 = o4 →
  dialogue 5 p q = ((rp, c6), (rq, c7)).
Proof.
  intros D1 E1 D2 E2 D3 E3 D4 E4 D5 E5 D6 D7 E7. do 5 (rewrite dialogue_S). cbn [dialogue fst snd].
  repeat (rewrite ?D1, ?D2, ?D3, ?D4, ?D5, ?D6, ?D7, ?E1, ?E2, ?E3, ?E4, ?E5, ?E7; cbn [fst snd]). done.
Qed.

(** C6: pairing works, and both users see the same code.  Two machines with
    different ids and keys whose users both accept, in either order (a confirmation
    is only sent once its user has accepted, so one of them accepts before the
    other's arrives), whose messages fit the wire and whose trust files can be
    written, complete the session within four exchanges, or five if the one that
    was called accepts first.  Each proposed the other's id, name and fingerprint
    under the same verification code, each store now resolves the other's id to
    exactly the other's key, and the completion was announced after the commit. *)
Theorem pairing_completes sid_a sid_b env_a env_b deps_a deps_b ta tb ta' tb' fsa fsb fsa' fsb' :
  let ha := our_hello env_a deps_a in let hb := our_hello env_b deps_b in
  let ka := signing_key (sd_identity deps_a) in let kb := signing_key (sd_identity deps_b) in
  let rec_a := pairing_record env_b ha (verifying_key ka) in let rec_b := pairing_record env_a hb (verifying_key kb) in
  let t := canonical_transcript ha hb in
  honest_identity (sd_identity deps_a) → honest_identity (sd_identity deps_b) →
  verifying_key ka ≠ verifying_key kb → ph_machine_id ha ≠ ph_machine_id hb →
  length (pe_nonce_hs env_a) = 16 → length (pe_nonce_hs env_b) = 16 →
  pe_user env_a = UserSays true → pe_user env_b = UserSays true → pe_user_first env_a = true ∨ pe_user_first env_b = true →
  sendable (MHello ha) → sendable (MHello hb) → sendable (signed_confirm ka t) → sendable (signed_confirm kb t) →
  trust_upsert rec_b ta fsa = (Ok tt, ta', fsa') → trust_upsert rec_a tb fsb = (Ok tt, tb', fsb') →
  ∃ sa ca sb cb,
    dialogue (if pe_user_first env_a then 4 else 5)
               (as_pair_conn (run_session_inner sid_a env_a deps_a (Some (ph_machine_id hb))) ta fsa)
               (as_pair_conn (run_session_inner sid_b env_b deps_b None) tb fsb)
      = ((Done (tt, sa), ca), (Done (tt, sb), cb)) ∧
    pa_events sa = [EvPairingProposed sid_a (ph_machine_id hb) (ph_display_name hb) (fingerprint_for (verifying_key kb)) (sas_code t);
                    EvPairingCompleted rec_b] ∧
    pa_events sb = [EvPairingProposed sid_b (ph_machine_id ha) (ph_display_name ha) (fingerprint_for (verifying_key ka)) (sas_code t);
                    EvPairingCompleted rec_a] ∧
    pa_trust sa = ta' ∧ pa_fs sa = fsa' ∧ pa_trust sb = tb' ∧ pa_fs sb = fsb' ∧
    trust_get (ph_machine_id hb) (pa_trust sa) = Some rec_b ∧ trust_get (ph_machine_id ha) (pa_trust sb) = Some rec_a.
Proof.
  intros ha hb ka kb rec_a rec_b t Hia Hib Hkeys Hids Hna Hnb Hua Hub Hfirst Hsa Hsb Hca Hcb Hupa Hupb.
  assert (ph_pubkey_hex ha = hex_encode (verifying_key ka)) as Hka by (simpl; by rewrite Hia).
  assert (ph_pubkey_hex hb = hex_encode (verifying_key kb)) as Hkb by (simpl; by rewrite Hib).
  assert (canonical_transcript hb ha = t) as Hsym.
  { apply transcript_sym. rewrite Hka, Hkb. intros E%(f_equal hex_decode). rewrite !hex_decode_encode in E. congruence. }
  destruct (anonymous_stages (pe_eph env_a) (pe_eph env_b) (pe_nonce_hs env_a) (pe_nonce_hs env_b) (λ _, None) Hna Hnb)
    as (a & b & h1 & h2 & Hm & Hkda & Hkdb & Hz1 & Hz2 & (ci & A0 & Oi) & (cj & B0 & Oj) & A1 & B1).
  pose proof Hm as (Mk1 & Mk2 & Mp1 & Mp2 & Mc1 & Mc2 & _ & Idla & Idlb).
  destruct (two_travel _ _ (cs_send_counter a) _ _ _ _ _ Hkda Hsa Hca (eq_sym Mk1) (eq_sym Mp1) (eq_sym Mc1)) as (fa & ga & [Fa Ga] & Fa' & Ga').
  destruct (two_travel _ _ (cs_send_counter b) _ _ _ _ _ Hkdb Hsb Hcb Mk2 Mp2 Mc2) as (fb & gb & [Fb Gb] & Fb' & Gb').
  assert (roomy a 2 ∧ roomy b 2) as [Ra Rb] by (unfold roomy; rewrite <-Mc1, <-Mc2, Hz1, Hz2; done).
  set (PA := as_pair_conn (run_session_inner sid_a _ _ _) ta fsa). set (PB := as_pair_conn (run_session_inner sid_b _ _ _) tb fsb).
  assert (∃ c, PA (fresh_conn []) = (Waiting, c) ∧ cn_out c = h1) as (c1 & D1 & E1)
    by (destruct (one_end_wait sid_a env_a deps_a (Some (ph_machine_id hb)) ta fsa _ _ A0) as (c & Hr & Ho); exists c; by rewrite Ho).
  assert (∃ c, PB (fresh_conn []) = (Waiting, c) ∧ cn_out c = []) as (c2 & D2 & E2)
    by (destruct (one_end_wait sid_b env_b deps_b None tb fsb _ _ B0) as (c & Hr & Ho); exists c; by rewrite Ho).
  assert (plausible_peer deps_a (Some (ph_machine_id hb)) hb) as Pa by (split; [by intros ? [= <-]|by apply not_eq_sym]).
  assert (plausible_peer deps_b None ha) as Pb by (split; [done|exact Hids]).
  pose proof (one_end_runs sid_a env_a deps_a (Some (ph_machine_id hb)) hb kb ta ta' fsa fsa' a fa ga fb gb
    Hkb Hua Pa Ra Fa Ga Fb' Gb' Hupa) as RA.
  rewrite <-Hsym in Ga', Gb.
  pose proof (one_end_runs sid_b env_b deps_b None ha ka tb tb' fsb fsb' b fb gb fa ga Hka Hub Pb Rb Fb Gb Fa' Ga' Hupb) as RB.
  fold PA in RA. fold PB in RB.
  assert (∃ c, PB (fresh_conn h1) = (Waiting, c) ∧ cn_out c = h2 ++ fb) as (c3 & D3 & E3).
  { destruct (B1 []) as (c & Hr & Hi & Hf & <-). rewrite app_nil_r in Hr. by apply (RB _ c Hr Hi). }
  assert (∃ c, PA (fresh_conn (h2 ++ fb)) = (Waiting, c) ∧ cn_out c = h1 ++ fa ++ (if pe_user_first env_a then ga else [])) as (c4 & D4 & E4).
  { destruct (A1 fb) as (c & Hr & Hi & Hf & <-). by apply (RA _ c Hr Hi). }
  assert (∃ c, PB (fresh_conn (h1 ++ fa)) = (Waiting, c) ∧ cn_out c = h2 ++ fb ++ (if pe_user_first env_b then gb else [])) as (c7 & D7 & E7).
  { destruct (B1 fa) as (c & Hr & Hi & Hf & <-). by apply (RB _ c Hr Hi). }
  assert (∃ c s, PB (fresh_conn (h1 ++ fa ++ ga)) = (Done (tt, s), c) ∧ cn_out c = h2 ++ fb ++ gb ∧ pa_trust s = tb' ∧
    pa_fs s = fsb' ∧ pa_events s = [proposal sid_b env_b deps_b ha (verifying_key ka); EvPairingCompleted rec_a])
    as (c5 & sb & D5 & E5 & Tb & Fsb & Evb).
  { destruct (B1 (fa ++ ga)) as (c & Hr & Hi & Hf & <-). by apply (RB _ c Hr Hi). }
  assert (∃ c s, PA (fresh_conn (h2 ++ fb ++ gb)) = (Done (tt, s), c) ∧ cn_out c = h1 ++ fa ++ ga ∧ pa_trust s = ta' ∧
    pa_fs s = fsa' ∧ pa_events s = [proposal sid_a env_a deps_a hb (verifying_key kb); EvPairingCompleted rec_b])
    as (c6 & sa & D6 & E6 & Ta & Fsa & Eva).
  { destruct (A1 (fb ++ gb)) as (c & Hr & Hi & Hf & <-). by apply (RA _ c Hr Hi). }
  exists sa, c6, sb, c5. split.
  { destruct (pe_user_first env_a); [by eapply dialogue_four; eauto; rewrite E5|]. destruct Hfirst as [?|Hfirst]; [done|].
    rewrite Hfirst in E7. rewrite app_nil_r in E4. by eapply dialogue_five; eauto; rewrite E6. }
  unfold proposal in Evb, Eva. fold ha in Eva. fold hb in Evb. rewrite Hsym in Evb. split_and!; try done.
  - rewrite Ta. apply (upsert_get _ _ _ _ _ Hupa).
  - rewrite Tb. apply (upsert_get _ _ _ _ _ Hupb).
Qed.
End honest_pairing.

(** ** Two concrete machines *)

Section wit.
#[local] Existing Instances toy_hex toy_sha toy_ed toy_x toy_hkdf toy_aead toy_json_auth toy_json_trust toy_uuid.
#[local] Existing Instances toy_hex_laws toy_sha_laws toy_ed_laws toy_x_laws toy_hkdf_laws toy_aead_laws.
#[local] Instance toy_secret_id : SecretOps (H := toy_ed) := {| key_from_bytes b := (b : @SigningKey toy_ed); key_to_bytes b := b |}.

Definition hello_codec : Codec PairHello :=
  codec_iso (λ h, (ph_pubkey_hex h, (ph_nonce_hex h, (ph_machine_id h, ph_display_name h))))
    (λ '(a, (b, (c, d))), {| ph_pubkey_hex := a; ph_nonce_hex := b; ph_machine_id := c; ph_display_name := d |})
    ltac:(by intros []) (codec_pair codec_str (codec_pair codec_str (codec_pair codec_str codec_str))).
Definition confirm_codec : Codec PairConfirm :=
  codec_iso (λ c, (pc_accepted c, pc_sig_hex c)) (λ '(a, b), {| pc_accepted := a; pc_sig_hex := b |})
    ltac:(by intros []) (codec_pair codec_bool codec_str).
Definition message_codec : Codec PairMessage :=
  codec_iso (λ m, match m with MHello h => inl h | MConfirm c => inr c end)
    (λ x, match x with inl h => MHello h | inr c => MConfirm c end) ltac:(by intros []) (codec_sum hello_codec confirm_codec).
#[local] Instance toy_json_message : JsonOps PairMessage := json_of_codec message_codec.
#[local] Instance toy_json_message_laws : JsonLaws PairMessage := json_of_codec_laws message_codec.

Definition wit_secret (b : bool) : bytes := fit 32 (bytes_of (if b then "left secret" else "right secret")).
Definition wit_deps (b : bool) : SessionDeps :=
  {| sd_identity := {| id_machine_id := (b : @Uuid toy_uuid); id_public_key := wit_secret b; id_secret_key := wit_secret b;
                       id_fingerprint := "" |};
     sd_display_name := if b then "Desk" else "Sofa" |}.
Definition wit_pair_env (b : bool) : PairEnv :=
  {| pe_eph := fit 32 (bytes_of (if b then "ea" else "eb")); pe_nonce_hs := fit 16 []; pe_nonce := fit 16 [];
     pe_now_unix := 7; pe_user := UserSays true; pe_user_first := b |}.
Definition wit_empty_store : TrustedPeerStore := {| ts_path := wit_paths; ts_peers := [] |}.
Definition wit_commit (b : bool) : result TrustError unit * TrustedPeerStore * Fs :=
  trust_upsert (pairing_record (wit_pair_env b) (our_hello (wit_pair_env (negb b)) (wit_deps (negb b))) (verifying_key (wit_secret (negb b))))
    wit_empty_store (wit_fs []).
Definition wit_pair_a : conn (PairError * Pair) (unit * Pair) :=
  as_pair_conn (run_session_inner "pair-7-1" (wit_pair_env true) (wit_deps true) (Some "b"%string)) wit_empty_store (wit_fs []).
Definition wit_pair_b : conn (PairError * Pair) (unit * Pair) :=
  as_pair_conn (run_session_inner "pair-7-1" (wit_pair_env false) (wit_deps false) None) wit_empty_store (wit_fs []).

Lemma pairing_completes_witness :
  ∃ sa ca sb cb, dialogue 4 wit_pair_a wit_pair_b = ((Done (tt, sa), ca), (Done (tt, sb), cb)) ∧
    is_Some (trust_get "b" (pa_trust sa)) ∧ is_Some (trust_get "a" (pa_trust sb)).
Proof.
  edestruct (pairing_completes "pair-7-1" "pair-7-1" (wit_pair_env true) (wit_pair_env false) (wit_deps true) (wit_deps false)
    wit_empty_store wit_empty_store (wit_commit true).1.2 (wit_commit false).1.2 (wit_fs []) (wit_fs [])
    (wit_commit true).2 (wit_commit false).2)
    as (sa & ca & sb & cb & Hd & _ & _ & _ & _ & _ & _ & Ga & Gb);
    [reflexivity|reflexivity|vm_compute; discriminate|vm_compute; discriminate|reflexivity|reflexivity|reflexivity|reflexivity|by left| | | | | | |];
    [eexists; split; [reflexivity|vm_compute; discriminate]..|vm_compute; reflexivity|vm_compute; reflexivity|].
  exact (ex_intro _ sa (ex_intro _ ca (ex_intro _ sb (ex_intro _ cb (conj Hd (conj (mk_is_Some _ _ Ga) (mk_is_Some _ _ Gb))))))).
Defined.

(** The user of the machine that was called may accept first. *)
Definition wit_called_first (b : bool) : PairEnv :=
  {| pe_eph := pe_eph (wit_pair_env b); pe_nonce_hs := fit 16 []; pe_nonce := fit 16 []; pe_now_unix := 7;
     pe_user := UserSays true; pe_user_first := negb b |}.
Example called_accepts_first :
  match dialogue 5
    (as_pair_conn (run_session_inner "pair-7-1" (wit_called_first true) (wit_deps true) (Some "b"%string)) wit_empty_store (wit_fs []))
    (as_pair_conn (run_session_inner "pair-7-1" (wit_called_first false) (wit_deps false) None) wit_empty_store (wit_fs [])) with
  | ((Done (_, sa), _), (Done (_, sb), _)) => is_Some (trust_get "b" (pa_trust sa)) ∧ is_Some (trust_get "a" (pa_trust sb))
  | _ => False
  end.
Proof. vm_compute. split; by eexists. Qed.

(** A peer that does not read does not hold a session up. *)
Example stalled_write_reported :
  let s := {| pa_conn := {| cn_in := cn_in (fresh_conn []); cn_out := []; cn_fates := [NetStalled 1] |}; pa_trust := wit_empty_store;
              pa_fs := wit_fs []; pa_events := []; pa_received := []; pa_deadline := SESSION_TIMED_OUT |} in
  let '(o, s') := send_msg (finalize_keys true (wit_secret true) (wit_secret false) 0 [] [] (fit 16 []) (fit 16 [])).2
                    (MHello (our_hello (wit_pair_env true) (wit_deps true))) s in
  o = Waiting ∧ pa_deadline s' = "pairing write timed out"%string ∧ length (cn_out (pa_conn s')) = 1.
Proof. vm_compute. done. Qed.

(** One end of the dialogue, with the user's verdict. *)
Definition wit_verdict (accept : bool) : bool * Pair :=
  run_session (λ _, "declined"%string) "pair-7-1"
    {| pe_eph := pe_eph (wit_pair_env true); pe_nonce_hs := fit 16 []; pe_nonce := fit 16 []; pe_now_unix := 7;
       pe_user := UserSays accept; pe_user_first := true |}
    (wit_deps true) (Some "b"%string) (pair_start (fresh_conn (cn_out (dialogue 4 wit_pair_a wit_pair_b).2.2)) wit_empty_store (wit_fs [])).

Example declined_keeps_store : (wit_verdict false).1 = false ∧ pa_trust (wit_verdict false).2 = wit_empty_store.
Proof. vm_compute. done. Qed.

Lemma wit_agreed : (wit_verdict true).1 = true.
Proof. vm_compute. reflexivity. Qed.

#[local] Strategy 100 [run_session].
Lemma pairing_needs_consent_witness :
  ∃ h confirm, pa_received (wit_verdict true).2 = [MHello h; MConfirm confirm] ∧ pc_accepted confirm = true.
Proof.
  pose proof wit_agreed as Hok. destruct (wit_verdict true) as [ok s'] eqn:E. cbn [fst snd] in *. unfold wit_verdict in E.
  destruct (pairing_needs_consent _ _ _ _ _ (pair_start _ _ _) _ _ eq_refl E) as [[Hno _]|(h & pk & r & _ & [_ (confirm & Hr & Ha & _)] & _)].
  - rewrite Hno in Hok. discriminate Hok.
  - exists h, confirm. exact (conj Hr Ha).
Defined.
#[local] Strategy transparent [run_session].
End wit.
