(* ===== verification/Float32.v ===== *)
(** * Single-precision arithmetic

    An [f32] is its bit pattern where it is stored and a binary32 [spec_float]
    where it is computed with; Rust's operations on it are IEEE 754's. *)

From Stdlib Require Import ZArith Lia SpecFloat.
From S2P Require Import Prelude.

Definition f32_of_bits (b : Z) : spec_float :=
  let s := Z.testbit b 31 in
  let e := (Z.shiftr b 23 mod 256)%Z in
  let m := (b mod 2 ^ 23)%Z in
  if decide (e = 255)%Z then (if decide (m = 0)%Z then S754_infinity s else S754_nan)
  else if decide (e = 0)%Z then
    match m with Z.pos p => S754_finite s p (-149) | _ => S754_zero s end
  else match (m + 2 ^ 23)%Z with Z.pos p => S754_finite s p (e - 150) | _ => S754_zero s end.

Definition f32_mul : spec_float → spec_float → spec_float := SFmul 24 128.
Definition f32_div : spec_float → spec_float → spec_float := SFdiv 24 128.
(** [z as f32]. *)
Definition f32_of_Z (z : Z) : spec_float := binary_normalize 24 128 z 0 false.
Definition f32_add : spec_float → spec_float → spec_float := SFadd 24 128.
Definition f32_sub : spec_float → spec_float → spec_float := SFsub 24 128.
Definition f32_zero : spec_float := S754_zero false.
Definition f32_one : spec_float := f32_of_Z 1.

(** [x as i16], [x as i32]: towards zero, saturating, NaN is 0. *)
Definition f32_as_int (lo hi : Z) (x : spec_float) : Z :=
  match x with
  | S754_nan | S754_zero _ => 0
  | S754_infinity s => if s then lo else hi
  | S754_finite s m e =>
    let t := Z.shiftl (Z.pos m) e in
    Z.max lo (Z.min hi (if s then - t else t))
  end%Z.

(** [x.round()]: to the nearest integer, halves away from zero. *)
Definition f32_round (x : spec_float) : spec_float :=
  match x with
  | S754_finite s m (Zneg k) =>
    match Z.shiftr (Z.pos m + 2 ^ (Z.pos k - 1)) (Z.pos k) with
    | Z.pos n => binary_normalize 24 128 (if s then Z.neg n else Z.pos n) 0 s
    | _ => S754_zero s
    end
  | _ => x
  end.

(** [a.min(b)] and [a.max(b)]: a NaN operand is ignored. *)
Definition f32_min (a b : spec_float) : spec_float :=
  match a, b with S754_nan, _ => b | _, S754_nan => a | _, _ => if SFltb b a then b else a end.
Definition f32_max (a b : spec_float) : spec_float :=
  match a, b with S754_nan, _ => b | _, S754_nan => a | _, _ => if SFltb a b then b else a end.

Definition f32_abs : spec_float → spec_float := SFabs.

Example f32_round_half : map f32_round [f32_div (f32_of_Z 5) (f32_of_Z 2); f32_div (f32_of_Z (-5)) (f32_of_Z 2); f32_div (f32_of_Z 1) (f32_of_Z 3)] =
  [f32_of_Z 3; f32_of_Z (-3); f32_zero].
Proof. vm_compute. reflexivity. Qed.

(** ** Small integers are exact *)

Lemma digits2_pos_shift p n : digits2_pos (Pos.iter xO p n) = (digits2_pos p + n)%positive.
Proof. induction n as [|n IH] using Pos.peano_ind; [cbn; lia|]. rewrite Pos.iter_succ. cbn [digits2_pos]. rewrite IH. lia. Qed.
Lemma iter_xO p n : Z.pos (Pos.iter xO p n) = (Z.pos p * 2 ^ Z.pos n)%Z.
Proof. induction n as [|n IH] using Pos.peano_ind; [cbn; lia|]. rewrite Pos.iter_succ, Pos2Z.inj_xO, IH, Pos2Z.inj_succ, Z.pow_succ_r by lia. lia. Qed.
Lemma digits2_pos_bound p k : (Z.pos p < 2 ^ Z.of_nat k)%Z → (Z.pos (digits2_pos p) ≤ Z.of_nat k)%Z.
Proof.
  revert p. induction k as [|k IH]; intros p Hp; [cbn in Hp; lia|].
  rewrite Nat2Z.inj_succ, Z.pow_succ_r in Hp by lia.
  destruct p as [p|p|]; cbn [digits2_pos]; rewrite ?Pos2Z.inj_succ; [specialize (IH p)|specialize (IH p)|]; lia.
Qed.

(** A 24-bit mantissa needs no rounding. *)
Lemma round_aux_exact s m e : digits2_pos m = 24%positive → (-149 ≤ e ≤ 104)%Z → binary_round_aux 24 128 s (Z.pos m) e loc_Exact = S754_finite s m e.
Proof.
  intros Hm He. unfold binary_round_aux, shr_fexp. cbn [shr_record_of_loc Zdigits2]. rewrite Hm.
  assert (SpecFloat.fexp 24 128 (24 + e) - e = 0)%Z as E by (unfold SpecFloat.fexp, emin; lia). rewrite E. cbn [shr shr_m loc_of_shr_record round_nearest_even shr_record_of_loc Zdigits2]. rewrite Hm, E. cbn [shr shr_m].
  destruct (Z.leb_spec e (128 - 24)); [done|lia].
Qed.

(** An integer of at most 24 bits is exact. *)
Lemma f32_of_pos_exact s p : (Z.pos p < 2 ^ 24)%Z →
  ∃ m e, binary_round 24 128 s p 0 = S754_finite s m e ∧ digits2_pos m = 24%positive ∧ (-23 ≤ e ≤ 0)%Z ∧ (Z.pos m = Z.pos p * 2 ^ (- e))%Z.
Proof.
  intros Hp. pose proof (digits2_pos_bound p 24 Hp) as Hd. set (d := digits2_pos p) in *.
  assert (1 ≤ Z.pos d)%Z by lia. unfold binary_round. fold d.
  assert (SpecFloat.fexp 24 128 (Z.pos d + 0) = Z.pos d - 24)%Z as -> by (unfold SpecFloat.fexp, emin; lia).
  unfold shl_align. destruct (Z.pos d - 24 - 0)%Z as [|n|n] eqn:En; [|lia|].
  - exists p, 0%Z. rewrite round_aux_exact by lia. split_and!; [done|lia..].
  - exists (Pos.iter xO p n), (Z.pos d - 24)%Z. assert (digits2_pos (Pos.iter xO p n) = 24%positive) as Hm by (rewrite digits2_pos_shift; fold d; lia).
    rewrite round_aux_exact by (done || lia). split_and!; [done|done|lia|lia|]. rewrite iter_xO. do 2 f_equal. lia.
Qed.

Lemma div_one s m e : digits2_pos m = 24%positive → (-100 ≤ e ≤ 104)%Z → f32_div (S754_finite s m e) f32_one = S754_finite s m e.
Proof.
  intros Hm He. unfold f32_div. change f32_one with (S754_finite false 8388608 (-23)). unfold SFdiv, SFdiv_core_binary. cbn [Zdigits2]. rewrite Hm.
  change (Z.pos (digits2_pos 8388608)) with 24%Z.
  assert (Z.min (SpecFloat.fexp 24 128 (24 + e - (24 + -23))) (e - -23) = e - 1)%Z as -> by (unfold SpecFloat.fexp, emin; lia).
  assert (e - -23 - (e - 1) = 24)%Z as -> by lia.
  assert (Z.shiftl (Z.pos m) 24 = 2 * Z.pos m * 8388608)%Z as Hs by (rewrite Z.shiftl_mul_pow2 by lia; lia).
  pose proof (Z_div_mod_full (Z.shiftl (Z.pos m) 24) 8388608 ltac:(lia)) as Hd.
  destruct (Z.div_eucl (Z.shiftl (Z.pos m) 24) 8388608) as [q r]. destruct Hd as [Hq Hr]. rewrite Hs in Hq. unfold Remainder in Hr.
  assert (q = Z.pos m~0 ∧ r = 0)%Z as [-> ->] by lia. rewrite xorb_false_r. change (new_location 8388608 0) with loc_Exact.
  unfold binary_round_aux at 1. unfold shr_fexp at 1. cbn [shr_record_of_loc Zdigits2 digits2_pos]. rewrite Hm.
  change (Pos.succ 24) with 25%positive.
  assert (SpecFloat.fexp 24 128 (25 + (e - 1)) - (e - 1) = 1)%Z as -> by (unfold SpecFloat.fexp, emin; lia).
  cbn [shr iter_pos shr_1 orb]. replace (e - 1 + 1)%Z with e by lia. cbn [shr_m loc_of_shr_record round_nearest_even].
  pose proof (round_aux_exact s m e Hm ltac:(lia)) as Hr2. unfold binary_round_aux, shr_fexp in *. cbn [shr_record_of_loc Zdigits2] in *. rewrite Hm in *.
  assert (SpecFloat.fexp 24 128 (24 + e) - e = 0)%Z as E by (unfold SpecFloat.fexp, emin; lia). rewrite E in *. cbn [shr shr_m] in *.
  destruct (Z.leb_spec e (128 - 24)); [done|lia].
Qed.

Lemma f32_as_int_div_one lo hi z : (Z.abs z < 2 ^ 24)%Z → (lo ≤ z ≤ hi)%Z → (lo ≤ 0 ≤ hi)%Z → f32_as_int lo hi (f32_div (f32_of_Z z) f32_one) = z.
Proof.
  intros Hz Hb H0. destruct z as [|p|p]; [done| |]; unfold f32_of_Z, binary_normalize.
  all: destruct (f32_of_pos_exact false p ltac:(lia)) as (m & e & E & Hm & He & Hv) || idtac.
  - rewrite E, div_one by (done || lia). cbn [f32_as_int]. rewrite Z.shiftl_div_pow2 by lia. rewrite Hv, Z.div_mul by (apply Z.pow_nonzero; lia). lia.
  - destruct (f32_of_pos_exact true p ltac:(lia)) as (m' & e' & E' & Hm' & He' & Hv').
    rewrite E', div_one by (done || lia). cbn [f32_as_int]. rewrite Z.shiftl_div_pow2 by lia. rewrite Hv', Z.div_mul by (apply Z.pow_nonzero; lia). lia.
Qed.
