(* ===== verification/AudioDsp.v ===== *)
(** * Audio samples ([crates/synbad-audio/src/gain.rs], [capture.rs], [playback.rs])

    The arithmetic on single samples, the accumulator that turns device
    callbacks into 960-sample frames, and the jitter buffer between the network
    and the output callback.  An [f32] is its bit pattern and is computed with
    as a binary32 [spec_float]; the resampler belongs to another package. *)

From Stdlib Require Import ZArith Lia SpecFloat.
From S2P Require Import Prelude Float32.

Definition i16_MAX : Z := 32767.
Definition i16_MIN : Z := -32768.

(** [x as i16]. *)
Definition f32_as_i16 : spec_float → Z := f32_as_int i16_MIN i16_MAX.

(** [x.clamp(-1.0, 1.0)]. *)
Definition f32_clamp_unit (x : spec_float) : spec_float :=
  if SFltb x (f32_of_Z (-1)) then f32_of_Z (-1) else if SFltb (f32_of_Z 1) x then f32_of_Z 1 else x.

Definition f32_to_i16 (sample : spec_float) : Z := f32_as_i16 (f32_mul (f32_clamp_unit sample) (f32_of_Z i16_MAX)).

(** ** Gain *)

Definition apply_gain_i16 (sample : Z) (gain : Z) : Z :=
  let g := f32_of_bits gain in
  if SFeqb g (f32_of_Z 1) then sample else
  let scaled := f32_mul (f32_of_Z sample) g in
  if SFleb (f32_of_Z i16_MAX) scaled then i16_MAX
  else if SFleb scaled (f32_of_Z i16_MIN) then i16_MIN
  else f32_as_i16 scaled.

(** ** Capture *)

Definition FRAME_SAMPLES : nat := 960.
Definition TARGET_RATE_HZ : Z := 48000.

(** [ToMonoF32 for i16]: the integer average, scaled. *)
Definition mono_i16 (channels : list Z) : spec_float :=
  f32_div (f32_of_Z (Z.quot (foldr Z.add 0 channels) (Z.of_nat (length channels))))%Z (f32_of_Z i16_MAX).

(** [chunks_exact(n)]: a last short chunk is left out. *)
Fixpoint chunks_exact {A} (fuel n : nat) (l : list A) : list (list A) :=
  match fuel with
  | O => []
  | S fuel' => if decide (n ≤ length l) then take n l :: chunks_exact fuel' n (drop n l) else []
  end.

(** The resampler: how many input frames the next call needs, and one call. *)
Class ResamplerOps := {
  Resampler : Type;
  input_frames_next : Resampler → nat;
  resample : Resampler → list spec_float → option (list spec_float) * Resampler
}.

Section capture.
Context `{ResamplerOps}.

Record MonoAccumulator := {
  ma_channels : nat;
  ma_pending_48k : list Z;
  ma_resampler : option (Resampler * list spec_float)    (* with its pending native samples *)
}.

(** Feed the resampler while it has enough input; a failed call drops its chunk. *)
Fixpoint resample_all (fuel : nat) (conv : spec_float → Z) (rs : Resampler) (pending : list spec_float) (out : list Z)
    : Resampler * list spec_float * list Z :=
  match fuel with
  | O => (rs, pending, out)
  | S fuel' =>
    let needed := input_frames_next rs in
    if decide (length pending < needed) then (rs, pending, out) else
    let '(r, rs') := resample rs (take needed pending) in
    let out := match r with
               | Some samples => out ++ map conv samples
               | None => out
               end in
    resample_all fuel' conv rs' (drop needed pending) out
  end.

(** Cut full frames off the front. *)
Fixpoint cut_frames (fuel : nat) (pending : list Z) : list (list Z) * list Z :=
  match fuel with
  | O => ([], pending)
  | S fuel' =>
    if decide (FRAME_SAMPLES ≤ length pending) then
      let '(frames, rest) := cut_frames fuel' (drop FRAME_SAMPLES pending) in
      (take FRAME_SAMPLES pending :: frames, rest)
    else ([], pending)
  end.

(** [mono] is [S::mono_f32] for the device's sample type. *)
Definition feed {S} (mono : list S → spec_float) (gain : Z) (data : list S) (acc : MonoAccumulator)
    : list (list Z) * MonoAccumulator :=
  let ch := Nat.max (ma_channels acc) 1 in
  let monos := map mono (chunks_exact (length data) ch data) in
  let '(resampler, pending) :=
    match ma_resampler acc with
    | Some (rs, native) =>
      let native := native ++ monos in
      let '(rs, native, out) := resample_all (length native) (λ s, apply_gain_i16 (f32_to_i16 s) gain) rs native [] in
      (Some (rs, native), ma_pending_48k acc ++ out)
    | None => (None, ma_pending_48k acc ++ map (λ s, apply_gain_i16 (f32_to_i16 s) gain) monos)
    end in
  let '(frames, rest) := cut_frames (length pending) pending in
  (frames, {| ma_channels := ma_channels acc; ma_pending_48k := rest; ma_resampler := resampler |}).

(** [PlaybackResampler::process]: the 48 kHz frame joins the pending samples; what
    comes out is at the device's rate. *)
Definition process (frame : list Z) (rs : Resampler) (pending_48k : list spec_float) : Resampler * list spec_float * list Z :=
  let pending := pending_48k ++ map (λ s, f32_div (f32_of_Z s) (f32_of_Z i16_MAX)) frame in
  resample_all (length pending) f32_to_i16 rs pending [].
End capture.

(** ** Playback *)

(** [(native_rate as f32 * secs) as usize] for the two constants. *)
Definition JITTER_CAP_SECS : Z := 0x3D75C28F.       (* 0.06f32 *)
Definition JITTER_TARGET_SECS : Z := 0x3CF5C28F.    (* 0.03f32 *)

Definition f32_as_usize (x : spec_float) : Z :=
  match x with
  | S754_finite false m e => Z.min u64_MAX (Z.shiftl (Z.pos m) e)
  | S754_infinity false => u64_MAX
  | _ => 0
  end%Z.
Definition jitter_samples (native_rate secs : Z) : nat :=
  Z.to_nat (f32_as_usize (f32_mul (f32_of_Z native_rate) (f32_of_bits secs))).

(** One received frame, resampled to [samples], enters the buffer; the result
    also counts the dropped samples. *)
Definition pump (jitter_cap jitter_target : nat) (samples buf : list Z) : list Z * nat :=
  if decide (samples = []) then (buf, 0) else
  let projected := length buf + length samples in
  let drop_n := if decide (jitter_cap < projected) then Nat.min (projected - jitter_target) (length buf) else 0 in
  (drop drop_n buf ++ samples, drop_n).

(** [chunks_mut(n)]: the lengths of the chunks of [len] slots. *)
Fixpoint chunk_lengths (fuel n len : nat) : list nat :=
  match fuel with
  | O => []
  | S fuel' => if decide (len = 0) then [] else Nat.min n len :: chunk_lengths fuel' n (len - n)
  end.

(** The output callback for [len] slots: what is written, and the rest of the buffer. *)
Definition fill_output_from_buffer (len ch : nat) (gain : Z) (buf : list Z) : list Z * list Z :=
  let ch := Nat.max ch 1 in
  let want := len / ch in
  let n := Nat.min want (length buf) in
  let chunks := chunk_lengths len ch len in
  (concat (imap (λ k w, replicate w (apply_gain_i16 (default 0%Z (take n buf !! k)) gain)) chunks), drop n buf).

(** ** Gain never leaves the sample range *)

Definition i16_ok (z : Z) : Prop := (i16_MIN ≤ z ≤ i16_MAX)%Z.

Lemma f32_as_i16_range x : i16_ok (f32_as_i16 x).
Proof. unfold i16_ok, f32_as_i16, f32_as_int, i16_MIN, i16_MAX. destruct x as [|[]| |]; lia. Qed.

(** Gain is safe on every sample.  Whatever bit pattern the gain slider left
    in the handle, including infinities and NaN, the result is an [i16]; a gain
    of one changes nothing, and a gain of zero or NaN mutes. *)
Theorem gain_safe sample gain :
  i16_ok sample →
  i16_ok (apply_gain_i16 sample gain) ∧
  apply_gain_i16 sample 0x3F800000 = sample ∧
  apply_gain_i16 sample 0 = 0%Z ∧ apply_gain_i16 sample 0x7FC00000 = 0%Z.
Proof.
  intros Hs. split_and!.
  - unfold apply_gain_i16. case_match; [done|]. repeat case_match; try apply f32_as_i16_range; done.
  - done.
  - unfold apply_gain_i16. change (f32_of_bits 0) with (S754_zero false). destruct (f32_of_Z sample) as [|[]| |]; done.
  - unfold apply_gain_i16. change (f32_of_bits 0x7FC00000) with S754_nan. destruct (f32_of_Z sample); done.
Qed.

(** ** Framing the captured samples *)

Definition frames_of (pending : list Z) (frames : list (list Z)) (rest : list Z) : Prop :=
  concat frames ++ rest = pending ∧ Forall (λ f, length f = FRAME_SAMPLES) frames ∧ length rest < FRAME_SAMPLES.

Lemma cut_frames_spec fuel pending frames rest :
  length pending ≤ fuel → cut_frames fuel pending = (frames, rest) → frames_of pending frames rest.
Proof.
  revert pending frames rest; induction fuel as [|fuel IH]; intros pending frames rest Hf; cbn [cut_frames].
  - intros [= <- <-]. destruct pending; [|simpl in Hf; lia]. split_and!; [done|constructor|unfold FRAME_SAMPLES; simpl; lia].
  - case_decide as Hl.
    + destruct (cut_frames fuel _) as [fs r] eqn:E. intros [= <- <-].
      apply IH in E as (Hc & Hall & Hr); [|rewrite length_drop; unfold FRAME_SAMPLES in *; lia].
      split_and!; [|constructor; [|done]|done].
      * cbn [concat]. by rewrite <-app_assoc, Hc, take_drop.
      * rewrite length_take. lia.
    + intros [= <- <-]. split_and!; [done|constructor|lia].
Qed.

(** The split into frames is unique. *)
Lemma frames_unique pending f1 r1 f2 r2 : frames_of pending f1 r1 → frames_of pending f2 r2 → f1 = f2 ∧ r1 = r2.
Proof.
  intros (E1 & Hf1 & Hl1) (E2 & Hf2 & Hl2). revert pending E1 f2 Hf2 E2.
  induction Hf1 as [|a f1 Ha Hf1 IH]; intros pending E1 f2 Hf2 E2; destruct Hf2 as [|b f2 Hb Hf2]; cbn [concat] in *.
  - split; [done|]. simpl in *. congruence.
  - exfalso. apply (f_equal length) in E1, E2. simpl in E1. rewrite !length_app in E2. lia.
  - exfalso. apply (f_equal length) in E1, E2. simpl in E2. rewrite !length_app in E1. lia.
  - rewrite <-app_assoc in E1, E2. rewrite <-E2 in E1. apply app_inj_1 in E1 as [-> E1]; [|lia].
    destruct (IH _ E1 f2 Hf2 eq_refl) as [-> ->]. done.
Qed.

Lemma frames_of_app p1 f1 r1 p2 f2 r2 : frames_of p1 f1 r1 → frames_of (r1 ++ p2) f2 r2 → frames_of (p1 ++ p2) (f1 ++ f2) r2.
Proof.
  intros (E1 & Hf1 & _) (E2 & Hf2 & Hl). split_and!; [|by apply Forall_app|done].
  by rewrite concat_app, <-app_assoc, E2, app_assoc, E1.
Qed.

Lemma chunks_exact_fuel {A} f1 f2 n (l : list A) :
  0 < n → length l ≤ f1 → length l ≤ f2 → chunks_exact f1 n l = chunks_exact f2 n l.
Proof.
  intros Hn. revert f2 l; induction f1 as [|f1 IH]; intros [|f2] l H1 H2; cbn [chunks_exact]; try done.
  - destruct l; [|simpl in *; lia]. rewrite decide_False by (simpl; lia). done.
  - destruct l; [|simpl in *; lia]. rewrite decide_False by (simpl; lia). done.
  - case_decide; [|done]. f_equal. apply IH; rewrite length_drop; lia.
Qed.

Lemma chunks_exact_app {A} n k (l1 l2 : list A) :
  0 < n → length l1 = k * n →
  chunks_exact (length (l1 ++ l2)) n (l1 ++ l2) = chunks_exact (length l1) n l1 ++ chunks_exact (length l2) n l2.
Proof.
  intros Hn. revert l1; induction k as [|k IH]; intros l1 Hl.
  - destruct l1; [done|simpl in Hl; lia].
  - assert (n ≤ length l1) as Hle by (rewrite Hl; lia).
    destruct (length l1) as [|f] eqn:Ef; [lia|]. rewrite length_app, Ef. cbn [Nat.add chunks_exact].
    rewrite !decide_True by (rewrite ?length_app; lia). rewrite take_app_le, drop_app_le by lia. cbn [app]. f_equal.
    rewrite <-(chunks_exact_fuel (length (drop n l1)) f) by (rewrite ?length_drop; lia).
    rewrite <-IH by (rewrite length_drop; lia). apply chunks_exact_fuel; rewrite ?length_app, ?length_drop; lia.
Qed.

Section capture_laws.
Context `{ResamplerOps}.

Lemma resample_all_done conv fuel rs pending out rs' pending' out' :
  (∀ r, 0 < input_frames_next r) → length pending ≤ fuel →
  resample_all fuel conv rs pending out = (rs', pending', out') → length pending' < input_frames_next rs'.
Proof.
  intros Hn. revert rs pending out; induction fuel as [|fuel IH]; intros rs pending out Hf; cbn [resample_all].
  - intros [= <- <- <-]. specialize (Hn rs). lia.
  - case_decide; [by intros [= <- <- <-]|]. destruct (resample rs _) as [r rs1]. specialize (Hn rs).
    apply IH. rewrite length_drop. lia.
Qed.

(** One callback of the capture side.  Every frame handed to the encoder has
    exactly 960 samples, fewer than 960 stay pending, and nothing is lost or
    reordered: the frames followed by what stays pending are what was pending
    followed by the new samples.  With a resampler, which always asks for at least
    one frame, the loop ends with less input than it needs for another call. *)
Theorem capture_framing {S} (mono : list S → spec_float) gain data acc frames acc' :
  (∀ r, 0 < input_frames_next r) → feed mono gain data acc = (frames, acc') →
  ∃ new, frames_of (ma_pending_48k acc ++ new) frames (ma_pending_48k acc') ∧
    ma_channels acc' = ma_channels acc ∧
    match ma_resampler acc, ma_resampler acc' with
    | None, None =>
      new = map (λ s, apply_gain_i16 (f32_to_i16 (mono s)) gain) (chunks_exact (length data) (Nat.max (ma_channels acc) 1) data)
    | Some _, Some (rs, native) => length native < input_frames_next rs
    | _, _ => False
    end.
Proof.
  intros Hn. unfold feed. set (chunks := chunks_exact _ _ _).
  destruct (ma_resampler acc) as [[rs native]|].
  - destruct (resample_all _ _ _ _ _) as [[rs' native'] out] eqn:Er. cbv beta iota zeta.
    destruct (cut_frames _ _) as [fs rest] eqn:E. intros [= <- <-]. exists out.
    split_and!; [by eapply cut_frames_spec; [|exact E]|done|]. simpl. by eapply resample_all_done.
  - destruct (cut_frames _ _) as [fs rest] eqn:E. intros [= <- <-]. eexists.
    split_and!; [by eapply cut_frames_spec; [|exact E]|done|]. by rewrite map_map.
Qed.

(** The device's callback size does not matter.  Without a resampler, feeding
    whole multi-channel frames in two callbacks produces the same encoder frames
    and leaves the same samples pending as feeding them in one. *)
Theorem capture_rechunking {S} (mono : list S → spec_float) gain d1 d2 acc k f1 acc1 f2 acc2 :
  ma_resampler acc = None → length d1 = k * Nat.max (ma_channels acc) 1 →
  feed mono gain d1 acc = (f1, acc1) → feed mono gain d2 acc1 = (f2, acc2) →
  feed mono gain (d1 ++ d2) acc = (f1 ++ f2, acc2).
Proof.
  intros Hres Hlen. unfold feed. rewrite Hres. rewrite (chunks_exact_app _ k) by (lia || done).
  set (g := λ s, apply_gain_i16 (f32_to_i16 s) gain).
  destruct (cut_frames _ (_ ++ map g (map mono (chunks_exact (length d1) _ d1)))) as [fs1 r1] eqn:E1. intros [= <- <-].
  cbn [ma_resampler ma_channels ma_pending_48k].
  destruct (cut_frames _ (r1 ++ _)) as [fs2 r2] eqn:E2. intros [= <- <-].
  destruct (cut_frames _ (_ ++ map g (map mono (_ ++ _)))) as [fs r] eqn:E.
  apply cut_frames_spec in E1, E2, E; [|lia..]. rewrite !map_app, app_assoc in E.
  destruct (frames_unique _ _ _ _ _ E (frames_of_app _ _ _ _ _ _ E1 E2)) as [-> ->]. done.
Qed.

Lemma resample_all_range conv fuel rs pending out rs' pending' out' :
  (∀ s, i16_ok (conv s)) → Forall i16_ok out →
  resample_all fuel conv rs pending out = (rs', pending', out') → Forall i16_ok out'.
Proof.
  intros Hc. revert rs pending out; induction fuel as [|fuel IH]; intros rs pending out Ho; cbn [resample_all]; [by intros [= _ _ <-]|].
  case_decide; [by intros [= _ _ <-]|]. destruct (resample rs _) as [[samples|] rs1]; apply IH; [|done].
  apply Forall_app. split; [done|]. apply Forall_forall. intros z Hz. apply list_elem_of_In, in_map_iff in Hz as (s & <- & _). done.
Qed.

(** What the playback resampler yields are samples, and it keeps less input than
    its next call needs. *)
Lemma process_spec frame rs pending rs' pending' out :
  (∀ r, 0 < input_frames_next r) → process frame rs pending = (rs', pending', out) →
  Forall i16_ok out ∧ length pending' < input_frames_next rs'.
Proof.
  unfold process. intros Hn Hp. split; [|by eapply resample_all_done].
  refine (resample_all_range _ _ _ _ _ _ _ _ _ _ Hp); [|constructor]. intros s. apply f32_as_i16_range.
Qed.
End capture_laws.

(** ** The output callback *)

Lemma fan_out_lookup {A} (f : nat → A) ch fuel k0 len i :
  0 < ch → len ≤ fuel → i < len →
  concat (imap (λ k w, replicate w (f (k0 + k))) (chunk_lengths fuel ch len)) !! i = Some (f (k0 + i / ch)).
Proof.
  intros Hch. revert k0 len i; induction fuel as [|fuel IH]; intros k0 len i Hf Hi; [lia|].
  cbn [chunk_lengths]. rewrite decide_False by lia. rewrite imap_cons. cbn [concat].
  destruct (decide (i < Nat.min ch len)) as [Hlt|Hge].
  - rewrite lookup_app_l by (rewrite length_replicate; lia). rewrite Nat.div_small by lia.
    rewrite lookup_replicate_2 by lia. by rewrite Nat.add_0_r.
  - rewrite lookup_app_r by (rewrite length_replicate; lia). rewrite length_replicate.
    assert (Nat.min ch len = ch) as -> by lia.
    replace (i / ch) with (S ((i - ch) / ch)).
    2:{ replace i with ((i - ch) + 1 * ch) at 2 by lia. rewrite Nat.div_add by lia. lia. }
    rewrite <-Nat.add_succ_comm, <-(IH (S k0) (len - ch) (i - ch)) by lia. f_equal. f_equal. apply imap_ext. intros j w _. simpl. by rewrite Nat.add_succ_r.
Qed.

Lemma fan_out_length {A} (f : nat → A) ch fuel k0 len :
  0 < ch → len ≤ fuel → length (concat (imap (λ k w, replicate w (f (k0 + k))) (chunk_lengths fuel ch len))) = len.
Proof.
  intros Hch. revert k0 len; induction fuel as [|fuel IH]; intros k0 len Hf; [simpl; lia|].
  cbn [chunk_lengths]. case_decide; [simpl; lia|]. rewrite imap_cons. cbn [concat]. rewrite length_app, length_replicate.
  erewrite imap_ext; [rewrite (IH (S k0))|]; [lia..|]. intros j w _. simpl. by rewrite Nat.add_succ_r.
Qed.

(** The output callback plays exactly what it removes.  Every slot is written
    once; the slots of one device frame carry the same buffered sample, in order,
    with the gain applied, silence where the buffer has run out; exactly one
    sample per full frame is consumed and the tail stays for the next callback. *)
Theorem fill_output_exact len ch gain buf out rest :
  fill_output_from_buffer len ch gain buf = (out, rest) →
  let c := Nat.max ch 1 in let n := Nat.min (len / c) (length buf) in
  length out = len ∧
  (∀ i, i < len → out !! i = Some (apply_gain_i16 (if decide (i / c < n) then default 0%Z (buf !! (i / c)) else 0%Z) gain)) ∧
  buf = take n buf ++ rest.
Proof.
  intros E c n. unfold fill_output_from_buffer in E. fold c in E. fold n in E. injection E as <- <-.
  split; [apply (fan_out_length (λ k, apply_gain_i16 (default 0%Z (take n buf !! k)) gain) c len 0); lia|].
  split; [|by rewrite take_drop]. intros i Hi.
  rewrite (fan_out_lookup (λ k, apply_gain_i16 (default 0%Z (take n buf !! k)) gain) c len 0) by lia.
  do 2 f_equal. simpl. case_decide; [by rewrite lookup_take_lt|]. by rewrite lookup_take_ge by lia.
Qed.

(** ** The jitter buffer between them *)

Inductive PlayOp :=
| PlayFrame (samples : list Z)    (* the pump receives a resampled frame *)
| PlayCallback (len : nat).       (* the device asks for [len] slots *)

(** The shared buffer, with what has been consumed and dropped so far. *)
Record Player := { pl_buf : list Z; pl_played : list Z; pl_dropped : nat }.

Definition play (cap target ch : nat) (gain : Z) (s : Player) (op : PlayOp) : Player :=
  match op with
  | PlayFrame samples =>
    let '(buf, n) := pump cap target samples (pl_buf s) in
    {| pl_buf := buf; pl_played := pl_played s; pl_dropped := pl_dropped s + n |}
  | PlayCallback len =>
    let rest := (fill_output_from_buffer len ch gain (pl_buf s)).2 in
    {| pl_buf := rest; pl_played := pl_played s ++ take (length (pl_buf s) - length rest) (pl_buf s);
       pl_dropped := pl_dropped s |}
  end.

Definition silent : Player := {| pl_buf := []; pl_played := []; pl_dropped := 0 |}.
Definition pushed (ops : list PlayOp) : list Z :=
  flat_map (λ op, match op with PlayFrame samples => samples | PlayCallback _ => [] end) ops.

Lemma pump_spec cap target samples buf buf' n :
  target ≤ cap → pump cap target samples buf = (buf', n) →
  n ≤ length buf ∧ buf' = drop n buf ++ samples ∧ length buf' ≤ Nat.max (length buf) (Nat.max cap (length samples)).
Proof.
  intros Ht. unfold pump. case_decide as Hs; [subst samples; intros [= <- <-]; rewrite app_nil_r; split_and!; [lia|done|lia]|].
  intros [= <- <-]. rewrite length_app, length_drop. case_decide; split_and!; try done; lia.
Qed.

Lemma sublist_drop_mid (l : list Z) n k : l ++ drop n k `sublist_of` l ++ k.
Proof. apply sublist_app; [done|apply sublist_drop]. Qed.

(** The jitter buffer is a bounded queue that only ever drops from its head.
    Whatever the interleaving of network frames and device callbacks, what was
    played followed by what is buffered is a subsequence of what arrived, the
    dropped counter accounts for exactly the missing samples (so nothing is missing
    when it is zero), and the depth stays within the cap or the largest frame. *)
Theorem playback_fifo cap target ch gain ops m :
  target ≤ cap → Forall (λ op, match op with PlayFrame samples => length samples ≤ m | PlayCallback _ => True end) ops →
  let s := fold_left (play cap target ch gain) ops silent in
  pl_played s ++ pl_buf s `sublist_of` pushed ops ∧
  length (pushed ops) = length (pl_played s) + length (pl_buf s) + pl_dropped s ∧
  length (pl_buf s) ≤ Nat.max cap m.
Proof.
  intros Ht Hm. cbv zeta. induction ops as [|op ops IH] using rev_ind; [split_and!; simpl; done || lia|].
  apply Forall_app in Hm as [Hm Hop]. apply Forall_cons in Hop as [Hop _]. specialize (IH Hm) as (Hsub & Hlen & Hb).
  rewrite fold_left_app. unfold pushed in *. rewrite flat_map_app. cbn [fold_left flat_map]. rewrite app_nil_r.
  set (s := fold_left _ ops silent) in *. set (p := flat_map _ ops) in *.
  destruct op as [samples|len]; cbn [play].
  - destruct (pump cap target samples (pl_buf s)) as [buf n] eqn:E. cbn [pl_buf pl_played pl_dropped].
    cbn in Hop. apply pump_spec in E as (Hn & -> & Hd); [|done]. rewrite !length_app, length_drop in *. split_and!; [|lia..].
    rewrite app_assoc. apply sublist_app; [|done]. etrans; [apply sublist_drop_mid|done].
  - destruct (fill_output_from_buffer len ch gain (pl_buf s)) as [out rest] eqn:E. cbn [pl_buf pl_played pl_dropped fst snd].
    assert (∃ n, rest = drop n (pl_buf s)) as [n ->] by (unfold fill_output_from_buffer in E; injection E as <- <-; by eexists).
    rewrite length_drop. rewrite !app_nil_r, length_app, length_take.
    assert (take (length (pl_buf s) - (length (pl_buf s) - n)) (pl_buf s) = take n (pl_buf s)) as ->.
    { destruct (decide (n ≤ length (pl_buf s))); [f_equal; lia|]. rewrite !firstn_all2 by lia. done. }
    split_and!; [by rewrite <-app_assoc, take_drop|lia..].
Qed.

(** ** Witnesses *)

#[local] Instance toy_resampler : ResamplerOps :=
  {| Resampler := unit; input_frames_next _ := 2; resample rs l := (Some (take 1 l), rs) |}.

Definition wit_acc : MonoAccumulator := {| ma_channels := 2; ma_pending_48k := replicate 959 7%Z; ma_resampler := None |}.

Lemma gain_safe_witness : i16_ok (apply_gain_i16 20000 0x40000000) ∧ apply_gain_i16 20000 0x3F800000 = 20000%Z.
Proof.
  destruct (gain_safe 20000 0x40000000) as (Hr & Hu & _); [split; vm_compute; discriminate|exact (conj Hr Hu)].
Defined.

Lemma capture_framing_witness :
  ∃ new, frames_of (replicate 959 7%Z ++ new) (feed mono_i16 0x3F800000 [100; 200; 5]%Z wit_acc).1 [].
Proof.
  destruct (capture_framing mono_i16 0x3F800000 [100; 200; 5]%Z wit_acc (feed mono_i16 0x3F800000 [100; 200; 5]%Z wit_acc).1
    (feed mono_i16 0x3F800000 [100; 200; 5]%Z wit_acc).2) as (new & Hf & _ & _);
    [intros []; cbn; lia|vm_compute; reflexivity|exact (ex_intro _ new Hf)].
Defined.

Lemma capture_rechunking_witness :
  let f1 := feed mono_i16 0x3F800000 [100; 200]%Z wit_acc in
  let f2 := feed mono_i16 0x3F800000 [300; 400]%Z f1.2 in
  feed mono_i16 0x3F800000 [100; 200; 300; 400]%Z wit_acc = (f1.1 ++ f2.1, f2.2).
Proof.
  intros f1 f2. apply (capture_rechunking mono_i16 0x3F800000 [100; 200]%Z [300; 400]%Z wit_acc 1 f1.1 f1.2 f2.1 f2.2); vm_compute; reflexivity.
Defined.

Lemma fill_output_exact_witness :
  (fill_output_from_buffer 5 2 0x3F000000 [1000; 2000; 3000]%Z).1 !! 3 = Some 1000%Z.
Proof.
  destruct (fill_output_exact 5 2 0x3F000000 [1000; 2000; 3000]%Z _ _ (surjective_pairing _)) as (_ & Hi & _).
  rewrite (Hi 3) by lia. vm_compute. reflexivity.
Defined.

Lemma playback_fifo_witness :
  let s := fold_left (play 5 3 1 0x3F800000) [PlayFrame [1; 2; 3]; PlayCallback 1; PlayFrame [4; 5; 6; 7]]%Z silent in
  length (pl_buf s) ≤ 5 ∧ pl_dropped s = 2.
Proof.
  destruct (playback_fifo 5 3 1 0x3F800000 [PlayFrame [1; 2; 3]; PlayCallback 1; PlayFrame [4; 5; 6; 7]]%Z 4)
    as (_ & _ & Hb); [lia|repeat constructor; cbn; lia|split; [exact Hb|vm_compute; reflexivity]].
Defined.
