(* ===== verification/AudioBridge.v ===== *)
(** * Audio bridge ([crates/synbad-audio/src/bridge.rs], [session.rs] start and routing)

    The run loop that owns one audio session per peer: commands from the
    supervisor, the periodic reaping, live gain changes and the drain on exit; and the
    link to the supervisor, whose cache of live peers follows the events.
    Opening devices and sockets is what the environment answers.  The steps of the bridge
    and of its drivers are taken one after the other: a driver's last event, sent while
    its session is being replaced or reported, comes before the event that does so. *)

From Stdlib Require Import ZArith Lia.
From S2P Require Import Prelude Primitives Config Versioned IpcTypes Store SupState NetSync Supervisor.

(** ** Routing ([session.rs]) *)

Inductive SessionRole := Offerer | Answerer.

Definition peer_wants_send (cfg : AudioConfig) (peer : string) : bool :=
  match aud_per_peer cfg !! peer with Some p => par_enabled p && par_send_to_peer p | None => true end.
Definition peer_wants_recv (cfg : AudioConfig) (peer : string) : bool :=
  match aud_per_peer cfg !! peer with Some p => par_enabled p && par_receive_from_peer p | None => true end.

(** ** Sessions *)

(** A running session: the directions and devices it was started for (a device that
    does not open is reported and left out), and the
    status and end its driver reports. *)
Record AudioSession := {
  au_role : SessionRole;
  au_send : bool;
  au_recv : bool;
  au_input_device : option string;
  au_output_device : option string;
  au_status : PeerAudioStatus;
  au_finished : bool
}.
#[export] Instance AudioSession_eta : Eta AudioSession := λ r,
  {| au_role := au_role r; au_send := au_send r; au_recv := au_recv r; au_input_device := au_input_device r;
     au_output_device := au_output_device r; au_status := au_status r; au_finished := au_finished r |}.

(** [start_inner] names the status after the peer. *)
Definition peer_status_for (peer : string) (status : PeerAudioStatus) : PeerAudioStatus :=
  status <| as_machine_id := peer |> <| as_display_name := peer |>.

(** What [driver_task] leaves in the status when its driver has returned. *)
Definition ended_status (reason : option string) (status : PeerAudioStatus) : PeerAudioStatus :=
  status <| as_sending_to_peer := false |> <| as_receiving_from_peer := false |>
    <| as_last_error := Some (default "session closed"%string reason) |>.

(** How the devices and the media socket behave while a session starts, and the
    status when the bridge takes its snapshot. *)
Record StartEnv := {
  st_capture : result string unit;
  st_playback : result string unit;
  st_inner : result string unit;
  st_snapshot : PeerAudioStatus
}.
#[export] Instance StartEnv_eta : Eta StartEnv := λ r,
  {| st_capture := st_capture r; st_playback := st_playback r; st_inner := st_inner r; st_snapshot := st_snapshot r |}.

(** The events sent while starting, and the session. *)
Definition session_start (env : StartEnv) (peer : string) (cfg : AudioConfig) (role : SessionRole)
    : list AudioEvent * result string AudioSession :=
  let want_send := peer_wants_send cfg peer in
  let ev1 := match want_send, st_capture env with
             | true, Err e => [AeError (Some peer) ("capture: " +:+ e)]
             | _, _ => []
             end in
  let want_recv := peer_wants_recv cfg peer in
  let ev2 := match want_recv, st_playback env with
             | true, Err e => [AeError (Some peer) ("playback: " +:+ e)]
             | _, _ => []
             end in
  (ev1 ++ ev2,
   match st_inner env with
   | Ok _ => Ok {| au_role := role; au_send := want_send; au_recv := want_recv; au_input_device := aud_input_device cfg;
                   au_output_device := aud_output_device cfg; au_status := peer_status_for peer (st_snapshot env); au_finished := false |}
   | Err e => Err e
   end).

(** ** The bridge *)

Record AudioBridge := {
  br_config : AudioConfig;
  br_sessions : gmap string AudioSession;
  br_input_gain : Z;       (* bits of the shared gain handles *)
  br_output_gain : Z;
  br_events : list AudioEvent;
  br_running : bool
}.
#[export] Instance AudioBridge_eta : Eta AudioBridge := λ r,
  {| br_config := br_config r; br_sessions := br_sessions r; br_input_gain := br_input_gain r;
     br_output_gain := br_output_gain r; br_events := br_events r; br_running := br_running r |}.

Definition bridge_new (config : AudioConfig) : AudioBridge :=
  {| br_config := config; br_sessions := ∅; br_input_gain := aud_input_gain config;
     br_output_gain := aud_output_gain config; br_events := []; br_running := true |}.

Definition emit_audio (l : list AudioEvent) (b : AudioBridge) : AudioBridge :=
  Eval cbv [update_field] in b <| br_events := br_events b ++ l |>.
Definition set_sessions (m : gmap string AudioSession) (b : AudioBridge) : AudioBridge :=
  Eval cbv [update_field] in b <| br_sessions := m |>.
Definition stop_running (b : AudioBridge) : AudioBridge := Eval cbv [update_field] in b <| br_running := false |>.

(** Remove a session and say so; nothing for a peer without one. *)
Definition close_session (peer : string) (b : AudioBridge) : AudioBridge :=
  match br_sessions b !! peer with
  | Some _ => emit_audio [AeSessionClosed peer] (set_sessions (delete peer (br_sessions b)) b)
  | None => b
  end.
Definition close_sessions (peers : list string) (b : AudioBridge) : AudioBridge :=
  fold_left (λ b p, close_session p b) peers b.

Definition incoming_signal (env : StartEnv) (trusted : bool) (peer : string) (role : SessionRole) (b : AudioBridge) : AudioBridge :=
  if negb trusted then b else
  if negb (peer_audio_active (br_config b) peer) then b else
  let b := close_session peer b in
  let '(events, r) := session_start env peer (br_config b) role in
  let b := emit_audio events b in
  match r with
  | Ok session => emit_audio [AePeerStatus (au_status session)] (set_sessions (<[peer := session]> (br_sessions b)) b)
  | Err e => emit_audio [AeError (Some peer) e] b
  end.

(** Which sessions a new configuration invalidates. *)
Definition must_close (old new : AudioConfig) (peer : string) : bool :=
  bool_decide (aud_input_device old ≠ aud_input_device new) || bool_decide (aud_output_device old ≠ aud_output_device new)
  || negb (Bool.eqb (aud_enabled old) (aud_enabled new))
  || negb (Bool.eqb (peer_wants_send old peer) (peer_wants_send new peer))
  || negb (Bool.eqb (peer_wants_recv old peer) (peer_wants_recv new peer)).

Definition reconfigure (new : AudioConfig) (b : AudioBridge) : AudioBridge :=
  let old := br_config b in
  let b := {| br_config := new; br_sessions := br_sessions b;
              br_input_gain := if f32_eqb (aud_input_gain old) (aud_input_gain new) then br_input_gain b else aud_input_gain new;
              br_output_gain := if f32_eqb (aud_output_gain old) (aud_output_gain new) then br_output_gain b else aud_output_gain new;
              br_events := br_events b; br_running := br_running b |} in
  close_sessions (List.filter (must_close old new) (map fst (map_to_list (br_sessions b)))) b.

(** Every 250 ms: sessions whose driver ended or whose peer is no longer trusted. *)
Definition reap (trusted : string → bool) (b : AudioBridge) : AudioBridge :=
  let ended := List.filter (λ '(peer, session), au_finished session || negb (trusted peer)) (map_to_list (br_sessions b)) in
  close_sessions (map fst ended) b.

(** Leaving the loop drains the sessions. *)
Definition drain (b : AudioBridge) : AudioBridge :=
  stop_running (close_sessions (map fst (map_to_list (br_sessions b))) b).

(** The commands, the timer, and what a session's driver does on its own: it changes the
    shared status, with an event that a full channel loses ([update_status]), and it ends,
    with an event when that was a failure ([driver_task]). *)
Inductive BridgeOp :=
| BrIncomingSignal (env : StartEnv) (trusted : bool) (peer : string) (role : SessionRole)
| BrReconfigure (cfg : AudioConfig)
| BrQuery                       (* [ListDevices] and [QueryStatus] only reply *)
| BrClosePeer (peer : string)
| BrShutdown                    (* or the command channel closed *)
| BrReap (trusted : string → bool)
| BrDriver (peer : string) (sending receiving : bool) (error : option string) (room : bool)
| BrDriverEnd (peer : string) (failure : option string).

Definition driver_status (peer : string) (sending receiving : bool) (error : option string) (room : bool) (b : AudioBridge) : AudioBridge :=
  match br_sessions b !! peer with
  | Some x =>
    let after := au_status x <| as_sending_to_peer := sending |> <| as_receiving_from_peer := receiving |> <| as_last_error := error |> in
    if au_finished x || bool_decide (after = au_status x) then b else
    let b := set_sessions (<[peer := x <| au_status := after |>]> (br_sessions b)) b in
    if room then emit_audio [AePeerStatus after] b else b
  | None => b
  end.

Definition driver_end (peer : string) (failure : option string) (b : AudioBridge) : AudioBridge :=
  match br_sessions b !! peer with
  | Some x =>
    if au_finished x then b else
    let x := x <| au_status := ended_status failure (au_status x) |> <| au_finished := true |> in
    emit_audio (match failure with Some e => [AeError (Some peer) e] | None => [] end) (set_sessions (<[peer := x]> (br_sessions b)) b)
  | None => b
  end.

Definition bridge_run (op : BridgeOp) (b : AudioBridge) : AudioBridge :=
  if negb (br_running b) then b else
  match op with
  | BrIncomingSignal env trusted peer role => incoming_signal env trusted peer role b
  | BrReconfigure cfg => reconfigure cfg b
  | BrQuery => b
  | BrClosePeer peer => close_session peer b
  | BrShutdown => drain b
  | BrReap trusted => reap trusted b
  | BrDriver peer sending receiving error room => driver_status peer sending receiving error room b
  | BrDriverEnd peer failure => driver_end peer failure b
  end.

(** [QueryStatus]. *)
Definition query_status (b : AudioBridge) : list PeerAudioStatus := map (au_status ∘ snd) (map_to_list (br_sessions b)).

Inductive bridge_reachable : AudioBridge → Prop :=
| brr_new cfg : bridge_reachable (bridge_new cfg)
| brr_step op b : bridge_reachable b → bridge_reachable (bridge_run op b).

(** ** Closing sessions *)

Lemma close_session_spec p b :
  br_config (close_session p b) = br_config b ∧ br_sessions (close_session p b) = delete p (br_sessions b) ∧
  br_input_gain (close_session p b) = br_input_gain b ∧ br_output_gain (close_session p b) = br_output_gain b ∧
  br_running (close_session p b) = br_running b ∧
  br_events (close_session p b) = br_events b ++ (if bool_decide (is_Some (br_sessions b !! p)) then [AeSessionClosed p] else []).
Proof.
  unfold close_session. destruct (br_sessions b !! p) eqn:E; simpl; split_and!; try done.
  - by rewrite delete_id.
  - by rewrite app_nil_r.
Qed.

(** Removing a list of peers. *)
Definition without (ps : list string) (m : gmap string AudioSession) : gmap string AudioSession :=
  filter (λ kv, kv.1 ∉ ps) m.

Lemma close_sessions_spec ps b :
  br_config (close_sessions ps b) = br_config b ∧ br_sessions (close_sessions ps b) = without ps (br_sessions b) ∧
  br_input_gain (close_sessions ps b) = br_input_gain b ∧ br_output_gain (close_sessions ps b) = br_output_gain b ∧
  br_running (close_sessions ps b) = br_running b ∧
  ∃ l, br_events (close_sessions ps b) = br_events b ++ map AeSessionClosed l ∧
       ∀ p, p ∈ l ↔ p ∈ ps ∧ is_Some (br_sessions b !! p).
Proof.
  revert b; induction ps as [|p ps IH]; intros b; unfold close_sessions in *; cbn [fold_left].
  - split_and!; try done.
    + symmetry. apply map_filter_id. intros. set_solver.
    + exists []. rewrite app_nil_r. split; [done|set_solver].
  - destruct (IH (close_session p b)) as (-> & -> & -> & -> & -> & l & -> & Hl).
    destruct (close_session_spec p b) as (-> & Es & -> & -> & -> & ->). rewrite Es in *. split_and!; try done.
    + apply map_eq. intros q. apply option_eq. intros s. unfold without.
      rewrite !map_lookup_filter_Some, lookup_delete_Some. simpl. set_solver.
    + case_bool_decide as Hp.
      * exists (p :: l). rewrite <-app_assoc. split; [done|]. intros q. rewrite elem_of_cons, Hl.
        destruct (decide (q = p)) as [->|Hq]; [set_solver|]. rewrite lookup_delete_ne by done. set_solver.
      * exists l. rewrite app_nil_r. split; [done|]. intros q. rewrite Hl.
        destruct (decide (q = p)) as [->|Hq]; [rewrite lookup_delete_eq; split; [intros [_ [? ?]]; done|tauto]|].
        rewrite lookup_delete_ne by done. set_solver.
Qed.

Lemma without_lookup ps m p s : without ps m !! p = Some s ↔ m !! p = Some s ∧ p ∉ ps.
Proof. unfold without. rewrite map_lookup_filter_Some. done. Qed.

(** ** Every live session is one the configuration asks for *)

Definition session_ok (cfg : AudioConfig) (peer : string) (s : AudioSession) : Prop :=
  peer_audio_active cfg peer = true ∧ au_send s = peer_wants_send cfg peer ∧ au_recv s = peer_wants_recv cfg peer ∧
  au_input_device s = aud_input_device cfg ∧ au_output_device s = aud_output_device cfg.

(** The handle holds the configured gain, as [==] compares. *)
Definition gain_ok (handle config : Z) : Prop := handle = config ∨ f32_eqb handle config = true.

Record bridge_ok (b : AudioBridge) : Prop := {
  bo_sessions : ∀ p s, br_sessions b !! p = Some s → session_ok (br_config b) p s;
  bo_input : gain_ok (br_input_gain b) (aud_input_gain (br_config b));
  bo_output : gain_ok (br_output_gain b) (aud_output_gain (br_config b));
  bo_stopped : br_running b = false → br_sessions b = ∅
}.

Lemma active_wants cfg p :
  peer_audio_active cfg p = aud_enabled cfg && (peer_wants_send cfg p || peer_wants_recv cfg p).
Proof.
  unfold peer_audio_active, peer_wants_send, peer_wants_recv. destruct (aud_enabled cfg); [|done]. simpl.
  destruct (aud_per_peer cfg !! p) as [[[] [] []]|]; done.
Qed.

Lemma must_close_false old new p :
  must_close old new p = false →
  aud_input_device old = aud_input_device new ∧ aud_output_device old = aud_output_device new ∧
  aud_enabled old = aud_enabled new ∧ peer_wants_send old p = peer_wants_send new p ∧
  peer_wants_recv old p = peer_wants_recv new p.
Proof.
  unfold must_close. rewrite !orb_false_iff, !bool_decide_eq_false, !negb_false_iff.
  intros ((((H1 & H2) & H3%Bool.eqb_prop) & H4%Bool.eqb_prop) & H5%Bool.eqb_prop).
  split_and!; try done; by apply dec_stable.
Qed.

Lemma f32_eqb_trans a b c : f32_eqb a b = true → f32_eqb b c = true → f32_eqb a c = true.
Proof.
  unfold f32_eqb. rewrite !andb_true_iff, !orb_true_iff, !andb_true_iff, !Z.eqb_eq. naive_solver.
Qed.

Lemma gain_ok_set handle old new :
  gain_ok handle old → gain_ok (if f32_eqb old new then handle else new) new.
Proof.
  unfold gain_ok. intros Hh. destruct (f32_eqb old new) eqn:E; [|by left].
  destruct Hh as [->|Hh]; [by right|right]. by eapply f32_eqb_trans.
Qed.

Lemma close_sessions_ok ps b : bridge_ok b → bridge_ok (close_sessions ps b).
Proof.
  intros [Hs Hi Ho Hst]. destruct (close_sessions_spec ps b) as (Ec & Es & Ei & Eo & Er & _).
  split; rewrite ?Ec, ?Es, ?Ei, ?Eo, ?Er; try done.
  - intros p s [Hp _]%without_lookup. by apply Hs.
  - intros Hrun. rewrite (Hst Hrun). apply map_filter_empty.
Qed.

Lemma incoming_ok env trusted p role b : br_running b = true → bridge_ok b → bridge_ok (incoming_signal env trusted p role b).
Proof.
  intros Hrun Hok. unfold incoming_signal. destruct trusted; [|done]. simpl.
  destruct (peer_audio_active (br_config b) p) eqn:Ha; [|done]. simpl.
  pose proof (close_sessions_ok [p] b Hok) as [Hs Hi Ho Hst]. unfold close_sessions in *. cbn [fold_left] in *.
  destruct (close_session_spec p b) as (Ec & Es & Ei & Eo & Er & _).
  unfold session_start. destruct (st_inner env); split; cbn [br_config br_sessions br_input_gain br_output_gain br_running emit_audio set_sessions];
    rewrite ?Er, ?Hrun; try done; try exact Hs.
  intros q s. rewrite lookup_insert_Some. intros [[<- <-]|[_ Hq]]; [|by apply Hs].
  rewrite Ec. unfold session_ok; simpl. by split_and!.
Qed.

Lemma reconfigure_ok new b : br_running b = true → bridge_ok b → bridge_ok (reconfigure new b).
Proof.
  intros Hrun [Hs Hi Ho Hst]. unfold reconfigure. set (b' := Build_AudioBridge _ _ _ _ _ _).
  set (ps := List.filter _ _). destruct (close_sessions_spec ps b') as (Ec & Es & Ei & Eo & Er & _).
  split; rewrite ?Ec, ?Es, ?Ei, ?Eo, ?Er; cbn [b' br_config br_sessions br_input_gain br_output_gain br_running];
    [|by apply gain_ok_set..|by rewrite Hrun].
  intros p s [Hp Hn]%without_lookup. cbn in Hp.
  assert (must_close (br_config b) new p = false) as (E1 & E2 & E3 & E4 & E5)%must_close_false.
  { destruct (must_close _ new p) eqn:Em; [|done]. destruct Hn. unfold ps. apply list_elem_of_In, filter_In. split; [|done].
    apply list_elem_of_In, list_elem_of_fmap. exists (p, s). split; [done|]. by apply elem_of_map_to_list. }
  destruct (Hs p s Hp) as (Ha & ? & ? & ? & ?). unfold session_ok. rewrite active_wants in *.
  rewrite <-E1, <-E2, <-E3, <-E4, <-E5. done.
Qed.

(** What a driver does to its session leaves alone what it was started for. *)
Lemma same_terms_ok p x y b events :
  br_running b = true → bridge_ok b → br_sessions b !! p = Some x →
  (au_send y, au_recv y, au_input_device y, au_output_device y) = (au_send x, au_recv x, au_input_device x, au_output_device x) →
  bridge_ok {| br_config := br_config b; br_sessions := <[p := y]> (br_sessions b); br_input_gain := br_input_gain b;
               br_output_gain := br_output_gain b; br_events := events; br_running := br_running b |}.
Proof.
  intros Hrun [Hs Hi Ho Hst] Ep [= E1 E2 E3 E4]. split; cbn; rewrite ?Hrun; try done. intros q s'.
  rewrite lookup_insert_Some. intros [[<- <-]|[_ Hq]]; [|by apply Hs]. unfold session_ok. rewrite E1, E2, E3, E4. exact (Hs _ _ Ep).
Qed.

Lemma bridge_step_ok op b : bridge_ok b → bridge_ok (bridge_run op b).
Proof.
  intros Hok. unfold bridge_run. destruct (br_running b) eqn:Hrun; [|done]. simpl.
  destruct op as [env trusted p role|cfg| |p| |trusted|p snd rcv err room|p failure].
  - by apply incoming_ok.
  - by apply reconfigure_ok.
  - done.
  - apply (close_sessions_ok [p] b Hok).
  - pose proof (close_sessions_ok (map fst (map_to_list (br_sessions b))) b Hok) as [Hs Hi Ho _]. unfold drain.
    split; cbn; try done. intros _.
    destruct (close_sessions_spec (map fst (map_to_list (br_sessions b))) b) as (_ & -> & _).
    apply map_empty. intros p. apply eq_None_not_Some. intros [s [Hp Hn]%without_lookup]. destruct Hn.
    apply list_elem_of_fmap. exists (p, s). split; [done|]. by apply elem_of_map_to_list.
  - by apply close_sessions_ok.
  - unfold driver_status. destruct (br_sessions b !! p) as [x|] eqn:Ep; [|done]. destruct (_ || _); [done|].
    destruct room; apply (same_terms_ok p x _ b); done.
  - unfold driver_end. destruct (br_sessions b !! p) as [x|] eqn:Ep; [|done]. destruct (au_finished x); [done|].
    by apply (same_terms_ok p x _ b).
Qed.

(** Every audio session is one the current configuration asks for.  In every
    reachable state of the bridge, a peer with a session is active under the
    configuration in force, the session was started for exactly the directions and
    the devices configured now, and the gain handles hold the configured gains; after
    the loop has ended no session is left. *)
Theorem bridge_sessions_match_config b :
  bridge_reachable b →
  (∀ p s, br_sessions b !! p = Some s → session_ok (br_config b) p s) ∧
  gain_ok (br_input_gain b) (aud_input_gain (br_config b)) ∧ gain_ok (br_output_gain b) (aud_output_gain (br_config b)) ∧
  (br_running b = false → br_sessions b = ∅).
Proof.
  intros Hr. assert (bridge_ok b) as [Hs Hi Ho Hst]; [|done].
  induction Hr as [cfg|op b _ IH]; [|by apply bridge_step_ok]. split; simpl; try done; by left.
Qed.

(** ** Reaping and revocation *)

(** The reaper is exact.  After one round, the sessions left are exactly those
    whose driver still runs and whose peer is still trusted, and each session that
    went was announced as closed. *)
Theorem reap_exact trusted b :
  br_running b = true →
  let b' := bridge_run (BrReap trusted) b in
  (∀ p s, br_sessions b' !! p = Some s ↔ br_sessions b !! p = Some s ∧ au_finished s = false ∧ trusted p = true) ∧
  ∃ l, br_events b' = br_events b ++ map AeSessionClosed l ∧
       ∀ p, p ∈ l ↔ is_Some (br_sessions b !! p) ∧ br_sessions b' !! p = None.
Proof.
  intros Hrun. cbv zeta. unfold bridge_run. rewrite Hrun. cbn [negb]. unfold reap. set (ended := List.filter _ _).
  assert (∀ p, p ∈ map fst ended ↔ ∃ s, br_sessions b !! p = Some s ∧ (au_finished s || negb (trusted p)) = true) as Hend.
  { intros p. rewrite list_elem_of_fmap. unfold ended. split.
    - intros ([q s] & -> & [Hin Hf]%list_elem_of_In%filter_In). exists s. split; [|done].
      by apply elem_of_map_to_list, list_elem_of_In.
    - intros (s & Hp & Hf). exists (p, s). split; [done|]. apply list_elem_of_In, filter_In. split; [|done].
      by apply list_elem_of_In, elem_of_map_to_list. }
  destruct (close_sessions_spec (map fst ended) b) as (_ & Es & _ & _ & _ & l & -> & Hl). rewrite Es. split.
  - intros p s. rewrite without_lookup, Hend. split.
    + intros [Hp Hn]. split; [done|].
      destruct (au_finished s || negb (trusted p)) eqn:Eb; [destruct Hn; by exists s|].
      by apply orb_false_iff in Eb as [? ?%negb_false_iff].
    + intros (Hp & Hf & Ht). split; [done|]. intros (s' & Hp' & Hbad). rewrite Hp in Hp'. injection Hp' as <-.
      by rewrite Hf, Ht in Hbad.
  - exists l. split; [done|]. intros p. rewrite Hl. split.
    + intros [Hp Hs]. split; [done|]. apply eq_None_not_Some. by intros [s [_ Hn]%without_lookup].
    + intros [[s Hs] Hnone]. split; [|by eexists]. destruct (decide (p ∈ map fst ended)) as [|Hn]; [done|].
      exfalso. apply eq_None_not_Some in Hnone. apply Hnone. exists s. by apply without_lookup.
Qed.

(** ** The supervisor's view *)

(** The supervisor handles the bridge's events in order. *)
Definition handle_audio_events (env : SEnv) (l : list AudioEvent) (s : Sup) : Sup :=
  fold_left (λ s e, handle_audio_event env e s) l s.

Lemma handle_audio_events_app env l1 l2 s :
  handle_audio_events env (l1 ++ l2) s = handle_audio_events env l2 (handle_audio_events env l1 s).
Proof. apply fold_left_app. Qed.

(** What an event does to the cache. *)
Definition live_event (live : gset string) (ev : AudioEvent) : gset string :=
  match ev with
  | AePeerStatus st => if as_last_error st is Some _ then live ∖ {[as_machine_id st]} else {[as_machine_id st]} ∪ live
  | AeError (Some p) _ | AeSessionClosed p => live ∖ {[p]}
  | AeError None _ | AeDevicesChanged => live
  end.
Definition live_after (q : list AudioEvent) (live : gset string) : gset string := fold_left live_event q live.

Lemma event_live env ev s : sv_audio_live (handle_audio_event env ev s) = live_event (sv_audio_live s) ev.
Proof. unfold handle_audio_event, live_event. by repeat case_match; simplify_eq/=. Qed.

Lemma live_after_app q1 q2 live : live_after (q1 ++ q2) live = live_after q2 (live_after q1 live).
Proof. apply fold_left_app. Qed.

(** Peers taken out of the cache beforehand are at most missing from it afterwards. *)
Lemma live_after_within q live live' gone :
  live ∖ gone ⊆ live' → live' ⊆ live → live_after q live ∖ gone ⊆ live_after q live' ∧ live_after q live' ⊆ live_after q live.
Proof.
  revert live live'. induction q as [|ev q IH]; intros live live' H1 H2; [done|]. cbn. apply IH; unfold live_event; repeat case_match; set_solver.
Qed.

Lemma closed_live l live : live_after (map AeSessionClosed l) live = live ∖ list_to_set l.
Proof. revert live; induction l as [|p l IH]; intros live; cbn; [set_solver|]. rewrite IH. set_solver. Qed.

(** Errors of one peer only take that peer out of the cache. *)
Lemma errors_live p msgs live : live_after (map (AeError (Some p)) msgs) live = match msgs with [] => live | _ => live ∖ {[p]} end.
Proof. revert live; induction msgs as [|m msgs IH]; intros live; cbn; [done|]. rewrite IH. destruct msgs; set_solver. Qed.

Lemma start_errors env peer cfg role : ∃ msgs, (session_start env peer cfg role).1 = map (AeError (Some peer)) msgs.
Proof.
  unfold session_start. cbn [fst].
  destruct (peer_wants_send cfg peer), (st_capture env), (peer_wants_recv cfg peer), (st_playback env);
    first [by exists []|by eexists [_]|by eexists [_; _]].
Qed.

(** The cache tracks the sessions, but for the peers of [apart]: whoever is in it has a
    session, and a session whose driver still runs is in it exactly while its status carries
    no error. *)
Record tracks (apart live : gset string) (b : AudioBridge) : Prop := {
  tk_live : ∀ p, p ∈ live → is_Some (br_sessions b !! p);
  tk_running : ∀ p x, br_sessions b !! p = Some x → p ∉ apart → au_finished x = false → p ∈ live ↔ as_last_error (au_status x) = None;
  tk_named : ∀ p x, br_sessions b !! p = Some x → as_machine_id (au_status x) = p
}.

(** A fresh session is followed again; one whose event was lost no longer is. *)
Definition apart_after (op : BridgeOp) (b : AudioBridge) (apart : gset string) : gset string :=
  match op with
  | BrIncomingSignal _ trusted p _ => if trusted && peer_audio_active (br_config b) p then apart ∖ {[p]} else apart
  | BrDriver p _ _ _ room => if room then apart else {[p]} ∪ apart
  | _ => apart
  end.

(** The sessions of [ps] closed, and said so. *)
Lemma close_sessions_tracks apart ps b live :
  tracks apart live b →
  ∃ l, br_events (close_sessions ps b) = br_events b ++ l ∧ tracks apart (live_after l live) (close_sessions ps b).
Proof.
  intros [Ht Hr Hn]. destruct (close_sessions_spec ps b) as (_ & Es & _ & _ & _ & l & He & Hl).
  exists (map AeSessionClosed l). split; [done|]. rewrite closed_live. split; rewrite Es.
  - intros p. rewrite elem_of_difference, elem_of_list_to_set, Hl. intros [Hp Hnot]. destruct (Ht p Hp) as [x Hx].
    exists x. apply without_lookup. split; [done|]. intros Hin. apply Hnot. split; [done|by eexists].
  - intros p x [Hp Hnot]%without_lookup Ha Hf. rewrite elem_of_difference, elem_of_list_to_set, Hl, <-(Hr p x Hp Ha Hf). naive_solver.
  - intros p x [Hp _]%without_lookup. by apply Hn.
Qed.

(** One session's status changes; what the cache then has to hold about it. *)
Lemma tracks_update apart apart' live live' p y b events :
  tracks apart live b → is_Some (br_sessions b !! p) → as_machine_id (au_status y) = p →
  (∀ q, q ≠ p → q ∈ live' ↔ q ∈ live) → (∀ q, q ≠ p → q ∉ apart' → q ∉ apart) →
  (p ∉ apart' → au_finished y = false → p ∈ live' ↔ as_last_error (au_status y) = None) →
  tracks apart' live' {| br_config := br_config b; br_sessions := <[p := y]> (br_sessions b); br_input_gain := br_input_gain b;
               br_output_gain := br_output_gain b; br_events := events; br_running := br_running b |}.
Proof.
  intros [Ht Hr Hn] Hp Hid Hlive Hapart Hown. split; cbn.
  - intros q Hq. destruct (decide (q = p)) as [->|Hne]; [rewrite lookup_insert_eq; by eexists|]. rewrite lookup_insert_ne by done. by apply Ht, Hlive.
  - intros q x [[<- <-]|[Hne Hq]]%lookup_insert_Some; [done|]. intros Ha Hf. rewrite Hlive by done. by apply Hr; [|apply Hapart|].
  - intros q x [[<- <-]|[Hne Hq]]%lookup_insert_Some; [done|by apply Hn].
Qed.

Lemma incoming_tracks apart env trusted p role b live :
  tracks apart live b →
  ∃ l, br_events (incoming_signal env trusted p role b) = br_events b ++ l ∧
       tracks (apart_after (BrIncomingSignal env trusted p role) b apart) (live_after l live) (incoming_signal env trusted p role b).
Proof.
  intros Ht. unfold incoming_signal. cbn [apart_after].
  destruct trusted; [|exists []; by rewrite app_nil_r]. cbn [negb andb].
  destruct (peer_audio_active (br_config b) p); [|exists []; by rewrite app_nil_r]. cbn [negb].
  destruct (close_sessions_tracks apart [p] b live Ht) as (l & Hl & Htr). unfold close_sessions in *. cbn [fold_left] in *.
  destruct (start_errors env p (br_config (close_session p b)) role) as [msgs Hm].
  destruct (session_start env p _ role) as [events r] eqn:Es. cbn [fst] in Hm. subst events.
  assert (br_sessions (close_session p b) !! p = None) as Hp.
  { destruct (close_session_spec p b) as (_ & -> & _). apply lookup_delete_eq. }
  set (b1 := close_session p b) in *. destruct Htr as [Hlive Hrun Hname].
  assert (p ∉ live_after l live) as Hout by (intros [x Hx]%Hlive; congruence).
  unfold session_start in Es. injection Es as _ Er.
  destruct (st_inner env) as [[]|e]; subst r; cbn [br_events br_sessions emit_audio set_sessions au_status].
  - exists (l ++ map (AeError (Some p)) msgs ++ [AePeerStatus (peer_status_for p (st_snapshot env))]). rewrite Hl, <-!app_assoc. split; [done|].
    rewrite !live_after_app, errors_live. cbn [live_after fold_left live_event peer_status_for as_machine_id as_last_error update_field].
    assert (match msgs with [] => live_after l live | _ => live_after l live ∖ {[p]} end = live_after l live) as -> by (destruct msgs; set_solver).
    split; cbn.
    + intros q Hq. destruct (decide (q = p)) as [->|Hne]; [rewrite lookup_insert_eq; by eexists|]. rewrite lookup_insert_ne by done.
      apply Hlive. destruct (as_last_error _); set_solver.
    + intros q x [[<- <-]|[Hne Hq]]%lookup_insert_Some; cbn; intros Ha Hf; [destruct (as_last_error (st_snapshot env)); set_solver|].
      rewrite <-(Hrun q x Hq) by set_solver. destruct (as_last_error (st_snapshot env)); set_solver.
    + intros q x [[<- <-]|[Hne Hq]]%lookup_insert_Some; [done|by apply Hname].
  - exists (l ++ map (AeError (Some p)) msgs ++ [AeError (Some p) e]). rewrite Hl, <-!app_assoc. split; [done|].
    change [AeError (Some p) e] with (map (AeError (Some p)) [e]). rewrite <-map_app, live_after_app, errors_live.
    assert (match msgs ++ [e] with [] => live_after l live | _ => live_after l live ∖ {[p]} end = live_after l live) as ->
      by (destruct msgs; cbn; set_solver).
    split; cbn; [done| |done]. intros q x Hq Ha Hf. apply Hrun; [done| |done]. intros Hin. apply Ha. apply elem_of_difference. split; [done|].
    intros ->%elem_of_singleton. congruence.
Qed.

Lemma driver_status_tracks apart p snd rcv err room b live :
  tracks apart live b →
  ∃ l, br_events (driver_status p snd rcv err room b) = br_events b ++ l ∧
       tracks (apart_after (BrDriver p snd rcv err room) b apart) (live_after l live) (driver_status p snd rcv err room b).
Proof.
  intros Ht. assert (tracks (if room then apart else {[p]} ∪ apart) live b) as Hweak.
  { destruct room; [done|]. destruct Ht as [H1 H2 H3]. split; [done| |done]. intros q x Hq Ha. apply H2; [done|set_solver]. }
  unfold driver_status. cbn [apart_after]. destruct (br_sessions b !! p) as [x|] eqn:Ep; [|exists []; by rewrite app_nil_r].
  destruct (_ || _) eqn:E; [exists []; by rewrite app_nil_r|]. apply orb_false_iff in E as [Hf _]. pose proof (tk_named _ _ _ Ht p x Ep) as Hid.
  destruct room; cbn [br_events br_sessions emit_audio set_sessions].
  - eexists. split; [reflexivity|]. cbn. rewrite Hid. apply (tracks_update apart _ live _ p _ b); [done|by eexists|done| |done|]; cbn.
    + intros q Hne. destruct err; set_solver.
    + intros _ _. destruct err; set_solver.
  - exists []. rewrite app_nil_r. split; [done|]. apply (tracks_update apart _ live _ p _ b); [done|by eexists|done|done|set_solver|set_solver].
Qed.

Lemma driver_end_tracks apart p failure b live :
  tracks apart live b →
  ∃ l, br_events (driver_end p failure b) = br_events b ++ l ∧ tracks apart (live_after l live) (driver_end p failure b).
Proof.
  intros Ht. unfold driver_end. destruct (br_sessions b !! p) as [x|] eqn:Ep; [|exists []; by rewrite app_nil_r].
  destruct (au_finished x); [exists []; by rewrite app_nil_r|]. pose proof (tk_named _ _ _ Ht p x Ep) as Hid.
  eexists. split; [reflexivity|]. apply (tracks_update apart _ live _ p _ b); [done|by eexists|done| |done|done].
  intros q Hne. destruct failure; set_solver.
Qed.

Lemma bridge_step_tracks apart op b live :
  tracks apart live b → br_running b = true →
  ∃ l, br_events (bridge_run op b) = br_events b ++ l ∧ tracks (apart_after op b apart) (live_after l live) (bridge_run op b).
Proof.
  intros Ht Hrun. unfold bridge_run. rewrite Hrun. cbn [negb].
  destruct op as [env trusted p role|cfg| |p| |trusted|p snd rcv err room|p failure].
  - by apply incoming_tracks.
  - unfold reconfigure. set (b' := Build_AudioBridge _ _ _ _ _ _). apply (close_sessions_tracks _ _ b'). by destruct Ht.
  - exists []. by rewrite app_nil_r.
  - by apply (close_sessions_tracks _ [p] b).
  - unfold drain. destruct (close_sessions_tracks apart (map fst (map_to_list (br_sessions b))) b live Ht) as (l & He & [? ? ?]). by exists l.
  - by apply close_sessions_tracks.
  - by apply driver_status_tracks.
  - by apply driver_end_tracks.
Qed.

(** *** The two loops together *)

Section link.
Context `{JsonSharedOps, Sha256Ops, HexOps, TomlOps, JsonOps SideCar, JsonOps TrustFile}.
Context (our_id our_fingerprint : string) (config_path versions_path : PathPair).
Context (show_config_error : ConfigError → string) (show_trust_error : TrustError → string).
Local Notation exec := (sup_exec our_id our_fingerprint config_path versions_path show_config_error show_trust_error).

(** The supervisor and the bridge it has spawned, interleaved turn by turn: [pending] are the events
    sent and not yet handled; [apart] the peers the supervisor itself took out of the cache
    (lost ones, demoted ones, a teardown) or about whom an event was lost, since
    their session began.  Commands to the bridge are any: one that a full
    channel refuses does not come. *)
Inductive link_reachable : gset string → list AudioEvent → Sup → AudioBridge → Prop :=
| lr_new cfg s : sv_audio_live s = ∅ → link_reachable ∅ [] s (bridge_new cfg)
| lr_bridge op apart pending events s b :
    link_reachable apart pending s b → br_running b = true → br_events (bridge_run op b) = br_events b ++ events →
    link_reachable (apart_after op b apart) (pending ++ events) s (bridge_run op b)
| lr_event renv ev apart pending s b :
    link_reachable apart (ev :: pending) s b → sv_audio s = true →
    link_reachable apart pending (exec renv (SoAudioEvent ev) s).2 b
| lr_turn renv turn apart pending s b :
    link_reachable apart pending s b → (∀ ev, turn ≠ SoAudioEvent ev) →
    let s' := (exec renv turn s).2 in
    link_reachable (apart ∪ (sv_audio_live s ∖ sv_audio_live s')) pending s' b.

Lemma link_tracks apart pending s b : link_reachable apart pending s b → tracks apart (live_after pending (sv_audio_live s)) b.
Proof.
  induction 1 as [cfg s Hs|op apart pending events s b _ IH Hrun He|renv ev apart pending s b _ IH Ha|renv turn apart pending s b _ IH Hturn s'].
  - rewrite Hs. split; [cbn; set_solver|cbn; intros p x; by rewrite lookup_empty..].
  - destruct (bridge_step_tracks apart op b _ IH Hrun) as (l & Hl & Ht). rewrite He in Hl. apply app_inv_head in Hl as <-. by rewrite live_after_app.
  - cbn [sup_exec snd]. rewrite Ha. by rewrite event_live.
  - pose proof (exec_live_shrinks our_id our_fingerprint config_path versions_path show_config_error show_trust_error renv turn s Hturn) as Hsub.
    fold s' in Hsub. destruct (live_after_within pending (sv_audio_live s) (sv_audio_live s') (sv_audio_live s ∖ sv_audio_live s')) as [H1' H2'];
      [set_solver|done|]. destruct IH as [Hl Hr Hn]. split; [set_solver| |done].
    intros p x Hp Hnot Hf. rewrite <-(Hr p x Hp) by set_solver. set_solver.
Qed.

(** C28: The supervisor's liveness cache follows the bridge, whatever commands, reaping
    rounds and driver reports the bridge goes through and whatever else the supervisor does in
    between.  Once the events sent are handled, the cache holds only peers with a session; a
    session whose driver still runs is in it exactly while its status carries no error,
    and its peer is then not dialled again.  Apart from that are only the peers the supervisor
    itself took out since their session began (lost, demoted, torn down), and those about
    whom a full channel lost an event; a new session of theirs is followed again. *)
Theorem supervisor_tracks_bridge apart pending s b :
  link_reachable apart pending s b →
  let live := live_after pending (sv_audio_live s) in
  (∀ p, p ∈ live → is_Some (br_sessions b !! p)) ∧
  (∀ p x, br_sessions b !! p = Some x → p ∉ apart → au_finished x = false → p ∈ live ↔ as_last_error (au_status x) = None) ∧
  (∀ senv, sv_audio_live (handle_audio_events senv pending s) = live) ∧
  (pending = [] → ∀ senv peer x, br_sessions b !! dp_machine_id peer = Some x → dp_machine_id peer ∉ apart →
     au_finished x = false → as_last_error (au_status x) = None → dial_audio_one our_id senv peer s = s).
Proof.
  intros Hr. apply link_tracks in Hr as [Hl Hrun _]. cbv zeta. split_and!; [done|done| |].
  - intros senv. clear. revert s. induction pending as [|ev q IH]; intros s; [done|]. cbn. rewrite <-(event_live senv). apply IH.
  - intros -> senv peer x Hx Ha Hf He. unfold dial_audio_one. destruct (negb (sv_audio_dial_deps s)); [done|]. case_decide; [done|].
    destruct (negb (peer_audio_active _ _)); [done|]. destruct (negb (String.ltb _ _)); [done|].
    rewrite bool_decide_eq_true_2; [done|]. by apply (Hrun _ x).
Qed.
End link.

(** ** A concrete bridge *)

Definition wit_audio_cfg : AudioConfig :=
  {| aud_enabled := true; aud_input_device := None; aud_output_device := None; aud_input_gain := default_gain;
     aud_output_gain := default_gain; aud_per_peer := ∅; aud_signal_port := 24852 |}.
Definition wit_muted_cfg : AudioConfig :=
  {| aud_enabled := true; aud_input_device := None; aud_output_device := None; aud_input_gain := default_gain;
     aud_output_gain := default_gain;
     aud_per_peer := {["a" := {| par_enabled := false; par_send_to_peer := true; par_receive_from_peer := true |}]};
     aud_signal_port := 24852 |}.
Definition wit_start_env (p : string) : StartEnv :=
  {| st_capture := Err "no device"; st_playback := Ok tt; st_inner := Ok tt;
     st_snapshot := {| as_machine_id := p; as_display_name := p; as_sending_to_peer := false; as_receiving_from_peer := false;
                       as_rtt_ms := None; as_last_error := None |} |}.
Definition wit_bridge : AudioBridge :=
  bridge_run (BrIncomingSignal (wit_start_env "b") true "b" Offerer)
    (bridge_run (BrIncomingSignal (wit_start_env "a") true "a" Answerer) (bridge_new wit_audio_cfg)).

Lemma bridge_sessions_match_config_witness :
  ∀ p s, br_sessions (bridge_run (BrReconfigure wit_muted_cfg) wit_bridge) !! p = Some s → session_ok wit_muted_cfg p s.
Proof.
  destruct (bridge_sessions_match_config (bridge_run (BrReconfigure wit_muted_cfg) wit_bridge)) as (Hs & _);
    [repeat constructor|exact Hs].
Defined.

Lemma reap_exact_witness :
  br_sessions (bridge_run (BrReap (λ p, bool_decide (p = "b"%string))) wit_bridge) !! "a"%string = None.
Proof.
  destruct (reap_exact (λ p, bool_decide (p = "b"%string)) wit_bridge) as [Hs _]; [vm_compute; reflexivity|].
  apply eq_None_not_Some. intros [s Hx]. apply Hs in Hx as (_ & _ & Ht). discriminate Ht.
Defined.

(** With the supervisor's audio up: a session to "b" comes up and its status is handled; then it
    loses its connection, and the event waits. *)
Section link_witness.
#[local] Existing Instances toy_json_shared toy_sha toy_hex toy_toml toy_json_sidecar toy_json_trust.
Local Notation reach := (link_reachable "a" "ff" wit_config_path wit_versions_path (λ _, "bad config"%string) (λ _, "bad trust"%string)).
Local Notation exec0 := (sup_exec "a" "ff" wit_config_path wit_versions_path (λ _, "bad config"%string) (λ _, "bad trust"%string)).

Definition wit_clean : StartEnv := wit_start_env "b" <| st_capture := Ok tt |>.
Definition wit_up : AudioBridge := bridge_run (BrIncomingSignal wit_clean true "b" Answerer) (bridge_new wit_audio_cfg).
Definition wit_up_status : AudioEvent := AePeerStatus (peer_status_for "b" (st_snapshot wit_clean)).
Definition wit_told : Sup := (exec0 wit_renv (SoAudioEvent wit_up_status) (set_sv_audio true wit_sup)).2.
Definition wit_broken : BridgeOp := BrDriver "b" false false (Some "ice disconnected"%string) true.
Definition wit_broken_status : AudioEvent := AePeerStatus (st_snapshot wit_clean <| as_last_error := Some "ice disconnected"%string |>).

Definition wit_apart : gset string := apart_after (BrIncomingSignal wit_clean true "b" Answerer) (bridge_new wit_audio_cfg) ∅.
Lemma wit_apart_empty p : p ∉ wit_apart.
Proof. unfold wit_apart. cbn. set_solver. Qed.

Lemma wit_told_reach : reach wit_apart [] wit_told wit_up.
Proof.
  apply lr_event; [|reflexivity].
  apply (lr_bridge _ _ _ _ _ _ (BrIncomingSignal wit_clean true "b" Answerer) ∅ [] [wit_up_status] _ (bridge_new wit_audio_cfg));
    [apply lr_new; reflexivity|reflexivity|vm_compute; reflexivity].
Qed.

Lemma wit_broken_reach : reach wit_apart [wit_broken_status] wit_told (bridge_run wit_broken wit_up).
Proof.
  apply (lr_bridge _ _ _ _ _ _ wit_broken wit_apart [] [wit_broken_status] _ wit_up);
    [apply wit_told_reach|reflexivity|vm_compute; reflexivity].
Qed.

Example supervisor_tracks_bridge_witness :
  sv_audio_live wit_told = {["b"]} ∧ dial_audio_one "a" (wit_senv 0 true) (wit_discovered "b") wit_told = wit_told ∧
  "b"%string ∉ live_after [wit_broken_status] (sv_audio_live wit_told).
Proof.
  destruct (supervisor_tracks_bridge "a" "ff" wit_config_path wit_versions_path (λ _, "bad config"%string) (λ _, "bad trust"%string) _ _ _ _ wit_told_reach)
    as (_ & _ & _ & Hdial).
  destruct (supervisor_tracks_bridge "a" "ff" wit_config_path wit_versions_path (λ _, "bad config"%string) (λ _, "bad trust"%string) _ _ _ _ wit_broken_reach)
    as (_ & Hrun & _). split_and!; [vm_compute; reflexivity| |].
  - eapply (Hdial eq_refl (wit_senv 0 true) (wit_discovered "b")); [vm_compute; reflexivity|apply wit_apart_empty|reflexivity..].
  - intros Hin. eapply Hrun in Hin; [|vm_compute; reflexivity|set_solver|reflexivity]. discriminate Hin.
Defined.
End link_witness.
