(* ===== verification/AudioDriver.v ===== *)
(** * Audio session driver ([crates/synbad-audio/src/session.rs], [protocol.rs])

    The signaling messages, the SDP exchange under its timeout, the loop that drives one media
    session (deadlines, connection state, the first packet in each direction and
    the status it reports), and the driver they make together.  The WebRTC engine and the codec belong to other
    packages; what they output is an argument of each turn of the loop. *)

From Stdlib Require Import ZArith Lia.
From S2P Require Import Prelude Primitives IpcTypes SupState AudioDsp AudioBridge.

(** ** Signaling *)

Inductive AudioSignal :=
| SigOffer (session_id sdp : string)
| SigAnswer (session_id sdp : string)
| SigClose (session_id : string) (reason : option string).

Definition signal_session_id (s : AudioSignal) : string :=
  match s with SigOffer id _ | SigAnswer id _ | SigClose id _ => id end.

Inductive AudioError :=
| AuDevice (what : string)
| AuInputDeviceNotFound (requested : option string)
| AuOutputDeviceNotFound (requested : option string)
| AuLoopbackUnavailable
| AuStreamBuild (what : string)
| AuWebRtc (what : string)
| AuCodec (what : string)
| AuSignal (what : string)
| AuSignalClosed
| AuUntrustedPeer (what : string)
| AuIo
| AuJson.

(** One [reader.recv()]: a payload, or the channel ended. *)
Inductive Received := RcBytes (b : bytes) | RcClosed.

Section signaling.
Context `{JsonOps AudioSignal}.

(** Wait for the signal [pick] accepts, discarding others; [None] while the
    inbox has run out. *)
Fixpoint wait_for (pick : AudioSignal → option string) (inbox : list Received)
    : option (result AudioError string) * list Received :=
  match inbox with
  | [] => (None, [])
  | RcClosed :: rest => (Some (Err AuSignalClosed), rest)
  | RcBytes b :: rest =>
    match from_slice b with
    | None => (Some (Err AuJson), rest)
    | Some signal => match pick signal with
                     | Some sdp => (Some (Ok sdp), rest)
                     | None => wait_for pick rest
                     end
    end
  end.

Definition wait_for_offer := wait_for (λ s, match s with SigOffer _ sdp => Some sdp | _ => None end).
Definition wait_for_answer := wait_for (λ s, match s with SigAnswer _ sdp => Some sdp | _ => None end).

(** [send_signal]; [sent] says whether the write got through in time. *)
Inductive SendFate := SentOk | SendTimedOut | SendFailed.
Definition send_signal (fate : SendFate) (signal : AudioSignal) : result AudioError unit :=
  let? _ := ok_or AuJson (to_vec signal) in
  match fate with
  | SentOk => Ok tt
  | SendTimedOut => Err (AuSignal "signaling write timed out")
  | SendFailed => Err AuSignalClosed
  end.
End signaling.

(** The WebRTC engine's side of the SDP exchange. *)
Class RtcOps := {
  Rtc : Type;
  Pending : Type;
  create_offer : Rtc → option (string * Pending * nat) * Rtc;     (* the SDP and the media id *)
  accept_answer : Rtc → Pending → string → result string Rtc;
  accept_offer : Rtc → string → result string (string * Rtc);
  codec_config : Rtc → list (bool * nat)                          (* whether it is Opus; its payload type *)
}.

Definition SDP_MS : Z := 10000.

Section negotiate.
Context `{JsonOps AudioSignal, RtcOps}.

(** How far the exchange has come with what has arrived so far, [fate] being [None] while
    its write goes on: the media id if it is already known, or an error; [None] while it waits.
    With it the signals sent and the engine. *)
Definition negotiate (role : SessionRole) (session_id : string) (fate : option SendFate) (inbox : list Received) (rtc : Rtc)
    : option (result AudioError (option nat)) * list AudioSignal * Rtc :=
  match role with
  | Offerer =>
    match create_offer rtc with
    | (None, rtc) => (Some (Err (AuWebRtc "sdp_api apply() returned None")), [], rtc)
    | (Some (offer, pending, mid), rtc) =>
      match (λ f, send_signal f (SigOffer session_id offer)) <$> fate with
      | None => (None, [], rtc)
      | Some (Err e) => (Some (Err e), [], rtc)
      | Some (Ok _) =>
        let sent := [SigOffer session_id offer] in
        match (wait_for_answer inbox).1 with
        | None => (None, sent, rtc)
        | Some (Err e) => (Some (Err e), sent, rtc)
        | Some (Ok answer) =>
          match accept_answer rtc pending answer with
          | Err e => (Some (Err (AuWebRtc e)), sent, rtc)
          | Ok rtc => (Some (Ok (Some mid)), sent, rtc)
          end
        end
      end
    end
  | Answerer =>
    match (wait_for_offer inbox).1 with
    | None => (None, [], rtc)
    | Some (Err e) => (Some (Err e), [], rtc)
    | Some (Ok offer) =>
      match accept_offer rtc offer with
      | Err e => (Some (Err (AuWebRtc e)), [], rtc)
      | Ok (answer, rtc) =>
        match (λ f, send_signal f (SigAnswer session_id answer)) <$> fate with
        | None => (None, [], rtc)
        | Some (Err e) => (Some (Err e), [], rtc)
        | Some (Ok _) => (Some (Ok None), [SigAnswer session_id answer], rtc)
        end
      end
    end
  end.

(** One poll of the exchange: the clock, how its write stands, all that has arrived. *)
Record NegPoll := { np_now : Z; np_fate : option SendFate; np_inbox : list Received }.

(** [tokio::time::timeout]: each poll lets the exchange go on, and only when it still
    waits looks at the clock.  [None] when no poll has settled it. *)
Fixpoint negotiate_within (deadline : Z) (role : SessionRole) (session_id : string) (polls : list NegPoll) (rtc : Rtc)
    : option (result AudioError (option nat * Rtc)) :=
  match polls with
  | [] => None
  | poll :: polls' =>
    match negotiate role session_id (np_fate poll) (np_inbox poll) rtc with
    | (Some (Ok mid), _, rtc) => Some (Ok (mid, rtc))
    | (Some (Err e), _, _) => Some (Err e)
    | (None, _, _) =>
      if bool_decide (deadline ≤ np_now poll)%Z then Some (Err (AuSignal "SDP negotiation timed out"))
      else negotiate_within deadline role session_id polls' rtc
    end
  end.

Definition opus_payload_type (rtc : Rtc) : option nat := snd <$> List.find fst (codec_config rtc).
End negotiate.

(** ** The loop *)

Inductive IceState := IceDisconnected | IceConnected | IceCompleted | IceOther.

(** What the engine hands out while it is drained. *)
Inductive RtcOutput :=
| OutTransmit
| OutConnected
| OutMediaAdded (mid : nat)
| OutMediaData (decoded : option (list Z))     (* the codec's result *)
| OutIce (state : IceState)
| OutEvent.                                    (* any other event *)

Inductive PollEnd := PollTimeout (at_ : Z) | PollError.

(** Which arm of the [select!] is taken. *)
Inductive Arm :=
| ArmClose
| ArmUdp
| ArmCapture (frame : option (list Z)) (encoded writer_ok written : bool)
| ArmSleep
| ArmSignal (received : Received).

Record Driver := {
  dr_mid : option nat;
  dr_capture : bool;                 (* the capture channel is still polled *)
  dr_playback : bool;
  dr_first_send : bool;
  dr_first_recv : bool;
  dr_deadline : option Z;
  dr_connected : bool;
  dr_status : PeerAudioStatus;
  dr_events : list AudioEvent;
  dr_played : list (list Z);         (* frames offered to the playback queue *)
  dr_written : nat                   (* packets handed to the engine *)
}.
#[export] Instance Driver_eta : Eta Driver := λ r,
  {| dr_mid := dr_mid r; dr_capture := dr_capture r; dr_playback := dr_playback r; dr_first_send := dr_first_send r;
     dr_first_recv := dr_first_recv r; dr_deadline := dr_deadline r; dr_connected := dr_connected r;
     dr_status := dr_status r; dr_events := dr_events r; dr_played := dr_played r; dr_written := dr_written r |}.

Definition CONNECT_MS : Z := 15000.
Definition RECONNECT_MS : Z := 5000.

Definition driver_start (now : Z) (mid : option nat) (capture playback : bool) (status : PeerAudioStatus) : Driver :=
  {| dr_mid := mid; dr_capture := capture; dr_playback := playback; dr_first_send := true; dr_first_recv := true;
     dr_deadline := Some (now + CONNECT_MS)%Z; dr_connected := false; dr_status := status; dr_events := [];
     dr_played := []; dr_written := 0 |}.

(** Change the shared status; an event only if that changed it. *)
Definition update_status (f : PeerAudioStatus → PeerAudioStatus) (d : Driver) : Driver :=
  let after := f (dr_status d) in
  let events := if decide (after = dr_status d) then dr_events d else dr_events d ++ [AePeerStatus after] in
  d <| dr_status := after |> <| dr_events := events |>.

Definition with_error (e : option string) (s : PeerAudioStatus) : PeerAudioStatus := s <| as_last_error := e |>.
Definition with_sending (s : PeerAudioStatus) : PeerAudioStatus := s <| as_sending_to_peer := true |>.
Definition with_receiving (s : PeerAudioStatus) : PeerAudioStatus := s <| as_receiving_from_peer := true |>.

Definition set_link (connected : bool) (deadline : option Z) (d : Driver) : Driver :=
  Eval cbv [update_field] in d <| dr_connected := connected |> <| dr_deadline := deadline |>.
Definition set_mid (mid : option nat) (d : Driver) : Driver := Eval cbv [update_field] in d <| dr_mid := mid |>.
Definition set_capture (b : bool) (d : Driver) : Driver := Eval cbv [update_field] in d <| dr_capture := b |>.
Definition note_sent (d : Driver) : Driver :=
  Eval cbv [update_field] in d <| dr_first_send := false |> <| dr_written := S (dr_written d) |>.
Definition note_played (frame : list Z) (d : Driver) : Driver :=
  Eval cbv [update_field] in d <| dr_first_recv := false |> <| dr_played := dr_played d ++ [frame] |>.

Definition handle_output (now : Z) (d : Driver) (out : RtcOutput) : Driver :=
  match out with
  | OutTransmit | OutEvent => d
  | OutConnected => update_status (with_error None) (set_link true None d)
  | OutMediaAdded mid => match dr_mid d with None => set_mid (Some mid) d | Some _ => d end
  | OutMediaData decoded =>
    if dr_playback d then
      match decoded with
      | Some frame =>
        let first := dr_first_recv d in
        let d := note_played frame d in
        if first then update_status with_receiving d else d
      | None => d
      end
    else d
  | OutIce IceDisconnected =>
    let deadline := match dr_deadline d with Some t => Some t | None => Some (now + RECONNECT_MS)%Z end in
    update_status (with_error (Some "ice disconnected"%string)) (set_link (dr_connected d) deadline d)
  | OutIce (IceConnected | IceCompleted) =>
    update_status (with_error None) (set_link (dr_connected d) (if dr_connected d then None else dr_deadline d) d)
  | OutIce IceOther => d
  end.

(** When the sleep of this turn fires. *)
Definition wake_at (d : Driver) (next_timeout : Z) : Z :=
  match dr_deadline d with Some t => Z.min next_timeout t | None => next_timeout end.

Inductive Turn := Next (d : Driver) | Ended (r : result AudioError unit) (d : Driver).

Section loop.
Context `{JsonOps AudioSignal}.

Definition take_arm (arm : Arm) (d : Driver) : Turn :=
  match arm with
  | ArmClose => Ended (Ok tt) d
  | ArmUdp | ArmSleep => Next d
  | ArmCapture None _ _ _ => Next (set_capture false d)
  | ArmCapture (Some frame) encoded writer_ok written =>
    if negb (dr_capture d) then Next d else        (* without a channel the arm is never ready *)
    if decide (length frame ≠ FRAME_SAMPLES) then Next d else
    match dr_mid d with
    | None => Next d
    | Some _ =>
      if negb encoded then Next d else
      if negb writer_ok then Next d else
      if negb written then Next d else
      let first := dr_first_send d in
      let d := note_sent d in
      Next (if first then update_status with_sending d else d)
    end
  | ArmSignal RcClosed => Ended (Ok tt) d
  | ArmSignal (RcBytes b) =>
    match from_slice b with
    | Some (SigClose _ _) => Ended (Ok tt) d
    | _ => Next d
    end
  end.

(** One turn: the liveness check, draining the engine, one event. *)
Record TurnEnv := {
  te_now : Z;
  te_alive : bool;
  te_outputs : list (RtcOutput * Z);       (* each with the clock when it is handled *)
  te_end : PollEnd;
  te_arm : Arm
}.

Definition media_down : AudioError := AuWebRtc "media connection unavailable".

Definition expired (now : Z) (d : Driver) : bool :=
  match dr_deadline d with Some t => bool_decide (t ≤ now)%Z | None => false end.

Definition driver_turn (env : TurnEnv) (d : Driver) : Turn :=
  if negb (te_alive env) || expired (te_now env) d then Ended (Err media_down) d else
  let d := fold_left (λ d '(out, now), handle_output now d out) (te_outputs env) d in
  match te_end env with
  | PollError => Ended (Err (AuWebRtc "poll_output")) d
  | PollTimeout _ => take_arm (te_arm env) d
  end.

Fixpoint media_loop (turns : list TurnEnv) (d : Driver) : Turn :=
  match turns with
  | [] => Next d
  | env :: turns' => match driver_turn env d with Next d' => media_loop turns' d' | e => e end
  end.

(** *** The whole driver *)

(** What it meets before the loop, and in it. *)
Record DriverEnv := {
  ve_start : Z;
  ve_candidate : result string unit;       (* the host candidate of the media address *)
  ve_polls : list NegPoll;
  ve_encoder : result string unit;         (* the codec's constructors *)
  ve_bitrate : result string unit;
  ve_decoder : result string unit;
  ve_loop_start : Z;
  ve_turns : list TurnEnv
}.

(** [build_opus_encoder], [build_opus_decoder] ([rtc.rs]). *)
Definition build_opus_encoder (env : DriverEnv) : result AudioError unit :=
  let? _ := rmap_err (λ e, AuCodec ("opus encoder init: " +:+ e)) (ve_encoder env) in
  rmap_err (λ e, AuCodec ("opus encoder set_bitrate: " +:+ e)) (ve_bitrate env).
Definition build_opus_decoder (env : DriverEnv) : result AudioError unit :=
  rmap_err (λ e, AuCodec ("opus decoder init: " +:+ e)) (ve_decoder env).

(** Still negotiating, failed before the loop, or in the loop or past it. *)
Inductive DriverRun := RunNegotiating | RunFailed (e : AudioError) | RunLoop (t : Turn).

Definition run_driver `{RtcOps} (role : SessionRole) (session_id : string) (capture playback : bool) (status : PeerAudioStatus)
    (env : DriverEnv) (rtc : Rtc) : DriverRun :=
  match ve_candidate env with
  | Err e => RunFailed (AuWebRtc ("host candidate: " +:+ e))
  | Ok _ =>
    match negotiate_within (ve_start env + SDP_MS) role session_id (ve_polls env) rtc with
    | None => RunNegotiating
    | Some (Err e) => RunFailed e
    | Some (Ok (mid, rtc)) =>
      match opus_payload_type rtc with
      | None => RunFailed (AuWebRtc "Opus codec missing from negotiated config")
      | Some _ =>
        match build_opus_encoder env, build_opus_decoder env with
        | Err e, _ => RunFailed e
        | Ok _, Err e => RunFailed e
        | Ok _, Ok _ => RunLoop (media_loop (ve_turns env) (driver_start (ve_loop_start env) mid capture playback status))
        end
      end
    end
  end.

(** What the task leaves behind: the last status and, for a failure, an event. *)
Definition driver_task (show : AudioError → string) (r : result AudioError unit) (d : Driver) : PeerAudioStatus * list AudioEvent :=
  (ended_status (match r with Err e => Some (show e) | Ok _ => None end) (dr_status d),
   dr_events d ++ match r with Err e => [AeError (Some (as_machine_id (dr_status d))) (show e)] | Ok _ => [] end).
End loop.

(** ** Negotiation *)

Section negotiation_laws.
Context `{JsonLaws AudioSignal, RtcOps}.

(** Signals that are not of the awaited kind. *)
Definition noise (pick : AudioSignal → option string) (r : Received) : Prop :=
  ∃ s b, r = RcBytes b ∧ to_vec s = Some b ∧ pick s = None.

Lemma wait_for_noise pick before sdp s b rest :
  Forall (noise pick) before → to_vec s = Some b → pick s = Some sdp →
  wait_for pick (before ++ RcBytes b :: rest) = (Some (Ok sdp), rest).
Proof.
  intros Hn Hb Hp. induction Hn as [|r before (s' & b' & -> & Hb' & Hp') _ IH]; cbn [app wait_for].
  - by rewrite (from_slice_to_vec _ _ Hb), Hp.
  - by rewrite (from_slice_to_vec _ _ Hb'), Hp'.
Qed.

(** The SDP exchange completes.  Two engines that accept each other's
    descriptions finish the negotiation whatever other signals precede the offer
    and the answer: the offerer knows its media id and sent exactly its offer, the
    answerer sent exactly its answer. *)
Theorem negotiation_completes sid_o sid_a (ro ra ro' ra' ro'' : Rtc) offer answer pending mid bo ba noise_o noise_a rest_o rest_a :
  create_offer ro = (Some (offer, pending, mid), ro') → accept_offer ra offer = Ok (answer, ra') →
  accept_answer ro' pending answer = Ok ro'' →
  to_vec (SigOffer sid_o offer) = Some bo → to_vec (SigAnswer sid_a answer) = Some ba →
  Forall (noise (λ s, match s with SigAnswer _ sdp => Some sdp | _ => None end)) noise_o →
  Forall (noise (λ s, match s with SigOffer _ sdp => Some sdp | _ => None end)) noise_a →
  negotiate Offerer sid_o (Some SentOk) (noise_o ++ RcBytes ba :: rest_o) ro = (Some (Ok (Some mid)), [SigOffer sid_o offer], ro'') ∧
  negotiate Answerer sid_a (Some SentOk) (noise_a ++ RcBytes bo :: rest_a) ra = (Some (Ok None), [SigAnswer sid_a answer], ra').
Proof.
  intros Hc Ho Ha Hbo Hba Hno Hna. unfold negotiate. rewrite Hc. unfold send_signal. cbn [fmap option_fmap option_map]. rewrite Hbo. cbn [ok_or rbind].
  unfold wait_for_answer, wait_for_offer. rewrite (wait_for_noise _ noise_o answer _ ba) by done.
  rewrite (wait_for_noise _ noise_a offer _ bo) by done. cbn [fst]. rewrite Ha, Ho, Hba. done.
Qed.
End negotiation_laws.

(** ** The connection deadline *)

Section driver_laws.
Context `{JsonOps AudioSignal}.

Definition turn_state (t : Turn) : Driver := match t with Next d | Ended _ d => d end.

(** Not connected, with the deadline it started with. *)
Definition pending_link (dl : Z) (d : Driver) : Prop := dr_connected d = false ∧ dr_deadline d = Some dl.

Lemma update_status_link f d : dr_connected (update_status f d) = dr_connected d ∧ dr_deadline (update_status f d) = dr_deadline d.
Proof. done. Qed.

Lemma handle_output_pending dl now out d : out ≠ OutConnected → pending_link dl d → pending_link dl (handle_output now d out).
Proof.
  intros Hout [Hc Hd]. unfold pending_link. destruct out as [| |mid|[frame|]|[]|]; simpl; rewrite ?Hc, ?Hd; try done.
  - by destruct (dr_mid d).
  - destruct (dr_playback d); [|done]. destruct (dr_first_recv d); done.
  - by destruct (dr_playback d).
Qed.

Lemma outputs_pending dl outs d :
  Forall (λ '(out, _), out ≠ OutConnected) outs → pending_link dl d →
  pending_link dl (fold_left (λ d '(out, now), handle_output now d out) outs d).
Proof.
  intros Ho. revert d; induction Ho as [|[out now] outs Hout _ IH]; intros d Hd; [done|].
  cbn [fold_left]. apply IH. by apply handle_output_pending.
Qed.

Lemma take_arm_pending dl arm d d' : pending_link dl d → take_arm arm d = Next d' → pending_link dl d'.
Proof.
  intros Hd. unfold take_arm. repeat case_match; intros [= <-]; done.
Qed.

(** No turn reports a connection. *)
Definition never_connects (env : TurnEnv) : Prop := Forall (λ '(out, _), out ≠ OutConnected) (te_outputs env).

Lemma driver_turn_pending dl env d d' :
  never_connects env → pending_link dl d → driver_turn env d = Next d' → pending_link dl d' ∧ (te_now env < dl)%Z.
Proof.
  intros Hn Hd. unfold driver_turn. destruct (negb (te_alive env) || expired (te_now env) d) eqn:E; [done|].
  apply orb_false_iff in E as [_ E]. unfold expired in E. destruct (proj2 Hd). destruct Hd as [Hc Hdl]. rewrite Hdl in E.
  apply bool_decide_eq_false in E. destruct (te_end env); [|done]. intros Ht. split; [|lia].
  by eapply take_arm_pending; [apply outputs_pending|].
Qed.

Lemma media_loop_pending dl turns d d' :
  Forall never_connects turns → pending_link dl d → media_loop turns d = Next d' →
  pending_link dl d' ∧ Forall (λ env, (te_now env < dl)%Z) turns.
Proof.
  intros Hn. revert d; induction Hn as [|env turns He _ IH]; intros d Hd; cbn [media_loop]; [by intros [= <-]|].
  destruct (driver_turn env d) as [d1|] eqn:E; [|done]. intros Hrun.
  destruct (driver_turn_pending _ _ _ _ He Hd E) as [Hd1 Hlt]. destruct (IH _ Hd1 Hrun). split; [done|by constructor].
Qed.

(** The loop ends by the first turn at its deadline, and sleeps no longer than that. *)
Lemma media_loop_gives_up t0 mid capture playback status turns :
  Forall never_connects turns →
  (Exists (λ env, (t0 + CONNECT_MS ≤ te_now env)%Z) turns →
   ∃ r d, media_loop turns (driver_start t0 mid capture playback status) = Ended r d) ∧
  ∀ d next, media_loop turns (driver_start t0 mid capture playback status) = Next d → (wake_at d next ≤ t0 + CONNECT_MS)%Z.
Proof.
  intros Hn. set (d0 := driver_start _ _ _ _ _). assert (pending_link (t0 + CONNECT_MS) d0) as H0 by done. split.
  - intros Hlate. destruct (media_loop turns d0) as [d|r d] eqn:E; [|by eexists _, _].
    destruct (media_loop_pending _ _ _ _ Hn H0 E) as [_ Hall]. exfalso.
    apply Exists_exists in Hlate as (env & Hin & Hle). rewrite Forall_forall in Hall. specialize (Hall _ Hin). lia.
  - intros d next E. destruct (media_loop_pending _ _ _ _ Hn H0 E) as [[_ Hdl] _]. unfold wake_at. rewrite Hdl. lia.
Qed.

Lemma negotiate_within_settles `{RtcOps} deadline role sid polls rtc :
  Exists (λ p, (deadline ≤ np_now p)%Z) polls → is_Some (negotiate_within deadline role sid polls rtc).
Proof.
  induction polls as [|p polls IH]; intros Hp; [by inversion Hp|]. cbn [negotiate_within].
  destruct (negotiate _ _ _ _ _) as [[[[mid|e]|] sent] rtc']; [by eexists|by eexists|]. case_bool_decide as Hd; [by eexists|].
  apply IH. apply Exists_cons in Hp as [Hp|Hp]; [done|]. exact Hp.
Qed.

Definition run_over (r : DriverRun) : Prop := match r with RunFailed _ | RunLoop (Ended _ _) => True | _ => False end.

(** C30: A session that never connects gives up, after at most 10 s of negotiation and
    15 s of the loop.  The exchange is over by the first poll 10 s or more
    after the start; if the engine never reports a connection, the loop has ended by its first
    turn 15 s or more after it began, and until then each of its sleeps is cut short at that
    instant, so such a turn does come; and so, when the loop begins [late] after the 10 s at
    most, the whole driver is over by the first turn 25 s and [late] after the start,
    whatever else happens. *)
Theorem driver_gives_up `{RtcOps} role sid capture playback status env (rtc : Rtc) :
  Forall never_connects (ve_turns env) →
  let run := run_driver role sid capture playback status env rtc in
  (Exists (λ p, (ve_start env + SDP_MS ≤ np_now p)%Z) (ve_polls env) → run ≠ RunNegotiating) ∧
  (run ≠ RunNegotiating → Exists (λ t, (ve_loop_start env + CONNECT_MS ≤ te_now t)%Z) (ve_turns env) → run_over run) ∧
  (∀ d next, run = RunLoop (Next d) → (wake_at d next ≤ ve_loop_start env + CONNECT_MS)%Z) ∧
  (∀ late, (ve_loop_start env ≤ ve_start env + SDP_MS + late)%Z →
     Exists (λ p, (ve_start env + SDP_MS ≤ np_now p)%Z) (ve_polls env) →
     Exists (λ t, (ve_start env + 25000 + late ≤ te_now t)%Z) (ve_turns env) → run_over run).
Proof.
  intros Hn run. pose proof (λ mid, media_loop_gives_up (ve_loop_start env) mid capture playback status (ve_turns env) Hn) as Hloop.
  assert (Exists (λ p, (ve_start env + SDP_MS ≤ np_now p)%Z) (ve_polls env) → run ≠ RunNegotiating) as Hneg.
  { intros Hp. subst run. unfold run_driver. destruct (ve_candidate env); [|done].
    destruct (negotiate_within_settles _ role sid _ rtc Hp) as [[[mid rtc']|e] ->]; [|done].
    destruct (opus_payload_type rtc'); [|done]. by destruct (build_opus_encoder env), (build_opus_decoder env). }
  assert (run ≠ RunNegotiating → Exists (λ t, (ve_loop_start env + CONNECT_MS ≤ te_now t)%Z) (ve_turns env) → run_over run) as Hover.
  { intros Hr Hlate. subst run. unfold run_driver in *. repeat case_match; try done.
    match goal with |- run_over (RunLoop (media_loop _ (driver_start _ ?m _ _ _))) => by destruct (proj1 (Hloop m) Hlate) as (? & ? & ->) end. }
  split_and!; [done|done| |].
  - intros d next E. subst run. unfold run_driver in E. repeat case_match; simplify_eq. by eapply Hloop.
  - intros late Hlate Hp Ht. apply Hover; [by apply Hneg|]. eapply Exists_impl; [exact Ht|]. cbn. unfold SDP_MS, CONNECT_MS in *. lia.
Qed.

(** ** The reported status *)

Record driver_ok (d : Driver) : Prop := {
  do_sending : as_sending_to_peer (dr_status d) = negb (dr_first_send d);
  do_receiving : as_receiving_from_peer (dr_status d) = negb (dr_first_recv d);
  do_written : dr_first_send d = true ↔ dr_written d = 0;
  do_played : dr_first_recv d = true ↔ dr_played d = [];
  do_deadline : dr_connected d = false → is_Some (dr_deadline d)
}.

Lemma driver_ok_error e d : driver_ok d → driver_ok (update_status (with_error e) d).
Proof. intros [H1 H2 H3 H4 H5]. by split. Qed.

Lemma driver_ok_link c dl d : driver_ok d → (c = false → is_Some dl) → driver_ok (set_link c dl d).
Proof. intros [H1 H2 H3 H4 H5] Hdl. by split. Qed.

Lemma driver_ok_played frame d :
  driver_ok d → driver_ok (if dr_first_recv d then update_status with_receiving (note_played frame d) else note_played frame d).
Proof.
  intros [H1 H2 H3 H4 H5].
  assert (∀ l : list (list Z), false = true ↔ l ++ [frame] = []) as Hl by (intros l; split; [done|by intros [_ ?]%app_nil]).
  destruct (dr_first_recv d) eqn:E; split; simpl; done.
Qed.

Lemma driver_ok_sent d :
  driver_ok d → driver_ok (if dr_first_send d then update_status with_sending (note_sent d) else note_sent d).
Proof.
  intros [H1 H2 H3 H4 H5]. destruct (dr_first_send d) eqn:E; split; simpl; done.
Qed.

Lemma handle_output_ok now out d : driver_ok d → driver_ok (handle_output now d out).
Proof.
  intros Hd. destruct out as [| |mid|[frame|]|[]|]; cbn [handle_output]; try done.
  - apply driver_ok_error, driver_ok_link; done.
  - destruct (dr_mid d); [done|]. destruct Hd. by split.
  - destruct (dr_playback d); [by apply driver_ok_played|done].
  - by destruct (dr_playback d).
  - apply driver_ok_error, driver_ok_link; [done|]. intros _. by destruct (dr_deadline d).
  - apply driver_ok_error, driver_ok_link; [done|]. intros Hc. rewrite Hc. by apply (do_deadline _ Hd).
  - apply driver_ok_error, driver_ok_link; [done|]. intros Hc. rewrite Hc. by apply (do_deadline _ Hd).
Qed.

Lemma take_arm_ok arm d : driver_ok d → driver_ok (turn_state (take_arm arm d)).
Proof.
  intros Hd. destruct arm as [| |[frame|] encoded writer_ok written| |[b|]]; cbn [take_arm]; try done.
  - destruct (negb (dr_capture d)); [done|]. case_decide; [done|]. destruct (dr_mid d); [|done]. destruct encoded, writer_ok, written; try done.
    by apply driver_ok_sent.
  - destruct Hd. by split.
  - by destruct (from_slice b) as [[]|].
Qed.

Lemma driver_turn_ok env d : driver_ok d → driver_ok (turn_state (driver_turn env d)).
Proof.
  intros Hd. unfold driver_turn. case_match; [done|].
  assert (driver_ok (fold_left (λ d '(out, now), handle_output now d out) (te_outputs env) d)) as Hf.
  { clear -Hd. revert d Hd; induction (te_outputs env) as [|[out now] outs IH]; intros d Hd; [done|].
    cbn [fold_left]. by apply IH, handle_output_ok. }
  destruct (te_end env); [by apply take_arm_ok|done].
Qed.

Lemma media_loop_ok turns d : driver_ok d → driver_ok (turn_state (media_loop turns d)).
Proof.
  revert d; induction turns as [|env turns IH]; intros d Hd; cbn [media_loop]; [done|].
  pose proof (driver_turn_ok env d Hd) as Ht. destruct (driver_turn env d); [by apply IH|done].
Qed.

(** The status never claims media that did not flow.  After any run of the loop
    the session says it sends exactly when a packet was handed to the engine, and
    that it receives exactly when a decoded frame was offered to the playback queue; as long
    as it is not connected it has a deadline; and once the task is over it claims
    neither and carries a reason. *)
Theorem status_honest t0 mid capture playback status turns show r :
  as_sending_to_peer status = false → as_receiving_from_peer status = false →
  let d := turn_state (media_loop turns (driver_start t0 mid capture playback status)) in
  (as_sending_to_peer (dr_status d) = true ↔ 0 < dr_written d) ∧
  (as_receiving_from_peer (dr_status d) = true ↔ dr_played d ≠ []) ∧
  (dr_connected d = false → is_Some (dr_deadline d)) ∧
  let s := (driver_task show r d).1 in
  as_sending_to_peer s = false ∧ as_receiving_from_peer s = false ∧ is_Some (as_last_error s).
Proof.
  intros Hs Hr. cbv zeta. destruct (media_loop_ok turns (driver_start t0 mid capture playback status)) as [H1 H2 H3 H4 H5].
  { split; simpl; done. }
  set (d := turn_state _) in *. split_and!; try done.
  - rewrite H1, negb_true_iff. destruct (dr_first_send d); [|split; [intros _|done]].
    + rewrite (proj1 H3 eq_refl). split; [done|lia].
    + destruct (dr_written d); [|lia]. by pose proof (proj2 H3 eq_refl).
  - rewrite H2, negb_true_iff. destruct (dr_first_recv d); [|split; [intros _|done]].
    + rewrite (proj1 H4 eq_refl). done.
    + intros Hn. by pose proof (proj2 H4 Hn).
Qed.
End driver_laws.

(** ** Concrete runs *)

Program Definition codec_option {A} (c : Codec A) : Codec (option A) :=
  codec_iso (λ o, match o with None => inl tt | Some a => inr a end) (λ s, match s with inl _ => None | inr a => Some a end)
    ltac:(by intros []) (codec_sum {| c_ok _ := true; c_enc _ := []; c_dec b := Some (tt, b) |} c).
Next Obligation. by intros A c [] r _. Qed.

Definition signal_codec : Codec AudioSignal :=
  codec_iso
    (λ s, match s with SigOffer i d => inl (i, d) | SigAnswer i d => inr (inl (i, d)) | SigClose i r => inr (inr (i, r)) end)
    (λ x, match x with inl (i, d) => SigOffer i d | inr (inl (i, d)) => SigAnswer i d | inr (inr (i, r)) => SigClose i r end)
    ltac:(by intros [])
    (codec_sum (codec_pair codec_str codec_str)
       (codec_sum (codec_pair codec_str codec_str) (codec_pair codec_str (codec_option codec_str)))).
#[local] Instance toy_json_signal : JsonOps AudioSignal := json_of_codec signal_codec.
#[local] Instance toy_json_signal_laws : JsonLaws AudioSignal := json_of_codec_laws signal_codec.

(** An engine that counts the descriptions it took. *)
#[local] Instance toy_rtc : RtcOps :=
  {| Rtc := nat; Pending := unit; create_offer n := (Some ("offer"%string, (), 7), n);
     accept_answer n _ sdp := if decide (sdp = "answer"%string) then Ok (S n) else Err "bad answer"%string;
     accept_offer n sdp := if decide (sdp = "offer"%string) then Ok ("answer"%string, S n) else Err "bad offer"%string;
     codec_config _ := [(false, 96); (true, 111)] |}.

Definition wit_bytes (s : AudioSignal) : bytes := match to_vec s with Some b => b | None => [] end.
Definition wit_stray : Received := RcBytes (wit_bytes (SigClose "old" None)).

Example negotiation_completes_witness :
  negotiate Offerer "s1" (Some SentOk) [wit_stray; RcBytes (wit_bytes (SigAnswer "s2" "answer"))] (0 : @Rtc toy_rtc)
    = (Some (Ok (Some 7)), [SigOffer "s1" "offer"], 1) ∧
  negotiate Answerer "s2" (Some SentOk) [wit_stray; RcBytes (wit_bytes (SigOffer "s1" "offer"))] (0 : @Rtc toy_rtc)
    = (Some (Ok None), [SigAnswer "s2" "answer"], 1).
Proof.
  apply (negotiation_completes "s1" "s2" (0 : @Rtc toy_rtc) 0 0 1 1 "offer" "answer" () 7 (wit_bytes (SigOffer "s1" "offer"))
           (wit_bytes (SigAnswer "s2" "answer")) [wit_stray] [wit_stray] [] []); try reflexivity.
  - constructor; [|constructor]. exists (SigClose "old" None), (wit_bytes (SigClose "old" None)). repeat split; reflexivity.
  - constructor; [|constructor]. exists (SigClose "old" None), (wit_bytes (SigClose "old" None)). repeat split; reflexivity.
Defined.

Definition wit_status : PeerAudioStatus :=
  {| as_machine_id := "m"; as_display_name := "Peer"; as_sending_to_peer := false; as_receiving_from_peer := false;
     as_rtt_ms := None; as_last_error := None |}.
Definition wit_turn (now : Z) (outs : list (RtcOutput * Z)) (arm : Arm) : TurnEnv :=
  {| te_now := now; te_alive := true; te_outputs := outs; te_end := PollTimeout (now + 100); te_arm := arm |}.

(** The answer comes after four seconds; the engine never connects. *)
Definition wit_deaf : DriverEnv :=
  {| ve_start := 0; ve_candidate := Ok tt;
     ve_polls := [{| np_now := 0; np_fate := Some SentOk; np_inbox := [] |};
                  {| np_now := 4000; np_fate := Some SentOk; np_inbox := [wit_stray; RcBytes (wit_bytes (SigAnswer "s2" "answer"))] |}];
     ve_encoder := Ok tt; ve_bitrate := Ok tt; ve_decoder := Ok tt; ve_loop_start := 4005;
     ve_turns := [wit_turn 4005 [(OutTransmit, 4005%Z); (OutMediaAdded 3, 4006%Z)] ArmSleep; wit_turn 4100 [(OutIce IceDisconnected, 4100%Z)] ArmUdp;
                  wit_turn 19006 [] ArmSleep] |}.

Example driver_gives_up_witness :
  run_over (run_driver Offerer "s1" true true wit_status wit_deaf (0 : @Rtc toy_rtc)).
Proof.
  destruct (driver_gives_up Offerer "s1" true true wit_status wit_deaf (0 : @Rtc toy_rtc)) as (_ & Hover & _); [repeat constructor; discriminate|].
  apply Hover; [vm_compute; discriminate|].
  do 2 apply Exists_cons_tl. apply Exists_cons_hd. vm_compute. discriminate.
Defined.

(** The peer never answers: the timer ends the exchange, and with it the session. *)
Example silent_peer_times_out :
  run_driver Offerer "s1" true true wit_status
    {| ve_start := 0; ve_candidate := Ok tt;
       ve_polls := [{| np_now := 0; np_fate := None; np_inbox := [] |}; {| np_now := 3; np_fate := Some SentOk; np_inbox := [wit_stray] |};
                    {| np_now := 10000; np_fate := Some SentOk; np_inbox := [wit_stray] |}];
       ve_encoder := Ok tt; ve_bitrate := Ok tt; ve_decoder := Ok tt; ve_loop_start := 10000; ve_turns := [] |} (0 : @Rtc toy_rtc)
  = RunFailed (AuSignal "SDP negotiation timed out").
Proof. vm_compute. reflexivity. Qed.

Definition wit_frame : list Z := repeat 0%Z FRAME_SAMPLES.
Definition wit_live : list TurnEnv :=
  [wit_turn 0 [(OutMediaAdded 3, 0%Z); (OutConnected, 5%Z)] (ArmCapture (Some wit_frame) true true true);
   wit_turn 20 [(OutMediaData None, 20%Z)] ArmUdp].

Example status_honest_witness :
  let d := turn_state (media_loop wit_live (driver_start 0 None true true wit_status)) in
  dr_written d = 1 ∧
  (as_sending_to_peer (dr_status d) = true ↔ 0 < dr_written d) ∧
  (as_receiving_from_peer (dr_status d) = true ↔ dr_played d ≠ []) ∧
  (dr_connected d = false → is_Some (dr_deadline d)) ∧
  let s := (driver_task (λ _, "error"%string) (Ok tt) d).1 in
  as_sending_to_peer s = false ∧ as_receiving_from_peer s = false ∧ is_Some (as_last_error s).
Proof.
  split; [vm_compute; reflexivity|].
  exact (status_honest 0 None true true wit_status wit_live (λ _, "error"%string) (Ok tt) eq_refl eq_refl).
Defined.
