(* ===== verification/AudioDial.v ===== *)
(** * Audio signaling transport ([crates/synbadd/src/audio.rs])

    The outbound dial and the inbound task behind the audio listener: trust
    lookup, authenticated handshake, and the hand-off of the encrypted stream to
    the audio bridge, the last being what [commands] records. *)

From Stdlib Require Import ZArith Lia.
From S2P Require Import Prelude Primitives Config Cipher Conn Handshake IpcTypes Store SupState NetSync Supervisor SyncSession AudioBridge.

Inductive AudioDialError :=
| DeNoPort (peer : string)
| DeNotTrusted (peer : string)
| DeKeyNotHex
| DeKeyLength
| DeConnect
| DeTimedOut
| DeHandshake (e : HandshakeError)
| DeAnonymous
| DeRevoked
| DeHandoffTimedOut
| DeBridgeGone.

(** Whether the bridge takes the command within the time allowed. *)
Inductive HandFate := Taken | HandTimedOut | BridgeGone.

(** [AudioCommand::IncomingSignal]. *)
Record IncomingSignal := { sig_peer_machine_id : string; sig_stream : CipherStream; sig_role : SessionRole }.

Record Dial := {
  dl_conn : Conn;
  dl_fate : HandFate;
  dl_commands : list IncomingSignal      (* sent to the bridge *)
}.
Definition set_dl_conn (c : Conn) (d : Dial) : Dial :=
  {| dl_conn := c; dl_fate := dl_fate d; dl_commands := dl_commands d |}.

Abbreviation dial := (prog Dial AudioDialError).

Definition hand_off (cmd : IncomingSignal) : dial unit := λ d,
  match dl_fate d with
  | Taken => (Done tt, {| dl_conn := dl_conn d; dl_fate := dl_fate d; dl_commands := dl_commands d ++ [cmd] |})
  | HandTimedOut => (Failed DeHandoffTimedOut, d)
  | BridgeGone => (Failed DeBridgeGone, d)
  end.

(** [tokio::time::timeout] around a program that may wait for the peer. *)
Definition within_timeout {A} (m : dial A) : dial A := λ d,
  match m d with (Waiting, d') => (Failed DeTimedOut, d') | r => r end.

Section tasks.
Context `{HexOps, Sha256Ops, Ed25519Ops, X25519Ops, HkdfOps, AeadOps, JsonOps AuthFrame}.
Context (our_key : SigningKey) (our_id : string).

Definition on_socket {A} (m : conn HandshakeError A) : dial A := zoom dl_conn set_dl_conn DeHandshake m.

(** The body of a dial, without its handshake timeout. *)
Definition outbound_body (eph_sk nonce : bytes) (peer : DiscoveredPeer) (trusted : option TrustedPeer) (connected : bool) : dial unit :=
  let id := dp_machine_id peer in
  if decide (dp_audio_port peer = 0%Z) then pfail (DeNoPort id) else
  trusted ← plift (ok_or (DeNotTrusted id) trusted);
  pk_bytes ← plift (ok_or DeKeyNotHex (hex_decode (tp_public_key_hex trusted)));
  peer_pk ← plift (ok_or DeKeyLength (to_array 32 pk_bytes));
  if negb connected then pfail DeConnect else
  '(cipher, _) ← on_socket (initiate eph_sk nonce (Authenticated our_key our_id) (Some (tp_machine_id trusted, peer_pk)));
  hand_off {| sig_peer_machine_id := tp_machine_id trusted; sig_stream := cipher; sig_role := Offerer |}.

Definition run_outbound eph_sk nonce peer trusted connected : dial unit :=
  within_timeout (outbound_body eph_sk nonce peer trusted connected).

(** The task's report to the supervisor. *)
Definition spawn_outbound (show : AudioDialError → string) eph_sk nonce peer trusted connected (d : Dial) : AudioDialOutcome * Dial :=
  match run_outbound eph_sk nonce peer trusted connected d with
  | (Done _, d') => (DialOk (dp_machine_id peer), d')
  | (Failed e, d') => (DialErr (dp_machine_id peer) (show e), d')
  | (Waiting, d') => (DialErr (dp_machine_id peer) (show DeTimedOut), d')
  end.

(** The inbound task; [trust] is the store at the start, [trust'] after the
    handshake. *)
Definition inbound_body (eph_sk nonce : bytes) (trust trust' : TrustedPeerStore) : dial unit :=
  let snapshot := trust_snapshot (ts_peers trust) in
  '(cipher, peer_auth) ← on_socket (accept eph_sk nonce (Authenticated our_key our_id) (λ mid, snapshot !! mid));
  peer_machine_id ← plift match peer_auth with
                          | PeerAuthenticated mid _ => Ok mid
                          | PeerAnonymous => Err DeAnonymous
                          end;
  if negb (trust_contains peer_machine_id trust') then pfail DeRevoked else
  hand_off {| sig_peer_machine_id := peer_machine_id; sig_stream := cipher; sig_role := Answerer |}.

Definition handshake_and_handoff eph_sk nonce trust trust' : dial unit := within_timeout (inbound_body eph_sk nonce trust trust').

(** ** What reaches the bridge *)

(** Every command [m] adds satisfies [P]. *)
Definition hands {A} (m : dial A) (P : IncomingSignal → Prop) : Prop :=
  ∀ d o d', m d = (o, d') → ∃ l, dl_commands d' = dl_commands d ++ l ∧ Forall P l.

Lemma hands_bind {A B} (m : dial A) (k : A → dial B) (Q : A → Prop) P :
  hands m P → (∀ d a d', m d = (Done a, d') → Q a) → (∀ a, Q a → hands (k a) P) → hands (m ≫= k) P.
Proof.
  intros Hm HQ Hk d o d'. unfold mbind, prog_bind. destruct (m d) as [o1 d1] eqn:E.
  destruct (Hm _ _ _ E) as (l1 & E1 & H1'). destruct o1 as [a|e|]; [|intros [= <- <-]; by exists l1..].
  intros Hr. destruct (Hk a (HQ _ _ _ E) _ _ _ Hr) as (l2 & -> & H2'). exists (l1 ++ l2).
  rewrite E1, app_assoc. split; [done|by apply Forall_app].
Qed.

Lemma hands_none {A} (m : dial A) P : (∀ d, dl_commands (m d).2 = dl_commands d) → hands m P.
Proof. intros Hm d o d' E. exists []. rewrite app_nil_r. specialize (Hm d). rewrite E in Hm. by split. Qed.

Lemma hands_off cmd (P : IncomingSignal → Prop) : P cmd → hands (hand_off cmd) P.
Proof.
  intros HP d o d'. unfold hand_off. destruct (dl_fate d); intros [= <- <-]; [exists [cmd]|exists []..];
    rewrite ?app_nil_r; (split; [done|]); auto using Forall_cons_2, Forall_nil_2.
Qed.

Lemma hands_within {A} (m : dial A) P : hands m P → hands (within_timeout m) P.
Proof.
  intros Hm d o d'. unfold within_timeout. destruct (m d) as [o1 d1] eqn:E. specialize (Hm _ _ _ E).
  destruct o1; by intros [= _ <-].
Qed.

Lemma on_socket_commands {A} (m : conn HandshakeError A) d : dl_commands (on_socket m d).2 = dl_commands d.
Proof. unfold on_socket, zoom. by destruct (m (dl_conn d)). Qed.
Lemma plift_commands {A} (r : result AudioDialError A) (d : Dial) : dl_commands ((plift r : dial A) d).2 = dl_commands d.
Proof. by destruct r. Qed.
Lemma pfail_commands {A} e (d : Dial) : dl_commands ((pfail e : dial A) d).2 = dl_commands d.
Proof. done. Qed.
Hint Resolve on_socket_commands plift_commands pfail_commands hands_none hands_within : core.

(** The commands an inbound task may send. *)
Definition inbound_command (trust trust' : TrustedPeerStore) (cmd : IncomingSignal) : Prop :=
  sig_role cmd = Answerer ∧ trust_contains (sig_peer_machine_id cmd) trust' = true ∧
  ∃ pk t, trust_snapshot (ts_peers trust) !! sig_peer_machine_id cmd = Some pk ∧ vouched pk t.

Lemma inbound_hands eph_sk nonce trust trust' : hands (inbound_body eph_sk nonce trust trust') (inbound_command trust trust').
Proof.
  unfold inbound_body. eapply (hands_bind _ _ (λ r, ∃ mid pk t, r.2 = PeerAuthenticated mid pk ∧
    trust_snapshot (ts_peers trust) !! mid = Some pk ∧ vouched pk t)); [auto| |].
  - intros d [cipher pa] d' (c & Hrun & _)%zoom_Done. apply accept_Done in Hrun as (mid & pk & -> & Hres & Hv). by eauto 10.
  - intros [cipher pa] (mid & pk & t & Epa & Hres & Hv). cbn [snd] in Epa. subst pa.
    eapply (hands_bind _ _ (λ m, m = mid)); [auto|by intros d a d' [[= <-] _]%plift_Done|].
    intros ? ->. destruct (negb _) eqn:Et; [auto|]. apply negb_false_iff in Et. apply hands_off. split_and!; simpl; eauto.
Qed.

(** The commands a dial may send. *)
Definition outbound_command (trusted : option TrustedPeer) (cmd : IncomingSignal) : Prop :=
  sig_role cmd = Offerer ∧ ∃ tp pk t, trusted = Some tp ∧ sig_peer_machine_id cmd = tp_machine_id tp ∧
    hex_decode (tp_public_key_hex tp) = Some pk ∧ vouched pk t.

Lemma outbound_hands eph_sk nonce peer trusted connected :
  hands (outbound_body eph_sk nonce peer trusted connected) (outbound_command trusted).
Proof.
  unfold outbound_body. case_decide; [auto|].
  eapply (hands_bind _ _ (λ tp, trusted = Some tp)); [auto|by intros d a d' [Hk%ok_or_Ok _]%plift_Done|]. intros tp Htp.
  eapply (hands_bind _ _ (λ b, hex_decode (tp_public_key_hex tp) = Some b)); [auto|by intros d a d' [Hk%ok_or_Ok _]%plift_Done|].
  intros b Hb. eapply (hands_bind _ _ (λ pk, pk = b)); [auto| |].
  { by intros d a d' [Hk%ok_or_Ok%to_array_Some _]%plift_Done; destruct Hk. }
  intros pk ->. destruct connected; [simpl|by auto].
  eapply (hands_bind _ _ (λ _, ∃ t, vouched b t)); [auto| |].
  - intros d [cipher pa] d' (c & Hrun & _)%zoom_Done. apply initiate_Done in Hrun as [_ Hv]. by eauto.
  - intros [cipher pa] [t Ht]. apply hands_off. split; [done|]. by exists tp, b, t.
Qed.

(** C29: A stream reaches the audio bridge only from an authenticated peer.  Whatever
    arrives on the connection and however the task ends, a stream the inbound task
    handed over belongs to a machine id the trust store held a key for when the
    connection was accepted and still holds after the handshake, and the holder of
    that key signed the handshake; a dialled stream belongs to the peer that was
    dialled, under the same guarantee. *)
Theorem audio_stream_authenticated eph_sk nonce trust trust' peer trusted connected d cmd :
  dl_commands d = [] →
  (cmd ∈ dl_commands (handshake_and_handoff eph_sk nonce trust trust' d).2 → inbound_command trust trust' cmd) ∧
  (cmd ∈ dl_commands (run_outbound eph_sk nonce peer trusted connected d).2 → outbound_command trusted cmd).
Proof.
  intros Hd. split; intros Hin.
  - destruct (handshake_and_handoff _ _ _ _ d) as [o d'] eqn:E.
    destruct (hands_within _ _ (inbound_hands eph_sk nonce trust trust') _ _ _ E) as (l & El & Hl).
    cbn [snd] in Hin. rewrite El, Hd in Hin. by eapply (Forall_forall _ l).
  - destruct (run_outbound _ _ _ _ _ d) as [o d'] eqn:E.
    destruct (hands_within _ _ (outbound_hands eph_sk nonce peer trusted connected) _ _ _ E) as (l & El & Hl).
    cbn [snd] in Hin. rewrite El, Hd in Hin. by eapply (Forall_forall _ l).
Qed.
End tasks.

(** ** Two honest tasks *)

(** A task as a program over its connection, given what the bridge will do. *)
Definition on_wire (m : dial unit) (fate : HandFate) : conn (AudioDialError * Dial) Dial := λ c,
  let '(o, d) := m {| dl_conn := c; dl_fate := fate; dl_commands := [] |} in
  (match o with Done _ => Done d | Failed e => Failed (e, d) | Waiting => Waiting end, dl_conn d).

(** Programs that write the same bytes have the same dialogue. *)
Lemma dialogue_same {E F A B E' F' A' B'} n (p : conn E A) (q : conn F B) (p' : conn E' A') (q' : conn F' B') :
  (∀ c, (p c).2 = (p' c).2) → (∀ c, (q c).2 = (q' c).2) →
  ∃ cp cq, dialogue n p q = (p cp, q cq) ∧ dialogue n p' q' = (p' cp, q' cq).
Proof.
  intros Hp Hq. induction n as [|n (cp & cq & E1 & E2)]; [by eexists _, _|].
  rewrite !dialogue_S, E1, E2. cbn [fst snd]. rewrite Hp, Hq. by eexists _, _.
Qed.

Section honest.
Context `{HexLaws, Sha256Ops, Ed25519Laws, X25519Laws, HkdfLaws, AeadLaws, JsonLaws AuthFrame}.

(** A dial and the listener that answers it set up one audio link.  Let each
    machine trust the other's key, let the authentication frames fit, and let both
    bridges take their command.  Then the two tasks, run against each other from
    nothing, both succeed within four exchanges: the dialling bridge receives the
    stream of the other machine as offerer, the other bridge the stream of the
    dialling machine as answerer, the two streams are mirrored, and each bridge for
    which the peer is active starts a session for it in that role. *)
Theorem audio_link_established ski skr ni nr ki kr idi idr peer tpr trust trust' jsi jsr :
  let t := transcript_hash 1 (x_public ski) ni (x_public skr) nr in
  length ni = 16 → length nr = 16 →
  dp_machine_id peer = idr → dp_audio_port peer ≠ 0%Z →
  tp_machine_id tpr = idr → tp_public_key_hex tpr = hex_encode (verifying_key kr) →
  trust_snapshot (ts_peers trust) !! idi = Some (verifying_key ki) → trust_contains idi trust' = true →
  to_vec (our_auth_frame ki idi t) = Some jsi → length jsi ≤ MAX_AUTH_FRAME_BYTES →
  to_vec (our_auth_frame kr idr t) = Some jsr → length jsr ≤ MAX_AUTH_FRAME_BYTES →
  ∃ di dr ci cr si sr,
    dialogue 4 (on_wire (outbound_body ki idi ski ni peer (Some tpr) true) Taken)
               (on_wire (inbound_body kr idr skr nr trust trust') Taken) = ((Done di, ci), (Done dr, cr)) ∧
    dl_commands di = [{| sig_peer_machine_id := idr; sig_stream := si; sig_role := Offerer |}] ∧
    dl_commands dr = [{| sig_peer_machine_id := idi; sig_stream := sr; sig_role := Answerer |}] ∧
    mirrored si sr ∧
    ∀ cmd, cmd ∈ dl_commands di ++ dl_commands dr →
      ∀ env b, br_running b = true → peer_audio_active (br_config b) (sig_peer_machine_id cmd) = true → st_inner env = Ok tt →
        ∃ s, br_sessions (bridge_run (BrIncomingSignal env true (sig_peer_machine_id cmd) (sig_role cmd)) b)
               !! sig_peer_machine_id cmd = Some s ∧ au_role s = sig_role cmd.
Proof.
  intros t Hni Hnr Hpid Hport Hid Hkey Hsnap Hin Hji Hli Hjr Hlr.
  set (resolve := λ mid, trust_snapshot (ts_peers trust) !! mid).
  destruct (handshake_completes ski skr ni nr ki kr idi idr resolve jsi jsr Hni Hnr Hsnap Hji Hli Hjr Hlr)
    as (si & sr & ci & cr & HD & Hm & _).
  set (I := initiate ski ni (Authenticated ki idi) (Some (idr, verifying_key kr))) in HD.
  set (R := accept skr nr (Authenticated kr idr) resolve) in HD.
  set (P := on_wire (outbound_body _ _ _ _ _ _ _) _). set (Q := on_wire (inbound_body _ _ _ _ _ _) _).
  assert (∀ c, P c = match I c with
    | (Done (s, _), c') => (Done {| dl_conn := c'; dl_fate := Taken;
        dl_commands := [{| sig_peer_machine_id := idr; sig_stream := s; sig_role := Offerer |}] |}, c')
    | (Failed e, c') => (Failed (DeHandshake e, {| dl_conn := c'; dl_fate := Taken; dl_commands := [] |}), c')
    | (Waiting, c') => (Waiting, c') end) as HP.
  { intros c. unfold P, on_wire, outbound_body. rewrite decide_False by done. cbn [ok_or plift]. erewrite bind_step by reflexivity.
    rewrite Hkey, hex_decode_encode. cbn [ok_or plift]. erewrite bind_step by reflexivity.
    unfold to_array. rewrite verifying_key_length, decide_True by done. cbn [ok_or plift]. erewrite bind_step by reflexivity.
    cbn [negb]. rewrite Hid. fold I. unfold mbind, prog_bind, on_socket, zoom. cbn [dl_conn].
    destruct (I c) as [[[s a]|e|] c']; done. }
  assert (∀ c, (P c).2 = (I c).2) as HP2 by (intros c; rewrite HP; by destruct (I c) as [[[]| |] ?]).
  assert (∀ c, (Q c).2 = (R c).2) as HQ2.
  { intros c. unfold Q, on_wire, inbound_body, mbind, prog_bind, on_socket, zoom. cbn [dl_conn]. fold resolve R.
    destruct (R c) as [[[s []]|e|] c']; try done. cbn. by destruct (negb _). }
  assert (∀ c s c', R c = (Done (s, PeerAuthenticated idi (verifying_key ki)), c') →
    Q c = (Done {| dl_conn := c'; dl_fate := Taken;
        dl_commands := [{| sig_peer_machine_id := idi; sig_stream := s; sig_role := Answerer |}] |}, c')) as HQ.
  { intros c s c' E. unfold Q, on_wire, inbound_body, mbind, prog_bind, on_socket, zoom. cbn [dl_conn]. fold resolve R.
    rewrite E. cbn. by rewrite Hin. }
  destruct (dialogue_same 4 P Q I R HP2 HQ2) as (cp & cq & E1 & E2). rewrite E2 in HD. injection HD as Ei Er.
  rewrite E1, HP, Ei, (HQ _ _ _ Er). eexists _, _, _, _, si, sr. split; [reflexivity|]. split; [done|]. split; [done|]. split; [done|].
  intros cmd _ env b Hrun Hact Hinner. unfold bridge_run. rewrite Hrun. cbn [negb]. unfold incoming_signal. rewrite Hact. cbn [negb].
  unfold session_start. rewrite Hinner. cbn. eexists. by rewrite lookup_insert_eq.
Qed.
End honest.

(** ** Concrete tasks: machine "a" dials machine "b" *)

Section wit.
#[local] Existing Instances toy_hex toy_sha toy_ed toy_x toy_hkdf toy_aead toy_json_auth.
#[local] Existing Instances toy_hex_laws toy_sha_laws toy_ed_laws toy_x_laws toy_hkdf_laws toy_aead_laws toy_json_auth_laws.

Definition wit_dial_task : dial unit :=
  outbound_body (hs_key "ki") "a" (bytes_of "ei") hs_nonce (wit_discovered "b") (Some (wit_tp "b" "kr")) true.
Definition wit_accept_task : dial unit := inbound_body (hs_key "kr") "b" (bytes_of "er") hs_nonce wit_trust_b wit_trust_b.

Lemma audio_link_established_witness :
  ∃ di dr ci cr si sr,
    dialogue 4 (on_wire wit_dial_task Taken) (on_wire wit_accept_task Taken) = ((Done di, ci), (Done dr, cr)) ∧
    dl_commands di = [{| sig_peer_machine_id := "b"; sig_stream := si; sig_role := Offerer |}] ∧
    dl_commands dr = [{| sig_peer_machine_id := "a"; sig_stream := sr; sig_role := Answerer |}] ∧ mirrored si sr.
Proof.
  edestruct (audio_link_established (bytes_of "ei") (bytes_of "er") hs_nonce hs_nonce (hs_key "ki") (hs_key "kr") "a" "b"
    (wit_discovered "b") (wit_tp "b" "kr") wit_trust_b wit_trust_b) as (di & dr & ci & cr & si & sr & E & Ei & Er & Hm & _);
    [reflexivity|reflexivity|reflexivity|vm_compute; discriminate|reflexivity|reflexivity|vm_compute; reflexivity|vm_compute; reflexivity
    |reflexivity|vm_compute; lia|reflexivity|vm_compute; lia|].
  exact (ex_intro _ di (ex_intro _ dr (ex_intro _ ci (ex_intro _ cr (ex_intro _ si (ex_intro _ sr
    (conj E (conj Ei (conj Er Hm))))))))).
Defined.

Definition wit_accept_start : Dial :=
  {| dl_conn := fresh_conn (cn_out (dialogue 4 (on_wire wit_dial_task Taken) (on_wire wit_accept_task Taken)).1.2);
     dl_fate := Taken; dl_commands := [] |}.

Lemma audio_stream_authenticated_witness :
  match dl_commands (handshake_and_handoff (hs_key "kr") "b" (bytes_of "er") hs_nonce wit_trust_b wit_trust_b wit_accept_start).2 with
  | [cmd] => sig_peer_machine_id cmd = "a"%string ∧ inbound_command wit_trust_b wit_trust_b cmd
  | _ => False
  end.
Proof.
  assert (map sig_peer_machine_id
    (dl_commands (handshake_and_handoff (hs_key "kr") "b" (bytes_of "er") hs_nonce wit_trust_b wit_trust_b wit_accept_start).2)
    = ["a"%string]) as Hp by (vm_compute; reflexivity).
  destruct (dl_commands _) as [|cmd [|? ?]] eqn:E; [discriminate Hp| |discriminate Hp].
  edestruct (audio_stream_authenticated (hs_key "kr") "b" (bytes_of "er") hs_nonce wit_trust_b wit_trust_b
    (wit_discovered "b") None true wit_accept_start cmd eq_refl) as [Hin _].
  injection Hp as Hp. split; [exact Hp|]. apply Hin. rewrite E. apply list_elem_of_here.
Defined.
End wit.
