(* ===== verification/GuiApp.v ===== *)
(** * The GUI's state ([crates/synbad-gui/src/app/mod.rs], [app/views.rs])

    What the window knows about the daemon, the buffer of unsaved config edits,
    and the handlers that change them: updates from the IPC threads, the
    periodic reconcile, the buttons, the tray and the close box.  Drawing is left
    out; a click is an operation. *)

From Stdlib Require Import Ascii ZArith Lia.
From S2P Require Import Prelude Config IpcTypes.

(** ** Messages between the window and its IPC threads ([ipc_thread.rs]) *)

Inductive Cmd :=
| CmdStart
| CmdStop
| CmdRestart
| CmdSetConfig (config : Config)
| CmdRefresh
| CmdRefreshPeers
| CmdStartPairing (machine_id : string)
| CmdConfirmPairing (session_id : string) (accept : bool)
| CmdRevokeTrust (machine_id : string)
| CmdListAudioDevices
| CmdSetAudioConfig (config : AudioConfig)
| CmdGetAudioStatus.

Inductive Update :=
| UpConnected
| UpDisconnected (msg : string)
| UpLaunching (msg : string)
| UpStatus (state : DaemonState) (recent_log connected_peers : list string) (active_screen : option string)
| UpConfig (config : Config)
| UpLog (line : string)
| UpStateChanged (state : DaemonState)
| UpError (msg : string)
| UpPeerConnected (name : string)
| UpPeerDisconnected (name : string)
| UpActiveScreen (name : string)
| UpPeerDiscovered (peer : DiscoveredPeer)
| UpPeerLost (machine_id : string)
| UpPeerSnapshot (peers : list DiscoveredPeer)
| UpLocalIdentity (machine_id fingerprint : string)
| UpPairingProposed (session_id peer_machine_id peer_display_name peer_fingerprint verification_code : string)
| UpPairingCompleted (peer : TrustedPeer)
| UpPairingFailed (session_id reason : string)
| UpTrustedSnapshot (peers : list TrustedPeer)
| UpTrustRevoked (machine_id : string)
| UpSyncStarted (peer_machine_id : string) (direction : SyncDirection)
| UpSyncCompleted (peer_machine_id : string) (direction : SyncDirection) (updated : bool)
| UpSyncFailed (peer_machine_id : string) (direction : SyncDirection) (reason : string)
| UpAudioDevices (input output : list AudioDeviceInfo)
| UpAudioDevicesChanged
| UpAudioPeerStatus (status : PeerAudioStatus)
| UpAudioPeerRemoved (machine_id : string)
| UpAudioError (peer : option string) (message : string)
| UpAudioStatusSnapshot (peers : list PeerAudioStatus).

(** ** State *)

Definition RECONCILE_INTERVAL_SECS : Z := 5.
Definition STATUS_TTL_SECS : Z := 6.
Definition LOG_CAP : nat := 1000.

Record PendingPairing := {
  pp_session_id : string; pp_peer_machine_id : string; pp_peer_display_name : string;
  pp_peer_fingerprint : string; pp_verification_code : string
}.
Record SyncStatus := { sy_message : string; sy_ok : bool; sy_at : Z }.

(** What the window asks of the outside: a command for the daemon, the blocking
    shutdown of the daemon, and viewport commands. *)
Inductive GuiFx :=
| FxCmd (cmd : Cmd)
| FxShutdownDaemon
| FxShow
| FxHide
| FxCancelClose
| FxClose.

Record App := {
  ga_connected : bool;
  ga_last_error : option string;
  ga_launching_status : option string;
  ga_state : DaemonState;
  ga_log : list string;
  ga_config : Config;
  ga_dirty : bool;
  ga_pending_remote_config : option Config;
  ga_dragging : bool;                         (* [layout.is_dragging()] *)
  ga_new_screen_name : string;
  ga_connected_peers : gset string;
  ga_active_screen : option string;
  ga_discovered_peers : gmap string DiscoveredPeer;
  ga_trusted_peers : gmap string TrustedPeer;
  ga_pending_pairings : list PendingPairing;
  ga_local_machine_id : option string;
  ga_local_fingerprint : option string;
  ga_has_tray : bool;
  ga_quitting : bool;
  ga_daemon_shutdown_sent : bool;
  ga_daemon_wanted : bool;                    (* shared with the event loop *)
  ga_active_syncs : gmap string SyncDirection;
  ga_last_sync_status : option SyncStatus;
  ga_local_monitors : list MonitorInfo;
  ga_last_reconcile : option Z;
  ga_audio_input_devices : list AudioDeviceInfo;
  ga_audio_output_devices : list AudioDeviceInfo;
  ga_audio_peer_status : gmap string PeerAudioStatus;
  ga_audio_last_error : option string;
  ga_audio_devices_loaded : bool;
  ga_fx : list GuiFx
}.
#[export] Instance App_eta : Eta App := λ r,
  {| ga_connected := ga_connected r; ga_last_error := ga_last_error r; ga_launching_status := ga_launching_status r;
     ga_state := ga_state r; ga_log := ga_log r; ga_config := ga_config r; ga_dirty := ga_dirty r;
     ga_pending_remote_config := ga_pending_remote_config r; ga_dragging := ga_dragging r;
     ga_new_screen_name := ga_new_screen_name r; ga_connected_peers := ga_connected_peers r;
     ga_active_screen := ga_active_screen r; ga_discovered_peers := ga_discovered_peers r;
     ga_trusted_peers := ga_trusted_peers r; ga_pending_pairings := ga_pending_pairings r;
     ga_local_machine_id := ga_local_machine_id r; ga_local_fingerprint := ga_local_fingerprint r;
     ga_has_tray := ga_has_tray r; ga_quitting := ga_quitting r;
     ga_daemon_shutdown_sent := ga_daemon_shutdown_sent r; ga_daemon_wanted := ga_daemon_wanted r;
     ga_active_syncs := ga_active_syncs r; ga_last_sync_status := ga_last_sync_status r;
     ga_local_monitors := ga_local_monitors r; ga_last_reconcile := ga_last_reconcile r;
     ga_audio_input_devices := ga_audio_input_devices r; ga_audio_output_devices := ga_audio_output_devices r;
     ga_audio_peer_status := ga_audio_peer_status r; ga_audio_last_error := ga_audio_last_error r;
     ga_audio_devices_loaded := ga_audio_devices_loaded r; ga_fx := ga_fx r |}.

(** [SynbadApp::new]; the monitors and the session flag are read at start-up. *)
Definition app_new (has_tray : bool) (monitors : list MonitorInfo) (daemon_wanted : bool) : App :=
  {| ga_connected := false; ga_last_error := None; ga_launching_status := None; ga_state := Stopped; ga_log := [];
     ga_config := default_Config; ga_dirty := false; ga_pending_remote_config := None; ga_dragging := false;
     ga_new_screen_name := ""; ga_connected_peers := ∅; ga_active_screen := None; ga_discovered_peers := ∅;
     ga_trusted_peers := ∅; ga_pending_pairings := []; ga_local_machine_id := None; ga_local_fingerprint := None;
     ga_has_tray := has_tray; ga_quitting := false; ga_daemon_shutdown_sent := false; ga_daemon_wanted := daemon_wanted;
     ga_active_syncs := ∅; ga_last_sync_status := None; ga_local_monitors := monitors; ga_last_reconcile := None;
     ga_audio_input_devices := []; ga_audio_output_devices := []; ga_audio_peer_status := ∅; ga_audio_last_error := None;
     ga_audio_devices_loaded := false; ga_fx := [] |}.

Definition fx (x : GuiFx) (a : App) : App := a <| ga_fx := ga_fx a ++ [x] |>.
Definition send (cmd : Cmd) (a : App) : App := fx (FxCmd cmd) a.

(** ** Updates from the daemon *)

Definition push_log (line : string) (a : App) : App :=
  let log := if decide (LOG_CAP ≤ length (ga_log a)) then tail (ga_log a) else ga_log a in
  a <| ga_log := log ++ [line] |>.

Definition peer_label (machine_id : string) (a : App) : string :=
  match ga_trusted_peers a !! machine_id, ga_discovered_peers a !! machine_id with
  | Some p, _ => tp_display_name p
  | None, Some p => dp_display_name p
  | None, None => machine_id
  end.

Definition drop_pairing (p : PendingPairing → bool) (a : App) : App :=
  a <| ga_pending_pairings := List.filter p (ga_pending_pairings a) |>.

(** One update; [now] is the clock when it is drained. *)
Definition apply_update (now : Z) (u : Update) (a : App) : App :=
  match u with
  | UpConnected => a <| ga_connected := true |> <| ga_last_error := None |> <| ga_launching_status := None |>
  | UpDisconnected msg =>
    a <| ga_connected := false |> <| ga_connected_peers := ∅ |> <| ga_active_screen := None |>
      <| ga_active_syncs := ∅ |> <| ga_pending_pairings := [] |> <| ga_discovered_peers := ∅ |>
      <| ga_audio_peer_status := ∅ |> <| ga_last_error := Some msg |> <| ga_launching_status := None |>
  | UpLaunching msg => a <| ga_connected := false |> <| ga_launching_status := Some msg |> <| ga_last_error := None |>
  | UpStatus state recent_log connected_peers active_screen =>
    let a := a <| ga_state := state |> <| ga_connected_peers := list_to_set connected_peers |>
               <| ga_active_screen := active_screen |> <| ga_log := [] |> in
    fold_left (λ a l, push_log l a) recent_log a
  | UpConfig c =>
    if ga_dirty a then a <| ga_pending_remote_config := Some c |>
    else a <| ga_config := c |> <| ga_pending_remote_config := None |>
  | UpLog l => push_log l a
  | UpStateChanged s =>
    let a := if is_running s then a else a <| ga_connected_peers := ∅ |> <| ga_active_screen := None |> in
    a <| ga_state := s |>
  | UpError e => a <| ga_last_error := Some e |>
  | UpPeerConnected name => a <| ga_connected_peers := {[name]} ∪ ga_connected_peers a |>
  | UpPeerDisconnected name => a <| ga_connected_peers := ga_connected_peers a ∖ {[name]} |>
  | UpActiveScreen name => a <| ga_active_screen := Some name |>
  | UpPeerDiscovered peer => a <| ga_discovered_peers := <[dp_machine_id peer := peer]> (ga_discovered_peers a) |>
  | UpPeerLost id => a <| ga_discovered_peers := delete id (ga_discovered_peers a) |>
  | UpPeerSnapshot peers =>
    a <| ga_discovered_peers := fold_left (λ m p, <[dp_machine_id p := p]> m) peers ∅ |>
  | UpLocalIdentity id fp => a <| ga_local_machine_id := Some id |> <| ga_local_fingerprint := Some fp |>
  | UpPairingProposed sid mid name fp code =>
    a <| ga_pending_pairings := ga_pending_pairings a ++
        [{| pp_session_id := sid; pp_peer_machine_id := mid; pp_peer_display_name := name; pp_peer_fingerprint := fp;
            pp_verification_code := code |}] |>
  | UpPairingCompleted peer =>
    let a := drop_pairing (λ p, negb (bool_decide (pp_peer_machine_id p = tp_machine_id peer))) a in
    a <| ga_trusted_peers := <[tp_machine_id peer := peer]> (ga_trusted_peers a) |> <| ga_last_reconcile := None |>
  | UpPairingFailed sid reason =>
    drop_pairing (λ p, negb (bool_decide (pp_session_id p = sid))) a <| ga_last_error := Some ("pairing failed: " +:+ reason) |>
  | UpTrustedSnapshot peers =>
    a <| ga_trusted_peers := fold_left (λ m p, <[tp_machine_id p := p]> m) peers ∅ |>
  | UpTrustRevoked id => a <| ga_trusted_peers := delete id (ga_trusted_peers a) |>
  | UpSyncStarted id dir => a <| ga_active_syncs := <[id := dir]> (ga_active_syncs a) |>
  | UpSyncCompleted id dir updated =>
    let a := a <| ga_active_syncs := delete id (ga_active_syncs a) |> in
    let verb := match dir with Outbound => "pushed to" | Inbound => "received from" end%string in
    let detail := (if updated then "merged" else "no changes")%string in
    a <| ga_last_sync_status := Some {| sy_message := "config " +:+ verb +:+ " " +:+ peer_label id a +:+ " (" +:+ detail +:+ ")";
                                        sy_ok := true; sy_at := now |} |>
  | UpSyncFailed id dir reason =>
    let a := a <| ga_active_syncs := delete id (ga_active_syncs a) |> in
    let word := match dir with Outbound => "to" | Inbound => "from" end%string in
    a <| ga_last_sync_status := Some {| sy_message := "config sync " +:+ word +:+ " " +:+ peer_label id a +:+ " failed: " +:+ reason;
                                        sy_ok := false; sy_at := now |} |>
  | UpAudioDevices input output =>
    a <| ga_audio_input_devices := input |> <| ga_audio_output_devices := output |> <| ga_audio_devices_loaded := true |>
  | UpAudioDevicesChanged => send CmdListAudioDevices a
  | UpAudioPeerStatus s => a <| ga_audio_peer_status := <[as_machine_id s := s]> (ga_audio_peer_status a) |>
  | UpAudioPeerRemoved id => a <| ga_audio_peer_status := delete id (ga_audio_peer_status a) |>
  | UpAudioStatusSnapshot peers =>
    a <| ga_audio_peer_status := fold_left (λ m s, <[as_machine_id s := s]> m) peers ∅ |>
  | UpAudioError peer message =>
    a <| ga_audio_last_error := Some match peer with Some p => peer_label p a +:+ ": " +:+ message | None => message end |>
  end.

Definition drain_ipc (now : Z) (updates : list Update) (a : App) : App :=
  fold_left (λ a u, apply_update now u a) updates a.

(** ** The periodic reconcile *)

(** [iter_mut().find(p)] followed by an assignment. *)
Fixpoint update_first {A} (p : A → bool) (f : A → A) (l : list A) : list A :=
  match l with
  | [] => []
  | x :: l' => if p x then f x :: l' else x :: update_first p f l'
  end.

(** Whether our own screen shows other monitors than [fresh], and the screens
    once it shows those. *)
Definition mirror_monitors (fresh : list MonitorInfo) (c : Config) : bool * list Screen :=
  let ours := λ s, bool_decide (scr_name s = cfg_server_name c) in
  match List.find ours (cfg_screens c) with
  | Some s =>
    if decide (scr_monitors s ≠ fresh)
    then (true, update_first ours (λ s, s <| scr_monitors := fresh |>) (cfg_screens c))
    else (false, cfg_screens c)
  | None => (false, cfg_screens c)
  end.

(** The screen appended for a paired machine, [n] being the number of screens. *)
Definition auto_screen (n : nat) (name : string) : Screen :=
  let idx := wrap_i32 (Z.of_nat n) in
  {| scr_name := name; scr_aliases := [];
     scr_position := {| gp_x := wrap_i32 (Z.rem idx 3 * 200); gp_y := wrap_i32 (Z.quot idx 3 * 160); gp_w := 160; gp_h := 120 |};
     scr_monitors := [] |}.

(** The names to add: trusted peers, in key order, without a screen of theirs. *)
Definition missing_screens (trusted : gmap string TrustedPeer) (server_name : string) (known : list string) : list string :=
  List.filter (λ name, negb (bool_decide (name = server_name)) && negb (bool_decide (name ∈ known)))
    (map (tp_display_name ∘ snd) (bt_iter trusted)).

Definition reconcile (fresh : list MonitorInfo) (a : App) : App :=
  if negb (ga_connected a) then a else
  if bool_decide (is_Some (ga_pending_remote_config a)) then a else
  if ga_dragging a then a else
  let a := a <| ga_local_monitors := fresh |> in
  let c := ga_config a in
  let '(changed, screens) := mirror_monitors fresh c in
  let to_add := missing_screens (ga_trusted_peers a) (cfg_server_name c) (map scr_name screens) in
  let screens' := fold_left (λ ss name, ss ++ [auto_screen (length ss) name]) to_add screens in
  let a := a <| ga_config := set_cfg_screens screens' c |> in
  if changed || negb (bool_decide (to_add = [])) then send (CmdSetConfig (ga_config a)) a <| ga_dirty := false |> else a.

(** ** Clicks *)

Definition connect_as_client_to (peer : DiscoveredPeer) (a : App) : App :=
  let port := if decide (dp_core_port peer = 0%Z) then cfg_port (ga_config a) else dp_core_port peer in
  let c := ga_config a <| cfg_role := Client |> <| cfg_server_address := Some (host_port (dp_host peer) port) |> in
  let a := send (CmdSetConfig c) a in
  let a := a <| ga_config := c |> <| ga_dirty := false |> <| ga_pending_remote_config := None |> in
  send CmdStart a.

(** Whether the peer's row shows the "server" badge instead of the button: the
    configured address up to its first colon is the peer's host. *)
Definition is_active_server (peer : DiscoveredPeer) (a : App) : bool :=
  bool_decide (cfg_role (ga_config a) = Client) &&
  match cfg_server_address (ga_config a) with
  | Some addr => let b := bytes_of addr in
                 bool_decide (string_of match find_char ":"%char b with Some i => take i b | None => b end = dp_host peer)
  | None => false
  end.

Definition shutdown_daemon_once (a : App) : App :=
  if ga_daemon_shutdown_sent a then a else fx FxShutdownDaemon (a <| ga_daemon_shutdown_sent := true |>).

Definition handle_close (close_requested : bool) (a : App) : App :=
  if ga_has_tray a && negb (ga_quitting a) then
    if close_requested then fx FxHide (fx FxCancelClose a) else a
  else if close_requested || ga_quitting a then shutdown_daemon_once a else a.

(** The operations of the window; a disabled button does nothing. *)
Inductive UiOp :=
| UiFrame (now : Z) (updates : list Update) (tray_quit close_requested : bool) (fresh : list MonitorInfo)
| UiStart
| UiStop
| UiRestart
| UiApply
| UiRevert
| UiEdit (edit : Config → Config)             (* settings, layout canvas *)
| UiDrag (dragging : bool)
| UiAddScreen (typed : string)
| UiAutostart (on : bool)
| UiRefreshPeers
| UiPair (machine_id : string)
| UiRevoke (machine_id : string)
| UiUseAsServer (machine_id : string)
| UiDecide (session_id : string) (accept : bool)
| UiEscape
| UiAudio (audio : AudioConfig)
| UiAudioTab
| UiRefreshDevices
| UiDismissError
| UiDismissAudioError.

(** The timers of a frame: the reconcile pass, and the expiry of the last sync's
    message when it is drawn. *)
Definition periodic (now : Z) (fresh : list MonitorInfo) (a : App) : App :=
  let should_reconcile := match ga_last_reconcile a with
                          | None => true
                          | Some t => bool_decide (RECONCILE_INTERVAL_SECS * 1000 ≤ now - t)%Z
                          end in
  let a := if should_reconcile then reconcile fresh (a <| ga_last_reconcile := Some now |>) else a in
  match ga_last_sync_status a with
  | Some s => if bool_decide (STATUS_TTL_SECS * 1000 ≤ now - sy_at s)%Z then a <| ga_last_sync_status := None |> else a
  | None => a
  end.

(** [draw_layout]'s "Add" button; [typed] is already trimmed. *)
Definition add_screen (typed : string) (a : App) : App :=
  if bool_decide (typed = ""%string) || bool_decide (typed ∈ map scr_name (cfg_screens (ga_config a))) then a else
  let n := wrap_i32 (Z.of_nat (length (cfg_screens (ga_config a)))) in
  let screen := {| scr_name := typed; scr_aliases := [];
                   scr_position := {| gp_x := wrap_i32 (Z.rem n 3 * 180); gp_y := wrap_i32 (Z.quot n 3 * 140); gp_w := 160; gp_h := 120 |};
                   scr_monitors := [] |} in
  a <| ga_config := set_cfg_screens (cfg_screens (ga_config a) ++ [screen]) (ga_config a) |>
    <| ga_new_screen_name := "" |> <| ga_dirty := true |>.

Definition revert (a : App) : App :=
  if negb (ga_dirty a || bool_decide (is_Some (ga_pending_remote_config a))) then a else
  let a := a <| ga_dirty := false |> in
  match ga_pending_remote_config a with
  | Some c => a <| ga_config := c |> <| ga_pending_remote_config := None |>
  | None => send CmdRefresh a
  end.

Definition decide_pairing (session_id : string) (accept : bool) (a : App) : App :=
  send (CmdConfirmPairing session_id accept) (drop_pairing (λ p, negb (bool_decide (pp_session_id p = session_id))) a).

Definition frame (now : Z) (updates : list Update) (tray_quit close_requested : bool) (fresh : list MonitorInfo) (a : App) : App :=
  let a := drain_ipc now updates a in
  let a := if ga_has_tray a && tray_quit then fx FxClose (a <| ga_quitting := true |>) else a in
  let a := handle_close close_requested a in
  periodic now fresh a.

(** The settings tab's autostart box: the flag also steers the running session. *)
Definition set_autostart (on : bool) (a : App) : App :=
  a <| ga_config := ga_config a <| cfg_autostart := on |> |> <| ga_dirty := true |> <| ga_daemon_wanted := on |>.

(** [draw_peers]: "Pair" on the row of a peer that is not trusted. *)
Definition click_pair (id : string) (a : App) : App :=
  if bool_decide (is_Some (ga_discovered_peers a !! id)) && bool_decide (ga_trusted_peers a !! id = None)
  then send (CmdStartPairing id) a else a.

(** "Revoke" on a trusted peer's row, in either list. *)
Definition click_revoke (id : string) (a : App) : App :=
  if bool_decide (is_Some (ga_trusted_peers a !! id)) then send (CmdRevokeTrust id) a else a.

(** "Use as server" on the row of a trusted peer with a Core port that is not our
    server already. *)
Definition click_use_as_server (id : string) (a : App) : App :=
  match ga_discovered_peers a !! id with
  | Some peer => if bool_decide (is_Some (ga_trusted_peers a !! id)) && negb (is_active_server peer a)
                    && bool_decide (dp_core_port peer ≠ 0%Z)
                 then connect_as_client_to peer a else a
  | None => a
  end.

(** [draw_audio]: the tab's first display, and a changed setting. *)
Definition open_audio_tab (a : App) : App :=
  if ga_audio_devices_loaded a then a
  else send CmdGetAudioStatus (send CmdListAudioDevices a) <| ga_audio_devices_loaded := true |>.
Definition push_audio (audio : AudioConfig) (a : App) : App :=
  send (CmdSetAudioConfig audio) (a <| ga_config := set_cfg_audio audio (ga_config a) |>).

(** [draw_pairing_dialogs]: a button of the session's dialog, and Escape. *)
Definition click_decide (sid : string) (accept : bool) (a : App) : App :=
  if existsb (λ p, bool_decide (pp_session_id p = sid)) (ga_pending_pairings a) then decide_pairing sid accept a else a.
Definition press_escape (a : App) : App :=
  match last (ga_pending_pairings a) with Some p => decide_pairing (pp_session_id p) false a | None => a end.

Definition ui_exec (op : UiOp) (a : App) : App :=
  match op with
  | UiFrame now updates tray_quit close_requested fresh => frame now updates tray_quit close_requested fresh a
  | UiStart => send CmdStart (a <| ga_daemon_wanted := true |>)
  | UiStop => if ga_connected a then send CmdStop a else a
  | UiRestart => if ga_connected a then send CmdRestart a else a
  | UiApply =>
    if ga_connected a && ga_dirty a
    then send (CmdSetConfig (ga_config a)) a <| ga_dirty := false |> <| ga_pending_remote_config := None |> else a
  | UiRevert => revert a
  | UiEdit edit => a <| ga_config := edit (ga_config a) |> <| ga_dirty := true |>
  | UiDrag dragging => a <| ga_dragging := dragging |>
  | UiAddScreen typed => add_screen typed a
  | UiAutostart on => set_autostart on a
  | UiRefreshPeers => send CmdRefreshPeers a
  | UiPair id => click_pair id a
  | UiRevoke id => click_revoke id a
  | UiUseAsServer id => click_use_as_server id a
  | UiDecide sid accept => click_decide sid accept a
  | UiEscape => press_escape a
  | UiAudio audio => push_audio audio a
  | UiAudioTab => open_audio_tab a
  | UiRefreshDevices => send CmdListAudioDevices a
  | UiDismissError => a <| ga_last_error := None |>
  | UiDismissAudioError => a <| ga_audio_last_error := None |>
  end.

Inductive app_reachable : App → Prop :=
| gr_new has_tray monitors wanted : app_reachable (app_new has_tray monitors wanted)
| gr_step op a : app_reachable a → app_reachable (ui_exec op a).

(** ** Unsaved edits *)

(** The configs among the updates, in order. *)
Definition configs_of (us : list Update) : list Config := omap (λ u, match u with UpConfig c => Some c | _ => None end) us.

(** Filling the log touches nothing else. *)
Lemma push_logs_frame ls a :
  let a' := fold_left (λ a l, push_log l a) ls a in
  ga_config a' = ga_config a ∧ ga_dirty a' = ga_dirty a ∧ ga_pending_remote_config a' = ga_pending_remote_config a ∧
  ga_discovered_peers a' = ga_discovered_peers a ∧ ga_trusted_peers a' = ga_trusted_peers a ∧ ga_fx a' = ga_fx a ∧
  ga_daemon_shutdown_sent a' = ga_daemon_shutdown_sent a ∧ ga_has_tray a' = ga_has_tray a ∧ ga_quitting a' = ga_quitting a ∧
  ga_audio_peer_status a' = ga_audio_peer_status a.
Proof.
  revert a; induction ls as [|l ls IH]; intros a; [done|]. cbn [fold_left].
  destruct (IH (push_log l a)) as (-> & -> & -> & -> & -> & -> & -> & -> & -> & ->). done.
Qed.

(** Only a [Config] update touches the edit buffer. *)
Lemma apply_update_config now u a :
  match u with
  | UpConfig c => True
  | _ => ga_config (apply_update now u a) = ga_config a ∧ ga_dirty (apply_update now u a) = ga_dirty a ∧
         ga_pending_remote_config (apply_update now u a) = ga_pending_remote_config a
  end.
Proof.
  destruct u; try done.
  - cbn [apply_update]. destruct (push_logs_frame recent_log (a <| ga_state := state |> <| ga_connected_peers := list_to_set connected_peers |>
      <| ga_active_screen := active_screen |> <| ga_log := [] |>)) as (-> & -> & -> & _). done.
  - cbn. by destruct (is_running state).
Qed.

(** The daemon never overwrites unsaved edits.  Whatever updates arrive, the edit
    buffer of a window with unsaved edits stays as it is and stays unsaved, and the
    newest config that arrived is kept aside for Revert; a window without unsaved
    edits shows the newest config. *)
Theorem unsaved_edits_survive now us a :
  let a' := drain_ipc now us a in
  ga_dirty a' = ga_dirty a ∧
  if ga_dirty a
  then ga_config a' = ga_config a ∧
       ga_pending_remote_config a' = match last (configs_of us) with Some c => Some c | None => ga_pending_remote_config a end
  else ga_config a' = default (ga_config a) (last (configs_of us)).
Proof.
  cbv zeta. unfold drain_ipc. induction us as [|u us IH] using rev_ind.
  { cbn. by destruct (ga_dirty a). }
  rewrite fold_left_app. cbn [fold_left]. set (b := fold_left _ us a) in *. destruct IH as [Hd IH].
  pose proof (apply_update_config now u b) as Hu. unfold configs_of in *. rewrite omap_app.
  destruct u; try (destruct Hu as (Eu & Ed & Ep); rewrite Ed, Hd, Eu, ?Ep; cbn [omap list_omap]; rewrite app_nil_r; split; [done|exact IH]).
  cbn [omap list_omap apply_update]. rewrite last_snoc, Hd. destruct (ga_dirty a) eqn:E; cbn; rewrite ?Hd; split_and!; try done; apply IH.
Qed.

(** ** The reconcile pass settles *)

Lemma update_first_map {A B} (g : A → B) (p : A → bool) (f : A → A) l :
  (∀ x, g (f x) = g x) → map g (update_first p f l) = map g l.
Proof. intros Hg. induction l as [|x l IH]; cbn [update_first map]; [done|]. destruct (p x); cbn; [by rewrite Hg|by rewrite IH]. Qed.

Lemma update_first_same {A} (p : A → bool) (f : A → A) l x :
  List.find p l = Some x → f x = x → update_first p f l = l.
Proof.
  intros Hfind Hf. induction l as [|y l IH]; cbn in *; [done|]. destruct (p y); [by injection Hfind as ->; rewrite Hf|].
  by rewrite IH.
Qed.

Lemma update_first_find {A} (p : A → bool) (f : A → A) l x :
  (∀ y, p y = true → p (f y) = true) → List.find p l = Some x → List.find p (update_first p f l) = Some (f x).
Proof.
  intros Hp Hfind. induction l as [|y l IH]; cbn in *; [done|]. destruct (p y) eqn:E; cbn.
  - injection Hfind as ->. by rewrite Hp.
  - rewrite E. by apply IH.
Qed.

Lemma find_app {A} (p : A → bool) l1 l2 :
  List.find p (l1 ++ l2) = match List.find p l1 with Some x => Some x | None => List.find p l2 end.
Proof. induction l1 as [|x l1 IH]; cbn; [done|]. by destruct (p x). Qed.

Definition add_screens (to_add : list string) (ss : list Screen) : list Screen :=
  fold_left (λ ss name, ss ++ [auto_screen (length ss) name]) to_add ss.

Lemma add_screens_spec to_add ss : ∃ new, add_screens to_add ss = ss ++ new ∧ map scr_name new = to_add ∧
  Forall (λ s, scr_monitors s = [] ∧ scr_aliases s = []) new.
Proof.
  revert ss; induction to_add as [|n to_add IH]; intros ss; [exists []; by rewrite app_nil_r|].
  destruct (IH (ss ++ [auto_screen (length ss) n])) as (new & E & En & Hf). exists (auto_screen (length ss) n :: new).
  unfold add_screens in *. cbn [fold_left]. rewrite E, <-app_assoc. split_and!; [done|cbn; by rewrite En|by constructor].
Qed.

(** What the pass leaves in our own screen, if there is one. *)
Definition own_screen (c : Config) : option Screen :=
  List.find (λ s, bool_decide (scr_name s = cfg_server_name c)) (cfg_screens c).

Lemma mirror_monitors_spec fresh c b ss :
  mirror_monitors fresh c = (b, ss) →
  (∀ B (g : Screen → B), (∀ s, g (s <| scr_monitors := fresh |>) = g s) → map g ss = map g (cfg_screens c)) ∧
  (b = false → ss = cfg_screens c) ∧
  (∀ s, own_screen c = Some s → ∃ s', List.find (λ s, bool_decide (scr_name s = cfg_server_name c)) ss = Some s' ∧ scr_monitors s' = fresh) ∧
  (own_screen c = None → List.find (λ s, bool_decide (scr_name s = cfg_server_name c)) ss = None).
Proof.
  unfold mirror_monitors, own_screen. set (p := λ s, bool_decide (scr_name s = cfg_server_name c)).
  destruct (List.find p (cfg_screens c)) as [s|] eqn:E; [destruct (decide (scr_monitors s ≠ fresh)) as [Hm|Hm]|]; intros [= <- <-].
  - rewrite (update_first_find p _ _ s) by done. split_and!; try done; [intros; by apply update_first_map|]. by eexists.
  - rewrite E. apply dec_stable in Hm. split_and!; try done. intros ? [= <-]. by eexists.
  - rewrite E. done.
Qed.

(** Nothing to mirror once our screen shows the monitors. *)
Lemma mirror_monitors_done fresh c :
  (∀ s, own_screen c = Some s → scr_monitors s = fresh) → mirror_monitors fresh c = (false, cfg_screens c).
Proof.
  unfold mirror_monitors, own_screen. intros Hs. destruct (List.find _ _) as [s|]; [|done].
  rewrite decide_False; [done|]. intros Hn. by apply Hn, Hs.
Qed.

Lemma elem_of_missing trusted server known name :
  name ∈ missing_screens trusted server known ↔
  (∃ id p, trusted !! id = Some p ∧ tp_display_name p = name) ∧ name ≠ server ∧ name ∉ known.
Proof.
  unfold missing_screens. rewrite list_elem_of_In, filter_In, <-list_elem_of_In, andb_true_iff, !negb_true_iff, !bool_decide_eq_false.
  assert (name ∈ map (tp_display_name ∘ snd) (bt_iter trusted) ↔ ∃ id p, trusted !! id = Some p ∧ tp_display_name p = name) as ->; [|tauto].
  rewrite list_elem_of_In, in_map_iff. split.
  - intros ([id p] & <- & Hin). exists id, p. split; [|done]. by apply elem_of_bt_iter, list_elem_of_In.
  - intros (id & p & Hp & <-). exists (id, p). split; [done|]. by apply list_elem_of_In, elem_of_bt_iter.
Qed.

Lemma missing_none trusted server known :
  (∀ id p, trusted !! id = Some p → tp_display_name p = server ∨ tp_display_name p ∈ known) →
  missing_screens trusted server known = [].
Proof.
  intros Hall. destruct (missing_screens _ _ _) as [|n l] eqn:E; [done|]. exfalso.
  assert (n ∈ missing_screens trusted server known) as Hn by (rewrite E; apply list_elem_of_here).
  apply elem_of_missing in Hn as ((id & p & Hp & <-) & Hs & Hk). by destruct (Hall _ _ Hp).
Qed.

(** Adding screens and changing monitors keeps a document valid. *)
Lemma validate_more_screens c ss new :
  map scr_name ss = map scr_name (cfg_screens c) → validate c = Ok tt → validate (set_cfg_screens (ss ++ new) c) = Ok tt.
Proof.
  intros Hn. rewrite !validate_ok_valid. unfold valid_config, screen_names. cbn. rewrite map_app, Hn.
  intros (Hs & Hl & Hr). split_and!; [set_solver| |done]. intros l Hin. destruct (Hl l Hin) as (? & ? & ?). set_solver.
Qed.

(** The pass, when it runs. *)
Lemma reconcile_run fresh a b ss :
  ga_connected a = true → ga_pending_remote_config a = None → ga_dragging a = false →
  mirror_monitors fresh (ga_config a) = (b, ss) →
  let to_add := missing_screens (ga_trusted_peers a) (cfg_server_name (ga_config a)) (map scr_name ss) in
  let a1 := a <| ga_local_monitors := fresh |> <| ga_config := set_cfg_screens (add_screens to_add ss) (ga_config a) |> in
  reconcile fresh a =
    if b || negb (bool_decide (to_add = [])) then send (CmdSetConfig (ga_config a1)) a1 <| ga_dirty := false |> else a1.
Proof.
  intros Hconn Hpend Hdrag Hm. unfold reconcile. rewrite Hconn, Hpend, Hdrag. cbn [negb bool_decide].
  cbn [ga_config ga_trusted_peers update_field]. rewrite Hm. done.
Qed.

(** C36: The periodic pass settles in one step.  When it runs (connected, no remote config
    waiting, no drag), every screen stays with its name, aliases and place, our own
    screen shows the monitors found, every paired machine has a screen unless it
    shares our name, a valid config stays valid; and a second pass with the same
    monitors changes nothing and sends nothing, so it cannot flood the daemon. *)
Theorem reconcile_settles fresh a :
  ga_connected a = true → ga_pending_remote_config a = None → ga_dragging a = false →
  let a' := reconcile fresh a in
  let c := ga_config a in let c' := ga_config a' in
  (∃ new, map scr_name (cfg_screens c') = map scr_name (cfg_screens c) ++ map scr_name new ∧
          map scr_position (cfg_screens c') = map scr_position (cfg_screens c) ++ map scr_position new ∧
          map scr_aliases (cfg_screens c') = map scr_aliases (cfg_screens c) ++ map scr_aliases new) ∧
  (∀ s, own_screen c = Some s → ∃ s', own_screen c' = Some s' ∧ scr_monitors s' = fresh) ∧
  (∀ id p, ga_trusted_peers a !! id = Some p →
     tp_display_name p = cfg_server_name c ∨ tp_display_name p ∈ map scr_name (cfg_screens c')) ∧
  (validate c = Ok tt → validate c' = Ok tt) ∧
  reconcile fresh a' = a'.
Proof.
  intros Hconn Hpend Hdrag. destruct (mirror_monitors fresh (ga_config a)) as [b ss] eqn:Hm.
  pose proof (reconcile_run fresh a b ss Hconn Hpend Hdrag Hm) as Hrun. cbv zeta in *.
  set (to_add := missing_screens _ _ _) in *. set (a1 := a <| ga_local_monitors := fresh |> <| ga_config := _ |>) in *.
  destruct (mirror_monitors_spec fresh (ga_config a) b ss Hm) as (Hmap & _ & Hown & Hnone).
  destruct (add_screens_spec to_add ss) as (new & Enew & Eto & _).
  assert (ga_config (reconcile fresh a) = set_cfg_screens (ss ++ new) (ga_config a)) as Ec.
  { rewrite Hrun, <-Enew. by destruct (b || _). }
  assert (∀ id p, ga_trusted_peers a !! id = Some p →
    tp_display_name p = cfg_server_name (ga_config a) ∨ tp_display_name p ∈ map scr_name (ss ++ new)) as Hall.
  { intros id p Hp. destruct (decide (tp_display_name p = cfg_server_name (ga_config a))); [by left|right].
    rewrite map_app, Eto, elem_of_app. destruct (decide (tp_display_name p ∈ map scr_name ss)); [by left|right].
    apply elem_of_missing. split; [by exists id, p|done]. }
  assert (∀ s, own_screen (ga_config a) = Some s → ∃ s', own_screen (set_cfg_screens (ss ++ new) (ga_config a)) = Some s' ∧ scr_monitors s' = fresh) as Hown'.
  { intros s Hs. destruct (Hown s Hs) as (s' & E' & Hf). exists s'. split; [|done]. unfold own_screen. cbn. by rewrite find_app, E'. }
  rewrite Ec. split_and!; [|exact Hown'|exact Hall| |].
  - exists new. cbn [cfg_screens set_cfg_screens]. rewrite !map_app, !Hmap by done. done.
  - intros Hv. apply validate_more_screens; [by apply Hmap|done].
  - (* the second pass *)
    assert (ga_connected (reconcile fresh a) = true ∧ ga_pending_remote_config (reconcile fresh a) = None ∧
      ga_dragging (reconcile fresh a) = false ∧ ga_trusted_peers (reconcile fresh a) = ga_trusted_peers a) as (C1 & C2 & C3 & C4)
      by (rewrite Hrun; destruct (b || _); done).
    assert (mirror_monitors fresh (ga_config (reconcile fresh a)) = (false, ss ++ new)) as Hm2.
    { rewrite Ec. apply mirror_monitors_done. intros s Hs. destruct (own_screen (ga_config a)) as [s0|] eqn:E0.
      - destruct (Hown' s0 eq_refl) as (s' & E' & Hf). congruence.
      - (* an appended screen never bears our name *)
        exfalso. unfold own_screen in Hs. cbn in Hs. rewrite find_app, (Hnone eq_refl) in Hs. apply List.find_some in Hs as [Hin Hb].
        apply bool_decide_eq_true in Hb. assert (scr_name s ∈ to_add) as Hadd by (rewrite <-Eto; apply list_elem_of_In, in_map, Hin).
        apply elem_of_missing in Hadd as (_ & Hne & _). done. }
    pose proof (reconcile_run fresh (reconcile fresh a) false (ss ++ new) C1 C2 C3 Hm2) as Hrun2. cbv zeta in Hrun2.
    rewrite C4, Ec in Hrun2. rewrite (missing_none (ga_trusted_peers a)) in Hrun2 by exact Hall.
    cbn [add_screens fold_left bool_decide negb orb] in Hrun2. rewrite Hrun2. rewrite Hrun in *. unfold a1. rewrite Enew. by destruct (b || _).
Qed.

(** ** What holds of every window *)

Definition shutdowns (l : list GuiFx) : nat :=
  length (List.filter (λ x, match x with FxShutdownDaemon => true | _ => false end) l).

Record window_ok (a : App) : Prop := {
  wo_log : length (ga_log a) ≤ LOG_CAP;
  wo_peers : map_Forall (λ id p, dp_machine_id p = id) (ga_discovered_peers a);
  wo_trusted : map_Forall (λ id p, tp_machine_id p = id) (ga_trusted_peers a);
  wo_audio : map_Forall (λ id s, as_machine_id s = id) (ga_audio_peer_status a);
  wo_shutdown : shutdowns (ga_fx a) = if ga_daemon_shutdown_sent a then 1 else 0;
  wo_tray : ga_daemon_shutdown_sent a = true → ga_has_tray a = true → ga_quitting a = true
}.

(** The fields the invariant is about. *)
Definition same_window (a a' : App) : Prop :=
  ga_log a' = ga_log a ∧ ga_discovered_peers a' = ga_discovered_peers a ∧ ga_trusted_peers a' = ga_trusted_peers a ∧
  ga_audio_peer_status a' = ga_audio_peer_status a ∧ shutdowns (ga_fx a') = shutdowns (ga_fx a) ∧
  ga_daemon_shutdown_sent a' = ga_daemon_shutdown_sent a ∧ ga_has_tray a' = ga_has_tray a ∧ ga_quitting a' = ga_quitting a.

Lemma same_window_ok a a' : same_window a a' → window_ok a → window_ok a'.
Proof. intros (E1 & E2 & E3 & E4 & E5 & E6 & E7 & E8) [H1 H2 H3 H4 H5 H6]. split; rewrite ?E1, ?E2, ?E3, ?E4, ?E5, ?E6, ?E7, ?E8; done. Qed.

Lemma shutdowns_app l x : shutdowns (l ++ [x]) = shutdowns l + match x with FxShutdownDaemon => 1 | _ => 0 end.
Proof. unfold shutdowns. rewrite List.filter_app, length_app. by destruct x. Qed.

Lemma fx_same x a : x ≠ FxShutdownDaemon → same_window a (fx x a).
Proof. intros Hx. unfold same_window. change (ga_fx (fx x a)) with (ga_fx a ++ [x]). rewrite shutdowns_app. destruct x; split_and!; done || lia. Qed.
Lemma send_same cmd a : same_window a (send cmd a).
Proof. by apply fx_same. Qed.
Lemma same_window_refl a : same_window a a.
Proof. done. Qed.
Lemma same_window_trans a b c : same_window a b → same_window b c → same_window a c.
Proof. unfold same_window. intuition congruence. Qed.

Lemma snapshot_keyed {A} (key : A → string) (l : list A) :
  map_Forall (λ id p, key p = id) (fold_left (λ m p, <[key p := p]> m) l (∅ : gmap string A)).
Proof.
  assert (∀ m : gmap string A, map_Forall (λ id p, key p = id) m →
    map_Forall (λ id p, key p = id) (fold_left (λ m p, <[key p := p]> m) l m)) as Hgo;
    [|apply Hgo, map_Forall_empty].
  induction l as [|p l IH]; intros m Hm; cbn; [done|]. by apply IH, map_Forall_insert_2.
Qed.

Lemma push_log_ok l a : window_ok a → window_ok (push_log l a).
Proof.
  intros [H1 H2 H3 H4 H5 H6]. split; try done. cbn [push_log update_field ga_log]. rewrite length_app. unfold LOG_CAP in *.
  case_decide as Hc; [destruct (ga_log a); simpl in *; lia|simpl; lia].
Qed.

Lemma apply_update_ok now u a : window_ok a → window_ok (apply_update now u a).
Proof.
  intros Ha. destruct u; cbn [apply_update]; try by apply push_log_ok.
  all: try (by apply (same_window_ok a); [|done]).
  - destruct Ha; by split.
  - assert (∀ ls b, window_ok b → window_ok (fold_left (λ a l, push_log l a) ls b)) as Hgo
      by (induction ls as [|l ls IH]; intros b Hb; [done|]; by apply IH, push_log_ok).
    apply Hgo. destruct Ha. split; try done. cbn. lia.
  - by destruct (ga_dirty a); apply (same_window_ok a).
  - by destruct (is_running state); apply (same_window_ok a).
  - destruct Ha. split; try done. by apply map_Forall_insert_2.
  - destruct Ha. split; try done. by apply map_Forall_delete.
  - destruct Ha. split; try done. apply snapshot_keyed.
  - destruct Ha. split; try done. by apply map_Forall_insert_2.
  - destruct Ha. split; try done. apply snapshot_keyed.
  - destruct Ha. split; try done. by apply map_Forall_delete.
  - apply (same_window_ok a); [apply send_same|done].
  - destruct Ha. split; try done. by apply map_Forall_insert_2.
  - destruct Ha. split; try done. by apply map_Forall_delete.
  - destruct Ha. split; try done. apply snapshot_keyed.
Qed.

Lemma drain_ok now us a : window_ok a → window_ok (drain_ipc now us a).
Proof. unfold drain_ipc. revert a; induction us as [|u us IH]; intros a Ha; cbn [fold_left]; [done|]. by apply IH, apply_update_ok. Qed.

Lemma handle_close_ok b a : window_ok a → window_ok (handle_close b a).
Proof.
  intros Ha. unfold handle_close. destruct (ga_has_tray a && negb (ga_quitting a)) eqn:Et.
  - destruct b; [|done]. apply (same_window_ok a); [|done]. by apply (same_window_trans _ (fx FxCancelClose a)); apply fx_same.
  - destruct (b || ga_quitting a); [|done]. unfold shutdown_daemon_once. destruct (ga_daemon_shutdown_sent a) eqn:Es; [done|].
    destruct Ha as [H1 H2 H3 H4 H5 H6]. rewrite Es in H5. split; try done.
    + change (ga_fx (fx FxShutdownDaemon _)) with (ga_fx a ++ [FxShutdownDaemon]). rewrite shutdowns_app, H5. done.
    + intros _ Ht. change (ga_has_tray a = true) in Ht. change (ga_quitting a = true). rewrite Ht in Et. by apply negb_false_iff.
Qed.

Lemma reconcile_same fresh a : same_window a (reconcile fresh a).
Proof.
  unfold reconcile. destruct (negb _); [done|]. destruct (bool_decide _); [done|]. destruct (ga_dragging a); [done|].
  cbv zeta. destruct (mirror_monitors _ _) as [b ss]. destruct (b || _); [|done].
  eapply same_window_trans; [|apply (send_same (CmdSetConfig _))]. done.
Qed.

Lemma frame_ok now us q cr fresh a : window_ok a → window_ok (frame now us q cr fresh a).
Proof.
  intros Ha. unfold frame, periodic. set (a1 := drain_ipc now us a). assert (window_ok a1) as Hk1 by by apply drain_ok.
  set (a2 := if _ && q then _ else a1). assert (window_ok a2) as Hk2.
  { unfold a2. destruct (ga_has_tray a1 && q); [|done]. eapply same_window_ok; [by apply fx_same|]. destruct Hk1. by split. }
  set (a3 := handle_close cr a2). assert (window_ok a3) as Hk3 by by apply handle_close_ok.
  match goal with |- context [if ?b then reconcile ?x ?y else a3] =>
    set (a4 := if b then reconcile x y else a3); assert (window_ok a4) as Hk4; [unfold a4; destruct b|] end; [|done|].
  { apply (same_window_ok a3); [|done]. eapply same_window_trans; [|apply reconcile_same]. done. }
  destruct (ga_last_sync_status a4); [|done]. destruct (bool_decide _); [|done]. by apply (same_window_ok a4).
Qed.

Lemma ui_exec_ok op a : window_ok a → window_ok (ui_exec op a).
Proof.
  intros Ha. destruct op; cbn [ui_exec]; try (by apply (same_window_ok a); [|done]); try (by apply frame_ok); try (by apply (same_window_ok a); [apply send_same|]).
  - eapply same_window_ok; [apply send_same|]. by apply (same_window_ok a).
  - destruct (ga_connected a); [|done]. by eapply same_window_ok; [apply send_same|].
  - destruct (ga_connected a); [|done]. by eapply same_window_ok; [apply send_same|].
  - destruct (_ && _); [|done]. apply (same_window_ok a); [|done]. apply (send_same (CmdSetConfig _)).
  - unfold revert. destruct (negb _); [done|]. cbv zeta. destruct (ga_pending_remote_config _); [by apply (same_window_ok a)|].
    eapply same_window_ok; [apply send_same|]. by apply (same_window_ok a).
  - unfold add_screen. destruct (_ || _); [done|]. by apply (same_window_ok a).
  - unfold click_pair. destruct (_ && _); [|done]. by eapply same_window_ok; [apply send_same|].
  - unfold click_revoke. destruct (bool_decide _); [|done]. by eapply same_window_ok; [apply send_same|].
  - unfold click_use_as_server. destruct (_ !! _); [|done]. destruct (_ && _); [|done]. unfold connect_as_client_to. cbv zeta.
    eapply same_window_ok; [apply send_same|]. apply (same_window_ok a); [|done]. apply (send_same (CmdSetConfig _)).
  - unfold click_decide. destruct (existsb _ _); [|done]. eapply same_window_ok; [apply send_same|]. by apply (same_window_ok a).
  - unfold press_escape. destruct (last _); [|done]. eapply same_window_ok; [apply send_same|]. by apply (same_window_ok a).
  - eapply same_window_ok; [apply send_same|]. by apply (same_window_ok a).
  - unfold open_audio_tab. destruct (ga_audio_devices_loaded a); [done|]. apply (same_window_ok a); [|done].
    eapply same_window_trans; [apply (send_same CmdListAudioDevices)|]. apply (send_same CmdGetAudioStatus).
Qed.

(** Every window is well formed.  In every reachable state the log holds at most
    [LOG_CAP] lines, each table is keyed by its entries' own machine ids, the daemon
    has been told to shut down at most once, and with a tray icon only after the
    user chose Quit: closing the window merely hides it. *)
Theorem window_invariant a : app_reachable a → window_ok a.
Proof.
  induction 1 as [has_tray monitors wanted|op a _ IH]; [|by apply ui_exec_ok].
  split; [apply Nat.le_0_l|by apply map_Forall_empty..|done|cbn; discriminate].
Qed.

(** ** Two surprises *)

(** Revert without a remote config waiting does not discard the edits: the buffer
    keeps them, no longer marked as unsaved, and the daemon is asked for its status,
    not for its config. *)
Lemma revert_keeps_edits a :
  ga_dirty a = true → ga_pending_remote_config a = None →
  ga_config (ui_exec UiRevert a) = ga_config a ∧ ga_dirty (ui_exec UiRevert a) = false ∧
  ga_fx (ui_exec UiRevert a) = ga_fx a ++ [FxCmd CmdRefresh].
Proof. intros Hd Hp. cbn [ui_exec]. unfold revert. rewrite Hd, Hp. cbn [orb negb]. cbv zeta. cbn [ga_pending_remote_config update_field]. by rewrite Hp. Qed.

(** Two machines paired under one display name get two screens of that name. *)
Definition wit_trusted (id : string) : TrustedPeer :=
  {| tp_machine_id := id; tp_display_name := "laptop"; tp_public_key_hex := ""; tp_fingerprint := ""; tp_paired_at_unix := 0 |}.
Definition wit_window : App :=
  app_new false [] true <| ga_connected := true |> <| ga_config := sample_config |>
    <| ga_trusted_peers := {["p1" := wit_trusted "p1"; "p2" := wit_trusted "p2"]} |>.
Example same_name_twice : map scr_name (cfg_screens (ga_config (reconcile [] wit_window))) = ["alpha"; "beta"; "laptop"; "laptop"]%string.
Proof. vm_compute. reflexivity. Qed.

(** ** Concrete windows *)

Definition wit_monitor : MonitorInfo := {| mon_x := 0; mon_y := 0; mon_w := 1920; mon_h := 1080; mon_primary := true |}.

Example reconcile_settles_witness :
  let a' := reconcile [wit_monitor] wit_window in
  validate (ga_config a') = Ok tt ∧ length (cfg_screens (ga_config a')) = 4 ∧ reconcile [wit_monitor] a' = a'.
Proof.
  destruct (reconcile_settles [wit_monitor] wit_window eq_refl eq_refl eq_refl) as (_ & _ & _ & Hv & Hr).
  split; [apply Hv; vm_compute; reflexivity|]. split; [vm_compute; reflexivity|exact Hr].
Defined.

Definition wit_busy_window : App :=
  ui_exec (UiFrame 100 [UpConnected; UpPeerSnapshot []; UpLog "x"] true false [wit_monitor])
    (ui_exec (UiFrame 0 [] false true [wit_monitor]) (app_new true [wit_monitor] true)).

Example window_invariant_witness : window_ok wit_busy_window ∧ shutdowns (ga_fx wit_busy_window) = 1.
Proof. split; [|vm_compute; reflexivity]. apply (window_invariant wit_busy_window). repeat constructor. Defined.
