(* ===== verification/GuiIpc.v ===== *)
(** * The GUI's IPC threads ([crates/synbad-gui/src/ipc_thread.rs])

    The event loop that (re)connects to the daemon, launches it when wanted,
    bootstraps the window and translates events; and the dispatcher that turns
    the window's commands into requests. *)

From Stdlib Require Import ZArith Lia.
From S2P Require Import Prelude Primitives Config IpcTypes Store IpcWire GuiApp.

Definition LAUNCH_GRACE : Z := 5000.
Definition SPAWN_THROTTLE : Z := 3000.
Definition MIN_BACKOFF_MS : Z := 500.
Definition MAX_BACKOFF_MS : Z := 10000.

Definition in_launch_grace (last_spawn_at : option Z) (now grace : Z) : bool :=
  match last_spawn_at with Some t => bool_decide (saturating_sub_u now t < grace)%Z | None => false end.

Definition should_spawn (daemon_wanted : bool) (last_spawn_at : option Z) (now : Z) : bool :=
  daemon_wanted && match last_spawn_at with Some t => bool_decide (SPAWN_THROTTLE ≤ saturating_sub_u now t)%Z | None => true end.

(** [autostart_at_startup]: the session flag read off the config file. *)
Definition autostart_at_startup (loaded : result ConfigError (option Config)) : bool :=
  match loaded with Ok (Some cfg) => cfg_autostart cfg | Ok None => true | Err _ => true end.

(** ** Translation *)

(** The update for an event; [refetched] is what [refetch_config] gave. *)
Definition event_update (refetched : option Config) (e : Event) : option Update :=
  match e with
  | EvLog line => Some (UpLog line)
  | EvState state => Some (UpStateChanged state)
  | EvConfigChanged => UpConfig <$> refetched
  | EvPeerConnected name => Some (UpPeerConnected name)
  | EvPeerDisconnected name => Some (UpPeerDisconnected name)
  | EvActiveScreen name => Some (UpActiveScreen name)
  | EvPeerDiscovered peer => Some (UpPeerDiscovered peer)
  | EvPeerLost id => Some (UpPeerLost id)
  | EvPairingProposed sid mid name fp code => Some (UpPairingProposed sid mid name fp code)
  | EvPairingCompleted peer => Some (UpPairingCompleted peer)
  | EvPairingFailed sid reason => Some (UpPairingFailed sid reason)
  | EvTrustRevoked id => Some (UpTrustRevoked id)
  | EvSyncStarted id dir => Some (UpSyncStarted id dir)
  | EvSyncCompleted id dir updated _ => Some (UpSyncCompleted id dir updated)
  | EvSyncFailed id dir reason => Some (UpSyncFailed id dir reason)
  | EvAudioDevicesChanged => Some UpAudioDevicesChanged
  | EvAudioPeerStatus status => Some (UpAudioPeerStatus status)
  | EvAudioPeerRemoved id => Some (UpAudioPeerRemoved id)
  | EvAudioError peer message => Some (UpAudioError peer message)
  end.

Definition cmd_request (c : Cmd) : Request :=
  match c with
  | CmdStart => RqStart
  | CmdStop => RqStop
  | CmdRestart => RqRestart
  | CmdSetConfig config => RqSetConfig config
  | CmdRefresh => RqGetStatus
  | CmdRefreshPeers => RqListPeers
  | CmdStartPairing id => RqStartPairing id
  | CmdConfirmPairing sid accept => RqConfirmPairing sid accept
  | CmdRevokeTrust id => RqRevokeTrust id
  | CmdListAudioDevices => RqListAudioDevices
  | CmdSetAudioConfig config => RqSetAudioConfig config
  | CmdGetAudioStatus => RqGetAudioStatus
  end.

(** The update for a response; most commands only succeed. *)
Definition response_update (r : Response) : option Update :=
  match r with
  | RsStatus state log peers screen => Some (UpStatus state log peers screen)
  | RsConfig config => Some (UpConfig config)
  | RsPeers peers => Some (UpPeerSnapshot peers)
  | RsLocalIdentity id fp => Some (UpLocalIdentity id fp)
  | RsTrustedPeers peers => Some (UpTrustedSnapshot peers)
  | RsAudioDevices input output => Some (UpAudioDevices input output)
  | RsAudioStatus peers => Some (UpAudioStatusSnapshot peers)
  | RsOk | RsError _ => None
  end.

Definition option_list {A} (o : option A) : list A := match o with Some a => [a] | None => [] end.

Section threads.
(** [e.to_string()], and the debug form of a response. *)
Context (show_error : ClientError → string) (show_response : Response → string).

(** ** The dispatcher *)

(** The connect loop: each attempt with the time since the command was taken.
    [None] while the attempts go on. *)
Fixpoint connect_retry (attempts : list (result string unit * Z)) : option (result string unit) :=
  match attempts with
  | [] => None
  | (Ok _, _) :: _ => Some (Ok tt)
  | (Err e, elapsed) :: rest => if bool_decide (5000 ≤ elapsed)%Z then Some (Err e) else connect_retry rest
  end.

Definition dispatch_command (connected : result string unit) (ask : Request → result ClientError Response) (c : Cmd) : list Update :=
  match connected with
  | Err e => [UpError ("dispatch connect: " +:+ e)]
  | Ok _ => match ask (cmd_request c) with
            | Ok r => option_list (response_update r)
            | Err e => [UpError (show_error e)]
            end
  end.

(** ** Bootstrap *)

Definition bootstrap_requests : list Request :=
  [RqGetConfig; RqGetStatus; RqGetLocalIdentity; RqListPeers; RqListTrustedPeers; RqGetAudioStatus].

(** A response of another kind than asked for is skipped. *)
Definition expected_kind (req : Request) (r : Response) : bool :=
  match req, r with
  | RqGetConfig, RsConfig _ | RqGetStatus, RsStatus _ _ _ _ | RqGetLocalIdentity, RsLocalIdentity _ _ | RqListPeers, RsPeers _
  | RqListTrustedPeers, RsTrustedPeers _ | RqGetAudioStatus, RsAudioStatus _ => true
  | _, _ => false
  end.

Fixpoint bootstrap (reqs : list Request) (ask : Request → result ClientError Response) : list Update * result string unit :=
  match reqs with
  | [] => ([], Ok tt)
  | req :: rest =>
    match ask req with
    | Err e => ([], Err (show_error e))
    | Ok r =>
      let us := if expected_kind req r then option_list (response_update r) else [] in
      let '(us', res) := bootstrap rest ask in (us ++ us', res)
    end
  end.

(** ** The event loop *)

(** One established connection: the answer to [Subscribe], the second connection
    with its answers, and the messages until the connection broke, each event with
    what [refetch_config] gave. *)
Record Session := {
  sn_subscribe : result ClientError Response;
  sn_snapshot : result string unit;
  sn_ask : Request → result ClientError Response;
  sn_blocking : result string unit;
  sn_messages : list (Message * option Config);
  sn_end : string;
  sn_lasted : Z
}.

(** One iteration: the clock when the connect failed, the launch's outcome and the
    clock after it. *)
Record Attempt := {
  at_connect : result string Session;
  at_now : Z;
  at_wanted : bool;
  at_spawn : result string unit;
  at_spawned_at : Z
}.

Record Loop := {
  lp_backoff : Z;
  lp_last_spawn : option Z;
  lp_last_spawn_error : option string
}.
#[export] Instance Loop_eta : Eta Loop := λ r,
  {| lp_backoff := lp_backoff r; lp_last_spawn := lp_last_spawn r; lp_last_spawn_error := lp_last_spawn_error r |}.

Definition loop_init : Loop := {| lp_backoff := MIN_BACKOFF_MS; lp_last_spawn := None; lp_last_spawn_error := None |}.

(** Subscribe first, so that events are buffered while the snapshot is fetched. *)
Definition setup (s : Session) : list Update * result string unit :=
  match sn_subscribe s with
  | Err e => ([], Err (show_error e))
  | Ok RsOk =>
    match sn_snapshot s with
    | Err e => ([], Err e)
    | Ok _ => let '(us, r) := bootstrap bootstrap_requests (sn_ask s) in
              (us, match r with Ok _ => sn_blocking s | Err e => Err e end)
    end
  | Ok other => ([], Err ("unexpected subscribe response: " +:+ show_response other))
  end.

Definition stream_updates (msgs : list (Message * option Config)) : list Update :=
  omap (λ '(m, refetched), match m with MsgEvent e => event_update refetched e | _ => None end) msgs.

Definition launching : Update := UpLaunching "starting synbadd…".

(** What an iteration shows the window, whether it launched the daemon, how long
    it sleeps, and the loop's state after it. *)
Record Iter := { it_updates : list Update; it_launched : bool; it_sleep : Z; it_loop : Loop }.

Definition sleep_then_double (us : list Update) (launched : bool) (l : Loop) : Iter :=
  {| it_updates := us; it_launched := launched; it_sleep := lp_backoff l;
     it_loop := l <| lp_backoff := Z.min (lp_backoff l * 2) MAX_BACKOFF_MS |> |}.

Definition event_iter (socket : string) (a : Attempt) (l : Loop) : Iter :=
  match at_connect a with
  | Ok s =>
    let l := l <| lp_last_spawn_error := None |> in
    match setup s with
    | (us, Err e) => sleep_then_double (us ++ [UpDisconnected e]) false l
    | (us, Ok _) =>
      let l := if bool_decide (2000 ≤ sn_lasted s)%Z then l <| lp_backoff := MIN_BACKOFF_MS |> else l in
      sleep_then_double (us ++ [UpConnected] ++ stream_updates (sn_messages s) ++ [UpDisconnected (sn_end s)]) false l
    end
  | Err e =>
    let report :=
      match lp_last_spawn_error l with
      | Some msg => UpDisconnected msg
      | None => if in_launch_grace (lp_last_spawn l) (at_now a) LAUNCH_GRACE then launching
                else UpDisconnected ("could not connect to synbadd at " +:+ socket +:+ ": " +:+ e)
      end in
    if should_spawn (at_wanted a) (lp_last_spawn l) (at_now a) then
      let l := l <| lp_last_spawn := Some (at_spawned_at a) |> in
      match at_spawn a with
      | Ok _ => sleep_then_double [report; launching] true (l <| lp_last_spawn_error := None |>)
      | Err msg => sleep_then_double [report; UpDisconnected msg] true (l <| lp_last_spawn_error := Some msg |>)
      end
    else sleep_then_double [report] false l
  end.

(** The loop over a list of iterations. *)
Fixpoint event_loop (socket : string) (attempts : list Attempt) (l : Loop) : list Iter * Loop :=
  match attempts with
  | [] => ([], l)
  | a :: rest => let it := event_iter socket a l in
                 let '(its, l') := event_loop socket rest (it_loop it) in (it :: its, l')
  end.

(** ** Launching is paced *)

(** Each iteration starts after the previous one's sleep, and a launch takes no
    negative time. *)
Fixpoint timely (socket : string) (since : Z) (attempts : list Attempt) (l : Loop) : Prop :=
  match attempts with
  | [] => True
  | a :: rest =>
    (since ≤ at_now a ≤ at_spawned_at a)%Z ∧
    timely socket (at_now a + it_sleep (event_iter socket a l)) rest (it_loop (event_iter socket a l))
  end.

Definition backoff_ok (l : Loop) : Prop := (MIN_BACKOFF_MS ≤ lp_backoff l ≤ MAX_BACKOFF_MS)%Z.

Lemma event_iter_sleep socket a l :
  backoff_ok l → backoff_ok (it_loop (event_iter socket a l)) ∧
  (MIN_BACKOFF_MS ≤ it_sleep (event_iter socket a l) ≤ MAX_BACKOFF_MS)%Z.
Proof.
  unfold backoff_ok, event_iter, MIN_BACKOFF_MS, MAX_BACKOFF_MS. intros Hb.
  repeat case_match; cbn; unfold MIN_BACKOFF_MS, MAX_BACKOFF_MS in *; split; try lia.
Qed.

(** The iterations that launched, with the clock of the decision and after it. *)
Fixpoint launches (attempts : list Attempt) (its : list Iter) : list (Z * Z) :=
  match attempts, its with
  | a :: attempts', it :: its' =>
    (if it_launched it then [(at_now a, at_spawned_at a)] else []) ++ launches attempts' its'
  | _, _ => []
  end.

(** Every launch comes at least [SPAWN_THROTTLE] after the one before. *)
Fixpoint paced (last : option Z) (ls : list (Z * Z)) : Prop :=
  match ls with
  | [] => True
  | (t, t') :: rest => match last with Some t0 => (t0 + SPAWN_THROTTLE ≤ t)%Z | None => True end ∧ paced (Some t') rest
  end.

Lemma event_iter_launch socket a l :
  if it_launched (event_iter socket a l)
  then at_wanted a = true ∧ lp_last_spawn (it_loop (event_iter socket a l)) = Some (at_spawned_at a) ∧
       match lp_last_spawn l with Some t0 => (t0 + SPAWN_THROTTLE ≤ at_now a)%Z | None => True end
  else lp_last_spawn (it_loop (event_iter socket a l)) = lp_last_spawn l.
Proof.
  unfold event_iter. destruct (at_connect a) as [s|e].
  - destruct (setup s) as [us [[]|e]]; cbn; [|done]. by case_bool_decide.
  - destruct (should_spawn _ _ _) eqn:Es; [|done]. unfold should_spawn in Es. apply andb_true_iff in Es as [Hw Ht].
    assert (match lp_last_spawn l with Some t0 => (t0 + SPAWN_THROTTLE ≤ at_now a)%Z | None => True end) as Hp.
    { destruct (lp_last_spawn l); [|done]. apply bool_decide_eq_true in Ht. unfold saturating_sub_u, SPAWN_THROTTLE in *. lia. }
    destruct (at_spawn a); done.
Qed.

(** The daemon is launched at a bounded rate, and only when wanted.  Over any run of
    the loop, launches happen only in iterations where the user wants the daemon,
    each at least three seconds after the launch before it, and the sleeps between
    iterations stay between half a second and ten seconds. *)
Theorem launches_paced socket attempts l its l' :
  backoff_ok l → event_loop socket attempts l = (its, l') →
  paced (lp_last_spawn l) (launches attempts its) ∧
  Forall2 (λ a it, it_launched it = true → at_wanted a = true) attempts its ∧
  Forall (λ it, MIN_BACKOFF_MS ≤ it_sleep it ≤ MAX_BACKOFF_MS)%Z its.
Proof.
  revert l its l'; induction attempts as [|a attempts IH]; intros l its l' Hb; cbn [event_loop].
  - intros [= <- <-]. done.
  - destruct (event_loop socket attempts _) as [its0 l0] eqn:E. intros [= <- <-].
    destruct (event_iter_sleep socket a l Hb) as [Hb' Hs]. destruct (IH _ _ _ Hb' E) as (Hp & Hw & Hsl).
    pose proof (event_iter_launch socket a l) as Hl. cbn [launches].
    destruct (it_launched (event_iter socket a l)) eqn:El.
    + destruct Hl as (Hwant & Els & Hgap). rewrite Els in Hp. split_and!; [done|by constructor|by constructor].
    + rewrite Hl in Hp. split_and!; [done| |by constructor]. constructor; [by rewrite El|done].
Qed.

(** ** A wanted daemon is relaunched *)

(** The connect failed while the user wants the daemon. *)
Definition wanted_failure (a : Attempt) : bool :=
  at_wanted a && match at_connect a with Ok _ => false | Err _ => true end.

Definition spawned_before (since : Z) (l : Loop) : Prop :=
  match lp_last_spawn l with Some t0 => (t0 ≤ since)%Z | None => True end.

(** Such an iteration launches the daemon, or leaves the loop as it was but for
    the doubled backoff. *)
Lemma wanted_failure_iter socket a l :
  wanted_failure a = true →
  it_launched (event_iter socket a l) = should_spawn true (lp_last_spawn l) (at_now a) ∧
  it_sleep (event_iter socket a l) = lp_backoff l ∧
  lp_backoff (it_loop (event_iter socket a l)) = Z.min (lp_backoff l * 2) MAX_BACKOFF_MS.
Proof.
  unfold wanted_failure, event_iter. intros [-> Hc]%andb_true_iff. destruct (at_connect a) as [|e]; [done|].
  destruct (should_spawn _ _ _); [destruct (at_spawn a)|]; done.
Qed.

(** As long as nothing is launched the clock runs ahead of the last launch. *)
Lemma quiet_iter socket a l since :
  wanted_failure a = true → backoff_ok l → it_launched (event_iter socket a l) = false → spawned_before since l →
  (since ≤ at_now a)%Z →
  spawned_before since (it_loop (event_iter socket a l)) ∧
  ∃ t0, lp_last_spawn l = Some t0 ∧ (saturating_sub_u (at_now a) t0 < SPAWN_THROTTLE)%Z.
Proof.
  intros Hw Hb Hl Hs Hnow. destruct (wanted_failure_iter socket a l Hw) as (El & _ & _).
  pose proof (event_iter_launch socket a l) as Hk. rewrite Hl in Hk. split; [unfold spawned_before; by rewrite Hk|].
  rewrite Hl in El. unfold should_spawn in El. cbn [andb] in El. destruct (lp_last_spawn l) as [t0|]; [|done].
  exists t0. split; [done|]. case_bool_decide; [done|lia].
Qed.

(** C37: A wanted daemon is relaunched.  Whatever the loop's state, among any four
    consecutive failed connects during which the user wants the daemon at least one
    launches it: the growing sleeps outlast the throttle. *)
Theorem daemon_relaunched socket since attempts l its l' :
  backoff_ok l → spawned_before since l → timely socket since attempts l →
  length attempts = 4 → Forall (λ a, wanted_failure a = true) attempts →
  event_loop socket attempts l = (its, l') →
  Exists (λ it, it_launched it = true) its.
Proof.
  intros Hb Hs Ht Hlen Hf. do 4 (destruct attempts as [|? attempts]; [done|]). destruct attempts; [clear Hlen|done].
  repeat match goal with H : Forall _ (_ :: _) |- _ => apply Forall_cons in H as [? ?] end.
  cbn [event_loop timely] in *. destruct Ht as (T1 & T2 & T3 & T4 & _). intros [= <- <-].
  destruct (it_launched (event_iter socket a l)) eqn:L1; [by apply Exists_cons_hd|apply Exists_cons_tl].
  set (l1 := it_loop (event_iter socket a l)) in *.
  destruct (it_launched (event_iter socket a0 l1)) eqn:L2; [by apply Exists_cons_hd|apply Exists_cons_tl].
  set (l2 := it_loop (event_iter socket a0 l1)) in *.
  destruct (it_launched (event_iter socket a1 l2)) eqn:L3; [by apply Exists_cons_hd|apply Exists_cons_tl].
  set (l3 := it_loop (event_iter socket a1 l2)) in *. apply Exists_cons_hd.
  apply not_false_is_true. intros L4.
  destruct (wanted_failure_iter socket a l) as (_ & S1 & B1); [done|].
  destruct (wanted_failure_iter socket a0 l1) as (_ & S2 & B2); [done|].
  destruct (wanted_failure_iter socket a1 l2) as (_ & S3 & B3); [done|].
  destruct (event_iter_sleep socket a l Hb) as [Hb1 _]. destruct (event_iter_sleep socket a0 l1 Hb1) as [Hb2 _].
  destruct (event_iter_sleep socket a1 l2 Hb2) as [Hb3 _]. fold l1 in B1, Hb1. fold l2 in B2, Hb2. fold l3 in B3, Hb3.
  assert (spawned_before since l3) as Hs3.
  { pose proof (event_iter_launch socket a l) as K1. pose proof (event_iter_launch socket a0 l1) as K2.
    pose proof (event_iter_launch socket a1 l2) as K3. rewrite L1 in K1. rewrite L2 in K2. rewrite L3 in K3.
    unfold spawned_before. fold l1 in K1. fold l2 in K2. fold l3 in K3. by rewrite K3, K2, K1. }
  unfold backoff_ok, MIN_BACKOFF_MS, MAX_BACKOFF_MS in *.
  destruct (quiet_iter socket a2 l3 since) as (_ & t0 & Et & Hlt); [done|done|done|done|lia|].
  unfold spawned_before in Hs3. rewrite Et in Hs3. unfold saturating_sub_u, SPAWN_THROTTLE in Hlt. lia.
Qed.
End threads.

(** ** A concrete run *)

Definition wit_attempt (now : Z) : Attempt :=
  {| at_connect := Err "refused"%string; at_now := now; at_wanted := true; at_spawn := Ok tt; at_spawned_at := now |}.
Definition wit_show_error (e : ClientError) : string := "error".
Definition wit_show_response (r : Response) : string := "response".
Definition wit_attempts : list Attempt := map wit_attempt [1000; 1500; 2500; 4500]%Z.
Definition wit_loop : Loop := loop_init <| lp_last_spawn := Some 900%Z |>.

Example launches_paced_witness :
  paced None (launches wit_attempts (event_loop wit_show_error wit_show_response "s" wit_attempts loop_init).1) ∧
  launches wit_attempts (event_loop wit_show_error wit_show_response "s" wit_attempts loop_init).1 = [(1000, 1000); (4500, 4500)]%Z.
Proof.
  split; [|vm_compute; reflexivity].
  destruct (event_loop wit_show_error wit_show_response "s" wit_attempts loop_init) as [its l'] eqn:E.
  apply (launches_paced wit_show_error wit_show_response "s" wit_attempts loop_init its l'); [|exact E].
  split; vm_compute; discriminate.
Defined.

Example daemon_relaunched_witness :
  Exists (λ it, it_launched it = true) (event_loop wit_show_error wit_show_response "s" wit_attempts wit_loop).1.
Proof.
  destruct (event_loop wit_show_error wit_show_response "s" wit_attempts wit_loop) as [its l'] eqn:E.
  apply (daemon_relaunched wit_show_error wit_show_response "s" 900 wit_attempts wit_loop its l'); [| | | | |exact E].
  - split; vm_compute; discriminate.
  - vm_compute; discriminate.
  - vm_compute. repeat split; discriminate.
  - reflexivity.
  - repeat constructor.
Defined.
