(* ===== verification/GuiMirror.v ===== *)
(** * The window mirrors the daemon's peers

    Composition of the supervisor ([supervisor/mod.rs]), the GUI's event loop
    ([ipc_thread.rs]) and the window ([app/mod.rs]): a window that subscribed,
    took its snapshot and received the events since shows the peers the daemon
    sees, whatever happened in between on either side. *)

From Stdlib Require Import ZArith Lia.
From S2P Require Import Prelude Primitives Config Versioned IpcTypes LogParse Store CoreProc SupState NetSync Supervisor IpcWire GuiApp GuiIpc.

(** Peers are compared as the daemon compares announcements: all but the
    protocol version. *)
#[export] Instance DiscoveredPeer_equiv : Equiv DiscoveredPeer := λ p q, same_announcement p q = true.

#[export] Instance DiscoveredPeer_equivalence : Equivalence (≡@{DiscoveredPeer}).
Proof.
  unfold equiv, DiscoveredPeer_equiv, same_announcement. split.
  - intros p. by rewrite !bool_decide_eq_true_2.
  - intros p q Hpq. rewrite !andb_true_iff, !bool_decide_eq_true in *. intuition congruence.
  - intros p q r Hpq Hqr. rewrite !andb_true_iff, !bool_decide_eq_true in *. intuition congruence.
Qed.

(** ** Replaying events *)

Definition peer_update (u : Update) (m : gmap string DiscoveredPeer) : gmap string DiscoveredPeer :=
  match u with
  | UpPeerDiscovered p => <[dp_machine_id p := p]> m
  | UpPeerLost id => delete id m
  | UpPeerSnapshot ps => fold_left (λ m p, <[dp_machine_id p := p]> m) ps ∅
  | UpDisconnected _ => ∅
  | _ => m
  end.

Definition replay (us : list Update) (m : gmap string DiscoveredPeer) : gmap string DiscoveredPeer :=
  fold_left (λ m u, peer_update u m) us m.

Lemma replay_app us us' m : replay (us ++ us') m = replay us' (replay us m).
Proof. apply fold_left_app. Qed.

(** The updates that announce a change of one peer. *)
Definition announces (u : Update) : bool := match u with UpPeerDiscovered _ | UpPeerLost _ => true | _ => false end.
(** The updates that leave the peers alone. *)
Definition keeps_peers (u : Update) : bool :=
  match u with UpPeerDiscovered _ | UpPeerLost _ | UpPeerSnapshot _ | UpDisconnected _ => false | _ => true end.

Lemma replay_keep us m : forallb keeps_peers us = true → replay us m = m.
Proof. revert m; induction us as [|u us IH]; intros m; [done|]. cbn. intros [Hu Hus]%andb_true_iff. rewrite <-(IH m Hus) at 2. by destruct u. Qed.

(** Only the announcements among such updates matter. *)
Lemma replay_announces us m :
  forallb (λ u, announces u || keeps_peers u) us = true → replay us m = replay (List.filter announces us) m.
Proof. revert m; induction us as [|u us IH]; intros m; [done|]. cbn. intros [Hu Hus]%andb_true_iff. destruct u; try done; cbn; by apply IH. Qed.

#[export] Instance replay_proper us : Proper ((≡) ==> (≡)) (replay us).
Proof.
  induction us as [|u us IH]; intros m m' Hm; [done|]. cbn. apply IH. destruct u; cbn; try done.
  - by apply insert_proper.
  - by apply delete_proper.
Qed.

(** What the announcements say of one peer in the end. *)
Fixpoint final (id : string) (us : list Update) : option (option DiscoveredPeer) :=
  match us with
  | [] => None
  | u :: us =>
    match final id us, u with
    | Some r, _ => Some r
    | None, UpPeerDiscovered p => if decide (dp_machine_id p = id) then Some (Some p) else None
    | None, UpPeerLost id' => if decide (id' = id) then Some None else None
    | None, _ => None
    end
  end.

Lemma replay_lookup id us m :
  forallb announces us = true → replay us m !! id = match final id us with Some r => r | None => m !! id end.
Proof.
  revert m; induction us as [|u us IH]; intros m; [done|]. cbn. intros [Hu Hus]%andb_true_iff.
  rewrite IH by done. destruct (final id us); [by destruct u|]. destruct u; try done; cbn.
  - case_decide as Hd; [by rewrite <-Hd, lookup_insert_eq|by rewrite lookup_insert_ne].
  - case_decide as Hd; [by rewrite <-Hd, lookup_delete_eq|by rewrite lookup_delete_ne].
Qed.

(** Replaying announcements on a state that already reflects them changes nothing. *)
Lemma replay_idem us m : forallb announces us = true → replay us (replay us m) = replay us m.
Proof. intros Hu. apply map_eq. intros id. rewrite !replay_lookup by done. by destruct (final id us). Qed.

(** ** The window *)

Lemma apply_update_peers now u a : ga_discovered_peers (apply_update now u a) = peer_update u (ga_discovered_peers a).
Proof.
  destruct u; cbn [apply_update peer_update]; try done.
  - cbv zeta. match goal with |- context [fold_left _ recent_log ?x] => destruct (push_logs_frame recent_log x) as (_ & _ & _ & -> & _) end. done.
  - by destruct (ga_dirty a).
  - by destruct (is_running state).
Qed.

Lemma drain_peers now us a : ga_discovered_peers (drain_ipc now us a) = replay us (ga_discovered_peers a).
Proof.
  unfold drain_ipc, replay. revert a; induction us as [|u us IH]; intros a; [done|]. cbn [fold_left]. by rewrite IH, apply_update_peers.
Qed.

Definition updates_of (op : UiOp) : list Update := match op with UiFrame _ us _ _ _ => us | _ => [] end.

Lemma handle_close_peers b a : ga_discovered_peers (handle_close b a) = ga_discovered_peers a.
Proof. unfold handle_close, shutdown_daemon_once. by repeat case_match. Qed.

Lemma reconcile_peers fresh a : ga_discovered_peers (reconcile fresh a) = ga_discovered_peers a.
Proof. apply (reconcile_same fresh a). Qed.

Lemma ui_exec_peers op a : ga_discovered_peers (ui_exec op a) = replay (updates_of op) (ga_discovered_peers a).
Proof.
  destruct op; cbn [ui_exec updates_of]; try (by repeat case_match).
  - unfold frame, periodic. cbv zeta. rewrite <-drain_peers with (now := now). set (a1 := drain_ipc now updates a).
    set (a2 := if _ && tray_quit then _ else a1). assert (ga_discovered_peers a2 = ga_discovered_peers a1) as <- by (subst a2; by case_match).
    rewrite <-(handle_close_peers close_requested a2). set (a3 := handle_close close_requested a2).
    match goal with |- context [if ?b then reconcile ?x ?y else a3] => set (a4 := if b then reconcile x y else a3) end.
    assert (ga_discovered_peers a4 = ga_discovered_peers a3) as <- by (subst a4; case_match; [by rewrite reconcile_peers|done]).
    by repeat case_match.
  - unfold revert. by repeat case_match.
  - unfold add_screen. by repeat case_match.
  - unfold click_pair. by repeat case_match.
  - unfold click_revoke. by repeat case_match.
  - unfold click_use_as_server. by repeat case_match.
  - unfold click_decide. by repeat case_match.
  - unfold press_escape. by repeat case_match.
  - unfold open_audio_tab. by repeat case_match.
Qed.

Definition ui_run (ops : list UiOp) (a : App) : App := fold_left (λ a op, ui_exec op a) ops a.

Lemma ui_run_peers ops a : ga_discovered_peers (ui_run ops a) = replay (ops ≫= updates_of) (ga_discovered_peers a).
Proof.
  unfold ui_run. revert a; induction ops as [|op ops IH]; intros a; [done|]. cbn [fold_left].
  rewrite IH, ui_exec_peers. change ((op :: ops) ≫= updates_of) with (updates_of op ++ (ops ≫= updates_of)). by rewrite replay_app.
Qed.

(** ** The daemon *)

(** The announcements in what the supervisor sent. *)
Definition heard (l : list SupFx) : list Update :=
  List.filter announces (omap (λ x, match x with SxEvent e => event_update None e | _ => None end) l).

Lemma heard_app l l' : heard (l ++ l') = heard l ++ heard l'.
Proof. unfold heard. by rewrite omap_app, List.filter_app. Qed.

Lemma heard_announces l : forallb announces (heard l) = true.
Proof. apply forallb_forall. by intros u [_ Hu]%filter_In. Qed.

Lemma heard_mum k : existsb peer_event k = false → heard k = [].
Proof.
  unfold heard. induction k as [|x k IH]; [done|]. cbn [existsb]. intros [Hx Hk]%orb_false_iff.
  destruct x as [e| | | | | | | | | | |]; cbn; try (by apply IH). destruct e; try done; cbn; by apply IH.
Qed.

(** The peers of [s'] are those of [s] after what was announced in between. *)
Definition tracks (s s' : Sup) : Prop :=
  ∃ l, sv_out s' = sv_out s ++ l ∧ replay (heard l) (sv_peers s) ≡ sv_peers s'.

Lemma tracks_trans a b c : tracks a b → tracks b c → tracks a c.
Proof.
  intros (l & Hl & Hp) (l' & Hl' & Hp'). exists (l ++ l'). rewrite app_assoc, <-Hl. split; [done|].
  rewrite heard_app, replay_app. by rewrite Hp.
Qed.

(** A step that keeps the peers and says nothing of them. *)
Definition grows (s s' : Sup) : Prop := sv_peers s' = sv_peers s ∧ mum (sv_out s) (sv_out s').

Lemma grows_tracks s s' : grows s s' → tracks s s'.
Proof. intros [Hp (k & Hk & Hm)]. exists k. split; [done|]. by rewrite (heard_mum k Hm), Hp. Qed.
Lemma grows_refl s : grows s s.
Proof. done. Qed.
Lemma grows_trans a b c : grows a b → grows b c → grows a c.
Proof. intros [E M] [E' M']. split; [congruence|by eapply mum_trans]. Qed.
Lemma grows_out x s : peer_event x = false → grows s (out x s).
Proof. intros Hx. split; [done|by apply mum_snoc]. Qed.
Lemma quiet_grows s s' : quiet s s' → grows s s'.
Proof. intros []. done. Qed.

Section daemon.
Context `{JsonSharedOps, Sha256Ops, HexOps, TomlOps, JsonOps SideCar, JsonOps TrustFile}.
Context (our_id our_fingerprint : string) (config_path versions_path : PathPair).
Context (show_config_error : ConfigError → string) (show_trust_error : TrustError → string).

Local Notation exec := (sup_exec our_id our_fingerprint config_path versions_path show_config_error show_trust_error).
Local Notation reachable := (sup_reachable our_id our_fingerprint config_path versions_path show_config_error show_trust_error).

Lemma teardown_grows s : grows s (teardown_audio_subsystem s).
Proof. unfold teardown_audio_subsystem. cbv zeta. simpl. by destruct (sv_audio s). Qed.

Lemma reconcile_subsystem_grows env s : grows s (reconcile_audio_subsystem our_id env s).
Proof.
  unfold reconcile_audio_subsystem. destruct (_ && _); [|destruct (sv_audio s); [apply teardown_grows|done]].
  unfold ensure_audio_subsystem. destruct (sv_audio s); [done|]. destruct (negb _); [done|]. cbv zeta.
  eapply grows_trans; [|apply quiet_grows, reconcile_audio_sessions_quiet]. by destruct (se_can_bind env _).
Qed.

Lemma apply_edit_grows env c s : grows s (apply_local_edit our_id versions_path env c true s).
Proof.
  unfold apply_local_edit. cbv zeta. destruct (apply_local _ _ _) as [v changed].
  set (s1 := if _ && _ && _ then _ else _).
  assert (grows s s1) as Hs1 by (subst s1; destruct changed, (_ && _ && _); done).
  destruct changed; [|done]. by eapply grows_trans, quiet_grows, push_quiet.
Qed.

Lemma set_config_grows env c s : grows s (set_config our_id config_path versions_path show_config_error env c s).2.
Proof.
  unfold set_config. destruct (validate c); [|done]. destruct (config_save _ _ _) as [r fs]. destruct r; [|done].
  apply (apply_edit_grows env c (set_sv_fs fs s)).
Qed.

Lemma grows_keeps s0 : edits_keep our_id config_path versions_path show_config_error (grows s0).
Proof.
  split_and!; [intros; by eapply grows_trans, quiet_grows|intros; by eapply grows_trans, reconcile_subsystem_grows|].
  intros. by eapply grows_trans, set_config_grows.
Qed.

Lemma grows_audio_closed s0 : audio_closed our_id (grows s0).
Proof. split_and!; [apply grows_keeps..|]. intros. by eapply grows_trans, teardown_grows. Qed.

Lemma request_grows renv req s :
  grows s (handle_request our_id our_fingerprint config_path versions_path show_config_error show_trust_error renv req s).
Proof.
  rewrite handle_request_eq. eapply grows_trans; [|by apply grows_out].
  destruct (core_requests req) eqn:Hr; [|apply dispatch_keep; [apply grows_keeps|done|apply grows_refl]].
  destruct req; try done; unfold dispatch; cbn [snd]; (eapply grows_trans; [|apply reconcile_subsystem_grows]);
    unfold persist_user_stopped; by case_match.
Qed.

Lemma sync_op_grows env op s : grows s (handle_sync_op config_path versions_path env op s).
Proof. unfold handle_sync_op. cbv zeta. by repeat case_match. Qed.

Lemma config_changed_grows env s : grows s (handle_config_changed our_id config_path versions_path env s).
Proof.
  unfold handle_config_changed. destruct (config_load _ _) as [[[c|]|] fs]; try done. cbv zeta. destruct (config_eqb _ _); [done|].
  apply (apply_edit_grows env c (set_sv_fs fs s)).
Qed.

Lemma discovery_tracks env ev s : tracks s (handle_discovery our_id env ev s).
Proof.
  destruct (handle_discovery_spec our_id env ev s) as [->|[(p & q & _ & Hp & Hs & ->)|[(q & _ & Hq)|(id & _ & _ & Hq)]]].
  - by apply grows_tracks.
  - exists []. rewrite app_nil_r. split; [done|]. cbn. intros id. destruct (decide (dp_machine_id q = id)) as [<-|Hne].
    + rewrite Hp, lookup_insert_eq. by constructor.
    + by rewrite lookup_insert_ne.
  - eapply tracks_trans, grows_tracks, quiet_grows, Hq. by exists [SxEvent (EvPeerDiscovered q)].
  - eapply tracks_trans, grows_tracks, quiet_grows, Hq. by exists [SxEvent (EvPeerLost id)].
Qed.

(** Only a discovery event touches the peers. *)
Lemma exec_grows renv op s s' :
  (∀ ev, op ≠ SoDiscovery ev) → exec renv op s = (false, s') → grows s s'.
Proof.
  intros Hop. destruct (env_move op) eqn:Hm.
  { intros E. apply quiet_grows. pose proof (env_move_quiet our_id our_fingerprint config_path versions_path
      show_config_error show_trust_error renv op s Hm) as Hq. by rewrite E in Hq. }
  destruct op; try done; cbn [sup_exec].
  - case_match; [done|]. intros [= <-]. apply request_grows.
  - intros [= <-]. by case_match.
  - intros [= <-]. apply tick_keep; [apply grows_audio_closed|apply grows_refl].
  - intros [= <-]. apply quiet_grows, dial_outcome_quiet.
  - intros [= <-]. apply config_changed_grows.
  - by destruct (Hop ev).
  - intros [= <-]. by case_match.
  - intros [= <-]. apply sync_op_grows.
  - intros [= <-]. case_match; [|done]. unfold handle_audio_event. by repeat case_match.
Qed.

Lemma exec_tracks renv op s s' : exec renv op s = (false, s') → tracks s s'.
Proof.
  destruct op as [| | | | | |ev| | | | | | | | | | | |] eqn:Eop; try (intros E; eapply grows_tracks, exec_grows, E; congruence).
  cbn [sup_exec]. intros [= <-]. destruct (sv_discovery s) as [[]|]; [by apply grows_tracks|apply discovery_tracks|by apply grows_tracks].
Qed.

(** Turns of the running loop. *)
Inductive sup_steps : Sup → Sup → Prop :=
| ss_refl s : sup_steps s s
| ss_step renv op s s1 s2 : exec renv op s = (false, s1) → sup_steps s1 s2 → sup_steps s s2.

Lemma steps_track s s' : sup_steps s s' → tracks s s'.
Proof.
  induction 1 as [s|renv op s s1 s2 E _ IH]; [by apply grows_tracks|]. by eapply tracks_trans; [eapply exec_tracks|].
Qed.

Lemma steps_reachable s s' : reachable s → sup_steps s s' → reachable s'.
Proof. intros Hr Hs. revert Hr. induction Hs as [|renv op s s1 s2 E _ IH]; [done|]. intros Hr. by eapply IH, Supervisor.sr_step. Qed.

(** ** The session *)

(** The snapshot is the map it lists. *)
Lemma snapshot_peers m : map_Forall (λ id p, dp_machine_id p = id) m → peer_update (UpPeerSnapshot (map_to_list m).*2) ∅ = m.
Proof.
  intros Hk. cbn [peer_update].
  assert (((λ p, (dp_machine_id p, p)) <$> (map_to_list m).*2) = map_to_list m) as Hl.
  { rewrite <-list_fmap_compose. rewrite <-(list_fmap_id (map_to_list m)) at 2. apply list_fmap_ext. intros i [id p] Hi%list_elem_of_lookup_2.
    apply elem_of_map_to_list in Hi. cbn. by rewrite (Hk _ _ Hi). }
  assert (∀ (ps : list DiscoveredPeer) (m0 : gmap string DiscoveredPeer), NoDup (dp_machine_id <$> ps) →
    fold_left (λ m p, <[dp_machine_id p := p]> m) ps m0 = list_to_map ((λ p, (dp_machine_id p, p)) <$> ps) ∪ m0) as Hgo.
  { induction ps as [|p ps IH]; intros m0; cbn; [by rewrite map_empty_union|]. intros [Hp Hps]%NoDup_cons.
    rewrite IH by done. rewrite <-insert_union_r; [by rewrite insert_union_l|].
    apply not_elem_of_list_to_map_1. by rewrite <-list_fmap_compose. }
  rewrite Hgo, map_union_empty, Hl; [apply list_to_map_to_list|].
  replace (dp_machine_id <$> (map_to_list m).*2) with (map_to_list m).*1; [apply NoDup_fst_map_to_list|].
  rewrite <-Hl at 1. by rewrite <-!list_fmap_compose.
Qed.

Lemma stream_updates_ok msgs : forallb (λ u, announces u || keeps_peers u) (stream_updates msgs) = true.
Proof.
  apply forallb_forall. intros u Hu. unfold stream_updates in Hu. apply list_elem_of_In, list_elem_of_omap in Hu as ([m r] & _ & Hu).
  destruct m as [| |e]; try done. destruct e; cbn in Hu; try (by injection Hu as <-). destruct r; [by injection Hu as <-|done].
Qed.

Definition asks_peers (r : Request) : bool := match r with RqListPeers => true | _ => false end.

Lemma expected_update req r :
  asks_peers req = false → forallb keeps_peers (if expected_kind req r then option_list (response_update r) else []) = true.
Proof. intros Hr. destruct req; try done; by destruct r. Qed.

Section session.
Context (show_error : ClientError → string) (show_response : Response → string).

Lemma bootstrap_replay reqs ask us ps m :
  ask RqListPeers = Ok (RsPeers ps) → bootstrap show_error reqs ask = (us, Ok tt) →
  replay us m = if existsb asks_peers reqs then peer_update (UpPeerSnapshot ps) ∅ else m.
Proof.
  intros Hask. revert us m; induction reqs as [|req reqs IH]; intros us m; cbn [bootstrap existsb]; [by intros [= <-]|].
  destruct (ask req) as [r|] eqn:Er; [|done].
  destruct (bootstrap show_error reqs ask) as [us' res]. intros [= <- ->]. rewrite replay_app, (IH us' _ eq_refl).
  destruct (asks_peers req) eqn:Ea; cbn [orb].
  - destruct req; try done. rewrite Hask in Er. injection Er as <-. by destruct (existsb _ _).
  - by rewrite replay_keep by by apply expected_update.
Qed.

(** A window watches the daemon: it subscribed in [s0], was answered the peers of
    [s1], and has drained the bootstrap and the events sent until [s2]. *)
Record watches (s0 s1 s2 : Sup) (sn : Session) (ops : list UiOp) : Prop := {
  wt_reachable : reachable s0;
  wt_before : sup_steps s0 s1;
  wt_after : sup_steps s1 s2;
  wt_asked : sn_ask sn RqListPeers = Ok (RsPeers (visible s1));
  wt_sent : ∃ sent, sv_out s2 = sv_out s0 ++ sent ∧ List.filter announces (stream_updates (sn_messages sn)) = heard sent;
  wt_drained : ∃ boot, setup show_error show_response sn = (boot, Ok tt) ∧
    ops ≫= updates_of = boot ++ [UpConnected] ++ stream_updates (sn_messages sn)
}.

Lemma watches_peers s0 s1 s2 sn ops a : watches s0 s1 s2 sn ops → ga_discovered_peers (ui_run ops a) ≡ sv_peers s2.
Proof.
  intros [Hr H01 H12 Hask (sent & Hsent & Hmsgs) (boot & Hsetup & Hops)].
  assert (map_Forall (λ id p, dp_machine_id p = id) (sv_peers s1)) as Hk.
  { eapply si_keyed, (reachable_inv our_id our_fingerprint config_path versions_path show_config_error show_trust_error).
    by eapply steps_reachable. }
  destruct (steps_track _ _ H01) as (l01 & E1 & R1). destruct (steps_track _ _ H12) as (l12 & E2 & R2).
  assert (sent = l01 ++ l12) as -> by (rewrite E2, E1, <-app_assoc in Hsent; by apply app_inv_head in Hsent).
  assert (bootstrap show_error bootstrap_requests (sn_ask sn) = (boot, Ok tt)) as Hboot.
  { unfold setup in Hsetup. destruct (sn_subscribe sn) as [[]|]; try done. destruct (sn_snapshot sn); [|done].
    destruct (bootstrap _ _ _) as [us [[]|e]]; [|done]. by injection Hsetup as ->. }
  rewrite ui_run_peers, Hops, replay_app.
  rewrite (bootstrap_replay _ _ _ _ _ Hask Hboot). cbn [bootstrap_requests existsb asks_peers orb]. unfold visible. rewrite (snapshot_peers _ Hk).
  change (replay ([UpConnected] ++ ?x) ?y) with (replay x y).
  rewrite (replay_announces _ _ (stream_updates_ok _)), Hmsgs, heard_app, replay_app.
  (* the replayed prefix is already in the snapshot *)
  assert (replay (heard l01) (sv_peers s1) ≡ sv_peers s1) as Hidem
    by (rewrite <-R1 at 1; rewrite replay_idem by apply heard_announces; exact R1).
  by rewrite Hidem.
Qed.
(** C18: The window mirrors the daemon.  Let a connection subscribe while the daemon is
    in [s0] and be answered the peers of a later [s1], and let the daemon go on to
    [s2], through any requests, syncs, merges, audio and discovery events.  Once
    the window has drained the bootstrap and the events sent since [s0], over any
    frames and amid any clicks, it shows the peers the daemon sees in [s2], field by
    field but for the protocol version: no discovery is lost between subscription
    and snapshot, and replaying those the snapshot already shows does no harm. *)
Theorem gui_mirrors_peers s0 s1 s2 sent sn boot ops a :
  reachable s0 → sup_steps s0 s1 → sup_steps s1 s2 → sv_out s2 = sv_out s0 ++ sent →
  setup show_error show_response sn = (boot, Ok tt) → sn_ask sn RqListPeers = Ok (RsPeers (visible s1)) →
  List.filter announces (stream_updates (sn_messages sn)) = heard sent →
  ops ≫= updates_of = boot ++ [UpConnected] ++ stream_updates (sn_messages sn) →
  ga_discovered_peers (ui_run ops a) ≡ sv_peers s2.
Proof.
  intros Hr H01 H12 Hsent Hsetup Hask Hmsgs Hops. apply (watches_peers s0 s1 s2 sn).
  split; [done..|by exists sent|by exists boot].
Qed.
End session.
End daemon.

(** ** A concrete session *)

Section witnesses.
#[local] Existing Instances toy_json_shared toy_sha toy_hex toy_toml toy_json_sidecar toy_json_trust.

Local Notation exec0 :=
  (sup_exec "a" "ff" wit_config_path wit_versions_path (λ _, "bad config"%string) (λ _, "bad trust"%string)).

Definition wit_turn (ev : DiscoveryEvent) (s : Sup) : Sup := (exec0 wit_renv (SoDiscovery ev) s).2.
Definition wit_seen : Sup := wit_turn (Found (wit_discovered "b")) wit_boot.
Definition wit_moved : Sup := wit_turn (Found (wit_discovered "c")) (wit_turn (Lost "b") wit_seen).

Definition wit_session : Session :=
  {| sn_subscribe := Ok RsOk; sn_snapshot := Ok tt;
     sn_ask := λ r, match r with RqListPeers => Ok (RsPeers (visible wit_seen)) | _ => Ok RsOk end;
     sn_blocking := Ok tt;
     sn_messages := [(MsgEvent (EvPeerDiscovered (wit_discovered "b")), None); (MsgEvent EvAudioDevicesChanged, None);
                     (MsgEvent (EvPeerLost "b"), None); (MsgEvent (EvPeerDiscovered (wit_discovered "c")), None)];
     sn_end := "closed"; sn_lasted := 5000 |}.

Definition wit_frames : list UiOp :=
  [UiStart; UiFrame 0 [UpPeerSnapshot (visible wit_seen); UpConnected; UpPeerDiscovered (wit_discovered "b")] false false [];
   UiAddScreen "extra"; UiFrame 16 [UpAudioDevicesChanged; UpPeerLost "b"; UpPeerDiscovered (wit_discovered "c")] false false []].

Lemma wit_turns : sup_steps "a" "ff" wit_config_path wit_versions_path (λ _, "bad config"%string) (λ _, "bad trust"%string) wit_boot wit_seen ∧
  sup_steps "a" "ff" wit_config_path wit_versions_path (λ _, "bad config"%string) (λ _, "bad trust"%string) wit_seen wit_moved.
Proof.
  split.
  - by eapply (ss_step _ _ _ _ _ _ wit_renv (SoDiscovery (Found (wit_discovered "b")))), ss_refl.
  - eapply (ss_step _ _ _ _ _ _ wit_renv (SoDiscovery (Lost "b"))); [reflexivity|].
    by eapply (ss_step _ _ _ _ _ _ wit_renv (SoDiscovery (Found (wit_discovered "c")))), ss_refl.
Qed.

Example gui_mirrors_peers_witness :
  ga_discovered_peers (ui_run wit_frames (app_new false [] true)) ≡ sv_peers wit_moved ∧
  (map_to_list (sv_peers wit_moved)).*1 = ["c"%string].
Proof.
  split; [|vm_compute; reflexivity].
  apply (gui_mirrors_peers "a" "ff" wit_config_path wit_versions_path (λ _, "bad config"%string) (λ _, "bad trust"%string)
    wit_show_error wit_show_response wit_boot wit_seen wit_moved (drop (length (sv_out wit_boot)) (sv_out wit_moved)) wit_session
    [UpPeerSnapshot (visible wit_seen)]).
  - apply wit_boot_reachable.
  - apply wit_turns.
  - apply wit_turns.
  - vm_compute. reflexivity.
  - reflexivity.
  - reflexivity.
  - vm_compute. reflexivity.
  - reflexivity.
Defined.
End witnesses.
