(* ===== verification/LayoutEditor.v ===== *)
(** * The layout canvas ([crates/synbad-gui/src/layout_editor.rs])

    One frame of the drag-and-drop editor: hovering, dragging, deleting, and the
    links derived from adjacent edges.  Coordinates are [f32]; points and
    rectangles belong to another package.  A frame that panics is [None]. *)

From Stdlib Require Import ZArith Lia SpecFloat.
From S2P Require Import Prelude Config Float32.

(** Points, vectors and rectangles ([emath]). *)
Class EmathOps := {
  Pos2 : Type;
  Vec2 : Type;
  Rect : Type;
  pos_x : Pos2 → spec_float;
  pos_y : Pos2 → spec_float;
  vec_x : Vec2 → spec_float;
  vec_y : Vec2 → spec_float;
  vec_new : spec_float → spec_float → Vec2;
  to_vec2 : Pos2 → Vec2;
  vec_add : Vec2 → Vec2 → Vec2;
  pos_add : Pos2 → Vec2 → Pos2;
  pos_sub : Pos2 → Vec2 → Pos2;
  pos_diff : Pos2 → Pos2 → Vec2;
  from_min_size : Pos2 → Vec2 → Rect;
  rect_min : Rect → Pos2;
  rect_left : Rect → spec_float;
  rect_right : Rect → spec_float;
  rect_top : Rect → spec_float;
  rect_bottom : Rect → spec_float;
  rect_contains : Rect → Pos2 → bool
}.

(** What [emath] documents of them: componentwise, and a rectangle from its corner and
    its size. *)
Class EmathLaws (E : EmathOps) : Prop := {
  vec_new_x a b : vec_x (vec_new a b) = a;
  vec_new_y a b : vec_y (vec_new a b) = b;
  to_vec2_x q : vec_x (to_vec2 q) = pos_x q;
  to_vec2_y q : vec_y (to_vec2 q) = pos_y q;
  pos_add_x q v : pos_x (pos_add q v) = f32_add (pos_x q) (vec_x v);
  pos_add_y q v : pos_y (pos_add q v) = f32_add (pos_y q) (vec_y v);
  pos_sub_x q v : pos_x (pos_sub q v) = f32_sub (pos_x q) (vec_x v);
  pos_sub_y q v : pos_y (pos_sub q v) = f32_sub (pos_y q) (vec_y v);
  pos_diff_x q r : vec_x (pos_diff q r) = f32_sub (pos_x q) (pos_x r);
  pos_diff_y q r : vec_y (pos_diff q r) = f32_sub (pos_y q) (pos_y r);
  min_size_min q v : rect_min (from_min_size q v) = q;
  min_size_left q v : rect_left (from_min_size q v) = pos_x q;
  min_size_top q v : rect_top (from_min_size q v) = pos_y q;
  min_size_right q v : rect_right (from_min_size q v) = f32_add (pos_x q) (vec_x v);
  min_size_bottom q v : rect_bottom (from_min_size q v) = f32_add (pos_y q) (vec_y v);
  rect_contains_edges r q : rect_contains r q =
    SFleb (rect_left r) (pos_x q) && SFleb (pos_x q) (rect_right r) && SFleb (rect_top r) (pos_y q) && SFleb (pos_y q) (rect_bottom r)
}.

Definition SNAP_PX : spec_float := f32_of_Z 14.
Definition GRID : spec_float := f32_of_Z 20.
Definition MONITOR_SCALE : spec_float := f32_of_Z 12.

Definition snap (v step : spec_float) : spec_float := f32_mul (f32_round (f32_div v step)) step.

Definition range_overlap (a0 a1 b0 b1 : spec_float) : spec_float :=
  f32_max (f32_sub (f32_min a1 b1) (f32_max a0 b0)) f32_zero.

Definition as_i32 : spec_float → Z := f32_as_int i32_MIN i32_MAX.

(** The last index at which [p] holds. *)
Fixpoint last_index {A} (p : A → bool) (l : list A) : option nat :=
  match l with
  | [] => None
  | x :: l' => match last_index p l' with Some i => Some (S i) | None => if p x then Some 0 else None end
  end.

Section editor.
Context `{EmathOps}.

Definition display_size (s : Screen) : Vec2 :=
  match monitor_bbox s with
  | Some (w, h) => vec_new (f32_div (f32_of_Z w) MONITOR_SCALE) (f32_div (f32_of_Z h) MONITOR_SCALE)
  | None => vec_new (f32_of_Z (gp_w (scr_position s))) (f32_of_Z (gp_h (scr_position s)))
  end.

Definition screen_rect (origin : Pos2) (s : Screen) : Rect :=
  from_min_size (pos_add origin (vec_new (f32_of_Z (gp_x (scr_position s))) (f32_of_Z (gp_y (scr_position s))))) (display_size s).

(** ** Links from adjacency *)

(** The edge of [a] that meets [b], if any: its right one, else its bottom one. *)
Definition shared_edge (a b : Rect) : option Side :=
  if SFltb (f32_abs (f32_sub (rect_right a) (rect_left b))) SNAP_PX
     && SFltb f32_zero (range_overlap (rect_top a) (rect_bottom a) (rect_top b) (rect_bottom b)) then Some Right
  else if SFltb (f32_abs (f32_sub (rect_bottom a) (rect_top b))) SNAP_PX
     && SFltb f32_zero (range_overlap (rect_left a) (rect_right a) (rect_left b) (rect_right b)) then Some Down
  else None.

(** The link of the pair [(i, j)].  There are at least as many rectangles as
    screens, so that no index is out of range. *)
Definition pair_link (screens : list Screen) (rects : list Rect) (i j : nat) : option Link :=
  if decide (i = j) then None else
  si ← screens !! i; sj ← screens !! j; a ← rects !! i; b ← rects !! j;
  side ← shared_edge a b;
  Some {| lnk_from := scr_name si; lnk_side := side; lnk_to := scr_name sj |}.

Definition derive_links (screens : list Screen) (rects : list Rect) : list Link :=
  let n := length screens in
  flat_map (λ i, omap (pair_link screens rects i) (seq 0 n)) (seq 0 n).

(** ** One frame *)

Record DragState := { ds_idx : nat; ds_offset : Vec2 }.
Record LayoutEditor := { le_pan : Vec2; le_dragging : option DragState; le_pending_delete : option nat }.
#[export] Instance LayoutEditor_eta : Eta LayoutEditor := λ r,
  {| le_pan := le_pan r; le_dragging := le_dragging r; le_pending_delete := le_pending_delete r |}.

(** What the pointer did: where it is and where it was pressed, a middle-button
    drag, the start and stop of a primary one, and a click on the menu's "Delete". *)
Record Pointer := {
  pt_hover : option Pos2;
  pt_press_origin : option Pos2;
  pt_middle_drag : option Vec2;
  pt_drag_started : bool;
  pt_drag_stopped : bool;
  pt_delete_clicked : bool
}.

Definition default_editor : LayoutEditor :=
  {| le_pan := vec_new f32_zero f32_zero; le_dragging := None; le_pending_delete := None |}.

Definition reset_view (ed : LayoutEditor) : LayoutEditor := ed <| le_pan := vec_new f32_zero f32_zero |>.
Definition is_dragging (ed : LayoutEditor) : bool := bool_decide (is_Some (le_dragging ed)).

Definition hovered_idx (rects : list Rect) (p : Pointer) : option nat :=
  pos ← pt_hover p; last_index (λ r, rect_contains r pos) rects.

Definition begin_drag (rects : list Rect) (p : Pointer) (ed : LayoutEditor) : LayoutEditor :=
  if pt_drag_started p then
    match hovered_idx rects p, pt_press_origin p with
    | Some idx, Some q =>
      match rects !! idx with
      | Some r => ed <| le_dragging := Some {| ds_idx := idx; ds_offset := pos_diff q (rect_min r) |} |>
      | None => ed
      end
    | _, _ => ed
    end
  else ed.

(** The dragged screen follows the pointer; its index is not checked. *)
Definition drag_screen (origin : Pos2) (p : Pointer) (ed : LayoutEditor) (c : Config) : option (bool * Config) :=
  match le_dragging ed, pt_hover p with
  | Some drag, Some pos =>
    let new_min := pos_sub (pos_sub pos (ds_offset drag)) (to_vec2 origin) in
    let x := as_i32 (snap (pos_x new_min) GRID) in
    let y := as_i32 (snap (pos_y new_min) GRID) in
    match cfg_screens c !! ds_idx drag with
    | None => None
    | Some s =>
      if bool_decide (x ≠ gp_x (scr_position s)) || bool_decide (y ≠ gp_y (scr_position s)) then
        let s' := s <| scr_position := scr_position s <| gp_x := x |> <| gp_y := y |> |> in
        Some (true, set_cfg_screens (<[ds_idx drag := s']> (cfg_screens c)) c)
      else Some (false, c)
    end
  | _, _ => Some (false, c)
  end.

(** [config.screens.remove(idx)] and what names the screen. *)
Definition delete_screen (idx : nat) (c : Config) : option Config :=
  match cfg_screens c !! idx with
  | None => None
  | Some s =>
    let removed := scr_name s in
    let screens := delete idx (cfg_screens c) in
    let links := List.filter (λ l, negb (bool_decide (lnk_from l = removed)) && negb (bool_decide (lnk_to l = removed))) (cfg_links c) in
    let c := set_cfg_links links (set_cfg_screens screens c) in
    Some (if decide (cfg_server_name c = removed)
          then c <| cfg_server_name := match screens with s0 :: _ => scr_name s0 | [] => "" end |> else c)
  end.

Definition show (center : Pos2) (p : Pointer) (ed : LayoutEditor) (c : Config) : option (bool * LayoutEditor * Config) :=
  let origin := pos_add center (le_pan ed) in
  let ed := match pt_middle_drag p with Some d => ed <| le_pan := vec_add (le_pan ed) d |> | None => ed end in
  let rects := map (screen_rect origin) (cfg_screens c) in
  let hovered := hovered_idx rects p in
  let ed := begin_drag rects p ed in
  match drag_screen origin p ed c with
  | None => None
  | Some (dirty, c) =>
    let stopped := pt_drag_stopped p && is_dragging ed in
    let ed := if pt_drag_stopped p then ed <| le_dragging := None |> else ed in
    let rects := if stopped then map (screen_rect origin) (cfg_screens c) else rects in
    let dirty := dirty || stopped in
    let ed := match hovered with
              | Some idx => if pt_delete_clicked p then ed <| le_pending_delete := Some idx |> else ed
              | None => ed
              end in
    let deleted := match le_pending_delete ed with
                   | Some idx => (λ c, (true, c)) <$> delete_screen idx c
                   | None => Some (dirty, c)
                   end in
    let ed := ed <| le_pending_delete := None |> in
    match deleted with
    | None => None
    | Some (dirty, c) =>
      let new_links := derive_links (cfg_screens c) rects in
      let '(dirty, c) := if decide (new_links ≠ cfg_links c) then (true, set_cfg_links new_links c) else (dirty, c) in
      (* drawing: [config.screens[i]] for every rectangle [i] *)
      if decide (length (cfg_screens c) < length rects) then None else Some (dirty, ed, c)
    end
  end.

(** ** What a frame promises, in numbers

    The canvas without [emath]: where a screen is drawn, which of its edges meets
    another's, and where a drag puts it. *)

Record Box := { bx_left : spec_float; bx_top : spec_float; bx_right : spec_float; bx_bottom : spec_float }.

(** A screen at canvas offset [(ox, oy)]: a twelfth of its monitors' bounding box, or the
    size of its cell while it has none. *)
Definition drawn_box (ox oy : spec_float) (s : Screen) : Box :=
  let x := f32_add ox (f32_of_Z (gp_x (scr_position s))) in
  let y := f32_add oy (f32_of_Z (gp_y (scr_position s))) in
  let '(w, h) := match monitor_bbox s with
                 | Some (w, h) => (f32_div (f32_of_Z w) (f32_of_Z 12), f32_div (f32_of_Z h) (f32_of_Z 12))
                 | None => (f32_of_Z (gp_w (scr_position s)), f32_of_Z (gp_h (scr_position s)))
                 end in
  {| bx_left := x; bx_top := y; bx_right := f32_add x w; bx_bottom := f32_add y h |}.

(** The point is on the box, edges included. *)
Definition under (q : Pos2) (b : Box) : bool :=
  SFleb (bx_left b) (pos_x q) && SFleb (pos_x q) (bx_right b) && SFleb (bx_top b) (pos_y q) && SFleb (pos_y q) (bx_bottom b).

(** Two edges less than 14 pixels apart, and two ranges with a common stretch. *)
Definition near (a b : spec_float) : Prop := SFltb (f32_abs (f32_sub a b)) (f32_of_Z 14) = true.
Definition overlaps (a0 a1 b0 b1 : spec_float) : Prop := SFltb f32_zero (f32_sub (f32_min a1 b1) (f32_max a0 b0)) = true.

Definition meets_right (a b : Box) : Prop := near (bx_right a) (bx_left b) ∧ overlaps (bx_top a) (bx_bottom a) (bx_top b) (bx_bottom b).
Definition meets_below (a b : Box) : Prop := near (bx_bottom a) (bx_top b) ∧ overlaps (bx_left a) (bx_right a) (bx_left b) (bx_right b).

(** The side of [a] on which [b] is; a right neighbour is not a lower one too. *)
Definition meets (side : Side) (a b : Box) : Prop :=
  match side with
  | Right => meets_right a b
  | Down => meets_below a b ∧ ¬ meets_right a b
  | Left | Up => False
  end.

(** The grid line nearest to [v]. *)
Definition grid_line (v : spec_float) : Z := as_i32 (f32_mul (f32_round (f32_div v (f32_of_Z 20))) (f32_of_Z 20)).

(** Only where the screen is changes. *)
Definition placed (x y : Z) (s : Screen) : Screen :=
  {| scr_name := scr_name s; scr_aliases := scr_aliases s; scr_monitors := scr_monitors s;
     scr_position := {| gp_x := x; gp_y := y; gp_w := gp_w (scr_position s); gp_h := gp_h (scr_position s) |} |}.

(** The dragged screen, if any, put under the pointer where it was grabbed. *)
Definition dragged (ox oy : spec_float) (drag : option DragState) (hover : option Pos2) (screens : list Screen) : list Screen :=
  match drag, hover with
  | Some d, Some q =>
    alter (placed (grid_line (f32_sub (f32_sub (pos_x q) (vec_x (ds_offset d))) ox))
                  (grid_line (f32_sub (f32_sub (pos_y q) (vec_y (ds_offset d))) oy))) (ds_idx d) screens
  | _, _ => screens
  end.

(** ** Links are exactly the adjacent pairs *)

Lemma pair_link_spec screens rects i j l :
  pair_link screens rects i j = Some l ↔
  i ≠ j ∧ ∃ si sj a b side, screens !! i = Some si ∧ screens !! j = Some sj ∧ rects !! i = Some a ∧ rects !! j = Some b ∧
    shared_edge a b = Some side ∧ l = {| lnk_from := scr_name si; lnk_side := side; lnk_to := scr_name sj |}.
Proof.
  unfold pair_link. case_decide as Hij; [split; [done|by intros [? _]]|]. rewrite !bind_Some. split.
  - intros (si & Hi & (sj & Hj & (a & Ha & (b & Hb & (side & Hs & [= <-])%bind_Some)%bind_Some)%bind_Some)%bind_Some). by eauto 15.
  - intros (_ & si & sj & a & b & side & Hi & Hj & Ha & Hb & Hs & ->). exists si. rewrite Hi, Hj. cbn. by rewrite Ha, Hb; cbn; rewrite Hs.
Qed.

Lemma elem_of_derive_links screens rects l :
  l ∈ derive_links screens rects ↔ ∃ i j, pair_link screens rects i j = Some l.
Proof.
  unfold derive_links. rewrite list_elem_of_In, in_flat_map. split.
  - intros (i & _ & (j & _ & Hl)%list_elem_of_In%list_elem_of_omap). by eauto.
  - intros (i & j & Hl). pose proof Hl as (_ & si & sj & _ & _ & _ & Hi & Hj & _)%pair_link_spec.
    exists i. split; [apply in_seq; apply lookup_lt_Some in Hi; lia|].
    apply list_elem_of_In, list_elem_of_omap. exists j. split; [|done]. apply elem_of_seq. apply lookup_lt_Some in Hj. lia.
Qed.

(** Distinctly named screens: derived links name screens, and never loop. *)
Lemma derived_links_valid screens rects l :
  NoDup (map scr_name screens) → l ∈ derive_links screens rects →
  lnk_from l ∈ map scr_name screens ∧ lnk_to l ∈ map scr_name screens ∧ lnk_from l ≠ lnk_to l.
Proof.
  intros Hn (i & j & Hl)%elem_of_derive_links. apply pair_link_spec in Hl as (Hij & si & sj & a & b & side & Hi & Hj & _ & _ & _ & ->).
  cbn. assert (map scr_name screens !! i = Some (scr_name si)) as Ei by (by rewrite list_lookup_fmap, ?Hi, ?Hj).
  assert (map scr_name screens !! j = Some (scr_name sj)) as Ej by (by rewrite list_lookup_fmap, ?Hi, ?Hj).
  split_and!; [by eapply list_elem_of_lookup_2|by eapply list_elem_of_lookup_2|].
  intros Heq. apply Hij. eapply NoDup_lookup; [done|exact Ei|by rewrite Heq].
Qed.

Lemma NoDup_omap_inj {A B} (f : A → option B) (l : list A) :
  (∀ x y b, f x = Some b → f y = Some b → x = y) → NoDup l → NoDup (omap f l).
Proof.
  intros Hinj. induction 1 as [|x l Hx Hl IH]; [constructor|]. cbn. destruct (f x) as [b|] eqn:E; [|done].
  constructor; [|done]. intros (y & Hy & Hb)%list_elem_of_omap. by rewrite (Hinj x y b E Hb) in Hx.
Qed.

(** Distinctly named screens: no pair is linked twice. *)
Lemma derived_links_once screens rects : NoDup (map scr_name screens) → NoDup (derive_links screens rects).
Proof.
  intros Hn. assert (∀ i j i' j' l, pair_link screens rects i j = Some l → pair_link screens rects i' j' = Some l → i = i' ∧ j = j') as Hinj.
  { assert (∀ i i' s s', screens !! i = Some s → screens !! i' = Some s' → scr_name s = scr_name s' → i = i') as Hname.
    { intros i i' s s' Hi Hi' Hs. apply (NoDup_lookup (scr_name <$> screens) i i' (scr_name s)); [done|..]; rewrite list_lookup_fmap; [by rewrite Hi|by rewrite Hi', Hs]. }
    intros i j i' j' l (_ & si & sj & a & b & side & Hi & Hj & _ & _ & _ & ->)%pair_link_spec
      (_ & si' & sj' & a' & b' & side' & Hi' & Hj' & _ & _ & _ & [= Hf _ Ht])%pair_link_spec.
    split; by eapply Hname. }
  unfold derive_links. change (flat_map ?f ?l) with (l ≫= f). apply NoDup_bind.
  - intros i i' l _ _ (j & _ & Hj)%list_elem_of_omap (j' & _ & Hj')%list_elem_of_omap. by apply (Hinj i j i' j' l).
  - intros i _. apply NoDup_omap_inj; [|apply NoDup_seq]. intros j j' l Hj Hj'. by apply (Hinj i j i j' l).
  - apply NoDup_seq.
Qed.

(** ** Edges, in numbers *)

Lemma positive_max (x : spec_float) : SFltb f32_zero (f32_max x f32_zero) = SFltb f32_zero x.
Proof. unfold f32_max. destruct x as [[]|[]| |[] ? ?]; reflexivity. Qed.

Lemma drawn_edges `{!EmathLaws _} origin s :
  let r := screen_rect origin s in
  drawn_box (pos_x origin) (pos_y origin) s =
    {| bx_left := rect_left r; bx_top := rect_top r; bx_right := rect_right r; bx_bottom := rect_bottom r |}.
Proof.
  cbv zeta. unfold screen_rect, drawn_box, display_size. rewrite min_size_left, min_size_top, min_size_right, min_size_bottom, pos_add_x, pos_add_y, vec_new_x, vec_new_y.
  destruct (monitor_bbox s) as [[w h]|]; by rewrite vec_new_x, vec_new_y.
Qed.

Lemma shared_edge_meets `{!EmathLaws _} origin si sj side :
  shared_edge (screen_rect origin si) (screen_rect origin sj) = Some side ↔
  meets side (drawn_box (pos_x origin) (pos_y origin) si) (drawn_box (pos_x origin) (pos_y origin) sj).
Proof.
  rewrite !drawn_edges. set (a := screen_rect origin si). set (b := screen_rect origin sj).
  unfold shared_edge, range_overlap. rewrite !positive_max. change SNAP_PX with (f32_of_Z 14).
  unfold meets, meets_right, meets_below, near, overlaps. cbn [bx_left bx_top bx_right bx_bottom].
  destruct (SFltb (f32_abs (f32_sub (rect_right a) (rect_left b))) _), (SFltb f32_zero (f32_sub (f32_min (rect_bottom a) (rect_bottom b)) _)),
    (SFltb (f32_abs (f32_sub (rect_bottom a) (rect_top b))) _), (SFltb f32_zero (f32_sub (f32_min (rect_right a) (rect_right b)) _));
    destruct side; cbn; intuition congruence.
Qed.

(** The links of screens [ss] of which [shown] is drawn. *)
Lemma drawn_links `{!EmathLaws _} origin (ss shown : list Screen) l :
  let box := drawn_box (pos_x origin) (pos_y origin) in
  l ∈ derive_links ss (map (screen_rect origin) shown) ↔ ∃ i j si sj bi bj side, i ≠ j ∧
    ss !! i = Some si ∧ ss !! j = Some sj ∧ box <$> shown !! i = Some bi ∧ box <$> shown !! j = Some bj ∧
    meets side bi bj ∧ l = {| lnk_from := scr_name si; lnk_side := side; lnk_to := scr_name sj |}.
Proof.
  cbv zeta. rewrite elem_of_derive_links. setoid_rewrite pair_link_spec. change (map (screen_rect ?o) shown) with (screen_rect o <$> shown).
  setoid_rewrite list_lookup_fmap. setoid_rewrite fmap_Some. split.
  - intros (i & j & Hij & si & sj & a & b & side & Hi & Hj & (ti & Hti & ->) & (tj & Htj & ->) & Hs%shared_edge_meets & ->). by eauto 20.
  - intros (i & j & si & sj & bi & bj & side & Hij & Hi & Hj & (ti & Hti & ->) & (tj & Htj & ->) & Hs%shared_edge_meets & ->).
    exists i, j. split; [done|]. exists si, sj, (screen_rect origin ti), (screen_rect origin tj), side. by eauto 10.
Qed.

(** ** Frames *)

Lemma last_index_lt {A} (p : A → bool) l i : last_index p l = Some i → i < length l.
Proof. revert i; induction l as [|x l IH]; intros i; [done|]. cbn. destruct (last_index p l); [intros [= <-]; specialize (IH _ eq_refl); lia|]. destruct (p x); [intros [= <-]; lia|done]. Qed.

Lemma hovered_idx_lt rects p i : hovered_idx rects p = Some i → i < length rects.
Proof. unfold hovered_idx. rewrite bind_Some. intros (pos & _ & Hi). by eapply last_index_lt. Qed.

Lemma alter_screens_id (f : Screen → Screen) i (ss : list Screen) s : ss !! i = Some s → f s = s → alter f i ss = ss.
Proof. intros Hi Hf. apply list_eq. intros j. rewrite list_lookup_alter. case_decide as E; [|done]. rewrite <-E, Hi. cbn. by rewrite Hf. Qed.

(** The screens after the drag of the frame. *)
Definition drag_to (origin : Pos2) (drag : option DragState) (hover : option Pos2) (screens : list Screen) : list Screen :=
  match drag, hover with
  | Some d, Some q =>
    let m := pos_sub (pos_sub q (ds_offset d)) (to_vec2 origin) in
    alter (placed (grid_line (pos_x m)) (grid_line (pos_y m))) (ds_idx d) screens
  | _, _ => screens
  end.

Lemma drag_to_dragged `{!EmathLaws _} origin drag hover ss :
  drag_to origin drag hover ss = dragged (pos_x origin) (pos_y origin) drag hover ss.
Proof.
  unfold drag_to, dragged. destruct drag, hover; try done. cbv zeta. by rewrite !pos_sub_x, !pos_sub_y, to_vec2_x, to_vec2_y.
Qed.

Lemma drag_to_names origin drag hover ss : map scr_name (drag_to origin drag hover ss) = map scr_name ss.
Proof.
  unfold drag_to. destruct drag, hover; try done. cbv zeta. change (map scr_name ?l) with (scr_name <$> l).
  apply list_eq. intros i. rewrite !list_lookup_fmap, list_lookup_alter. case_decide as Hi; [rewrite <-Hi|done]. by destruct (ss !! ds_idx d).
Qed.

Lemma drag_screen_spec origin p ed c :
  match drag_screen origin p ed c with
  | None => ∃ drag, le_dragging ed = Some drag ∧ is_Some (pt_hover p) ∧ cfg_screens c !! ds_idx drag = None
  | Some (dirty, c') =>
    ¬ (∃ drag, le_dragging ed = Some drag ∧ is_Some (pt_hover p) ∧ cfg_screens c !! ds_idx drag = None) ∧
    (dirty = false → c' = c) ∧ c' = set_cfg_screens (drag_to origin (le_dragging ed) (pt_hover p) (cfg_screens c)) c
  end.
Proof.
  assert (c = set_cfg_screens (cfg_screens c) c) as Hsame by by destruct c.
  unfold drag_screen, drag_to. destruct (le_dragging ed) as [drag|]; [|split_and!; [by intros (? & ? & _)|done|done]].
  destruct (pt_hover p) as [pos|]; [|split_and!; [by intros (? & _ & [? ?] & _)|done|done]].
  cbv zeta. destruct (cfg_screens c !! ds_idx drag) as [s|] eqn:Es; [|exists drag; by split_and!].
  assert (¬ (∃ drag0, Some drag = Some drag0 ∧ is_Some (Some pos) ∧ cfg_screens c !! ds_idx drag0 = None)) as Hno
    by (intros (? & [= <-] & _ & ?); congruence).
  set (m := pos_sub _ _). change (as_i32 (snap (pos_x m) GRID)) with (grid_line (pos_x m)). change (as_i32 (snap (pos_y m) GRID)) with (grid_line (pos_y m)).
  destruct (_ || _) eqn:Emoved; split_and!; try done.
  - f_equal. rewrite list_insert_alter. apply list_alter_ext; [|done]. intros s0 Hs0. by assert (s0 = s) as -> by congruence.
  - rewrite Hsame at 1. f_equal. symmetry. apply (alter_screens_id _ _ _ s Es).
    apply orb_false_iff in Emoved as [Hx%bool_decide_eq_false Hy%bool_decide_eq_false].
    apply dec_stable in Hx, Hy. rewrite Hx, Hy. by destruct s as [? ? [] ?].
Qed.

Lemma delete_screen_shorter idx c :
  match delete_screen idx c with
  | None => length (cfg_screens c) ≤ idx
  | Some c' => idx < length (cfg_screens c) ∧ S (length (cfg_screens c')) = length (cfg_screens c)
  end.
Proof.
  unfold delete_screen. destruct (cfg_screens c !! idx) as [s|] eqn:E; [|by apply lookup_ge_None_1].
  cbv zeta. pose proof (lookup_lt_Some _ _ _ E) as Hlt. split; [done|].
  assert (S (length (delete idx (cfg_screens c))) = length (cfg_screens c)) as Hd by (rewrite length_delete by done; lia).
  by case_decide.
Qed.

Definition frame_rects (center : Pos2) (ed : LayoutEditor) (c : Config) : list Rect :=
  map (screen_rect (pos_add center (le_pan ed))) (cfg_screens c).

(** A drag is in progress, the pointer is on the canvas, and the dragged index is
    no longer a screen. *)
Definition dangling_drag (center : Pos2) (p : Pointer) (ed : LayoutEditor) (c : Config) : Prop :=
  ∃ drag, le_dragging (begin_drag (frame_rects center ed c) p ed) = Some drag ∧ is_Some (pt_hover p) ∧
    cfg_screens c !! ds_idx drag = None.

(** The menu's "Delete" was clicked with the pointer over a screen. *)
Definition deletes (center : Pos2) (p : Pointer) (ed : LayoutEditor) (c : Config) : Prop :=
  pt_delete_clicked p = true ∧ is_Some (hovered_idx (frame_rects center ed c) p).

Lemma begin_drag_panned rects p ed :
  le_pending_delete ed = None →
  begin_drag rects p (match pt_middle_drag p with Some v => ed <| le_pan := vec_add (le_pan ed) v |> | None => ed end) =
  {| le_pan := match pt_middle_drag p with Some v => vec_add (le_pan ed) v | None => le_pan ed end;
     le_dragging := le_dragging (begin_drag rects p ed); le_pending_delete := None |}.
Proof.
  destruct ed as [pan drag del]. cbn. intros ->. unfold begin_drag. destruct (pt_middle_drag p); by repeat case_match.
Qed.

(** Links are replaced only when they changed, so that the config is the same
    either way, and an unchanged frame says so. *)
Lemma finish_frame ss rects c dirty stopped :
  (dirty = false → set_cfg_screens ss c = c) →
  ∃ d, (if decide (derive_links ss rects ≠ cfg_links (set_cfg_screens ss c))
        then (true, set_cfg_links (derive_links ss rects) (set_cfg_screens ss c))
        else (dirty || stopped, set_cfg_screens ss c)) = (d, set_cfg_links (derive_links ss rects) (set_cfg_screens ss c)) ∧
       (d = false → set_cfg_links (derive_links ss rects) (set_cfg_screens ss c) = c).
Proof.
  intros Hclean. case_decide as Hl; [by exists true|]. exists (dirty || stopped).
  assert (set_cfg_links (derive_links ss rects) (set_cfg_screens ss c) = set_cfg_screens ss c) as -> by (rewrite Hl; by destruct c).
  split; [done|]. intros [-> _]%orb_false_iff. by apply Hclean.
Qed.

(** The drag of the frame, and the rectangles its links come from: those drawn when the
    drag goes on, and those of the new positions when it ends. *)
Definition frame_drag (center : Pos2) (p : Pointer) (ed : LayoutEditor) (c : Config) : option DragState :=
  le_dragging (begin_drag (frame_rects center ed c) p ed).
Definition drag_ends (center : Pos2) (p : Pointer) (ed : LayoutEditor) (c : Config) : bool :=
  pt_drag_stopped p && bool_decide (is_Some (frame_drag center p ed c)).

(** A drag that starts grabs the topmost screen under the pointer, where it was pressed;
    otherwise the one under way goes on. *)
Definition grabs (ox oy : spec_float) (p : Pointer) (ed : LayoutEditor) (screens : list Screen) (drag : option DragState) : Prop :=
  (∀ i s pos q, pt_drag_started p = true → pt_hover p = Some pos → pt_press_origin p = Some q →
     screens !! i = Some s → under pos (drawn_box ox oy s) = true →
     (∀ j t, i < j → screens !! j = Some t → under pos (drawn_box ox oy t) = false) →
     ∃ v, drag = Some {| ds_idx := i; ds_offset := v |} ∧
       vec_x v = f32_sub (pos_x q) (bx_left (drawn_box ox oy s)) ∧ vec_y v = f32_sub (pos_y q) (bx_top (drawn_box ox oy s))) ∧
  (pt_drag_started p = false ∨ pt_hover p = None ∨ pt_press_origin p = None ∨
   (∀ i s pos, pt_hover p = Some pos → screens !! i = Some s → under pos (drawn_box ox oy s) = false) →
   drag = le_dragging ed).

Lemma last_index_none {A} (f : A → bool) l : (∀ i x, l !! i = Some x → f x = false) → last_index f l = None.
Proof.
  induction l as [|x l IH]; intros Hf; [done|]. cbn. rewrite IH by (intros i y Hi; by apply (Hf (S i))). by rewrite (Hf 0 x eq_refl).
Qed.

Lemma last_index_some {A} (f : A → bool) l i x :
  l !! i = Some x → f x = true → (∀ j y, i < j → l !! j = Some y → f y = false) → last_index f l = Some i.
Proof.
  revert i. induction l as [|x' l IH]; intros i Hi Hx Hlater; [done|]. cbn. destruct i as [|i].
  - injection Hi as ->. rewrite last_index_none; [by rewrite Hx|]. intros j y Hj. apply (Hlater (S j)); [lia|done].
  - rewrite (IH i); [done..|]. intros j y Hj Hy. apply (Hlater (S j)); [lia|done].
Qed.

Lemma contains_under `{!EmathLaws _} origin s q :
  rect_contains (screen_rect origin s) q = under q (drawn_box (pos_x origin) (pos_y origin) s).
Proof. by rewrite rect_contains_edges, drawn_edges. Qed.

Lemma frame_drag_grabs `{!EmathLaws _} center p ed c :
  let origin := pos_add center (le_pan ed) in
  grabs (pos_x origin) (pos_y origin) p ed (cfg_screens c) (frame_drag center p ed c).
Proof.
  cbv zeta. set (origin := pos_add center (le_pan ed)). unfold frame_drag, frame_rects, begin_drag, hovered_idx. fold origin.
  change (map (screen_rect origin) (cfg_screens c)) with (screen_rect origin <$> cfg_screens c). split.
  - intros i s pos q -> -> -> Hi Hu Hlater. cbn [mbind option_bind].
    rewrite (last_index_some _ _ i (screen_rect origin s)); [|by rewrite list_lookup_fmap, Hi|by rewrite contains_under|].
    + rewrite list_lookup_fmap, Hi. cbn. eexists. split; [reflexivity|]. rewrite pos_diff_x, pos_diff_y, drawn_edges. cbn.
      unfold screen_rect. by rewrite min_size_min, min_size_left, min_size_top.
    + intros j y Hj. rewrite list_lookup_fmap. intros (t & Ht & ->)%fmap_Some. rewrite contains_under. by apply (Hlater j).
  - intros Hnot. destruct (pt_drag_started p); [|done]. destruct (pt_hover p) as [pos|]; [|done]. cbn [mbind option_bind].
    destruct (pt_press_origin p) as [q|]; [|by case_match]. destruct Hnot as [?|[?|[?|Hnot]]]; [done..|].
    rewrite last_index_none; [done|]. intros i y. rewrite list_lookup_fmap. intros (t & Ht & ->)%fmap_Some. rewrite contains_under. by apply (Hnot i).
Qed.

(** What a frame does once the pointer is resolved. *)
Lemma show_cases center p ed c :
  le_pending_delete ed = None →
  (dangling_drag center p ed c ∨ deletes center p ed c) ∧ show center p ed c = None ∨
  ¬ dangling_drag center p ed c ∧ ¬ deletes center p ed c ∧
  ∃ dirty ed',
    let ss := drag_to (pos_add center (le_pan ed)) (frame_drag center p ed c) (pt_hover p) (cfg_screens c) in
    let shown := if drag_ends center p ed c then ss else cfg_screens c in
    let links := derive_links ss (map (screen_rect (pos_add center (le_pan ed))) shown) in
    ed' = {| le_pan := match pt_middle_drag p with Some v => vec_add (le_pan ed) v | None => le_pan ed end;
             le_dragging := if pt_drag_stopped p then None else frame_drag center p ed c; le_pending_delete := None |} ∧
    show center p ed c = Some (dirty, ed', set_cfg_links links (set_cfg_screens ss c)) ∧
    (dirty = false → set_cfg_links links (set_cfg_screens ss c) = c).
Proof.
  intros Hpend. unfold show, drag_ends, frame_drag. cbv zeta. fold (frame_rects center ed c). set (rects := frame_rects center ed c).
  rewrite (begin_drag_panned rects p ed Hpend). set (ed2 := {| le_pan := _; le_dragging := _; le_pending_delete := _ |}).
  pose proof (drag_screen_spec (pos_add center (le_pan ed)) p ed2 c) as Hspec.
  unfold dangling_drag. fold rects. unfold is_dragging. subst ed2. cbn [le_dragging] in Hspec.
  destruct (drag_screen _ p _ c) as [[dirty c1]|]; [|by left; split; [by left|]].
  destruct Hspec as (Hno & Hclean & ->). cbn [le_dragging]. set (ss := drag_to _ _ _ _) in *. set (stopped := pt_drag_stopped p && _).
  assert (length ss = length (cfg_screens c)) as Hl by (rewrite <-(length_map scr_name ss); subst ss; rewrite drag_to_names; apply length_map).
  cbn [cfg_screens set_cfg_screens].
  assert ((if stopped then map (screen_rect (pos_add center (le_pan ed))) ss else rects) =
    map (screen_rect (pos_add center (le_pan ed))) (if stopped then ss else cfg_screens c)) as -> by by destruct stopped.
  set (rects1 := map _ (if stopped then _ else _)).
  assert (length rects1 = length ss) as Hlen by (subst rects1; destruct stopped; by rewrite length_map).
  set (ed3 := if pt_drag_stopped p then _ else _).
  assert (ed3 = {| le_pan := match pt_middle_drag p with Some v => vec_add (le_pan ed) v | None => le_pan ed end;
             le_dragging := if pt_drag_stopped p then None else le_dragging (begin_drag rects p ed); le_pending_delete := None |}) as Hed3
    by (subst ed3; by destruct (pt_drag_stopped p)).
  clearbody ed3. subst ed3.
  unfold deletes. fold rects. destruct (hovered_idx rects p) as [idx|] eqn:Eh; [destruct (pt_delete_clicked p) eqn:Ec|].
  1: { left. split; [right; by split|]. cbn [le_pending_delete update_field].
    pose proof (delete_screen_shorter idx (set_cfg_screens ss c)) as Hdel.
    destruct (delete_screen _ _) as [c2|]; [|done]. cbn [fmap option_fmap option_map]. destruct Hdel as [_ Hdel]. cbn [cfg_screens set_cfg_screens] in Hdel.
    destruct (decide (derive_links _ _ ≠ _)); rewrite decide_True; try done; cbn [cfg_screens set_cfg_links]; lia. }
  all: right; split; [exact Hno|]; split; [by intros [? [? ?]]|].
  all: cbn [le_pending_delete cfg_screens set_cfg_screens cfg_links].
  all: destruct (finish_frame ss rects1 c dirty stopped Hclean) as (d & E & Hd').
  all: eexists d, _; split_and!; [reflexivity| |exact Hd'].
  all: revert E; cbn [cfg_links set_cfg_screens]; intros ->; cbn [cfg_screens set_cfg_links set_cfg_screens]; by rewrite decide_False by lia.
Qed.

(** C39: When a frame of the layout canvas panics.  It does so exactly when a drag is
    under way whose screen index no longer exists (a config with fewer screens
    arrived meanwhile), or when the user deletes a screen through the context menu:
    the screen is removed, but the loop that draws still runs over the rectangles
    of the screens before the removal. *)
Theorem layout_panics center p ed c :
  le_pending_delete ed = None →
  show center p ed c = None ↔ dangling_drag center p ed c ∨ deletes center p ed c.
Proof.
  intros Hp. destruct (show_cases center p ed c Hp) as [[Hor Hs]|(Hnd & Hndel & d & ed' & _ & Hs & _)];
    [by split|]. split; [congruence|tauto].
Qed.

(** C38: What a frame of the canvas does, in numbers.  When it returns, the editor has
    panned, and grabbed (the topmost screen under the pointer) or released what the pointer
    did, with no deletion left pending; the
    dragged screen sits on the grid line nearest to the pointer, less where it was grabbed, and
    every other screen, and everything else of the dragged one, is as before; the links are
    exactly one for each ordered pair of distinct screens of which the second lies, as drawn,
    at the right edge of the first, or else at its bottom edge (as drawn: at its old place
    while the drag goes on, at the new one when it ends); nothing but screens and links
    changes, and nothing at all when the frame reports no change; and with distinct screen
    names no link comes twice and a valid config stays valid. *)
Theorem layout_frame `{!EmathLaws _} center p ed c dirty ed' c' :
  le_pending_delete ed = None → show center p ed c = Some (dirty, ed', c') →
  let ox := f32_add (pos_x center) (vec_x (le_pan ed)) in
  let oy := f32_add (pos_y center) (vec_y (le_pan ed)) in
  let drag := frame_drag center p ed c in
  let shown := if drag_ends center p ed c then cfg_screens c' else cfg_screens c in
  ed' = {| le_pan := match pt_middle_drag p with Some v => vec_add (le_pan ed) v | None => le_pan ed end;
           le_dragging := if pt_drag_stopped p then None else drag; le_pending_delete := None |} ∧
  grabs ox oy p ed (cfg_screens c) drag ∧
  cfg_screens c' = dragged ox oy drag (pt_hover p) (cfg_screens c) ∧
  (∀ l, l ∈ cfg_links c' ↔ ∃ i j si sj bi bj side, i ≠ j ∧
     cfg_screens c' !! i = Some si ∧ cfg_screens c' !! j = Some sj ∧
     drawn_box ox oy <$> shown !! i = Some bi ∧ drawn_box ox oy <$> shown !! j = Some bj ∧
     meets side bi bj ∧ l = {| lnk_from := scr_name si; lnk_side := side; lnk_to := scr_name sj |}) ∧
  c' = set_cfg_links (cfg_links c') (set_cfg_screens (cfg_screens c') c) ∧
  (dirty = false → c' = c) ∧
  (NoDup (map scr_name (cfg_screens c)) → NoDup (cfg_links c') ∧ (validate c = Ok tt → validate c' = Ok tt)).
Proof.
  intros Hp E. destruct (show_cases center p ed c Hp) as [[_ Hs]|(_ & _ & d & e & He & Hs & Hclean)]; [congruence|].
  rewrite Hs in E. injection E as <- <- <-. cbv zeta. rewrite <-!pos_add_x, <-!pos_add_y. cbn [cfg_links set_cfg_links cfg_screens set_cfg_screens].
  rewrite drag_to_dragged in Hclean |- *. set (ss := dragged _ _ _ _ _). set (shown := if drag_ends _ _ _ _ then ss else _).
  assert (map scr_name ss = map scr_name (cfg_screens c)) as Hn by (subst ss; rewrite <-drag_to_dragged; apply drag_to_names).
  split_and!; [done|apply frame_drag_grabs|done| |done|done|].
  - intros l. by apply drawn_links.
  - intros Hnd. split; [apply derived_links_once; by rewrite Hn|]. rewrite !validate_ok_valid. unfold valid_config, screen_names.
    cbn [cfg_links set_cfg_links cfg_screens set_cfg_screens cfg_server_name cfg_role cfg_server_address].
    intros (Hsrv & _ & Hrole). split_and!; [by rewrite Hn| |done]. intros l Hl. apply (derived_links_valid ss _ l) in Hl; [done|by rewrite Hn].
Qed.
End editor.

(** ** A concrete canvas *)

Definition toy_emath : EmathOps :=
  {| Pos2 := spec_float * spec_float; Vec2 := spec_float * spec_float; Rect := (spec_float * spec_float) * (spec_float * spec_float);
     pos_x := fst; pos_y := snd; vec_x := fst; vec_y := snd; vec_new x y := (x, y); to_vec2 q := q;
     vec_add v w := (f32_add v.1 w.1, f32_add v.2 w.2); pos_add q v := (f32_add q.1 v.1, f32_add q.2 v.2);
     pos_sub q v := (f32_sub q.1 v.1, f32_sub q.2 v.2); pos_diff q r := (f32_sub q.1 r.1, f32_sub q.2 r.2);
     from_min_size q v := (q, (f32_add q.1 v.1, f32_add q.2 v.2)); rect_min := fst;
     rect_left r := r.1.1; rect_right r := r.2.1; rect_top r := r.1.2; rect_bottom r := r.2.2;
     rect_contains r q := SFleb r.1.1 q.1 && SFleb q.1 r.2.1 && SFleb r.1.2 q.2 && SFleb q.2 r.2.2 |}.

Lemma toy_emath_laws : EmathLaws toy_emath.
Proof. by split. Qed.

Section witnesses.
#[local] Existing Instances toy_emath toy_emath_laws.

Definition wit_point (x y : Z) : Pos2 := (f32_of_Z x, f32_of_Z y).
Definition wit_pointer (at_ : Pos2) (deleted : bool) : Pointer :=
  {| pt_hover := Some at_; pt_press_origin := None; pt_middle_drag := None; pt_drag_started := false; pt_drag_stopped := true;
     pt_delete_clicked := deleted |}.

(** The second screen of the sample, dragged to the right edge of the first. *)
Definition wit_screen_at (name : string) (x y : Z) : Screen :=
  {| scr_name := name; scr_aliases := []; scr_position := {| gp_x := x; gp_y := y; gp_w := 160; gp_h := 120 |}; scr_monitors := [] |}.
Definition wit_layout : Config :=
  set_cfg_links [] (set_cfg_screens [wit_screen_at "alpha" 0 0; wit_screen_at "beta" 400 300] sample_config).
Definition wit_drag : LayoutEditor :=
  default_editor <| le_dragging := Some {| ds_idx := 1; ds_offset := vec_new (f32_of_Z 10) (f32_of_Z 10) |} |>.

Example layout_frame_witness :
  match show (wit_point 500 500) (wit_pointer (wit_point 671 512) false) wit_drag wit_layout with
  | Some (_, _, c') => validate c' = Ok tt ∧ cfg_links c' = [{| lnk_from := "alpha"; lnk_side := Right; lnk_to := "beta" |}]
  | None => False
  end.
Proof.
  assert ((λ r, cfg_links r.2) <$> show (wit_point 500 500) (wit_pointer (wit_point 671 512) false) wit_drag wit_layout =
    Some [{| lnk_from := "alpha"; lnk_side := Right; lnk_to := "beta" |}]%string) as Hl by (vm_compute; reflexivity).
  destruct (show (wit_point 500 500) (wit_pointer (wit_point 671 512) false) wit_drag wit_layout) as [[[d ed'] c']|] eqn:E; [|discriminate].
  split.
    + apply (layout_frame (wit_point 500 500) (wit_pointer (wit_point 671 512) false) wit_drag wit_layout d ed' c' eq_refl E);
        [|vm_compute; reflexivity].
      apply (bool_decide_unpack _). vm_compute. exact I.
    + by injection Hl.
Defined.

Example layout_panics_witness :
  show (wit_point 500 500) (wit_pointer (wit_point 510 510) true) default_editor wit_layout = None.
Proof.
  apply (layout_panics (wit_point 500 500) (wit_pointer (wit_point 510 510) true) default_editor wit_layout eq_refl).
  right. split; [reflexivity|]. exists 0. vm_compute. reflexivity.
Defined.
End witnesses.
