(* ===== verification/FileOps.v ===== *)
(** * Files and paths

    The system calls of the log and the two updaters beside those of [Store],
    paths as Unix writes them, and programs over files and a progress channel. *)

From Stdlib Require Import Ascii ZArith Lia.
From S2P Require Import Prelude Config Store Conn.

(** ** System calls *)

Definition fs_exists (path : string) (fs : Fs) : bool * Fs :=
  let '(f, fs) := next_fault fs in
  (match f with Works => bool_decide (is_Some (fs_files fs !! path)) | FailsAfter _ => false end, fs).

(** Open for appending, creating the file. *)
Definition fs_open_append (path : string) (fs : Fs) : bool * Fs :=
  let '(f, fs) := next_fault fs in
  match f with
  | Works => (true, set_file path (default [] (fs_files fs !! path)) fs)
  | FailsAfter _ => (false, fs)
  end.

(** [write_all] on a file open for appending. *)
Definition fs_append (path : string) (b : bytes) (fs : Fs) : bool * Fs :=
  let '(f, fs) := next_fault fs in
  let old := default [] (fs_files fs !! path) in
  match f with
  | Works => (true, set_file path (old ++ b) fs)
  | FailsAfter n => (false, set_file path (old ++ take n b) fs)
  end.

(** [write_all] over the start of a file. *)
Definition fs_overwrite (path : string) (b : bytes) (fs : Fs) : bool * Fs :=
  let '(f, fs) := next_fault fs in
  let old := default [] (fs_files fs !! path) in
  match f with
  | Works => (true, set_file path (b ++ drop (length b) old) fs)
  | FailsAfter n => (false, set_file path (take n b ++ drop (length (take n b)) old) fs)
  end.

Definition fs_set_len (path : string) (n : Z) (fs : Fs) : bool * Fs :=
  let '(f, fs) := next_fault fs in
  match f with
  | Works => (true, set_file path (take (Z.to_nat n) (default [] (fs_files fs !! path))) fs)
  | FailsAfter _ => (false, fs)
  end.

(** [fs::copy]: creates or truncates the target. *)
Definition fs_copy (src dst : string) (fs : Fs) : bool * Fs :=
  let '(f, fs) := next_fault fs in
  match f, fs_files fs !! src with
  | Works, Some b => (true, set_file dst b fs)
  | FailsAfter n, Some b => (false, set_file dst (take n b) fs)
  | _, None => (false, fs)
  end.

(** ** Paths *)

(** [eq_ignore_ascii_case]. *)
Definition ascii_lower (c : ascii) : ascii := if byte_in 65 90 c then byte_of_Z (Z_of_byte c + 32) else c.
Definition eq_ignore_case (a b : string) : bool := bool_decide (map ascii_lower (bytes_of a) = map ascii_lower (bytes_of b)).


(** [dir.join(name)] for a relative name. *)
Definition join (dir name : string) : string :=
  if bool_decide (dir = ""%string) || ends_with (bytes_of "/") (bytes_of dir) then dir +:+ name else dir +:+ "/" +:+ name.

(** [rsplit_once]: around the last occurrence. *)
Definition rsplit_once (c : ascii) (b : bytes) : option (bytes * bytes) :=
  match find_char c (reverse b) with
  | Some i => Some (take (length b - S i) b, drop (length b - i) b)
  | None => None
  end.

(** [path.parent()] of a path in the form its last component ends. *)
Definition parent (path : string) : option string :=
  if decide ((path_components path).2 = []) then None else
  match rsplit_once "/" (bytes_of path) with
  | Some ([], _) => Some "/"%string
  | Some (d, _) => Some (string_of d)
  | None => Some ""%string
  end.

(** [Path::file_name]. *)
Definition file_name (path : string) : option string :=
  match last (path_components path).2 with
  | Some c => if decide (c = bytes_of "..") then None else Some (string_of c)
  | None => None
  end.

(** [path.with_extension(ext)] on a path in the form its last component ends:
    what follows the last dot of the name, unless that dot begins it, is replaced. *)
Definition with_extension (path ext : string) : string :=
  let b := bytes_of path in
  let '(dir, name) := match rsplit_once "/" b with Some (d, n) => (d ++ bytes_of "/", n) | None => ([], b) end in
  let stem := match rsplit_once "." name with Some (s, _) => if decide (s = []) then name else s | None => name end in
  string_of (dir ++ stem) +:+ "." +:+ ext.

Example with_extension_examples :
  map (λ q, with_extension q "new") ["/usr/bin/synbadd"; "/opt/x.d/synbadd.exe"; "a/.hidden"; "x"]%string =
  ["/usr/bin/synbadd.new"; "/opt/x.d/synbadd.new"; "a/.hidden.new"; "x.new"]%string.
Proof. vm_compute. reflexivity. Qed.
Example file_name_examples :
  map file_name ["/usr/bin/synbadd"; "/usr/bin/"; "/"; "a/.."; "x"]%string =
  [Some "synbadd"; Some "bin"; None; None; Some "x"]%string.
Proof. vm_compute. reflexivity. Qed.

(** ** What a system call leaves alone *)

(** Only files satisfying [P] change. *)
Definition touches (P : string → Prop) (fs fs' : Fs) : Prop := ∀ q, ¬ P q → content q fs' = content q fs.

#[export] Instance touches_preorder P : PreOrder (touches P).
Proof. split; [done|]. intros a b c Hab Hbc q Hq. by rewrite Hbc, Hab. Qed.

Lemma touches_weaken (P Q : string → Prop) fs fs' : (∀ q, P q → Q q) → touches P fs fs' → touches Q fs fs'.
Proof. intros Hpq Ht q Hq. apply Ht. auto. Qed.

Lemma fs_other_touches P fs ok fs' : fs_other fs = (ok, fs') → touches P fs fs'.
Proof. intros E q _. unfold content. by rewrite (fs_other_files _ _ _ E). Qed.

Lemma fs_write_touches path b fs ok fs' : fs_write path b fs = (ok, fs') → touches (.= path) fs fs'.
Proof. intros E q Hq. by eapply fs_write_other. Qed.

Lemma fs_append_touches path b fs ok fs' : fs_append path b fs = (ok, fs') → touches (.= path) fs fs'.
Proof.
  unfold fs_append, content. destruct (next_fault fs) as [f fs1] eqn:E. apply next_fault_files in E.
  intros Ha q Hq. unfold content. destruct f; injection Ha as _ <-; cbn; by rewrite lookup_insert_ne, E.
Qed.

Lemma fs_copy_spec src dst fs ok fs' :
  fs_copy src dst fs = (ok, fs') → touches (.= dst) fs fs' ∧ (ok = true → content dst fs' = content src fs ∧ is_Some (content src fs)).
Proof.
  unfold fs_copy, content. destruct (next_fault fs) as [f fs1] eqn:E. apply next_fault_files in E.
  destruct f, (fs_files fs1 !! src) eqn:Es; intros [= <- <-]; cbn; (split; [intros q Hq; unfold content; cbn; rewrite ?lookup_insert_ne by done; by rewrite E|]);
    try done.
  intros _. rewrite lookup_insert_eq, <-E, Es. done.
Qed.

Lemma fs_rename_touches src dst fs ok fs' :
  fs_rename src dst fs = (ok, fs') → touches (λ q, ok = true ∧ (q = src ∨ q = dst)) fs fs'.
Proof.
  unfold fs_rename. destruct (next_fault fs) as [f fs1] eqn:E. apply next_fault_files in E.
  intros Hr q Hq. unfold content. destruct f; [|injection Hr as <- <-; by rewrite E].
  destruct (fs_files fs1 !! src) eqn:Es; injection Hr as <- <-; [|by rewrite E]. cbn.
  rewrite lookup_insert_ne, lookup_delete_ne by naive_solver. by rewrite E.
Qed.

(** A file appears under its new name with its bytes. *)
Lemma fs_rename_ok src dst fs fs' : fs_rename src dst fs = (true, fs') → content dst fs' = content src fs ∧ is_Some (content src fs).
Proof.
  unfold fs_rename, content. destruct (next_fault fs) as [f fs1] eqn:E. apply next_fault_files in E.
  destruct f; [|done]. destruct (fs_files fs1 !! src) eqn:Es; [|done]. intros [= <-]. cbn. by rewrite lookup_insert_eq, <-E, Es.
Qed.
