(* ===== verification/RotatingLog.v ===== *)
(** * Bounded logs ([crates/synbad-config/src/logging.rs])

    A log file with three backups.  Opening trims what older versions left
    behind; a write is split so that no file exceeds the limit. *)

From Stdlib Require Import ZArith Lia.
From S2P Require Import Prelude Config Store FileOps.

Definition LOG_BYTES : Z := 2 * 1024 * 1024.
Definition BACKUPS : nat := 3.

(** [backup_path]; index 0 is the log itself. *)
Definition backup_path (path : string) (index : nat) : string := path +:+ "." +:+ pretty index.
Definition log_name (path : string) (index : nat) : string := match index with O => path | _ => backup_path path index end.

(** ** The log *)

Record LogFile := { lg_path : string; lg_open : bool; lg_bytes : Z; lg_limit : Z }.
#[export] Instance LogFile_eta : Eta LogFile := λ r,
  {| lg_path := lg_path r; lg_open := lg_open r; lg_bytes := lg_bytes r; lg_limit := lg_limit r |}.

(** Keep the newest [limit] bytes, in place. *)
Definition trim_existing (path : string) (limit : Z) (fs : Fs) : bool * Fs :=
  match fs_read path fs with
  | (NotFound, fs) => (true, fs)
  | (ReadFailed, fs) => (false, fs)
  | (FileBytes b, fs) =>
    if decide (limit < blen b)%Z then
      let tail := drop (length b - Z.to_nat limit) b in
      let '(ok, fs) := fs_overwrite path tail fs in
      if ok then fs_set_len path limit fs else (false, fs)
    else (true, fs)
  end.

Fixpoint trim_all (path : string) (limit : Z) (indices : list nat) (fs : Fs) : bool * Fs :=
  match indices with
  | [] => (true, fs)
  | i :: rest => let '(ok, fs) := trim_existing (log_name path i) limit fs in
                 if ok then trim_all path limit rest fs else (false, fs)
  end.

Definition with_limit (path : string) (limit : Z) (fs : Fs) : option LogFile * Fs :=
  let '(ok, fs) := fs_other fs in
  if negb ok then (None, fs) else
  let '(ok, fs) := trim_all path limit (seq 0 (S BACKUPS)) fs in
  if negb ok then (None, fs) else
  let '(ok, fs) := fs_open_append path fs in
  if negb ok then (None, fs) else
  let '(ok, fs) := fs_other fs in
  if negb ok then (None, fs) else
  (Some {| lg_path := path; lg_open := true; lg_bytes := blen (default [] (content path fs)); lg_limit := limit |}, fs).

Definition open (path : string) (fs : Fs) : option LogFile * Fs := with_limit path LOG_BYTES fs.

(** Shift the backups up by one, from the given index down. *)
Fixpoint shift_backups (path : string) (indices : list nat) (fs : Fs) : bool * Fs :=
  match indices with
  | [] => (true, fs)
  | i :: rest =>
    let '(e, fs) := fs_exists (log_name path i) fs in
    if e then let '(ok, fs) := fs_rename (log_name path i) (log_name path (S i)) fs in
              if ok then shift_backups path rest fs else (false, fs)
    else shift_backups path rest fs
  end.

Definition rotate (log : LogFile) (fs : Fs) : bool * LogFile * Fs :=
  let log := log <| lg_open := false |> in
  let '(_, fs) := fs_remove (log_name (lg_path log) BACKUPS) fs in
  let '(ok, fs) := shift_backups (lg_path log) [2; 1; 0] fs in
  (ok, if ok then log <| lg_bytes := 0%Z |> else log, fs).

(** One iteration of the loop of [write]: the number of bytes taken. *)
Definition write_step (remaining : bytes) (log : LogFile) (fs : Fs) : option nat * LogFile * Fs :=
  let '(ok, log, fs) := if decide (lg_limit log ≤ lg_bytes log)%Z then rotate log fs else (true, log, fs) in
  if negb ok then (None, log, fs) else
  let '(ok, fs) := if lg_open log then (true, fs) else fs_open_append (lg_path log) fs in
  if negb ok then (None, log, fs) else
  let log := log <| lg_open := true |> in
  let size := Nat.min (length remaining) (Z.to_nat (lg_limit log - lg_bytes log)) in
  let '(ok, fs) := fs_append (lg_path log) (take size remaining) fs in
  if negb ok then (None, log, fs) else
  (Some size, log <| lg_bytes := (lg_bytes log + Z.of_nat size)%Z |>, fs).

(** [write]: whether it succeeded; [None] while it is still writing. *)
Fixpoint write (fuel : nat) (remaining : bytes) (log : LogFile) (fs : Fs) : option (bool * LogFile * Fs) :=
  match remaining with
  | [] => Some (true, log, fs)
  | _ =>
    match fuel with
    | O => None
    | S fuel =>
      match write_step remaining log fs with
      | (None, log, fs) => Some (false, log, fs)
      | (Some size, log, fs) => write fuel (drop size remaining) log fs
      end
    end
  end.

(** ** The files as one history *)

Definition piece (path : string) (files : gmap string bytes) (i : nat) : bytes := default [] (files !! log_name path i).

(** Oldest first. *)
Definition history (path : string) (files : gmap string bytes) : bytes :=
  piece path files 3 ++ piece path files 2 ++ piece path files 1 ++ piece path files 0.

Record log_ok (log : LogFile) (files : gmap string bytes) : Prop := {
  lo_limit : (0 < lg_limit log)%Z;
  lo_bytes : blen (piece (lg_path log) files 0) = lg_bytes log;
  lo_bound : ∀ i, i ≤ BACKUPS → (blen (piece (lg_path log) files i) ≤ lg_limit log)%Z
}.

Definition sound (files : gmap string bytes) : Fs := {| fs_files := files; fs_faults := [] |}.

Lemma log_name_inj path i j : i ≤ BACKUPS → j ≤ BACKUPS → log_name path i = log_name path j → i = j.
Proof.
  unfold BACKUPS. intros Hi Hj E. apply (f_equal bytes_of) in E.
  assert (∀ k, k ≤ 3 → bytes_of (log_name path k) = bytes_of path ++ match k with O => [] | _ => bytes_of ("." +:+ pretty k) end) as Hn
    by (intros [|k] _; [by rewrite app_nil_r|by rewrite <-bytes_of_app]).
  rewrite !Hn in E by done. apply app_inv_head in E.
  do 4 (destruct i as [|i]; [do 4 (destruct j as [|j]; [done|]); lia|]). lia.
Qed.

(** One shift into a free slot. *)
Lemma shift_one path i rest files :
  i < BACKUPS → files !! log_name path (S i) = None →
  ∃ files', shift_backups path (i :: rest) (sound files) = shift_backups path rest (sound files') ∧
    files' !! log_name path i = None ∧ files' !! log_name path (S i) = files !! log_name path i ∧
    ∀ q, q ≠ log_name path i → q ≠ log_name path (S i) → files' !! q = files !! q.
Proof.
  intros Hi Hfree. assert (log_name path i ≠ log_name path (S i)) as Hne
    by (intros E%log_name_inj; [lia|unfold BACKUPS in *; lia..]).
  cbn [shift_backups]. unfold fs_exists, next_fault. cbn [fs_faults sound fs_files].
  destruct (files !! log_name path i) as [b|] eqn:E.
  - rewrite bool_decide_true by done. unfold fs_rename, next_fault. cbn [fs_faults sound fs_files]. rewrite E.
    eexists. split; [done|]. cbn [fs_files]. rewrite lookup_insert_ne, lookup_delete_eq, lookup_insert_eq by done.
    split_and!; [done|done|]. intros q H1 H2. by rewrite lookup_insert_ne, lookup_delete_ne.
  - rewrite bool_decide_false by by intros []. exists files. by split_and!.
Qed.

(** Closing, dropping the oldest and shifting the rest: piece [i] becomes piece [i+1]. *)
Lemma rotate_sound log files :
  ∃ files', rotate log (sound files) = (true, log <| lg_open := false |> <| lg_bytes := 0%Z |>, sound files') ∧
    files' !! log_name (lg_path log) 0 = None ∧
    ∀ i, i < BACKUPS → files' !! log_name (lg_path log) (S i) = files !! log_name (lg_path log) i.
Proof.
  unfold rotate, fs_remove, next_fault. cbn [fs_faults sound fs_files lg_path update_field]. set (path := lg_path log).
  change (Build_Fs (delete ?x files) []) with (sound (delete x files)). set (f0 := delete _ files).
  assert (∀ i j, i ≤ 3 → j ≤ 3 → i ≠ j → log_name path i ≠ log_name path j) as Hne
    by (intros i j Hi Hj Hij E%log_name_inj; unfold BACKUPS; lia).
  destruct (shift_one path 2 [1; 0] f0) as (f1 & -> & N2 & S2 & O2); [unfold BACKUPS; lia|apply lookup_delete_eq|].
  destruct (shift_one path 1 [0] f1) as (f2 & -> & N1 & S1 & O1); [unfold BACKUPS; lia|done|].
  destruct (shift_one path 0 [] f2) as (f3 & -> & N0 & S0 & O0); [unfold BACKUPS; lia|done|].
  exists f3. split; [done|]. split; [done|]. unfold BACKUPS in *.
  intros [|[|[|i]]] Hi; [| | |lia].
  - rewrite S0, O1, O2 by (apply Hne; lia). apply lookup_delete_ne, Hne; lia.
  - rewrite O0, S1, O2 by (apply Hne; lia). apply lookup_delete_ne, Hne; lia.
  - rewrite O0, O1, S2 by (apply Hne; lia). apply lookup_delete_ne, Hne; lia.
Qed.

Lemma step_append log files b :
  let files' := <[lg_path log := default [] (files !! lg_path log) ++ b]> files in
  piece (lg_path log) files' 0 = piece (lg_path log) files 0 ++ b ∧
  ∀ i, 0 < i → i ≤ BACKUPS → piece (lg_path log) files' i = piece (lg_path log) files i.
Proof.
  cbv zeta. unfold piece. split; [cbn [log_name]; by rewrite lookup_insert_eq|].
  intros i Hi Hle. rewrite lookup_insert_ne; [done|]. intros E. apply (log_name_inj _ 0 i) in E; lia.
Qed.

(** One iteration without faults: it takes at least a byte, keeps the files
    bounded, and the history goes on, its oldest part dropped only once a full
    backup is kept. *)
Lemma write_step_sound remaining log files :
  log_ok log files → remaining ≠ [] →
  ∃ size log' files', write_step remaining log (sound files) = (Some size, log', sound files') ∧
    0 < size ≤ length remaining ∧ log_ok log' files' ∧ lg_path log' = lg_path log ∧ lg_limit log' = lg_limit log ∧
    ∃ dropped, history (lg_path log) files ++ take size remaining = dropped ++ history (lg_path log) files' ∧
      (dropped = [] ∨ lg_limit log ≤ blen (history (lg_path log) files'))%Z.
Proof.
  intros [Hlim Hb Hbound] Hne. unfold write_step. set (path := lg_path log) in *. set (limit := lg_limit log) in *.
  (* the file to write to, and what rotation dropped *)
  assert (∃ log1 files1 dropped,
    (if decide (limit ≤ lg_bytes log)%Z then rotate log (sound files) else (true, log, sound files)) = (true, log1, sound files1) ∧
    lg_path log1 = path ∧ lg_limit log1 = limit ∧ (lg_bytes log1 < limit)%Z ∧ log_ok log1 files1 ∧
    history path files = dropped ++ history path files1 ∧ (dropped = [] ∨ limit ≤ blen (history path files1))%Z)
    as (log1 & files1 & dropped & -> & Hp1 & Hl1 & Hlt & [Hlim1 Hb1 Hbound1] & Hh & Hd).
  { case_decide as Hfull.
    - destruct (rotate_sound log files) as (f' & -> & H0 & HS). fold path in H0, HS. unfold BACKUPS in *.
      assert (∀ i, i < 3 → piece path f' (S i) = piece path files i) as Hpc by (intros i Hi; unfold piece; by rewrite HS).
      assert (piece path f' 0 = []) as Hp0 by (unfold piece; by rewrite H0).
      eexists _, f', (piece path files 3). split; [done|]. cbn [lg_path lg_limit lg_bytes update_field]. fold path limit.
      split_and!; [done|done|lia| | |].
      + split; cbn [lg_path lg_limit lg_bytes update_field]; fold path limit; [done|by rewrite Hp0|].
        intros [|i] Hi; [rewrite Hp0; change (blen []) with 0%Z; lia|]. rewrite Hpc by (unfold BACKUPS in *; lia). apply Hbound. unfold BACKUPS in *. lia.
      + unfold history. by rewrite !Hpc, Hp0, app_nil_r by lia.
      + right. unfold history, blen. rewrite !length_app, (Hpc 0) by lia. unfold blen in Hb. lia.
    - exists log, files, []. split; [done|]. fold path limit. split_and!; [done|done|lia| |done|by left]. split; assumption. }
  cbn [negb].
  assert (∃ files2, (if lg_open log1 then (true, sound files1) else fs_open_append (lg_path log1) (sound files1)) = (true, sound files2) ∧
    ∀ i, i ≤ BACKUPS → piece path files2 i = piece path files1 i) as (files2 & -> & H2).
  { destruct (lg_open log1); [by exists files1|]. unfold fs_open_append, next_fault. cbn [fs_faults sound fs_files].
    eexists. split; [done|]. rewrite Hp1. intros i Hi. unfold piece. destruct (decide (i = 0)) as [->|Hi0].
    - cbn [log_name]. by rewrite lookup_insert_eq.
    - rewrite lookup_insert_ne; [done|]. intros E. apply (log_name_inj path 0 i) in E; lia. }
  cbn [negb lg_path lg_limit lg_bytes update_field]. rewrite Hp1, Hl1.
  set (size := Nat.min _ _). unfold fs_append, next_fault. cbn [fs_faults sound fs_files negb].
  assert (0 < size ≤ length remaining) as Hsize by (subst size; destruct remaining; [done|cbn [length]; lia]).
  pose proof (step_append log1 files2 (take size remaining)) as [Hs0 HsS]. rewrite Hp1 in Hs0, HsS. rewrite H2 in Hs0 by lia.
  assert (∀ i, 0 < i → i ≤ BACKUPS → piece path (<[path := default [] (files2 !! path) ++ take size remaining]> files2) i = piece path files1 i) as HsS'
    by (intros i Hi Hle; rewrite HsS, H2; done).
  assert (blen (take size remaining) = Z.of_nat size) as Hlen by (unfold blen; rewrite length_take; lia).
  rewrite Hp1, Hl1 in *. assert (0 ≤ lg_bytes log1)%Z as Hnn by (rewrite <-Hb1; unfold blen; lia).
  eexists size, _, _. split; [done|]. cbn [fs_files sound]. split; [done|]. split; [|split; [by cbn|split; [by cbn|]]].
  - split; cbn [lg_path lg_limit lg_bytes update_field]; rewrite ?Hp1, ?Hl1; [done| |].
    + rewrite Hs0. unfold blen in *. rewrite length_app. lia.
    + intros i Hi. destruct (decide (i = 0)) as [->|Hi0]; [|rewrite HsS' by lia; by apply Hbound1].
      rewrite Hs0. unfold blen in *. rewrite length_app. subst size. lia.
  - exists dropped. unfold history in *. rewrite Hs0, !HsS' by (unfold BACKUPS; lia). split.
    + rewrite Hh. by rewrite <-!app_assoc.
    + destruct Hd as [->|Hd]; [by left|right]. unfold blen in *. rewrite !length_app in *. lia.
Qed.

(** C40: A write ends and loses only old diagnostics.  On a log within its bounds and a
    disk that works, a write of any length returns after at most one iteration per
    byte, leaves every file within the limit, and appends its bytes, in order, to
    the history kept in the files; the oldest part of the history is dropped only
    when at least [limit] newer bytes remain. *)
Theorem log_write_bounded fuel b log files :
  log_ok log files → length b ≤ fuel →
  ∃ log' files', write fuel b log (sound files) = Some (true, log', sound files') ∧
    log_ok log' files' ∧ lg_limit log' = lg_limit log ∧
    ∃ dropped, history (lg_path log) files ++ b = dropped ++ history (lg_path log) files' ∧
      (dropped = [] ∨ lg_limit log ≤ blen (history (lg_path log) files'))%Z.
Proof.
  revert b log files; induction fuel as [|fuel IH]; intros b log files Hok Hf.
  { destruct b; [|cbn in Hf; lia]. exists log, files. split_and!; [done|done|done|]. exists []. rewrite app_nil_r. split; [done|by left]. }
  destruct b as [|x b]; [exists log, files; split_and!; [done|done|done|]; exists []; rewrite app_nil_r; split; [done|by left]|].
  cbn [write]. set (r := x :: b) in *.
  destruct (write_step_sound r log files Hok) as (size & log1 & files1 & -> & Hsize & Hok1 & Hp1 & Hl1 & d1 & E1 & D1); [done|].
  destruct (IH (drop size r) log1 files1 Hok1) as (log2 & files2 & -> & Hok2 & Hl2 & d2 & E2 & D2); [rewrite length_drop; lia|].
  exists log2, files2. split_and!; [done|done|congruence|]. rewrite Hp1, Hl1 in *. exists (d1 ++ d2). split.
  - rewrite <-app_assoc, <-E2, app_assoc, <-E1, <-app_assoc. by rewrite take_drop.
  - destruct D2 as [->|D2]; [|by right]. destruct D1 as [->|D1]; [by left|right].
    cbn [app] in E2. rewrite <-E2. unfold blen in *. rewrite length_app. lia.
Qed.

(** ** Opening *)

(** The newest [limit] bytes. *)
Definition newest (limit : Z) (b : bytes) : bytes := drop (length b - Z.to_nat limit) b.

Lemma trim_existing_sound path limit files :
  (0 ≤ limit)%Z →
  ∃ files', trim_existing path limit (sound files) = (true, sound files') ∧
    files' !! path = newest limit <$> files !! path ∧ ∀ q, q ≠ path → files' !! q = files !! q.
Proof.
  intros Hl. unfold trim_existing, fs_read, next_fault. cbn [fs_faults sound fs_files].
  destruct (files !! path) as [b|] eqn:E; [|exists files; by rewrite E].
  assert (Z.to_nat limit < length b → length (newest limit b) = Z.to_nat limit) as Hn by (unfold newest; rewrite length_drop; lia).
  unfold blen. case_decide as Hlong.
  - unfold fs_overwrite, fs_set_len, next_fault. cbn [fs_faults sound fs_files set_file]. fold (newest limit b).
    eexists. split; [done|]. cbn [fs_files]. rewrite !lookup_insert_eq, E. cbn [default from_option fmap option_fmap option_map]. unfold id. split.
    + f_equal. rewrite take_app_le by (rewrite Hn; lia). rewrite firstn_all2 by (rewrite Hn; lia). done.
    + intros q Hq. by rewrite lookup_insert_ne; [apply lookup_insert_ne|].
  - exists files. split; [done|]. split; [|done]. rewrite E. cbn. unfold newest.
    by replace (length b - Z.to_nat limit) with 0 by lia.
Qed.

Lemma trim_all_sound path limit ix files :
  (0 ≤ limit)%Z → NoDup ix → (∀ i, i ∈ ix → i ≤ BACKUPS) →
  ∃ files', trim_all path limit ix (sound files) = (true, sound files') ∧
    ∀ i, i ≤ BACKUPS → files' !! log_name path i =
      if bool_decide (i ∈ ix) then newest limit <$> files !! log_name path i else files !! log_name path i.
Proof.
  intros Hl. revert files; induction ix as [|i ix IH]; intros files Hn Hb; cbn [trim_all].
  { exists files. split; [done|]. intros j _. by rewrite bool_decide_false by set_solver. }
  apply NoDup_cons in Hn as [Hi Hn].
  destruct (trim_existing_sound (log_name path i) limit files Hl) as (f1 & -> & E1 & O1).
  destruct (IH f1 Hn) as (f2 & -> & E2); [set_solver|]. exists f2. split; [done|]. intros j Hj. rewrite E2 by done.
  destruct (decide (j = i)) as [->|Hne].
  - rewrite (bool_decide_false (i ∈ ix)) by done. by rewrite bool_decide_true by set_solver.
  - rewrite O1 by (intros E%log_name_inj; [done|done|apply Hb; set_solver]).
    by rewrite (bool_decide_ext (j ∈ i :: ix) (j ∈ ix)) by set_solver.
Qed.

(** Opening trims whatever was left.  On a disk that works, opening a log of any
    positive limit succeeds whatever files older versions left: the log and each of
    its backups keep exactly their newest [limit] bytes, and the log is within its
    bounds, ready for [write]. *)
Theorem log_open_trims path limit files :
  (0 < limit)%Z →
  ∃ log files', with_limit path limit (sound files) = (Some log, sound files') ∧ log_ok log files' ∧
    lg_path log = path ∧ lg_limit log = limit ∧
    ∀ i, i ≤ BACKUPS → piece path files' i = newest limit (piece path files i).
Proof.
  intros Hl. unfold with_limit, fs_other, next_fault. cbn [fs_faults sound negb].
  destruct (trim_all_sound path limit (seq 0 (S BACKUPS)) files) as (f1 & -> & E1);
    [lia|apply NoDup_seq|by intros i Hi%elem_of_seq; lia|].
  unfold fs_open_append, next_fault. cbn [negb fs_faults sound fs_files].
  set (f2 := <[path := default [] (f1 !! path)]> f1). change (set_file path (default [] (f1 !! path)) {| fs_files := f1; fs_faults := [] |}) with (sound f2).
  cbn [fs_faults sound].
  assert (∀ i, i ≤ BACKUPS → piece path f2 i = newest limit (piece path files i)) as Hpc.
  { intros i Hi. assert (piece path f1 i = newest limit (piece path files i)) as H1.
    { unfold piece. rewrite E1 by done. rewrite bool_decide_true by (apply elem_of_seq; lia). by destruct (files !! log_name path i). }
    rewrite <-H1. unfold f2, piece. destruct (decide (i = 0)) as [->|Hi0]; [cbn [log_name]; by rewrite lookup_insert_eq|].
    rewrite lookup_insert_ne; [done|]. intros E. apply (log_name_inj path 0 i) in E; lia. }
  eexists _, f2. split; [done|]. split; [|done]. split; cbn [lg_path lg_limit lg_bytes]; [done|done|].
  intros i Hi. rewrite Hpc by done. unfold newest, blen. rewrite length_drop. lia.
Qed.

(** ** After a failed write the bound is lost *)

(** A [write_all] that stops part-way leaves bytes in the file that [bytes] does
    not count. *)
Definition wit_log : LogFile := {| lg_path := "core.log"; lg_open := true; lg_bytes := 0; lg_limit := 4 |}.
Example failed_write_breaks_bound :
  match write 9 (bytes_of "abcd") wit_log {| fs_files := ∅; fs_faults := [FailsAfter 3] |} with
  | Some (false, log, fs) =>
    match write 9 (bytes_of "efgh") log fs with
    | Some (true, _, fs') => content "core.log" fs' = Some (bytes_of "abcefgh")
    | _ => False
    end
  | _ => False
  end.
Proof. vm_compute. reflexivity. Qed.

(** ** A concrete log *)

Definition wit_files : gmap string bytes := {["core.log"%string := bytes_of "0123456789"; "core.log.1"%string := bytes_of "old"]}.

Example log_open_trims_witness :
  ∃ log files', with_limit "core.log" 4 (sound wit_files) = (Some log, sound files') ∧ piece "core.log" files' 0 = bytes_of "6789".
Proof.
  destruct (log_open_trims "core.log" 4 wit_files ltac:(reflexivity)) as (log & files' & E & _ & _ & _ & Hp).
  exists log, files'. split; [exact E|]. rewrite (Hp 0 (Nat.le_0_l _)). reflexivity.
Defined.

Example log_write_bounded_witness :
  ∃ log' files', write 10 (bytes_of "abcdefghij") wit_log (sound ∅) = Some (true, log', sound files') ∧
    (blen (piece "core.log" files' 0) ≤ 4)%Z.
Proof.
  assert (log_ok wit_log ∅) as Hok.
  { split; [reflexivity|reflexivity|]. intros [|[|[|[|i]]]] Hi; vm_compute; discriminate. }
  destruct (log_write_bounded 10 (bytes_of "abcdefghij") wit_log ∅ Hok) as (log' & files' & E & Hok' & Hl & _); [vm_compute; lia|].
  exists log', files'. split; [exact E|].
  assert (lg_path log' = "core.log"%string) as Hp.
  { assert ((λ x, lg_path x.1.2) <$> write 10 (bytes_of "abcdefghij") wit_log (sound ∅) = Some "core.log"%string) as Hw by (vm_compute; reflexivity).
    rewrite E in Hw. by injection Hw. }
  pose proof (lo_bound _ _ Hok' 0 (Nat.le_0_l _)) as Hb. rewrite Hp, Hl in Hb. exact Hb.
Defined.
