(* ===== verification/Updater.v ===== *)
(** * The self-updater ([crates/synbad-update/src/lib.rs], [archive.rs], [elevate.rs])

    Choosing a release and its asset, downloading and extracting it, and
    replacing the installed binaries, directly or through the elevated helper.
    The Linux build is modelled; permission bits are not. *)

From Stdlib Require Import Ascii ZArith Lia.
From S2P Require Import Prelude Primitives Config LogParse Store Conn FileOps.

(** The [semver] package: parsing, and the order of precedence. *)
Class SemverOps := {
  Version : Type;
  ver_parse : string → option Version;
  ver_cmp : Version → Version → comparison
}.
Class SemverLaws `{SemverOps} := {
  ver_cmp_antisym : ∀ a b, ver_cmp b a = CompOpp (ver_cmp a b);
  ver_cmp_le_trans : ∀ a b c, ver_cmp a b ≠ Gt → ver_cmp b c ≠ Gt → ver_cmp a c ≠ Gt
}.

Record GhAsset := { ga_name : string; ga_size : Z; ga_url : string }.
Record GhRelease := {
  gr_tag_name : string; gr_html_url : string; gr_body : option string; gr_assets : list GhAsset; gr_draft : bool
}.
Record UpdateInfo := {
  ui_tag : string; ui_version : string; ui_html_url : string; ui_asset_url : string; ui_asset_name : string;
  ui_asset_size : Z; ui_body : string
}.
Record CheckResult := { cr_info : UpdateInfo; cr_newer : bool }.

(** ** Choosing a release *)

(** [trim_start_matches('v')]. *)
Fixpoint strip_v (b : bytes) : bytes :=
  match b with c :: b' => if decide (c = "v"%char) then strip_v b' else b | [] => [] end.

Definition tag_version (tag : string) : string := string_of (strip_v (trim (bytes_of tag))).

Section versions.
Context `{SemverOps}.

Definition is_newer (tag current : string) : bool :=
  match ver_parse (tag_version tag), ver_parse (tag_version current) with
  | Some lhs, Some rhs => match ver_cmp lhs rhs with Gt => true | _ => false end
  | _, _ => false
  end.

(** [Iterator::max_by]: the last of the greatest. *)
Definition max_step {A} (best : option (Version * A)) (x : Version * A) : option (Version * A) :=
  match best with
  | None => Some x
  | Some b => Some match ver_cmp b.1 x.1 with Gt => b | _ => x end
  end.

Definition latest (releases : list GhRelease) : option (Version * GhRelease) :=
  fold_left max_step
    (omap (λ r, (λ v, (v, r)) <$> ver_parse (tag_version (gr_tag_name r))) (List.filter (λ r, negb (gr_draft r)) releases)) None.
End versions.

Definition asset_base (tag target : string) : string := "synbad-" +:+ tag_version tag +:+ "-" +:+ target.

Definition pick_asset (assets : list GhAsset) (tag target : string) : option GhAsset :=
  let prefer_zip := ends_with (bytes_of "-pc-windows-msvc") (bytes_of target) in
  let expected := asset_base tag target +:+ (if prefer_zip then ".zip" else ".tar.gz") in
  let alternate := asset_base tag target +:+ ".tgz" in
  List.find (λ a, bool_decide (ga_name a = expected) || (negb prefer_zip && bool_decide (ga_name a = alternate))) assets.

Section check.
Context `{SemverOps}.

(** [check], after the query; [target] is [host_target]. *)
Definition check_release (current : string) (target : result string string) (releases : result string (list GhRelease)) : result string CheckResult :=
  let? rs := releases in
  match latest rs with
  | None => Err "no published (non-draft) releases with a semver tag found"%string
  | Some (_, r) =>
    let? t := target in
    match pick_asset (gr_assets r) (gr_tag_name r) t with
    | None => Err ("no release asset matches host target `" +:+ t +:+ "` in release " +:+ gr_tag_name r)
    | Some a =>
      Ok {| cr_info := {| ui_tag := gr_tag_name r; ui_version := string_of (strip_v (bytes_of (gr_tag_name r)));
                          ui_html_url := gr_html_url r; ui_asset_url := ga_url a; ui_asset_name := ga_name a;
                          ui_asset_size := ga_size a; ui_body := default ""%string (gr_body r) |};
            cr_newer := is_newer (gr_tag_name r) current |}
    end
  end.
End check.

(** ** Names of the binaries *)

(** What follows the last [/] or [\ ]. *)
Definition after_separators (b : bytes) : bytes :=
  fold_left (λ acc c, if bool_decide (c = "/"%char) || bool_decide (c = "\"%char) then [] else acc ++ [c]) b [].

Definition binary_basename_for_path (path : string) : string := default "synbadd"%string (file_name path).

Definition sibling_basename (current_exe : string) : string :=
  let trimmed := after_separators (bytes_of (binary_basename_for_path current_exe)) in
  let '(stem, ext) := match rsplit_once "." trimmed with
                      | Some (s, e) => if decide (e = bytes_of "exe") then (s, ".exe"%string) else (trimmed, ""%string)
                      | None => (trimmed, ""%string)
                      end in
  (if decide (stem = bytes_of "synbad-gui") then "synbadd"%string else "synbad-gui"%string) +:+ ext.

Example sibling_examples :
  map sibling_basename ["/usr/bin/synbadd"; "/usr/bin/synbad-gui"; "C:\bin\synbadd.exe"; "/opt/synbad-gui.exe"; "/opt/other"]%string =
  ["synbad-gui"; "synbadd"; "synbad-gui.exe"; "synbadd.exe"; "synbad-gui"]%string.
Proof. vm_compute. reflexivity. Qed.

(** ** The extracted tree *)

(** A directory as [read_dir] lists it; an entry that cannot be read ends the walk. *)
Inductive Node :=
| NFile (name : string) (body : bytes)
| NDir (name : string) (children : list Node)
| NOther (name : string)
| NBad.

Section node_ind.
Context (P : Node → Prop) (Hfile : ∀ name b, P (NFile name b)) (Hdir : ∀ name l, Forall P l → P (NDir name l))
  (Hother : ∀ name, P (NOther name)) (Hbad : P NBad).
Fixpoint Node_nested_ind (n : Node) : P n :=
  match n with
  | NFile name b => Hfile name b
  | NDir name l => Hdir name l ((fix go l : Forall P l := match l with [] => Forall_nil_2 P | n :: l' => Forall_cons_2 P n l' (Node_nested_ind n) (go l') end) l)
  | NOther name => Hother name
  | NBad => Hbad
  end.
End node_ind.

(** [walk] on the directory [n] at [path]: the result, and whether no error ended
    it.  A match returns from its own directory only. *)
Fixpoint walk (want path : string) (n : Node) (out : option string) : option string * bool :=
  match n, out with
  | NDir _ children, None =>
    (fix go (l : list Node) (out : option string) : option string * bool :=
       match l with
       | [] => (out, true)
       | e :: l' =>
         match e with
         | NFile name _ => if eq_ignore_case name want then (Some (join path name), true) else go l' out
         | NDir name _ => let '(out, ok) := walk want (join path name) e out in if ok then go l' out else (out, false)
         | NOther _ => go l' out
         | NBad => (out, false)
         end
       end) children None
  | _, _ => (out, true)
  end.

Definition find_binary (root : string) (nodes : list Node) (name : string) : option string := (walk name root (NDir "" nodes) None).1.

(** The files under the directory [n] at [path]: name, path and content. *)
Fixpoint dir_files (path : string) (n : Node) : list (string * string * bytes) :=
  match n with
  | NDir _ children =>
    flat_map (λ e, match e with
                   | NFile name b => [(name, join path name, b)]
                   | NDir name _ => dir_files (join path name) e
                   | _ => []
                   end) children
  | _ => []
  end.
Definition tree_files (root : string) (nodes : list Node) : list (string * string * bytes) := dir_files root (NDir "" nodes).

(** ** Replacing files *)

(** [replace_sibling]: [staging] is [dest.with_extension("synbad-update.new")]. *)
Definition replace_via (staging source dest : string) (fs : Fs) : bool * Fs :=
  let '(ok, fs) := fs_rename source dest fs in
  if ok then (true, fs) else
  let '(ok, fs) := fs_copy source staging fs in
  if negb ok then (false, fs) else fs_rename staging dest fs.

Definition replace_sibling (source dest : string) (fs : Fs) : bool * Fs :=
  replace_via (with_extension dest "synbad-update.new") source dest fs.

(** [external_replace]; [stage] names the fresh staging file next to [dest]. *)
Definition external_replace (stage : string → string) (source dest : string) (fs : Fs) : bool * Fs :=
  replace_via (stage dest) source dest fs.

Record PlanMove := { pm_src : string; pm_dst : string }.
Record Plan := { pl_tag : string; pl_moves : list PlanMove }.

Fixpoint apply_moves (stage : string → string) (moves : list PlanMove) (fs : Fs) : result string unit * Fs :=
  match moves with
  | [] => (Ok tt, fs)
  | mv :: rest =>
    let '(ok, fs) := external_replace stage (pm_src mv) (pm_dst mv) fs in
    if ok then apply_moves stage rest fs else (Err ("install " +:+ pm_dst mv), fs)
  end.

Definition apply_plan `{JsonOps Plan} (stage : string → string) (plan_path : string) (fs : Fs) : result string Plan * Fs :=
  let '(r, fs) := fs_read plan_path fs in
  match r with
  | FileBytes b =>
    match from_slice b with
    | Some plan => let '(r, fs) := apply_moves stage (pl_moves plan) fs in
                   (match r with Ok _ => Ok plan | Err e => Err e end, fs)
    | None => (Err "parse plan JSON"%string, fs)
    end
  | _ => (Err ("read plan from " +:+ plan_path), fs)
  end.

Definition parse_apply_update_args (args : list string) : option string :=
  match args with
  | first :: flag :: path :: _ =>
    if decide (first = "__apply-update"%string) then if decide (flag = "--plan"%string) then Some path else None else None
  | _ => None
  end.

(** ** Download and apply *)

Inductive Progress := PgStage (label : string) | PgDownload (downloaded total : Z).

Record Applied := { ap_replaced_self : string; ap_replaced_sibling : option string; ap_tag : string; ap_elevated : bool }.

Record Upd := { up_fs : Fs; up_progress : list Progress }.
#[export] Instance Upd_eta : Eta Upd := λ r, {| up_fs := up_fs r; up_progress := up_progress r |}.

Abbreviation upd := (prog Upd string).

Definition on_progress (p : Progress) : upd unit := λ s, (Done tt, s <| up_progress := up_progress s ++ [p] |>).

(** A system call whose failure is [msg]. *)
Definition sys (msg : string) (op : Fs → bool * Fs) : upd unit := λ s,
  let '(ok, fs) := op (up_fs s) in (if ok then Done tt else Failed msg, s <| up_fs := fs |>).

(** One whose outcome is a value. *)
Definition sys_val {A} (op : Fs → result string A * Fs) : upd A := λ s,
  let '(r, fs) := op (up_fs s) in (match r with Ok a => Done a | Err e => Failed e end, s <| up_fs := fs |>).

Definition ask_fs {A} (op : Fs → A) : upd A := λ s, (Done (op (up_fs s)), s).

(** [tar] over [flate2]: unpack a [.tar.gz] below a directory.  The result is the
    tree as [read_dir] will list it. *)
Class TarOps := { tar_unpack : bytes → string → Fs → option (list Node) * Fs }.

Definition below (dir : string) (q : string) : Prop := starts_with (bytes_of (dir +:+ "/")) (bytes_of q) = true.

(** It writes only below the directory, and on success every file is there. *)
Class TarLaws `{TarOps} := {
  tar_stays_below : ∀ b dir fs r fs', tar_unpack b dir fs = (r, fs') → touches (below dir) fs fs';
  tar_writes_files : ∀ b dir fs nodes fs', tar_unpack b dir fs = (Some nodes, fs') →
    ∀ name path body, (name, path, body) ∈ tree_files dir nodes → content path fs' = Some body
}.

(** The [self_replace] package: put the new file in place of the running executable. *)
Class SelfReplaceOps := { self_replace : string → string → Fs → bool * Fs }.
Class SelfReplaceLaws `{SelfReplaceOps} := {
  self_replace_atomic : ∀ current new fs ok fs', self_replace current new fs = (ok, fs') →
    touches (.= current) fs fs' ∧ (ok = true → is_Some (content new fs)) ∧
    content current fs' = if ok then content new fs else content current fs
}.

(** What an update meets: the running executable (canonical), a fresh temporary
    directory, the response with its chunks, the names of staging files, and
    whether the elevation tool started the helper. *)
Record UpdateEnv := {
  ue_current_exe : string;
  ue_tmp_dir : string;
  ue_response : result string (list (result string bytes));
  ue_stage : string → string;
  ue_elevated : result string unit
}.

Section apply.
Context `{TarOps, SelfReplaceOps, JsonOps Plan}.

(** [extract] ([archive.rs]); zip archives are for Windows. *)
Definition extract (archive dest : string) : upd (list Node) :=
  let lname := map ascii_lower (bytes_of (default "" (file_name archive))) in
  if ends_with (bytes_of ".tar.gz") lname || ends_with (bytes_of ".tgz") lname then
    b ← sys_val (λ fs, match fs_read archive fs with (FileBytes b, fs) => (Ok b, fs) | (_, fs) => (Err ("open archive " +:+ archive), fs) end);
    sys_val (λ fs, let '(r, fs) := tar_unpack b dest fs in (ok_or ("extract tar.gz into " +:+ dest) r, fs))
  else if ends_with (bytes_of ".zip") lname then pfail "zip extraction is only enabled on Windows builds"%string
  else pfail ("unsupported release archive format: " +:+ archive).

(** The read loop of [download_to]. *)
Fixpoint download_chunks (dest : string) (size total : Z) (chunks : list (result string bytes)) : upd unit :=
  match chunks with
  | [] => mret tt
  | Err e :: _ => pfail ("read chunk from server: " +:+ e)
  | Ok b :: rest =>
    if decide (b = []) then mret tt else
    sys "write chunk to disk" (fs_append dest b);;
    let total := (total + blen b)%Z in
    on_progress (PgDownload total size);;
    download_chunks dest size total rest
  end.

Definition download_to (response : result string (list (result string bytes))) (dest : string) (size : Z) : upd unit :=
  match response with
  | Err e => pfail e
  | Ok chunks => sys ("create " +:+ dest) (fs_write dest []);; download_chunks dest size 0 chunks
  end.

(** [install_inline]: the sibling first, the running binary last. *)
Definition install_inline (current_exe new_self : string) (sibling_dest new_sibling : option string) (tag : string) : upd Applied :=
  match sibling_dest, new_sibling with
  | Some target, Some source => sys ("replace sibling binary at " +:+ target) (replace_sibling source target)
  | _, _ => mret tt
  end;;
  sys "replace self" (self_replace current_exe new_self);;
  mret {| ap_replaced_self := current_exe; ap_replaced_sibling := sibling_dest; ap_tag := tag; ap_elevated := false |}.

Definition is_file (path : string) : upd bool := ask_fs (λ fs, bool_decide (is_Some (content path fs))).

(** [helper_path_for] ([elevate.rs]). *)
Definition helper_path_for (current_exe : string) : upd string :=
  let name := bytes_of (default "" (file_name current_exe)) in
  let stem := if ends_with (bytes_of ".exe") name then take (length name - 4) name else name in
  if decide (stem = bytes_of "synbadd") then mret current_exe else
  let candidate := join (default "" (parent current_exe)) "synbadd" in
  present ← is_file candidate;
  mret (if present : bool then candidate else current_exe).

(** [apply_with_elevation]: the helper is this program with the hidden subcommand. *)
Definition apply_with_elevation (env : UpdateEnv) (helper plan_path : string) : upd unit :=
  present ← is_file helper;
  if negb present then pfail ("elevation helper not found at `" +:+ helper +:+ "`") else
  plift (ue_elevated env);;
  match parse_apply_update_args ["__apply-update"; "--plan"; plan_path]%string with
  | Some p => sys_val (λ fs, let '(r, fs) := apply_plan (ue_stage env) p fs in (match r with Ok _ => Ok tt | Err e => Err e end, fs))
  | None => pfail "helper exited with status"%string
  end.

(** The end of [download_and_apply]: swap the files here, or have the helper do it
    from a plan. *)
Definition install (env : UpdateEnv) (tag : string) (install_writable : bool) (current_exe new_self sibling_on_disk : string)
    (sibling_present : bool) (new_sibling : option string) : upd Applied :=
  let replaced_sibling := if sibling_present then Some sibling_on_disk else None in
  if install_writable then
    on_progress (PgStage "installing");;
    install_inline current_exe new_self replaced_sibling new_sibling tag
  else
    on_progress (PgStage "waiting for authorisation");;
    let moves := match new_sibling with Some src => [{| pm_src := src; pm_dst := sibling_on_disk |}] | None => [] end
                 ++ [{| pm_src := new_self; pm_dst := current_exe |}] in
    let plan_path := join (ue_tmp_dir env) "plan.json" in
    plan_bytes ← plift (ok_or "serialize update plan"%string (to_vec {| pl_tag := tag; pl_moves := moves |}));
    sys ("write plan to " +:+ plan_path) (fs_write plan_path plan_bytes);;
    helper ← helper_path_for current_exe;
    on_progress (PgStage "installing (elevated)");;
    apply_with_elevation env helper plan_path;;
    mret {| ap_replaced_self := current_exe; ap_replaced_sibling := replaced_sibling; ap_tag := tag; ap_elevated := true |}.

Definition download_and_apply (env : UpdateEnv) (info : UpdateInfo) : upd Applied :=
  let current_exe := ue_current_exe env in
  match parent current_exe with
  | None => pfail ("current executable has no parent directory: " +:+ current_exe)
  | Some install_dir =>
    install_writable ← (λ s, let '(ok, fs) := fs_other (up_fs s) in (Done ok, s <| up_fs := fs |>));
    on_progress (PgStage "downloading");;
    sys ("create temp dir " +:+ ue_tmp_dir env) fs_other;;
    let archive_path := join (ue_tmp_dir env) (ui_asset_name info) in
    download_to (ue_response env) archive_path (ui_asset_size info);;
    on_progress (PgStage "extracting");;
    let extract_dir := join (ue_tmp_dir env) "extract" in
    sys "create extract dir" fs_other;;
    nodes ← extract archive_path extract_dir;
    let self_basename := binary_basename_for_path current_exe in
    new_self ← plift (ok_or ("release archive did not contain `" +:+ self_basename +:+ "`") (find_binary extract_dir nodes self_basename));
    let sibling_basename_str := sibling_basename current_exe in
    let sibling_on_disk := join install_dir sibling_basename_str in
    sibling_present ← is_file sibling_on_disk;
    let new_sibling := if sibling_present : bool then find_binary extract_dir nodes sibling_basename_str else None in
    install env (ui_tag info) install_writable current_exe new_self sibling_on_disk sibling_present new_sibling
  end.
End apply.

(** ** The offered release *)

Section check_laws.
Context `{SemverLaws}.

Lemma ver_cmp_refl a : ver_cmp a a = Eq.
Proof. pose proof (ver_cmp_antisym a a) as Ha. by destruct (ver_cmp a a). Qed.

Lemma max_fold_spec {A} (xs : list (Version * A)) best :
  match fold_left max_step xs best with
  | None => best = None ∧ xs = []
  | Some b => (best = Some b ∨ b ∈ xs) ∧ (∀ x, best = Some x ∨ x ∈ xs → ver_cmp x.1 b.1 ≠ Gt)
  end.
Proof.
  revert best; induction xs as [|x xs IH]; intros best; cbn [fold_left].
  { destruct best as [b|]; [|done]. split; [by left|]. intros y [[= ->]|Hy]; [by rewrite ver_cmp_refl|by apply not_elem_of_nil in Hy]. }
  specialize (IH (max_step best x)). destruct (fold_left max_step xs _) as [b|]; [|destruct IH as [IH _]; by destruct best].
  destruct IH as [Hin Hmax]. destruct best as [b0|]; cbn [max_step] in *.
  - assert (ver_cmp b0.1 b.1 ≠ Gt ∧ ver_cmp x.1 b.1 ≠ Gt) as [Hb0 Hx].
    { destruct (ver_cmp b0.1 x.1) eqn:Ec; pose proof (Hmax _ (or_introl eq_refl)) as Hm.
      1-2: split; [|done]; eapply ver_cmp_le_trans; [|exact Hm]; by rewrite Ec.
      split; [done|]. eapply ver_cmp_le_trans; [|exact Hm]. by rewrite ver_cmp_antisym, Ec. }
    split.
    + destruct Hin as [[= <-]|Hin]; [|right; by apply elem_of_cons; right].
      destruct (ver_cmp b0.1 x.1); [right; by apply elem_of_cons; left..|by left].
    + intros y [[= <-]|[->|Hy]%elem_of_cons]; [done|done|]. apply Hmax. by right.
  - split; [right; apply elem_of_cons; destruct Hin as [[= <-]|]; auto|].
    intros y [|[->|Hy]%elem_of_cons]; [done|apply Hmax; by left|apply Hmax; by right].
Qed.

Lemma latest_spec rs v r :
  latest rs = Some (v, r) →
  r ∈ rs ∧ gr_draft r = false ∧ ver_parse (tag_version (gr_tag_name r)) = Some v ∧
  ∀ r' v', r' ∈ rs → gr_draft r' = false → ver_parse (tag_version (gr_tag_name r')) = Some v' → ver_cmp v' v ≠ Gt.
Proof.
  unfold latest. set (xs := omap _ _). intros E. pose proof (max_fold_spec xs None) as Hs. rewrite E in Hs.
  assert (∀ w q, (w, q) ∈ xs ↔ q ∈ rs ∧ gr_draft q = false ∧ ver_parse (tag_version (gr_tag_name q)) = Some w) as Hxs.
  { intros w q. unfold xs. rewrite list_elem_of_omap. split.
    - intros (q' & Hq & Hw). apply list_elem_of_In, filter_In in Hq as [Hq Hd]. destruct (ver_parse _) as [w'|] eqn:Ew; [|done].
      injection Hw as <- <-. split_and!; [by apply list_elem_of_In|by apply negb_true_iff|done].
    - intros (Hq & Hd & Hw). exists q. rewrite Hw. split; [|done]. apply list_elem_of_In, filter_In. split; [by apply list_elem_of_In|by rewrite Hd]. }
  destruct Hs as [[|Hin] Hmax]; [done|]. apply Hxs in Hin as (Hr & Hd & Hv). split_and!; [done|done|done|].
  intros r' v' Hr' Hd' Hv'. apply (Hmax (v', r')). right. by apply Hxs.
Qed.

(** The offer is the newest release, never a downgrade.  A successful check reports
    a published release whose version no other published release exceeds, with an
    asset of that release whose name is exactly the archive of this version and
    host; and it calls the release newer exactly when its version is above the
    running one. *)
Theorem check_offers_latest current target releases res :
  check_release current target releases = Ok res →
  ∃ rs r v t a, releases = Ok rs ∧ target = Ok t ∧ r ∈ rs ∧ gr_draft r = false ∧
    ver_parse (tag_version (gr_tag_name r)) = Some v ∧
    (∀ r' v', r' ∈ rs → gr_draft r' = false → ver_parse (tag_version (gr_tag_name r')) = Some v' → ver_cmp v' v ≠ Gt) ∧
    a ∈ gr_assets r ∧ ui_tag (cr_info res) = gr_tag_name r ∧ ui_asset_name (cr_info res) = ga_name a ∧
    ui_asset_url (cr_info res) = ga_url a ∧
    (∃ ext, ext ∈ [".zip"; ".tar.gz"; ".tgz"]%string ∧ ga_name a = asset_base (gr_tag_name r) t +:+ ext) ∧
    (cr_newer res = true ↔ ∃ w, ver_parse (tag_version current) = Some w ∧ ver_cmp v w = Gt).
Proof.
  unfold check_release. destruct releases as [rs|]; [|done]. cbn [rbind]. destruct (latest rs) as [[v r]|] eqn:El; [|done].
  destruct target as [t|]; [|done]. cbn [rbind]. destruct (pick_asset _ _ _) as [a|] eqn:Ea; [|done]. intros [= <-].
  apply latest_spec in El as (Hr & Hd & Hv & Hmax). exists rs, r, v, t, a. cbn [cr_info cr_newer ui_tag ui_asset_name ui_asset_url].
  apply List.find_some in Ea as [Hin Hname]. split_and!; try done; [by apply list_elem_of_In| |].
  - apply orb_true_iff in Hname as [Hn%bool_decide_eq_true|[_ Hn%bool_decide_eq_true]%andb_true_iff]; rewrite Hn.
    + destruct (ends_with _ _); eexists; (split; [|reflexivity]); set_solver.
    + exists ".tgz"%string. split; [set_solver|done].
  - unfold is_newer. rewrite Hv. destruct (ver_parse (tag_version current)) as [w|]; [|by split; [|intros (? & ? & _)]].
    split; [intros Hc; exists w; by destruct (ver_cmp v w)|]. by intros (? & [= <-] & ->).
Qed.
End check_laws.

(** The order of the assets does matter when a release carries the archive under
    both of its extensions. *)
Definition wit_asset (name : string) : GhAsset := {| ga_name := name; ga_size := 1; ga_url := "u" |}.
Example asset_order_matters :
  let a := wit_asset "synbad-1.0.0-x.tar.gz" in let b := wit_asset "synbad-1.0.0-x.tgz" in
  pick_asset [a; b] "v1.0.0" "x" = Some a ∧ pick_asset [b; a] "v1.0.0" "x" = Some b.
Proof. split; vm_compute; reflexivity. Qed.

(** ** Replacing leaves the old file or the new one *)

Lemma replace_via_spec staging src dst fs ok fs' :
  staging ≠ dst → replace_via staging src dst fs = (ok, fs') →
  touches (λ q, q = src ∨ q = staging ∨ q = dst) fs fs' ∧
  content dst fs' = (if ok then content src fs else content dst fs) ∧ (ok = true → is_Some (content src fs)) ∧
  ∀ q, q ≠ staging → q ≠ dst → content q fs' = content q fs ∨ content q fs' = None.
Proof.
  intros Hne. unfold replace_via. destruct (fs_rename src dst fs) as [ok1 fs1] eqn:E1.
  pose proof (fs_rename_touches _ _ _ _ _ E1) as T1. destruct ok1.
  { intros [= <- <-]. destruct (fs_rename_ok _ _ _ _ E1) as [Hd Hs]. split_and!; [|done|done|].
    - eapply touches_weaken; [|exact T1]. naive_solver.
    - intros q _ Hq. destruct (decide (q = src)) as [->|]; [|left; apply T1; naive_solver].
      right. revert E1. unfold fs_rename, content. destruct (next_fault fs) as [[] f0]; [|done].
      destruct (fs_files f0 !! src); [|done]. intros [= <-]. cbn. rewrite lookup_insert_ne by done. apply lookup_delete_eq. }
  assert (∀ q, content q fs1 = content q fs) as K1 by (intros q; apply T1; naive_solver).
  destruct (fs_copy src staging fs1) as [ok2 fs2] eqn:E2. destruct (fs_copy_spec _ _ _ _ _ E2) as [T2 C2].
  destruct ok2; cbn [negb].
  2:{ intros [= <- <-]. split_and!; [|by rewrite T2 by done|done|].
      - intros q Hq. rewrite T2 by naive_solver. apply K1.
      - intros q Hs _. left. rewrite T2 by done. apply K1. }
  destruct (C2 eq_refl) as [Hst Hsome]. intros E3. pose proof (fs_rename_touches _ _ _ _ _ E3) as T3.
  rewrite K1 in Hst, Hsome. split_and!.
  - intros q Hq. rewrite T3 by naive_solver. rewrite T2 by naive_solver. apply K1.
  - destruct ok; [destruct (fs_rename_ok _ _ _ _ E3) as [-> _]; done|]. rewrite T3 by naive_solver. by rewrite T2, K1 by done.
  - by intros ->.
  - intros q Hs Hd. left. rewrite T3 by naive_solver. rewrite T2 by done. apply K1.
Qed.

(** ** Everything before the swap stays in the temporary directory *)

Lemma join_prefix d n : ∃ r, bytes_of (join d n) = bytes_of d ++ r.
Proof. unfold join. destruct (_ || _); rewrite ?bytes_of_app; by eexists. Qed.

Lemma below_join d n : d ≠ ""%string → ends_with (bytes_of "/") (bytes_of d) = false → below d (join d n).
Proof.
  intros Hd He. unfold below, join. rewrite bool_decide_false, He by done. cbn [orb]. apply starts_with_true.
  exists (bytes_of n). by rewrite !bytes_of_app, <-app_assoc.
Qed.

Lemma below_prefix d p q : below d p → (∃ r, bytes_of q = bytes_of p ++ r) → below d q.
Proof. unfold below. rewrite !starts_with_true. intros (r & ->) (r' & ->). exists (r ++ r'). by rewrite <-app_assoc. Qed.

(** Every listed file lies under its directory's path. *)
Lemma dir_files_prefix n path name p body : (name, p, body) ∈ dir_files path n → ∃ r, bytes_of p = bytes_of path ++ r.
Proof.
  revert path; induction n as [| dname l Hl| |] using Node_nested_ind; intros path; try (by intros []%not_elem_of_nil).
  cbn [dir_files]. rewrite list_elem_of_In, in_flat_map. intros (e & He & Hin).
  apply list_elem_of_In in He, Hin. rewrite Forall_forall in Hl. specialize (Hl e He).
  destruct e as [fname b|dn ch|fname|]; try (by apply not_elem_of_nil in Hin).
  - apply list_elem_of_singleton in Hin. injection Hin as -> -> ->. apply join_prefix.
  - apply Hl in Hin as (r & ->). destruct (join_prefix path dn) as (r' & ->). exists (r' ++ r). by rewrite app_assoc.
Qed.

(** [find_binary] finds a listed file of that name. *)
Lemma walk_sound want n path out p ok :
  walk want path n out = (Some p, ok) → out = Some p ∨ ∃ name body, (name, p, body) ∈ dir_files path n ∧ eq_ignore_case name want = true.
Proof.
  revert path out p ok; induction n as [| dname l Hl| |] using Node_nested_ind; intros path out p ok;
    try (by destruct out; intros [= <- <-]; left).
  destruct out as [q|]; [by intros [= <- <-]; left|]. cbn [walk dir_files].
  match goal with |- ?g l None = _ → _ => set (go := g) end.
  set (files := flat_map _ l).
  assert (∀ l0 out0, (∀ e, e ∈ l0 → e ∈ l) → go l0 out0 = (Some p, ok) →
    out0 = Some p ∨ ∃ name body, (name, p, body) ∈ files ∧ eq_ignore_case name want = true) as Hgo.
  2:{ intros Hw. by eapply Hgo. }
  rewrite Forall_forall in Hl.
  induction l0 as [|e l0 IH]; intros out0 Hsub; cbn [go]; [by intros [= -> _]; left|].
  assert (e ∈ l) as He by (apply Hsub; by apply elem_of_cons; left).
  assert (∀ e', e' ∈ l0 → e' ∈ l) as Hsub' by (intros e' He'; apply Hsub; by apply elem_of_cons; right).
  assert (∀ x, x ∈ (match e with NFile name b => [(name, join path name, b)] | NDir name _ => dir_files (join path name) e | _ => [] end) → x ∈ files) as Hfiles.
  { intros x Hx. apply list_elem_of_In. apply in_flat_map. exists e. split; by apply list_elem_of_In. }
  destruct e as [name b|dn ch|name|]; [| | |by intros [= -> _]; left].
  - destruct (eq_ignore_case name want) eqn:En; [|by apply IH]. intros [= <- _]. right. exists name, b. split; [|done].
    apply Hfiles. by apply list_elem_of_singleton.
  - destruct (walk want (join path dn) (NDir dn ch) out0) as [out1 ok1] eqn:Ew.
    assert (out1 = Some p → out0 = Some p ∨ ∃ name body, (name, p, body) ∈ files ∧ eq_ignore_case name want = true) as H1.
    { intros ->. destruct (Hl _ He _ _ _ _ Ew) as [|(name & body & Hin & Hn)]; [by left|]. right. exists name, body. split; [by apply Hfiles|done]. }
    destruct ok1; [intros Hg; destruct (IH out1 Hsub' Hg); auto|]. intros [= -> _]. by apply H1.
  - by apply IH.
Qed.

(** [keeps P Pre m Q]: from states satisfying [Pre], [m] changes only files in
    [P], never waits, and its value and final files satisfy [Q]. *)
Definition keeps (P : string → Prop) {A} (Pre : Fs → Prop) (m : upd A) (Q : A → Fs → Prop) : Prop :=
  ∀ s o s', Pre (up_fs s) → m s = (o, s') →
    touches P (up_fs s) (up_fs s') ∧ o ≠ Waiting ∧ ∀ a, o = Done a → Q a (up_fs s').

Lemma keeps_ret P {A} (Pre : Fs → Prop) (a : A) Q : (∀ fs, Pre fs → Q a fs) → keeps P Pre (mret a) Q.
Proof. intros HQ s o s' Hp [= <- <-]. split_and!; [done|done|]. intros ? [= <-]. by apply HQ. Qed.

Lemma keeps_fail P {A} Pre e (Q : A → Fs → Prop) : keeps P Pre (pfail e) Q.
Proof. intros s o s' _ [= <- <-]. by split_and!. Qed.

Lemma keeps_bind P {A B} Pre (m : upd A) (k : A → upd B) Q R :
  keeps P Pre m Q → (∀ a, keeps P (Q a) (k a) R) → keeps P Pre (m ≫= k) R.
Proof.
  intros Hm Hk s o s' Hp. unfold mbind, prog_bind. destruct (m s) as [o1 s1] eqn:E.
  destruct (Hm _ _ _ Hp E) as (Ht & Hw & HQ). destruct o1 as [a|e|]; [|by intros [= <- <-]|done].
  intros E1. destruct (Hk a _ _ _ (HQ _ eq_refl) E1) as (Ht1 & Hw1 & HR). split_and!; [by etrans|done|done].
Qed.

Lemma keeps_progress P Pre p : keeps P Pre (on_progress p) (λ _, Pre).
Proof. intros s o s' Hp [= <- <-]. by split_and!. Qed.

Lemma keeps_sys P (Pre : Fs → Prop) msg op (Q : unit → Fs → Prop) :
  (∀ fs ok fs', Pre fs → op fs = (ok, fs') → touches P fs fs' ∧ (ok = true → Q tt fs')) → keeps P Pre (sys msg op) Q.
Proof.
  intros Hop s o s' Hp. unfold sys. destruct (op (up_fs s)) as [ok fs] eqn:E. intros [= <- <-].
  destruct (Hop _ _ _ Hp E) as [Ht HQ]. split_and!; [done|by destruct ok|]. intros []. destruct ok; [by intros _; apply HQ|done].
Qed.

Lemma keeps_sys_val P {A} (Pre : Fs → Prop) (op : Fs → result string A * Fs) (Q : A → Fs → Prop) :
  (∀ fs r fs', Pre fs → op fs = (r, fs') → touches P fs fs' ∧ (∀ a, r = Ok a → Q a fs')) → keeps P Pre (sys_val op) Q.
Proof.
  intros Hop s o s' Hp. unfold sys_val. destruct (op (up_fs s)) as [r fs] eqn:E. intros [= <- <-].
  destruct (Hop _ _ _ Hp E) as [Ht HQ]. split_and!; [done|by destruct r|]. intros a. destruct r; [intros [= <-]; by apply HQ|done].
Qed.

Lemma keeps_weaken P {A} (Pre Pre' : Fs → Prop) (m : upd A) (Q Q' : A → Fs → Prop) :
  keeps P Pre m Q → (∀ fs, Pre' fs → Pre fs) → (∀ a fs, Q a fs → Q' a fs) → keeps P Pre' m Q'.
Proof. intros Hm Hp HQ s o s' Hs E. destruct (Hm s o s' (Hp _ Hs) E) as (? & ? & ?). split_and!; auto. Qed.

(** A state after a sequence that may have failed half-way. *)
Lemma bind_split P {A B} Pre (m : upd A) (k : A → upd B) Q s o s' :
  keeps P Pre m Q → Pre (up_fs s) → (m ≫= k) s = (o, s') →
  (touches P (up_fs s) (up_fs s') ∧ ∃ e, o = Failed e) ∨
  ∃ a s1, touches P (up_fs s) (up_fs s1) ∧ Q a (up_fs s1) ∧ k a s1 = (o, s').
Proof.
  intros Hm Hp. unfold mbind, prog_bind. destruct (m s) as [o1 s1] eqn:E. destruct (Hm _ _ _ Hp E) as (Ht & Hw & HQ).
  destruct o1 as [a|e|]; [|intros [= <- <-]; left; by eauto|done]. intros E1. right. exists a, s1. auto.
Qed.

(** What the response amounts to, if it ends well. *)
Fixpoint response_body (chunks : list (result string bytes)) : bytes :=
  match chunks with
  | Ok b :: rest => if decide (b = []) then [] else b ++ response_body rest
  | _ => []
  end.

Lemma fs_append_ok path b fs fs' : fs_append path b fs = (true, fs') → content path fs' = Some (default [] (content path fs) ++ b).
Proof.
  unfold fs_append, content. destruct (next_fault fs) as [f fs1] eqn:E. apply next_fault_files in E.
  destruct f; intros [= <-]. cbn. by rewrite lookup_insert_eq, E.
Qed.

Lemma keeps_download_chunks P dest size total chunks got :
  P dest → keeps P (λ fs, content dest fs = Some got) (download_chunks dest size total chunks)
    (λ _ fs, content dest fs = Some (got ++ response_body chunks)).
Proof.
  intros HP. revert total got; induction chunks as [|c chunks IH]; intros total got; cbn [download_chunks response_body].
  { apply keeps_ret. intros fs ->. by rewrite app_nil_r. }
  destruct c as [b|e]; [|apply keeps_fail]. case_decide as Hb; [apply keeps_ret; intros fs ->; by rewrite app_nil_r|].
  apply (keeps_bind P _ _ _ (λ _ fs, content dest fs = Some (got ++ b))).
  - apply keeps_sys. intros fs ok fs' Hc E. split.
    + eapply touches_weaken; [|by eapply fs_append_touches]. intros q Hq; cbv beta in Hq; by subst q.
    + intros ->. by rewrite (fs_append_ok _ _ _ _ E), Hc.
  - intros _. eapply keeps_bind; [apply keeps_progress|]. intros ?. eapply keeps_weaken; [apply (IH _ (got ++ b))|done|].
    intros _ fs ->. by rewrite app_assoc.
Qed.

Lemma keeps_download P Pre response dest size :
  P dest → keeps P Pre (download_to response dest size)
    (λ _ fs, ∃ chunks, response = Ok chunks ∧ content dest fs = Some (response_body chunks)).
Proof.
  intros HP. unfold download_to. destruct response as [chunks|e]; [|apply keeps_fail].
  apply (keeps_bind P _ _ _ (λ _ fs, content dest fs = Some [])).
  - apply keeps_sys. intros fs ok fs' _ E. split; [|intros ->; by eapply fs_write_ok].
    eapply touches_weaken; [|by eapply fs_write_touches]. intros q Hq; cbv beta in Hq; by subst q.
  - intros _. eapply keeps_weaken; [by apply (keeps_download_chunks P dest size 0 chunks [])|done|]. intros ? fs Hc. by exists chunks.
Qed.

Section apply_laws.
Context `{TarLaws, SelfReplaceLaws, JsonLaws Plan}.

(** The tree unpacked from [b] is on disk. *)
Definition unpacked (b : bytes) (dest : string) (nodes : list Node) (fs : Fs) : Prop :=
  (∃ fs0 fs1, tar_unpack b dest fs0 = (Some nodes, fs1)) ∧
  ∀ name path body, (name, path, body) ∈ tree_files dest nodes → content path fs = Some body.

Lemma keeps_extract P archive dest b :
  (∀ q, below dest q → P q) →
  keeps P (λ fs, content archive fs = Some b) (extract archive dest) (λ nodes fs, unpacked b dest nodes fs).
Proof.
  intros HP. unfold extract. cbv zeta. destruct (_ || _); [|destruct (ends_with _ _); apply keeps_fail].
  apply (keeps_bind P _ _ _ (λ b' _, b' = b)).
  - apply keeps_sys_val. intros fs r fs' Hc. unfold fs_read. destruct (next_fault fs) as [f fs1] eqn:E. apply next_fault_files in E.
    assert (touches P fs fs1) as Ht by (intros q _; unfold content; by rewrite E).
    unfold content in Hc. rewrite <-E in Hc. destruct f; [rewrite Hc|]; intros [= <- <-]; (split; [done|]); [|done]. by intros ? [= <-].
  - intros b'. apply keeps_sys_val. intros fs r fs' -> E. destruct (tar_unpack b dest fs) as [r0 fs1] eqn:Eu. injection E as <- <-.
    split; [eapply touches_weaken; [|by eapply tar_stays_below]; done|].
    intros nodes Hn. destruct r0 as [nodes0|]; [|done]. injection Hn as ->. split; [by exists fs, fs1|].
    intros name path body Hin. by eapply tar_writes_files.
Qed.

(** Two files swapped one after the other, the second by an atomic step. *)
Definition new_or_old (new : bytes → Prop) (path : string) (fs fs' : Fs) : Prop :=
  content path fs' = content path fs ∨ ∃ b, new b ∧ content path fs' = Some b.

(** The archive of the response lists [body] under [name]. *)
Definition in_archive (env : UpdateEnv) (name : string) (body : bytes) : Prop :=
  ∃ chunks nodes fs0 fs1 n path, ue_response env = Ok chunks ∧
    tar_unpack (response_body chunks) (join (ue_tmp_dir env) "extract") fs0 = (Some nodes, fs1) ∧
    (n, path, body) ∈ tree_files (join (ue_tmp_dir env) "extract") nodes ∧ eq_ignore_case n name = true.

(** The paths of an update do not overlap: the installation is not inside the
    temporary directory, and staging files are files of their own. *)
Record update_paths_ok (env : UpdateEnv) (dir : string) : Prop := {
  uo_parent : parent (ue_current_exe env) = Some dir;
  uo_tmp : ue_tmp_dir env ≠ ""%string ∧ ends_with (bytes_of "/") (bytes_of (ue_tmp_dir env)) = false;
  uo_outside : ∀ q, q ∈ [ue_current_exe env; join dir (sibling_basename (ue_current_exe env));
      with_extension (join dir (sibling_basename (ue_current_exe env))) "synbad-update.new";
      ue_stage env (ue_current_exe env); ue_stage env (join dir (sibling_basename (ue_current_exe env)))] → ¬ below (ue_tmp_dir env) q;
  uo_self_sibling : ue_current_exe env ≠ join dir (sibling_basename (ue_current_exe env));
  uo_staging : with_extension (join dir (sibling_basename (ue_current_exe env))) "synbad-update.new" ∉
      [ue_current_exe env; join dir (sibling_basename (ue_current_exe env))];
  uo_stage : ∀ d, d ∈ [ue_current_exe env; join dir (sibling_basename (ue_current_exe env))] →
      ue_stage env d ∉ [ue_current_exe env; join dir (sibling_basename (ue_current_exe env))]
}.

(** How the two binaries may stand after the swap of [new_sibling] and [new_self]. *)
Definition swapped (cur sib new_self : string) (new_sibling : option string) (ok : bool) (fs fs' : Fs) : Prop :=
  (if ok then content cur fs' = content new_self fs ∧ is_Some (content new_self fs) ∧
              content sib fs' = match new_sibling with Some src => content src fs | None => content sib fs end
   else content cur fs' = content cur fs ∧
        (content sib fs' = content sib fs ∨ ∃ src, new_sibling = Some src ∧ content sib fs' = content src fs ∧ is_Some (content src fs))).

(** One swap of the sibling through staging, then an atomic one of the binary. *)
Lemma swap_two staging cur sib new_self src fs fs1 fs2 (ok : bool) :
  staging ≠ sib → staging ≠ cur → cur ≠ sib → new_self ≠ staging → new_self ≠ sib → src ≠ sib → src ≠ cur →
  replace_via staging src sib fs = (true, fs1) →
  (content cur fs2 = (if ok then content new_self fs1 else content cur fs1)) → (ok = true → is_Some (content new_self fs1)) →
  content sib fs2 = content sib fs1 →
  swapped cur sib new_self (Some src) ok fs fs2.
Proof.
  intros Hsd Hsc Hcs Hns Hnd Hss Hscur E Hcur Hsome Hsib. destruct (replace_via_spec _ _ _ _ _ _ Hsd E) as (T & Hd & Hs & Hq).
  assert (content cur fs1 = content cur fs) as Kc by (apply T; intros [?|[?|?]]; congruence).
  unfold swapped. destruct ok.
  - specialize (Hsome eq_refl). destruct (Hq new_self Hns Hnd) as [K|K]; [|rewrite K in Hsome; by destruct Hsome].
    rewrite Hcur, K, Hsib, Hd. rewrite K in Hsome. done.
  - rewrite Hcur, Kc, Hsib, Hd. split; [done|]. right. exists src. auto.
Qed.

Lemma install_inline_swaps env dir tag new_self sibling_dest new_sibling s o s' :
  update_paths_ok env dir → let cur := ue_current_exe env in let sib := join dir (sibling_basename cur) in
  below (ue_tmp_dir env) new_self → (∀ src, new_sibling = Some src → below (ue_tmp_dir env) src ∧ sibling_dest = Some sib) →
  install_inline cur new_self sibling_dest new_sibling tag s = (o, s') →
  ∃ ok, swapped cur sib new_self new_sibling ok (up_fs s) (up_fs s') ∧
    if ok then o = Done {| ap_replaced_self := cur; ap_replaced_sibling := sibling_dest; ap_tag := tag; ap_elevated := false |}
    else ∃ e, o = Failed e.
Proof.
  intros [_ _ Hout Hcs Hst _]. cbv zeta. set (cur := ue_current_exe env) in *. set (sib := join dir (sibling_basename cur)) in *.
  intros Hnew Hsrc. set (staging := with_extension sib "synbad-update.new") in *.
  assert (∀ q q', below (ue_tmp_dir env) q → q' ∈ [cur; sib; staging] → q ≠ q') as Hne.
  { intros q q' Hb Hq' Heq. rewrite Heq in Hb. apply (Hout q'); [|done]. set_solver. }
  unfold install_inline, mbind, prog_bind, sys, mret, prog_ret.
  destruct new_sibling as [src|].
  - destruct (Hsrc src eq_refl) as [Hb ->]. unfold replace_sibling. fold staging.
    destruct (replace_via staging src sib (up_fs s)) as [ok1 fs1] eqn:E1.
    destruct ok1.
    + cbn [up_fs update_field]. destruct (self_replace cur new_self fs1) as [ok2 fs2] eqn:E2.
      destruct (self_replace_atomic _ _ _ _ _ E2) as (T2 & S2 & C2).
      intros E. exists ok2. assert (up_fs s' = fs2) as -> by (by destruct ok2; injection E as _ <-). split; [|destruct ok2; injection E as <- _; by eauto].
      apply (swap_two staging cur sib new_self src (up_fs s) fs1 fs2 ok2); set_solver.
    + assert (staging ≠ sib) as Hsd by set_solver. intros [= <- <-]. exists false. split; [|by eauto]. destruct (replace_via_spec _ _ _ _ _ _ Hsd E1) as (T & Hd & _).
      split; [apply T; intros [Hx|[Hx|Hx]]; [|set_solver..]; by apply (Hne src cur); [|set_solver|]|by left].
  - intros E. assert (∃ ok2 fs2, self_replace cur new_self (up_fs s) = (ok2, fs2) ∧ up_fs s' = fs2 ∧
      if ok2 then o = Done {| ap_replaced_self := cur; ap_replaced_sibling := sibling_dest; ap_tag := tag; ap_elevated := false |} else ∃ e, o = Failed e)
      as (ok2 & fs2 & E2 & <- & Ho).
    { revert E. destruct sibling_dest; cbn; destruct (self_replace cur new_self (up_fs s)) as [ok2 fs2];
        intros E; exists ok2, fs2; destruct ok2; injection E as <- <-; by eauto. }
    destruct (self_replace_atomic _ _ _ _ _ E2) as (T2 & S2 & C2). exists ok2. split; [|done].
    unfold swapped. rewrite C2. assert (content sib (up_fs s') = content sib (up_fs s)) as -> by (apply T2; by apply not_eq_sym).
    destruct ok2; [by split_and!; [|apply S2|]|by split; [|left]].
Qed.

(** The helper's plan: the sibling, if it is to be replaced, then the binary. *)
Definition plan_moves (cur sib new_self : string) (new_sibling : option string) : list PlanMove :=
  match new_sibling with Some src => [{| pm_src := src; pm_dst := sib |}] | None => [] end ++ [{| pm_src := new_self; pm_dst := cur |}].

Lemma swapped_unchanged cur sib new_self new_sibling fs fs' :
  content cur fs' = content cur fs → content sib fs' = content sib fs → swapped cur sib new_self new_sibling false fs fs'.
Proof. intros Hc Hs. split; [done|by left]. Qed.

Lemma swapped_from cur sib new_self new_sibling ok fs fs1 fs2 :
  (∀ q, content q fs1 = content q fs) → swapped cur sib new_self new_sibling ok fs1 fs2 → swapped cur sib new_self new_sibling ok fs fs2.
Proof.
  intros K. unfold swapped. destruct ok.
  - intros (-> & Hs & ->). rewrite K in *. destruct new_sibling; by rewrite ?K.
  - intros (-> & Hs). split; [apply K|]. destruct Hs as [->|(src & -> & -> & Hs)]; [left; apply K|right]. rewrite K in *. by exists src.
Qed.

Lemma apply_moves_swaps env dir new_self new_sibling fs r fs' :
  update_paths_ok env dir → let cur := ue_current_exe env in let sib := join dir (sibling_basename cur) in
  below (ue_tmp_dir env) new_self → (∀ src, new_sibling = Some src → below (ue_tmp_dir env) src) →
  apply_moves (ue_stage env) (plan_moves cur sib new_self new_sibling) fs = (r, fs') →
  swapped cur sib new_self new_sibling (is_ok r) fs fs'.
Proof.
  intros [_ _ Hout Hcs _ Hst]. cbv zeta. set (cur := ue_current_exe env) in *. set (sib := join dir (sibling_basename cur)) in *.
  intros Hnew Hsrc.
  assert (∀ q q', below (ue_tmp_dir env) q → q' ∈ [cur; sib; ue_stage env cur; ue_stage env sib] → q ≠ q') as Hne.
  { intros q q' Hb Hq' Heq. rewrite Heq in Hb. apply (Hout q'); [|done]. set_solver. }
  pose proof (Hst cur ltac:(set_solver)) as Hstc. pose proof (Hst sib ltac:(set_solver)) as Hsts.
  assert (ue_stage env cur ≠ cur) as Hcc by set_solver. assert (ue_stage env sib ≠ sib) as Hss by set_solver.
  assert (ue_stage env sib ≠ cur) as Hsc by set_solver.
  assert (∀ fs1 ok2 fs2, replace_via (ue_stage env cur) new_self cur fs1 = (ok2, fs2) →
    content sib fs2 = content sib fs1 ∧ content cur fs2 = (if ok2 then content new_self fs1 else content cur fs1) ∧
    (ok2 = true → is_Some (content new_self fs1))) as Hself.
  { intros fs1 ok2 fs2 E2. destruct (replace_via_spec _ _ _ _ _ _ Hcc E2) as (T2 & C2 & S2 & _). split_and!; [|done|done].
    apply T2. intros [Hx|[Hx|Hx]]; [by apply (Hne new_self sib); [done|set_solver|]|set_solver|by apply Hcs]. }
  unfold plan_moves. destruct new_sibling as [src|]; cbn [app apply_moves pm_src pm_dst]; unfold external_replace.
  - specialize (Hsrc src eq_refl). destruct (replace_via (ue_stage env sib) src sib fs) as [ok1 fs1] eqn:E1. destruct ok1.
    + destruct (replace_via (ue_stage env cur) new_self cur fs1) as [ok2 fs2] eqn:E2. destruct (Hself _ _ _ E2) as (Ks & Kc & Ksome).
      intros E. assert (fs' = fs2 ∧ is_ok r = ok2) as [-> ->] by (destruct ok2; injection E as <- <-; done).
      apply (swap_two (ue_stage env sib) cur sib new_self src fs fs1 fs2 ok2);
        [done|exact Hsc|done|apply Hne; [done|set_solver]..|exact E1|exact Kc|exact Ksome|exact Ks].
    + intros [= <- <-]. destruct (replace_via_spec _ _ _ _ _ _ Hss E1) as (T & Hd & _). apply swapped_unchanged; [|done].
      apply T. intros [Hx|[Hx|Hx]]; [by apply (Hne src cur); [done|set_solver|]|set_solver|done].
  - destruct (replace_via (ue_stage env cur) new_self cur fs) as [ok2 fs2] eqn:E2. destruct (Hself _ _ _ E2) as (Ks & Kc & Ksome).
    intros E. assert (fs' = fs2 ∧ is_ok r = ok2) as [-> ->] by (destruct ok2; injection E as <- <-; done).
    unfold swapped. rewrite Ks, Kc. destruct ok2; [by split_and!; [|apply Ksome|]|by split; [|left]].
Qed.

Lemma elevation_swaps env dir tag helper plan_path new_self new_sibling plan_bytes s o s' :
  update_paths_ok env dir → let cur := ue_current_exe env in let sib := join dir (sibling_basename cur) in
  below (ue_tmp_dir env) new_self → (∀ src, new_sibling = Some src → below (ue_tmp_dir env) src) →
  to_vec {| pl_tag := tag; pl_moves := plan_moves cur sib new_self new_sibling |} = Some plan_bytes →
  content plan_path (up_fs s) = Some plan_bytes →
  apply_with_elevation env helper plan_path s = (o, s') →
  ∃ ok, swapped cur sib new_self new_sibling ok (up_fs s) (up_fs s') ∧ if ok then o = Done tt else ∃ e, o = Failed e.
Proof.
  intros Henv cur sib Hnew Hsrc Hvec Hplan. unfold apply_with_elevation, is_file, ask_fs, plift, mbind, prog_bind.
  destruct (bool_decide _); cbn [negb]; [|intros [= <- <-]; exists false; split; [by apply swapped_unchanged|by eauto]].
  destruct (ue_elevated env) as [[]|e]; [|intros [= <- <-]; exists false; split; [by apply swapped_unchanged|by eauto]].
  unfold mret, prog_ret. change (parse_apply_update_args _) with (Some plan_path). unfold sys_val, apply_plan, fs_read.
  destruct (next_fault (up_fs s)) as [f fs1] eqn:Ef. apply next_fault_files in Ef.
  assert (∀ q, content q fs1 = content q (up_fs s)) as K1 by (intros q; unfold content; by rewrite Ef).
  destruct f; [|intros [= <- <-]; exists false; split; [apply swapped_unchanged; apply K1|by eauto]].
  pose proof (K1 plan_path) as Kp. rewrite Hplan in Kp. unfold content in Kp. rewrite Kp, (from_slice_to_vec _ _ Hvec). cbn [pl_moves].
  destruct (apply_moves _ _ fs1) as [r fs2] eqn:Em. pose proof (apply_moves_swaps env dir new_self new_sibling fs1 r fs2 Henv Hnew Hsrc Em) as Hsw.
  intros E. assert (up_fs s' = fs2) as -> by (destruct r; injection E as _ <-; done). exists (is_ok r). split.
  - by eapply swapped_from.
  - destruct r as [[]|e]; injection E as <- _; [done|by exists e].
Qed.

(** What an update leaves behind, compared with the files it started from. *)
Definition update_outcome (env : UpdateEnv) (dir tag : string) (fs : Fs) (o : outcome string Applied) (fs' : Fs) : Prop :=
  let cur := ue_current_exe env in
  let sib := join dir (sibling_basename cur) in
  match o with
  | Waiting => False
  | Failed _ => content cur fs' = content cur fs ∧ new_or_old (in_archive env (sibling_basename cur)) sib fs fs'
  | Done ap => ap_replaced_self ap = cur ∧ ap_tag ap = tag ∧
               (∃ b, in_archive env (binary_basename_for_path cur) b ∧ content cur fs' = Some b) ∧
               new_or_old (in_archive env (sibling_basename cur)) sib fs fs'
  end.

(** Running on from a state in which only temporary files have changed. *)
Lemma land_bind P {A B} (Post : outcome string B → Fs → Prop) Pre (m : upd A) (k : A → upd B) Q fs0 s :
  (∀ e fs', touches P fs0 fs' → Post (Failed e) fs') → keeps P Pre m Q → Pre (up_fs s) → touches P fs0 (up_fs s) →
  (∀ a s1, touches P fs0 (up_fs s1) → Q a (up_fs s1) → ∀ o s', k a s1 = (o, s') → Post o (up_fs s')) →
  ∀ o s', (m ≫= k) s = (o, s') → Post o (up_fs s').
Proof.
  intros Hfail Hm Hp Ht Hk o s' E. destruct (bind_split _ _ _ _ _ _ _ _ Hm Hp E) as [(Ht1 & e & ->)|(a & s1 & Ht1 & HQ & E1)].
  - apply Hfail. by etrans.
  - eapply Hk; [by etrans|done|done].
Qed.

Lemma keeps_ask P {A} (Pre : Fs → Prop) (op : Fs → A) : keeps P Pre (ask_fs op) (λ _, Pre).
Proof. intros s o s' Hp [= <- <-]. by split_and!. Qed.

Lemma keeps_lift P {A} (Pre : Fs → Prop) (r : result string A) : keeps P Pre (plift r) (λ a fs, Pre fs ∧ r = Ok a).
Proof. destruct r; [apply keeps_ret; auto|apply keeps_fail]. Qed.

Lemma keeps_quiet P (Pre : Fs → Prop) msg : (∀ fs fs', fs_files fs = fs_files fs' → Pre fs → Pre fs') → keeps P Pre (sys msg fs_other) (λ _, Pre).
Proof.
  intros Hext. apply keeps_sys. intros fs ok fs' Hp E. split; [by eapply fs_other_touches|]. intros _.
  eapply Hext; [|exact Hp]. by rewrite (fs_other_files _ _ _ E).
Qed.

(** The plan file is not among the extracted ones. *)
Lemma plan_not_extracted tmp nodes name path body :
  tmp ≠ ""%string → ends_with (bytes_of "/") (bytes_of tmp) = false →
  (name, path, body) ∈ tree_files (join tmp "extract") nodes → path ≠ join tmp "plan.json".
Proof.
  intros Ht He Hin ->. apply dir_files_prefix in Hin as (r & Hr). revert Hr. unfold join. rewrite bool_decide_false, He by done. cbn [orb].
  rewrite !bytes_of_app, <-!app_assoc. intros Hr%app_inv_head. done.
Qed.

(** The last step: whatever way the two files are swapped. *)
Lemma swapped_outcome env dir tag fs0 fs fs' nodes b new_self new_sibling (ok : bool) (o : outcome string Applied) :
  let cur := ue_current_exe env in let sib := join dir (sibling_basename cur) in
  (∃ chunks, ue_response env = Ok chunks ∧ b = response_body chunks) →
  unpacked b (join (ue_tmp_dir env) "extract") nodes fs →
  find_binary (join (ue_tmp_dir env) "extract") nodes (binary_basename_for_path cur) = Some new_self →
  (∀ src, new_sibling = Some src → find_binary (join (ue_tmp_dir env) "extract") nodes (sibling_basename cur) = Some src) →
  content cur fs = content cur fs0 → content sib fs = content sib fs0 →
  swapped cur sib new_self new_sibling ok fs fs' →
  (if ok then ∃ ap, o = Done ap ∧ ap_replaced_self ap = cur ∧ ap_tag ap = tag else ∃ e, o = Failed e) →
  update_outcome env dir tag fs0 o fs'.
Proof.
  intros cur sib (chunks & Hresp & ->) [(f0 & f1 & Hun) Hfiles] Hself Hsib Ecur Esib Hsw Ho.
  assert (∀ want p, find_binary (join (ue_tmp_dir env) "extract") nodes want = Some p →
    ∃ body, in_archive env want body ∧ content p fs = Some body) as Hfound.
  { intros want p Hf. unfold find_binary in Hf. destruct (walk want _ _ None) as [r ok0] eqn:Ew. cbn in Hf. subst r.
    apply walk_sound in Ew as [|(name & body & Hin & Hn)]; [done|]. exists body. split; [|by eapply Hfiles].
    by exists chunks, nodes, f0, f1, name, p. }
  destruct (Hfound _ _ Hself) as (bself & Hin & Hc). unfold swapped in Hsw.
  destruct ok.
  - destruct Ho as (ap & -> & Hcur & Htag). destruct Hsw as (K1 & _ & K2). unfold update_outcome. fold cur sib.
    split_and!; [done|done|exists bself; by rewrite K1|]. unfold new_or_old. rewrite K2.
    destruct new_sibling as [src|]; [|by left]. right. destruct (Hfound _ _ (Hsib src eq_refl)) as (bs & Hbs & ->). by exists bs.
  - destruct Ho as (e & ->). destruct Hsw as (K1 & K2). unfold update_outcome. fold cur sib. split; [by rewrite K1|].
    unfold new_or_old. destruct K2 as [->|(src & Hs & -> & _)]; [by left|right].
    destruct (Hfound _ _ (Hsib src Hs)) as (bs & Hbs & ->). by exists bs.
Qed.

Lemma keeps_helper P (Pre : Fs → Prop) exe : keeps P Pre (helper_path_for exe) (λ _, Pre).
Proof.
  unfold helper_path_for. cbv zeta. case_decide; [by apply keeps_ret|].
  eapply keeps_bind; [apply keeps_ask|]. intros ?. by apply keeps_ret.
Qed.

(** From the unpacked tree on, whichever way the files are swapped. *)
Lemma install_outcome env dir tag fs0 chunks nodes new_self (writable present : bool) new_sibling s o s' :
  let cur := ue_current_exe env in let sib := join dir (sibling_basename cur) in
  let extract_dir := join (ue_tmp_dir env) "extract" in
  update_paths_ok env dir → ue_response env = Ok chunks → touches (below (ue_tmp_dir env)) fs0 (up_fs s) →
  unpacked (response_body chunks) extract_dir nodes (up_fs s) →
  find_binary extract_dir nodes (binary_basename_for_path cur) = Some new_self →
  (∀ src, new_sibling = Some src → find_binary extract_dir nodes (sibling_basename cur) = Some src ∧ present = true) →
  install env tag writable cur new_self sib present new_sibling s = (o, s') →
  update_outcome env dir tag fs0 o (up_fs s').
Proof.
  intros cur sib extract_dir Henv Hresp T9 Hun9 Hfind Hns. pose proof Henv as [_ [Ht1 Ht2] Hout _ _ _].
  set (tmp := ue_tmp_dir env) in *. set (P := below tmp). set (Post := update_outcome env dir tag fs0).
  assert (¬ P cur ∧ ¬ P sib) as [Hncur Hnsib] by (split; apply Hout; set_solver).
  assert (∀ e fs', touches P fs0 fs' → Post (Failed e) fs') as Hfail.
  { intros e fs' Ht. split; [by apply Ht|]. left. by apply Ht. }
  assert (∀ want p, find_binary extract_dir nodes want = Some p → P p) as Hbelow.
  { intros want p Hf. unfold find_binary in Hf. destruct (walk _ _ _ None) as [r ok0] eqn:Ew. cbn in Hf. subst r.
    apply walk_sound in Ew as [|(name & body & Hin & _)]; [done|]. apply dir_files_prefix in Hin.
    eapply below_prefix; [by apply below_join|exact Hin]. }
  set (Have := unpacked (response_body chunks) extract_dir nodes).
  assert (∀ src, new_sibling = Some src → P src) as Hsrc by (intros src Hs; eapply Hbelow, Hns, Hs).
  revert o s'. unfold install. cbv zeta. destruct writable.
  - eapply (land_bind P Post Have); [exact Hfail|apply keeps_progress|exact Hun9|exact T9|]. intros ? s10 T10 Hun10 o s' E.
    apply (install_inline_swaps env dir) in E as (ok & Hsw & Ho); [|done|by eapply Hbelow|].
    2:{ intros src Hs. split; [by apply Hsrc|]. by destruct (Hns src Hs) as [_ ->]. }
    eapply (swapped_outcome env dir _ _ (up_fs s10) _ nodes _ new_self new_sibling ok); [by exists chunks|exact Hun10|exact Hfind|
      intros src Hs; apply (Hns src Hs)|by apply T10|by apply T10|exact Hsw|]. destruct ok; [by eexists|done].
  - eapply (land_bind P Post Have); [exact Hfail|apply keeps_progress|exact Hun9|exact T9|]. intros ? s10 T10 Hun10.
    eapply (land_bind P Post Have); [exact Hfail|apply keeps_lift|exact Hun10|exact T10|]. intros plan s11 T11 [Hun11 Hvec].
    set (Ready := λ fs, Have fs ∧ content (join tmp "plan.json") fs = Some plan).
    eapply (land_bind P Post Have _ _ (λ _, Ready)); [exact Hfail| |exact Hun11|exact T11|].
    { apply keeps_sys. intros fs ok fs' Hu E. pose proof (fs_write_touches _ _ _ _ _ E) as Tw. split.
      - eapply touches_weaken; [|exact Tw]. intros q Hq; cbv beta in Hq; subst q. by apply below_join.
      - intros ->. split; [|by eapply fs_write_ok]. destruct Hu as [Hu1 Hu2]. split; [done|]. intros name path body Hin.
        rewrite Tw; [by eapply Hu2|]. by apply (plan_not_extracted tmp nodes name path body). }
    intros ? s12 T12 H12. eapply (land_bind P Post Ready); [exact Hfail|apply keeps_helper|exact H12|exact T12|]. intros helper s13 T13 H13.
    eapply (land_bind P Post Ready); [exact Hfail|apply keeps_progress|exact H13|exact T13|]. intros ? s14 T14 [Hun14 Hplan] o s'.
    unfold mbind at 1, prog_bind at 1. destruct (apply_with_elevation env helper _ s14) as [o1 s1] eqn:E.
    apply (elevation_swaps env dir tag _ _ new_self new_sibling plan) in E as (ok & Hsw & Ho);
      [|done|by eapply Hbelow|exact Hsrc| |exact Hplan].
    2:{ fold cur sib. unfold plan_moves. destruct (to_vec _); [by injection Hvec as ->|done]. }
    intros E. assert (s' = s1) as -> by (destruct ok; [subst o1|destruct Ho as [e ->]]; by injection E as _ <-).
    eapply (swapped_outcome env dir _ _ (up_fs s14) _ nodes _ new_self new_sibling ok); [by exists chunks|exact Hun14|exact Hfind|
      intros src Hs; apply (Hns src Hs)|by apply T14|by apply T14|exact Hsw|].
    destruct ok; [subst o1; injection E as <-; by eexists|destruct Ho as [e ->]; injection E as <-; by exists e].
Qed.

(** C31: An update replaces the running binary by the archive's, or not at all.  On any
    download, under any failing system call, declined authorisation or short
    archive, an update ends; when it reports success the running binary holds
    exactly the bytes the downloaded archive lists under its name, installed
    directly or by the elevated helper alike; when it reports an error the running
    binary holds what it held; and the sibling always holds its old bytes or the
    archive's, never a part of them. *)
Theorem update_all_or_nothing env info dir s o s' :
  update_paths_ok env dir → download_and_apply env info s = (o, s') →
  update_outcome env dir (ui_tag info) (up_fs s) o (up_fs s').
Proof.
  intros Henv. pose proof Henv as [Hpar [Ht1 Ht2] Hout _ _ _]. unfold download_and_apply. cbv zeta. rewrite Hpar.
  set (cur := ue_current_exe env) in *. set (tmp := ue_tmp_dir env) in *. set (sib := join dir (sibling_basename cur)) in *.
  set (extract_dir := join tmp "extract"). set (P := below tmp). set (Post := update_outcome env dir (ui_tag info) (up_fs s)).
  assert (¬ P cur ∧ ¬ P sib) as [Hncur Hnsib] by (split; apply Hout; set_solver).
  assert (∀ e fs', touches P (up_fs s) fs' → Post (Failed e) fs') as Hfail.
  { intros e fs' Ht. split; [by apply Ht|]. left. by apply Ht. }
  assert (∀ n, P (join tmp n)) as Hjoin by (intros n; by apply below_join).
  assert (∀ q, below extract_dir q → P q) as Hext.
  { intros q Hq. eapply below_prefix; [apply (Hjoin "extract")|]. unfold below in Hq. apply starts_with_true in Hq as (r & ->).
    rewrite bytes_of_app, <-app_assoc. by eexists. }
  revert o s'. eapply (land_bind P Post (λ _, True) _ _ (λ _ _, True)); [exact Hfail| |done|done|].
  { intros s0 o s' _. destruct (fs_other (up_fs s0)) as [ok fs] eqn:E. intros [= <- <-]. split_and!; [by eapply fs_other_touches|done|done]. }
  intros writable s1 T1 _. eapply (land_bind P Post (λ _, True)); [exact Hfail|apply keeps_progress|exact I|exact T1|]. intros ? s2 T2 _.
  eapply (land_bind P Post (λ _, True)); [exact Hfail|by apply (keeps_quiet P (λ _, True))|exact I|exact T2|]. intros ? s3 T3 _.
  eapply (land_bind P Post (λ _, True)); [exact Hfail|apply (keeps_download P (λ _, True)), Hjoin|exact I|exact T3|]. intros ? s4 T4 Hdown.
  destruct Hdown as (chunks & Hresp & Hbody).
  set (Got := λ fs, content (join tmp (ui_asset_name info)) fs = Some (response_body chunks)).
  eapply (land_bind P Post Got); [exact Hfail|apply keeps_progress|exact Hbody|exact T4|]. intros ? s5 T5 Hbody5.
  eapply (land_bind P Post Got); [exact Hfail|apply keeps_quiet; by intros f f' Hf; unfold Got, content; rewrite Hf|exact Hbody5|exact T5|]. intros ? s6 T6 Hbody6.
  eapply (land_bind P Post Got); [exact Hfail|by apply keeps_extract|exact Hbody6|exact T6|]. intros nodes s7 T7 Hun.
  set (Have := unpacked (response_body chunks) extract_dir nodes).
  eapply (land_bind P Post Have); [exact Hfail|apply keeps_lift|exact Hun|exact T7|]. intros new_self s8 T8 [Hun8 Hself].
  eapply (land_bind P Post Have); [exact Hfail|apply keeps_ask|exact Hun8|exact T8|]. intros present s9 T9 Hun9.
  assert (find_binary extract_dir nodes (binary_basename_for_path cur) = Some new_self) as Hfind
    by (fold cur extract_dir in Hself; destruct (find_binary _ _ _); [by injection Hself as ->|done]). clear Hself.
  intros o s'. apply (install_outcome env dir (ui_tag info) (up_fs s) chunks nodes); [done|done|exact T9|exact Hun9|exact Hfind|].
  intros src Hs. by destruct present.
Qed.
End apply_laws.

(** ** Concrete updates *)

Definition toy_semver : SemverOps :=
  {| Version := Z; ver_parse s := if decide (s = ""%string) then None else Some (be_value (bytes_of s)); ver_cmp := Z.compare |}.
Lemma toy_semver_laws : SemverLaws (H := toy_semver).
Proof.
  split; cbn; [intros a b; apply Z.compare_antisym|]. intros a b c. rewrite !Z.compare_le_iff. lia.
Qed.

(** An archive that is the one file [synbadd]. *)
Definition toy_tar : TarOps :=
  {| tar_unpack b dir fs :=
       if bool_decide (dir = ""%string) || ends_with (bytes_of "/") (bytes_of dir) then (None, fs)
       else (Some [NFile "synbadd" b], set_file (join dir "synbadd") b fs) |}.
Lemma toy_tar_laws : TarLaws (H := toy_tar).
Proof.
  split; cbn; intros b dir fs r fs'; destruct (_ || _) eqn:E; try done; try (by intros [= <- <-]).
  - apply orb_false_iff in E as [Hd%bool_decide_eq_false He]. intros [= <- <-] q Hq. unfold content. cbn.
    apply lookup_insert_ne. intros <-. by apply Hq, below_join.
  - intros [= <- <-] name path body Hin. cbn in Hin. apply list_elem_of_singleton in Hin. injection Hin as -> -> ->.
    unfold content. cbn. by rewrite lookup_insert_eq.
Qed.

Definition toy_self_replace : SelfReplaceOps :=
  {| self_replace current new fs :=
       let '(f, fs) := next_fault fs in
       match f, content new fs with Works, Some b => (true, set_file current b fs) | _, _ => (false, fs) end |}.
Lemma toy_self_replace_laws : SelfReplaceLaws (H := toy_self_replace).
Proof.
  split. cbn. intros current new fs ok fs'. destruct (next_fault fs) as [f fs1] eqn:E. apply next_fault_files in E.
  unfold content. destruct f, (fs_files fs1 !! new) eqn:En; intros [= <- <-]; rewrite <-E; cbn; split_and!; try done.
  - intros q Hq. unfold content. cbn. by rewrite lookup_insert_ne, E.
  - by rewrite lookup_insert_eq, En.
  - intros q Hq. unfold content. by rewrite E.
  - intros q Hq. unfold content. by rewrite E.
  - intros q Hq. unfold content. by rewrite E.
Qed.

Definition toy_plan_codec : Codec Plan :=
  codec_iso (λ p, (pl_tag p, map (λ m, (pm_src m, pm_dst m)) (pl_moves p)))
    (λ x, {| pl_tag := x.1; pl_moves := map (λ m, {| pm_src := m.1; pm_dst := m.2 |}) x.2 |})
    ltac:(intros [t l]; cbn; f_equal; induction l as [|[s d] l IH]; cbn; by f_equal)
    (codec_pair codec_str (codec_list (codec_pair codec_str codec_str))).
Definition toy_json_plan : JsonOps Plan := json_of_codec toy_plan_codec.
Lemma toy_json_plan_laws : JsonLaws Plan (H := toy_json_plan).
Proof. apply json_of_codec_laws. Qed.

Section witnesses.
#[local] Existing Instances toy_semver toy_semver_laws toy_tar toy_tar_laws toy_self_replace toy_self_replace_laws toy_json_plan toy_json_plan_laws.

Definition wit_release (tag : string) (draft : bool) : GhRelease :=
  {| gr_tag_name := tag; gr_html_url := "h"; gr_body := None; gr_draft := draft;
     gr_assets := [wit_asset "notes"; wit_asset ("synbad-" +:+ tag_version tag +:+ "-x.tar.gz")] |}.

Example check_offers_latest_witness :
  match check_release "1.0.0" (Ok "x"%string) (Ok [wit_release "v1.2.0" false; wit_release "v1.3.0" false; wit_release "v9.0.0" true]) with
  | Ok res => cr_newer res = true ∧ ui_tag (cr_info res) = "v1.3.0"%string
  | Err _ => False
  end.
Proof.
  destruct (check_release "1.0.0" (Ok "x"%string) (Ok [wit_release "v1.2.0" false; wit_release "v1.3.0" false; wit_release "v9.0.0" true]))
    as [res|e] eqn:E; [|vm_compute in E; discriminate].
  assert (ui_tag (cr_info res) = "v1.3.0"%string) as Ht by (vm_compute in E; injection E as <-; reflexivity).
  split; [|exact Ht].
  destruct (check_offers_latest "1.0.0" (Ok "x"%string) _ res E) as (rs & r & v & t & a & _ & _ & _ & _ & Hv & _ & _ & Htag & _ & _ & _ & Hnew).
  apply Hnew. exists (be_value (bytes_of "1.0.0")). split; [reflexivity|]. rewrite Ht in Htag. rewrite <-Htag in Hv. vm_compute in Hv. injection Hv as <-. reflexivity.
Defined.

Definition wit_update_env (elevated : result string unit) : UpdateEnv :=
  {| ue_current_exe := "/opt/synbad/synbadd"; ue_tmp_dir := "/tmp/u"; ue_response := Ok [Ok (bytes_of "new"); Ok (bytes_of " code")];
     ue_stage := λ d, d +:+ ".stage"; ue_elevated := elevated |}.
Definition wit_info : UpdateInfo :=
  {| ui_tag := "v2"; ui_version := "2"; ui_html_url := ""; ui_asset_url := ""; ui_asset_name := "synbad-2-x.tar.gz"; ui_asset_size := 8; ui_body := "" |}.
(** The installation directory is not writable, and the rename crosses devices. *)
Definition wit_upd : Upd :=
  {| up_fs := {| fs_files := {["/opt/synbad/synbadd"%string := bytes_of "old code"]};
                 fs_faults := [FailsAfter 0; Works; Works; Works; Works; Works; Works; Works; Works; FailsAfter 0] |}; up_progress := [] |}.

Lemma wit_update_paths e : update_paths_ok (wit_update_env e) "/opt/synbad".
Proof.
  split; cbn [ue_current_exe ue_tmp_dir ue_stage wit_update_env].
  - reflexivity.
  - split; [discriminate|reflexivity].
  - apply Forall_forall. repeat constructor; vm_compute; discriminate.
  - vm_compute. discriminate.
  - apply (bool_decide_unpack _). vm_compute. exact I.
  - apply Forall_forall. repeat constructor; apply (bool_decide_unpack _); vm_compute; exact I.
Qed.

Example update_all_or_nothing_witness :
  let '(o, s') := download_and_apply (wit_update_env (Ok tt)) wit_info wit_upd in
  update_outcome (wit_update_env (Ok tt)) "/opt/synbad" "v2" (up_fs wit_upd) o (up_fs s') ∧
  content "/opt/synbad/synbadd" (up_fs s') = Some (bytes_of "new code").
Proof.
  assert (content "/opt/synbad/synbadd" (up_fs (download_and_apply (wit_update_env (Ok tt)) wit_info wit_upd).2) = Some (bytes_of "new code")) as Hc
    by (vm_compute; reflexivity).
  destruct (download_and_apply (wit_update_env (Ok tt)) wit_info wit_upd) as [o s'] eqn:E. split; [|exact Hc].
  apply (update_all_or_nothing (wit_update_env (Ok tt)) wit_info "/opt/synbad" wit_upd o s' (wit_update_paths (Ok tt)) E).
Defined.
End witnesses.
