(* ===== verification/Resolver.v ===== *)
(** * The Core's binaries ([crates/synbadd/src/binaries.rs])

    Resolving the pinned Deskflow release: the cache, the release's assets, the
    integrity check, extraction, and the staging directory that is renamed into
    place.  The Linux build is modelled, and the process may die at any system
    call.  [hex], [sha2], the archive decoders and the HTTP client belong to
    other packages. *)

From Stdlib Require Import Ascii ZArith Lia.
From S2P Require Import Prelude Primitives Config LogParse CoreProc Store Conn FileOps.

Definition DESKFLOW_TAG : string := "v1.17.0".

Inductive LayoutKind := KUnified | KSplitLegacy.

Definition layout_kind_for (tag : string) : LayoutKind := if decide (tag = "v1.17.0"%string) then KSplitLegacy else KUnified.

Definition unified_bin_name : string := "deskflow-core".
Definition LEGACY_SERVER_BIN : string := "deskflow-server".
Definition LEGACY_CLIENT_BIN : string := "deskflow-client".

Definition known_asset_sha (name : string) : option string :=
  if decide (name = "deskflow-1.17.0.0-2_ubuntu_noble_amd64.deb"%string)
  then Some "4971d0f3b27804ef37aeccd18945985571556a22be35b83cb16d6acd28280de2"%string
  else if decide (name = "deskflow-1.17.0.0_mac_x64.dmg"%string)
  then Some "64fc270052c31fe0843c1c1374ccfefe0d646bd7abf600ca3a9bd978dab4ed88"%string
  else if decide (name = "deskflow-1.17.0.0_mac_arm64.dmg"%string)
  then Some "cf0421257bb5c1ae1c14ec1f470c119619527e0b1f1b7f9fa1e66213c6bc88f4"%string
  else None.

Record ReleaseAsset := { ra_name : string; ra_url : string }.
Record LatestRelease := { lr_tag_name : string; lr_assets : list ReleaseAsset }.

(** ** Strings *)

(** Where a pattern first occurs. *)
Fixpoint find_sub (pat s : bytes) : option nat :=
  if starts_with pat s then Some 0 else match s with [] => None | _ :: s' => S <$> find_sub pat s' end.

Definition contains (pat s : string) : bool := bool_decide (is_Some (find_sub (bytes_of pat) (bytes_of s))).

Definition split_once (pat s : bytes) : option (bytes * bytes) :=
  i ← find_sub pat s; Some (take i s, drop (i + length pat) s).

Fixpoint split_nl (s cur : bytes) : list bytes :=
  match s with
  | [] => [cur]
  | c :: s' => if decide (c = byte_of_Z 10) then cur :: split_nl s' [] else split_nl s' (cur ++ [c])
  end.

Definition strip_cr (l : bytes) : bytes :=
  match reverse l with c :: r => if decide (c = byte_of_Z 13) then reverse r else l | [] => l end.

(** [str::lines]: a final empty line is not one. *)
Definition lines (s : bytes) : list bytes :=
  let ls := split_nl s [] in
  let ls := match reverse ls with [] :: r => reverse r | _ => ls end in
  map strip_cr ls.

(** ** Choosing the asset and its checksum *)

Definition needles (os arch : string) : option (list string) :=
  if decide (os = "linux"%string ∧ arch = "x86_64"%string)
  then Some ["_ubuntu_noble_amd64.deb"; "_debian_trixie_amd64.deb"; "debian-trixie-x86_64.deb"; "ubuntu-resolute-x86_64.deb"]%string
  else if decide (os = "linux"%string ∧ arch = "aarch64"%string)
  then Some ["debian-trixie-aarch64.deb"; "ubuntu-resolute-aarch64.deb"]%string
  else if decide (os = "macos"%string ∧ arch = "aarch64"%string) then Some ["_mac_arm64.dmg"; "macos-arm64.dmg"]%string
  else if decide (os = "macos"%string ∧ arch = "x86_64"%string) then Some ["_mac_x64.dmg"; "macos-x86_64.dmg"]%string
  else if decide (os = "windows"%string ∧ arch = "x86_64"%string) then Some ["win-x64-portable.7z"]%string
  else if decide (os = "windows"%string ∧ arch = "aarch64"%string) then Some ["win-arm64-portable.7z"]%string
  else None.

Fixpoint first_match (ns : list string) (assets : list ReleaseAsset) : option ReleaseAsset :=
  match ns with
  | [] => None
  | n :: ns' => match List.find (λ a, contains n (ra_name a)) assets with Some a => Some a | None => first_match ns' assets end
  end.

Definition pick_asset (os arch : string) (assets : list ReleaseAsset) : result string ReleaseAsset :=
  match needles os arch with
  | None => Err ("no known deskflow release asset for " +:+ os +:+ "-" +:+ arch)
  | Some ns => ok_or "deskflow release has no asset matching any of"%string (first_match ns assets)
  end.

(** The checksum listed for [target] in a [sums.txt]. *)
Fixpoint listed_sha (target : string) (ls : list bytes) : option string :=
  match ls with
  | [] => None
  | l :: ls' =>
    match split_once (bytes_of "  ") l with
    | Some (sha, name) => if decide (string_of (trim name) = target) then Some (string_of (trim sha)) else listed_sha target ls'
    | None => listed_sha target ls'
    end
  end.

(** [get] answers one HTTP request with its body. *)
Definition fetch_expected_sha (get : string → result string bytes) (assets : list ReleaseAsset) (target : string) : result string string :=
  match List.find (λ a, bool_decide (ra_name a = "sums.txt"%string)) assets with
  | Some sums =>
    let? body := get (ra_url sums) in
    ok_or (target +:+ " not listed in sums.txt") (listed_sha target (lines body))
  | None => ok_or ("release has no sums.txt and " +:+ target +:+ " has no known hardcoded sha256") (known_asset_sha target)
  end.

Definition verify_sha `{HexOps, Sha256Ops} (b : bytes) (expected_hex : string) : bool :=
  eq_ignore_case (hex_encode (sha256 b)) expected_hex.

(** ** The cache directory *)

(** How one system call fares: it works, fails part-way, or the process dies in it. *)
Inductive Fate := FWorks | FFails (n : nat) | FDies (n : nat).

(** The directories of the cache, each with its files. *)
Abbreviation Dirs := (gmap string (gmap string bytes)).

Inductive REvent :=
| ReCheckingLatest
| ReDownloading (tag asset url : string)
| ReProgress (asset : string) (bytes : Z) (total : option Z)
| ReExtracting (tag asset : string)
| ReReady (tag path : string).

Record Res := { rs_dirs : Dirs; rs_fates : list Fate; rs_events : list REvent }.
#[export] Instance Res_eta : Eta Res := λ r, {| rs_dirs := rs_dirs r; rs_fates := rs_fates r; rs_events := rs_events r |}.

(** A resolver's program; [Waiting] is a process that died. *)
Abbreviation res := (prog Res string).

(** A system call: what it does in full, and what after [n] of its parts. *)
Definition call (whole : Dirs → option Dirs) (part : nat → Dirs → Dirs) : res bool := λ s,
  let '(f, fates) := match rs_fates s with [] => (FWorks, []) | f :: fs => (f, fs) end in
  let s := s <| rs_fates := fates |> in
  match f with
  | FWorks => match whole (rs_dirs s) with Some d => (Done true, s <| rs_dirs := d |>) | None => (Done false, s) end
  | FFails n => (Done false, s <| rs_dirs := part n (rs_dirs s) |>)
  | FDies n => (Waiting, s <| rs_dirs := part n (rs_dirs s) |>)
  end.

(** [remove_dir_all]: some files may go before it fails. *)
Definition remove_dir (dir : string) : res bool :=
  call (λ d, match d !! dir with Some _ => Some (delete dir d) | None => None end)
       (λ n d, alter (λ files, list_to_map (drop n (map_to_list files))) dir d).

Definition create_dir (dir : string) : res bool :=
  call (λ d, Some (<[dir := default ∅ (d !! dir)]> d)) (λ _ d, d).

(** [File::create] and writing the content. *)
Definition write_file (dir name : string) (b : bytes) : res bool :=
  let put b d := alter (λ files, <[name := b]> files) dir d in
  call (λ d, match d !! dir with Some _ => Some (put b d) | None => None end) (λ n d, put (take n b) d).

(** [rename] of a directory: atomic, onto nothing or an empty directory. *)
Definition rename_dir (src dst : string) : res bool :=
  call (λ d, match d !! src with
             | Some files => if decide (default ∅ (d !! dst) = ∅) then Some (<[dst := files]> (delete src d)) else None
             | None => None
             end)
       (λ _ d, d).

Definition must (msg : string) (m : res bool) : res unit := ok ← m; if ok : bool then mret tt else pfail msg.
Definition progress (e : REvent) : res unit := λ s, (Done tt, s <| rs_events := rs_events s ++ [e] |>).

(** An HTTP response's body: its announced length, and the stream of its chunks. *)
Record HttpBody := { hb_total : option Z; hb_chunks : list (result string bytes) }.

(** The loop over the stream: a report at most every 128 KiB. *)
Fixpoint receive (asset_name : string) (total : option Z) (stream : list (result string bytes)) (out : bytes) (last_report : Z) : res bytes :=
  match stream with
  | [] => mret out
  | Err e :: _ => pfail e
  | Ok chunk :: rest =>
    let out := out ++ chunk in
    let downloaded := Z.of_nat (length out) in
    if decide (131072 ≤ downloaded - last_report)%Z
    then progress (ReProgress asset_name downloaded total);; receive asset_name total rest out downloaded
    else receive asset_name total rest out last_report
  end.

Definition download_with_progress (send : string → result string HttpBody) (url asset_name : string) : res bytes :=
  body ← plift (send url); receive asset_name (hb_total body) (hb_chunks body) [] 0.

(** ** Extraction *)

(** How a member of the package is compressed. *)
Inductive Compression := Zst | Gz | Plain.

(** The archive formats: members of an [ar] archive, and the entries of a
    (compressed) tar stream with their paths. *)
Class ArchiveOps := {
  ar_members : bytes → list (result string (string * bytes));
  tar_entries : Compression → bytes → result string (list (result string (string * bytes)))
}.

(** The names wanted, in the order of the code. *)
Definition expected_targets (kind : LayoutKind) : list string :=
  match kind with KUnified => [unified_bin_name] | KSplitLegacy => [LEGACY_SERVER_BIN; LEGACY_CLIENT_BIN] end.

(** [Vec::swap_remove]. *)
Definition swap_remove {A} (i : nat) (l : list A) : list A :=
  match last l with Some y => take (length l - 1) (<[i := y]> l) | None => l end.

(** The target a tar entry is for: its path has a [bin] component and the target's
    name. *)
Definition entry_target (remaining : list string) (path : string) : option (nat * string) :=
  if bool_decide (bytes_of "bin" ∈ (path_components path).2) then
    fname ← file_name path;
    (λ x, (x.1, fname)) <$> list_find (λ n, n = fname) remaining
  else None.

Fixpoint tar_extract_named (dir : string) (entries : list (result string (string * bytes))) (remaining : list string) : res unit :=
  match remaining, entries with
  | [], _ => mret tt
  | _, [] => pfail "not found inside data.tar"%string
  | _, Err e :: _ => pfail e
  | _, Ok (path, body) :: rest =>
    match entry_target remaining path with
    | None => tar_extract_named dir rest remaining
    | Some (i, fname) =>
      must "creating" (create_dir dir);;
      must "creating" (write_file dir fname body);;
      must "set_permissions" (call (λ d, Some d) (λ _ d, d));;
      tar_extract_named dir rest (swap_remove i remaining)
    end
  end.

Section resolver.
Context `{HexOps, Sha256Ops, ArchiveOps}.

Definition compression_of (member_name : string) : option Compression :=
  let named ext := ends_with (bytes_of ext) (bytes_of member_name) in
  if named ".zst" then Some Zst else if named ".gz" then Some Gz else if named ".tar" then Some Plain else None.

Definition extract_data_tar (compressed : bytes) (member_name dir : string) (targets : list string) : res unit :=
  match compression_of member_name with
  | Some c => entries ← plift (tar_entries c compressed); tar_extract_named dir entries targets
  | None => pfail ("deskflow .deb is compressed as " +:+ member_name)
  end.

(** The first [data.tar.*] member. *)
Fixpoint extract_deb (members : list (result string (string * bytes))) (dir : string) (targets : list string) : res unit :=
  match members with
  | [] => pfail "no data.tar.* member found inside .deb"%string
  | Err e :: _ => pfail ("malformed .deb: " +:+ e)
  | Ok (name, body) :: rest =>
    if starts_with (bytes_of "data.tar") (bytes_of name) then extract_data_tar body name dir targets else extract_deb rest dir targets
  end.

Definition extract_core_binaries (asset_bytes : bytes) (asset_name dir : string) (kind : LayoutKind) : res unit :=
  let named ext := ends_with (bytes_of ext) (bytes_of asset_name) in
  if named ".deb" then extract_deb (ar_members asset_bytes) dir (expected_targets kind)
  else if named ".dmg" then pfail "DMG extraction is macOS-only"%string
  else if named ".7z" then
    match kind with
    | KSplitLegacy => pfail ("split-legacy layout has no .7z asset for " +:+ asset_name)
    | KUnified => pfail "synbadd built without `sevenz` feature"%string
    end
  else pfail ("unsupported archive format: " +:+ asset_name).

(** ** Resolution *)

(** The platform, the answer to the release query, and the other requests: those read
    as text, and those streamed. *)
Record ResolverEnv := {
  rn_os : string;
  rn_arch : string;
  rn_release : result string LatestRelease;
  rn_get : string → result string bytes;
  rn_stream : string → result string HttpBody
}.

Definition has_file (dir name : string) (d : Dirs) : bool :=
  match d !! dir with Some files => bool_decide (is_Some (files !! name)) | None => false end.

Definition try_cached (cache_root tag : string) (d : Dirs) : option CoreLayout :=
  let path name := join (join cache_root tag) name in
  match layout_kind_for tag with
  | KUnified => if has_file tag unified_bin_name d then Some (Unified (path unified_bin_name)) else None
  | KSplitLegacy => if has_file tag LEGACY_SERVER_BIN d && has_file tag LEGACY_CLIENT_BIN d
                    then Some (SplitLegacy (path LEGACY_SERVER_BIN) (path LEGACY_CLIENT_BIN)) else None
  end.

Definition primary_path (l : CoreLayout) : string := match l with Unified path => path | SplitLegacy server _ => server end.

(** From the release on: download, verify, extract aside, move into place. *)
Definition install_release (env : ResolverEnv) (cache_root : string) (release : LatestRelease) : res CoreLayout :=
  let tag := lr_tag_name release in
  asset ← plift (pick_asset (rn_os env) (rn_arch env) (lr_assets release));
  progress (ReDownloading tag (ra_name asset) (ra_url asset));;
  expected_sha ← plift (fetch_expected_sha (rn_get env) (lr_assets release) (ra_name asset));
  asset_bytes ← download_with_progress (rn_stream env) (ra_url asset) (ra_name asset);
  (if verify_sha asset_bytes expected_sha then mret tt else pfail ("integrity check failed for " +:+ ra_name asset));;
  let staging := tag +:+ ".partial" in
  _ ← remove_dir staging;
  must "creating cache dir" (create_dir staging);;
  progress (ReExtracting tag (ra_name asset));;
  extract_core_binaries asset_bytes (ra_name asset) staging (layout_kind_for tag);;
  _ ← remove_dir tag;
  must "moving into place" (rename_dir staging tag);;
  d ← (λ s, (Done (rs_dirs s), s));
  resolved ← plift (ok_or "extraction succeeded but expected files are missing"%string (try_cached cache_root tag d));
  progress (ReReady tag (primary_path resolved));;
  mret resolved.

Definition ensure_upstream_core (env : ResolverEnv) (cache_root : string) : res CoreLayout :=
  d ← (λ s, (Done (rs_dirs s), s));
  match try_cached cache_root DESKFLOW_TAG d with
  | Some resolved => mret resolved
  | None =>
    progress ReCheckingLatest;;
    release ← plift (rn_release env);
    match try_cached cache_root (lr_tag_name release) d with
    | Some resolved => mret resolved
    | None => install_release env cache_root release
    end
  end.
End resolver.

(** ** Extraction writes what the package lists *)

Lemma swap_remove_keeps {A} (x y : A) i l : l !! i = Some y → x ∈ l → x ≠ y → x ∈ swap_remove i l.
Proof.
  intros Hi (k & Hk)%list_elem_of_lookup_1 Hxy. unfold swap_remove. rewrite last_lookup.
  assert (k ≠ i) as Hki by congruence. pose proof (lookup_lt_Some _ _ _ Hk) as Hlt. pose proof (lookup_lt_Some _ _ _ Hi) as Hil.
  destruct (l !! pred (length l)) as [z|] eqn:Ez; [|apply lookup_ge_None in Ez; lia].
  destruct (decide (k = pred (length l))) as [->|Hne].
  - assert (z = x) as -> by congruence. apply (list_elem_of_lookup_2 _ i). rewrite lookup_take_lt by lia. by rewrite list_lookup_insert_eq.
  - apply (list_elem_of_lookup_2 _ k). rewrite lookup_take_lt by lia. by rewrite list_lookup_insert_ne.
Qed.

(** [safe I m Q]: run from directories satisfying [I], [m] ends (or dies) with
    directories satisfying [I], and its value and the directories satisfy [Q]. *)
Definition safe (I : Dirs → Prop) {A} (Pre : Dirs → Prop) (m : res A) (Q : A → Dirs → Prop) : Prop :=
  ∀ s o s', I (rs_dirs s) → Pre (rs_dirs s) → m s = (o, s') → I (rs_dirs s') ∧ ∀ a, o = Done a → Q a (rs_dirs s').

Lemma safe_ret I {A} (Pre : Dirs → Prop) (a : A) Q : (∀ d, I d → Pre d → Q a d) → safe I Pre (mret a) Q.
Proof. intros HQ s o s' Hi Hp [= <- <-]. split; [done|]. intros ? [= <-]. by apply HQ. Qed.

Lemma safe_fail I {A} Pre e (Q : A → Dirs → Prop) : safe I Pre (pfail e) Q.
Proof. intros s o s' Hi _ [= <- <-]. by split. Qed.

Lemma safe_bind I {A B} Pre (m : res A) (k : A → res B) Q R :
  safe I Pre m Q → (∀ a, safe I (Q a) (k a) R) → safe I Pre (m ≫= k) R.
Proof.
  intros Hm Hk s o s' Hi Hp. unfold mbind, prog_bind. destruct (m s) as [o1 s1] eqn:E.
  destruct (Hm _ _ _ Hi Hp E) as [Hi1 HQ]. destruct o1 as [a|e|]; [|by intros [= <- <-]..].
  intros E1. by apply (Hk a s1); [|apply HQ|].
Qed.

Lemma safe_lift I {A} (Pre : Dirs → Prop) (r : result string A) : safe I Pre (plift r) (λ a d, Pre d ∧ r = Ok a).
Proof. destruct r; [apply safe_ret; auto|apply safe_fail]. Qed.

Lemma safe_bind_lift I (Pre : Dirs → Prop) {A B} (r : result string A) (k : A → res B) Q :
  (∀ a, r = Ok a → safe I Pre (k a) Q) → safe I Pre (plift r ≫= k) Q.
Proof.
  intros Hk. eapply safe_bind; [apply safe_lift|]. intros a s o s' Hi [Hp Hr]. by apply Hk.
Qed.

Lemma safe_progress I Pre e : safe I Pre (progress e) (λ _, Pre).
Proof. intros s o s' Hi Hp [= <- <-]. by split. Qed.

Lemma receive_safe I Pre asset total stream out last : safe I Pre (receive asset total stream out last) (λ _, Pre).
Proof.
  revert out last. induction stream as [|[chunk|e] rest IH]; intros out last; cbn [receive]; [by apply safe_ret| |apply safe_fail].
  case_decide; [|apply IH]. apply (safe_bind _ _ _ _ (λ _, Pre)); [apply safe_progress|intros _; apply IH].
Qed.

Lemma download_safe I Pre send url asset : safe I Pre (download_with_progress send url asset) (λ _, Pre).
Proof. apply (safe_bind_lift _ Pre). intros body _. apply receive_safe. Qed.

Lemma safe_call I (Pre : Dirs → Prop) whole part (Q : bool → Dirs → Prop) :
  (∀ d, I d → Pre d → (∀ d', whole d = Some d' → I d' ∧ Q true d') ∧ (whole d = None → Q false d) ∧ ∀ n, I (part n d) ∧ Q false (part n d)) →
  safe I Pre (call whole part) Q.
Proof.
  intros Hc s o s' Hi Hp. unfold call. destruct (match rs_fates s with [] => _ | _ => _ end) as [f fates]. cbn [rs_dirs update_field].
  destruct (Hc _ Hi Hp) as (Hw & Hn & Hpart). destruct f.
  - destruct (whole (rs_dirs s)) as [d|]; intros [= <- <-]; cbn [rs_dirs update_field].
    + destruct (Hw d eq_refl). split; [done|]. by intros ? [= <-].
    + split; [done|]. intros ? [= <-]. by apply Hn.
  - intros [= <- <-]. cbn [rs_dirs update_field]. destruct (Hpart n). split; [done|]. by intros ? [= <-].
  - intros [= <- <-]. cbn [rs_dirs update_field]. by destruct (Hpart n).
Qed.

Lemma safe_must I Pre msg m (Q : bool → Dirs → Prop) : safe I Pre m Q → safe I Pre (must msg m) (λ _, Q true).
Proof. intros Hm. eapply safe_bind; [exact Hm|]. intros []; [by apply safe_ret|apply safe_fail]. Qed.

Lemma safe_weaken I {A} (Pre Pre' : Dirs → Prop) (m : res A) (Q Q' : A → Dirs → Prop) :
  safe I Pre m Q → (∀ d, Pre' d → Pre d) → (∀ a d, Q a d → Q' a d) → safe I Pre' m Q'.
Proof. intros Hm Hp HQ s o s' Hi Hs E. destruct (Hm s o s' Hi (Hp _ Hs) E). split; auto. Qed.

(** An invariant that a directory cannot break. *)
Definition free (dir : string) (I : Dirs → Prop) : Prop := ∀ d d', I d → (∀ t, t ≠ dir → d' !! t = d !! t) → I d'.

(** An entry of the package for target [t]. *)
Definition entry_for (entries : list (result string (string * bytes))) (t : string) (body : bytes) : Prop :=
  ∃ path, Ok (path, body) ∈ entries ∧ bytes_of "bin" ∈ (path_components path).2 ∧ file_name path = Some t.

(** Target [t] of the directory holds one of its entries. *)
Definition from_entry (dir : string) (all : list (result string (string * bytes))) (t : string) (d : Dirs) : Prop :=
  ∃ files body, d !! dir = Some files ∧ files !! t = Some body ∧ entry_for all t body.

Lemma entry_target_spec remaining path i fname :
  entry_target remaining path = Some (i, fname) →
  bytes_of "bin" ∈ (path_components path).2 ∧ file_name path = Some fname ∧ remaining !! i = Some fname.
Proof.
  unfold entry_target. case_bool_decide as Hb; [|done]. rewrite bind_Some. intros (f & Hf & Hx).
  destruct (list_find _ remaining) as [[j x]|] eqn:El; [|done]. injection Hx as <- <-.
  apply list_find_Some in El as (Hl & -> & _). done.
Qed.

Lemma tar_extract_safe I dir all (targets : list string) entries remaining :
  free dir I → (∀ e, e ∈ entries → e ∈ all) →
  safe I (λ d, ∀ t, t ∈ targets → t ∈ remaining ∨ from_entry dir all t d) (tar_extract_named dir entries remaining)
    (λ _ d, ∀ t, t ∈ targets → from_entry dir all t d).
Proof.
  intros Hfree. revert remaining; induction entries as [|e entries IH]; intros remaining Hsub.
  { destruct remaining; [|apply safe_fail]. apply safe_ret. intros d _ Hd t Ht. destruct (Hd t Ht) as [Hx|]; [by apply not_elem_of_nil in Hx|done]. }
  destruct remaining as [|r rs].
  { apply safe_ret. intros d _ Hd t Ht. destruct (Hd t Ht) as [Hx|]; [by apply not_elem_of_nil in Hx|done]. }
  cbn [tar_extract_named]. set (remaining := r :: rs). destruct e as [[path body]|msg]; [|apply safe_fail].
  assert (∀ e, e ∈ entries → e ∈ all) as Hsub' by (intros e He; apply Hsub; by apply elem_of_cons; right).
  destruct (entry_target remaining path) as [[i fname]|] eqn:Et; [|by apply IH].
  apply entry_target_spec in Et as (Hbin & Hname & Hi).
  assert (entry_for all fname body) as Hentry by (exists path; split_and!; [apply Hsub; by apply elem_of_cons; left|done|done]).
  set (Pre := λ d : Dirs, ∀ t, t ∈ targets → t ∈ remaining ∨ from_entry dir all t d).
  set (Mid := λ d : Dirs, ∀ t, t ∈ targets → t ∈ swap_remove i remaining ∨ from_entry dir all t d).
  apply (safe_bind _ _ _ _ (λ _ d, Pre d)).
  { apply (safe_must I Pre _ _ (λ _, Pre)). apply safe_call. intros d Hd Hp. split_and!; [|done|done].
    intros d' [= <-]. split; [eapply Hfree; [exact Hd|]; intros t Ht; by rewrite lookup_insert_ne|].
    intros t Ht. destruct (Hp t Ht) as [|(files & b & Hf & Hb & He)]; [by left|right]. exists files, b. by rewrite lookup_insert_eq, Hf. }
  intros _. apply (safe_bind _ _ _ _ (λ _ d, Mid d)).
  { apply (safe_must I Pre _ _ (λ (ok : bool) d, if ok then Mid d else True)). apply safe_call. intros d Hd Hp.
    assert (∀ b, I (alter (λ files, <[fname := b]> files) dir d)) as Halt
      by (intros b; eapply Hfree; [exact Hd|]; intros t Ht; by rewrite lookup_alter_ne).
    split_and!; [|done|by intros n; split; [apply Halt|]].
    destruct (d !! dir) as [files|] eqn:Ed; [|done]. intros d' [= <-]. split; [apply Halt|]. intros t Ht.
    destruct (decide (t = fname)) as [->|Hne].
    - right. exists (<[fname := body]> files), body. rewrite lookup_alter_eq, Ed, lookup_insert_eq. done.
    - destruct (Hp t Ht) as [Hr|(files' & b & Hf & Hb & He)]; [left; by eapply swap_remove_keeps|right].
      exists (<[fname := body]> files), b. rewrite lookup_alter_eq, Ed. rewrite Ed in Hf. injection Hf as ->.
      by rewrite lookup_insert_ne by done. }
  intros _. apply (safe_bind _ _ _ _ (λ _ d, Mid d)); [|intros _; by apply IH].
  apply (safe_must I Mid _ _ (λ _, Mid)). apply safe_call. intros d Hd Hp. split_and!; [by intros d' [= <-]|done|done].
Qed.

Section laws.
Context `{HexOps, Sha256Ops, ArchiveOps}.
(** The checksums published for the assets. *)
Context (published : string → string → Prop).

(** The package [b] lists [body] for target [t]. *)
Definition package_lists (b : bytes) (t : string) (body : bytes) : Prop :=
  ∃ name member c entries, Ok (name, member) ∈ ar_members b ∧ tar_entries c member = Ok entries ∧ entry_for entries t body.

(** The SHA-256 of [b], in hex of either case. *)
Definition has_sha (b : bytes) (sha : string) : Prop :=
  map ascii_lower (bytes_of (hex_encode (sha256 b))) = map ascii_lower (bytes_of sha).

Lemma verify_sha_has b sha : verify_sha b sha = true → has_sha b sha.
Proof. apply bool_decide_eq_true. Qed.

(** The files of a release come from a package whose published checksum matched. *)
Definition genuine (tag : string) (files : gmap string bytes) : Prop :=
  ∃ name sha b, published name sha ∧ has_sha b sha ∧
    ∀ t, t ∈ expected_targets (layout_kind_for tag) → ∃ body, files !! t = Some body ∧ package_lists b t body.

Lemma extract_safe I b name dir kind :
  free dir I →
  safe I (λ _, True) (extract_core_binaries b name dir kind)
    (λ _ d, ∃ files, d !! dir = Some files ∧ ∀ t, t ∈ expected_targets kind → ∃ body, files !! t = Some body ∧ package_lists b t body).
Proof.
  intros Hfree. unfold extract_core_binaries. cbv zeta.
  destruct (ends_with _ _); [|destruct (ends_with _ _); [apply safe_fail|destruct (ends_with _ _); [destruct kind; apply safe_fail|apply safe_fail]]].
  set (targets := expected_targets kind). assert (∃ t0, t0 ∈ targets) as [t0 Ht0] by (destruct kind; eexists; apply elem_of_cons; by left).
  assert (∀ members, (∀ m, m ∈ members → m ∈ ar_members b) →
    safe I (λ _, True) (extract_deb members dir targets)
      (λ _ d, ∃ files, d !! dir = Some files ∧ ∀ t, t ∈ targets → ∃ body, files !! t = Some body ∧ package_lists b t body)) as Hgo;
    [|by apply Hgo].
  induction members as [|m members IH]; intros Hsub; cbn [extract_deb]; [apply safe_fail|].
  destruct m as [[mname body]|e]; [|apply safe_fail]. destruct (starts_with _ _).
  2:{ apply IH. intros m Hm. apply Hsub. by apply elem_of_cons; right. }
  unfold extract_data_tar. destruct (compression_of mname) as [c|]; [|apply safe_fail].
  eapply safe_bind; [apply safe_lift|]. intros entries.
  intros s o s' Hi [_ He] E.
  destruct (tar_extract_safe I dir entries targets entries targets Hfree (λ e He, He) s o s' Hi ltac:(intros; by left) E) as [Hi' HQ].
  split; [done|]. intros a Ha. specialize (HQ a Ha). destruct (HQ t0 Ht0) as (files & _ & Hf & _). exists files. split; [done|].
  intros t Ht. destruct (HQ t Ht) as (files' & bd & Hf' & Hb & Hen). assert (files' = files) as -> by congruence. exists bd. split; [done|].
  exists mname, body, c, entries. split_and!; [apply Hsub; by apply elem_of_cons; left|done|done].
Qed.

(** A tag is usable when its files are all there. *)
Definition usable (tag : string) (d : Dirs) : Prop :=
  ∀ t, t ∈ expected_targets (layout_kind_for tag) → has_file tag t d = true.

Definition core_layout (cache_root tag : string) : CoreLayout :=
  let path name := join (join cache_root tag) name in
  match layout_kind_for tag with
  | KUnified => Unified (path unified_bin_name)
  | KSplitLegacy => SplitLegacy (path LEGACY_SERVER_BIN) (path LEGACY_CLIENT_BIN)
  end.

Lemma try_cached_spec root tag d :
  match try_cached root tag d with
  | Some l => usable tag d ∧ l = core_layout root tag
  | None => ¬ usable tag d
  end.
Proof.
  unfold try_cached, usable, core_layout, expected_targets. destruct (layout_kind_for tag).
  - destruct (has_file tag unified_bin_name d) eqn:E; [split; [|done]; intros t Ht; by apply list_elem_of_singleton in Ht as ->|].
    intros Hu. rewrite (Hu unified_bin_name) in E; [done|set_solver].
  - destruct (has_file tag LEGACY_SERVER_BIN d) eqn:E1; [destruct (has_file tag LEGACY_CLIENT_BIN d) eqn:E2|]; cbn [andb].
    + split; [|done]. intros t Ht. apply elem_of_cons in Ht as [->|Ht]; [done|]. by apply list_elem_of_singleton in Ht as ->.
    + intros Hu. rewrite (Hu LEGACY_CLIENT_BIN) in E2; [done|set_solver].
    + intros Hu. rewrite (Hu LEGACY_SERVER_BIN) in E1; [done|set_solver].
Qed.

(** Names of releases, as opposed to staging directories. *)
Definition release_name (tag : string) : Prop := ends_with (bytes_of ".partial") (bytes_of tag) = false.

Definition cache_ok (d : Dirs) : Prop :=
  ∀ tag files, release_name tag → usable tag d → d !! tag = Some files → genuine tag files.

(** Sound, and every usable release of [d0] still as it was. *)
Definition cache_inv (d0 d : Dirs) : Prop :=
  cache_ok d ∧ ∀ tag, release_name tag → usable tag d0 → d !! tag = d0 !! tag.

Lemma usable_ext tag d d' : d' !! tag = d !! tag → usable tag d' ↔ usable tag d.
Proof. intros E. unfold usable, has_file. by rewrite E. Qed.

Lemma staging_name tag : ¬ release_name (tag +:+ ".partial").
Proof.
  unfold release_name, ends_with. rewrite bytes_of_app, reverse_app. intros Hf.
  assert (starts_with (reverse (bytes_of ".partial")) (reverse (bytes_of ".partial") ++ reverse (bytes_of tag)) = true) as Ht
    by (apply starts_with_true; by eexists). congruence.
Qed.

Lemma staging_ne tag : tag ≠ tag +:+ ".partial".
Proof.
  intros E. apply (f_equal (length ∘ bytes_of)) in E. cbn [compose] in E. rewrite bytes_of_app, length_app in E. cbn [length bytes_of] in E.
  change (length (bytes_of ".partial")) with 8 in E. lia.
Qed.

(** Staging directories are nobody's concern. *)
Lemma cache_inv_free d0 tag : free (tag +:+ ".partial") (cache_inv d0).
Proof.
  intros d d' [Hok Hkeep] Hsame.
  assert (∀ t, release_name t → d' !! t = d !! t) as Hrel.
  { intros t Ht. apply Hsame. intros ->. by apply staging_name in Ht. }
  split.
  - intros t files Ht Hu Hf. rewrite Hrel in Hf by done. apply Hok; [done| |done]. by apply (usable_ext t d' d); [rewrite Hrel|].
  - intros t Ht Hu. rewrite Hrel by done. by apply Hkeep.
Qed.

(** Nor is a release that was not usable, as long as it does not become so unchecked. *)
Lemma cache_inv_other d0 d d' tag :
  cache_inv d0 d → ¬ usable tag d0 → (∀ t, t ≠ tag → t ≠ tag +:+ ".partial" → d' !! t = d !! t) →
  (∀ files, usable tag d' → d' !! tag = Some files → genuine tag files) → cache_inv d0 d'.
Proof.
  intros [Hok Hkeep] Hnu Hsame Hgen. split.
  - intros t files Ht Hu Hf. destruct (decide (t = tag)) as [->|Hne]; [by apply Hgen|].
    assert (d' !! t = d !! t) as E by (apply Hsame; [done|by intros ->; apply staging_name in Ht]).
    rewrite E in Hf. apply Hok; [done| |done]. by apply (usable_ext t d' d).
  - intros t Ht Hu. rewrite Hsame; [by apply Hkeep|by intros ->|by intros ->; apply staging_name in Ht].
Qed.

Lemma safe_strengthen I J {A} Pre (m : res A) (Q : A → Dirs → Prop) :
  safe (λ d, I d ∧ J d) Pre m Q → safe I (λ d, J d ∧ Pre d) m (λ a d, J d ∧ Q a d).
Proof. intros Hm s o s' Hi [Hj Hp] E. destruct (Hm s o s' (conj Hi Hj) Hp E) as [[? ?] HQ]. split; [done|]. intros a Ha. split; [done|by apply HQ]. Qed.

(** Removing files does not make a release usable. *)
Lemma part_removed tag n d : ¬ usable tag d → ¬ usable tag (alter (λ files, list_to_map (drop n (map_to_list files))) tag d).
Proof.
  intros Hn Hu. apply Hn. intros t Ht. specialize (Hu t Ht). unfold has_file in *. rewrite lookup_alter_eq in Hu.
  destruct (d !! tag) as [files|]; [|done]. cbn in Hu. apply bool_decide_eq_true in Hu as [b Hb]. apply bool_decide_eq_true.
  exists b. apply elem_of_list_to_map_2 in Hb. apply elem_of_map_to_list. by apply (subseteq_drop n).
Qed.

Lemma not_usable_none tag d : d !! tag = None → ¬ usable tag d.
Proof.
  intros E Hu. destruct (expected_targets (layout_kind_for tag)) as [|t ts] eqn:Et; [by unfold expected_targets in Et; case_match|].
  specialize (Hu t). rewrite Et in Hu. unfold has_file in Hu. rewrite E in Hu. specialize (Hu ltac:(apply elem_of_cons; by left)). done.
Qed.

(** What extraction leaves in a directory: every file the release needs. *)
Definition extracted (b : bytes) (kind : LayoutKind) (dir : string) (d : Dirs) : Prop :=
  ∃ files, d !! dir = Some files ∧ ∀ t, t ∈ expected_targets kind → ∃ body, files !! t = Some body ∧ package_lists b t body.

(** The old directory is removed, whole or in part. *)
Lemma remove_old_safe d0 tag b :
  ¬ usable tag d0 →
  safe (cache_inv d0) (λ d, d !! tag = d0 !! tag ∧ extracted b (layout_kind_for tag) (tag +:+ ".partial") d) (remove_dir tag)
    (λ _ d, ¬ usable tag d ∧ extracted b (layout_kind_for tag) (tag +:+ ".partial") d).
Proof.
  intros Hnu. pose proof (staging_ne tag) as Hne. apply safe_call. intros d Hi [Hj (files & Hf & HG)].
  assert (¬ usable tag d) as Hnd by (rewrite usable_ext; [exact Hnu|exact Hj]).
  assert (∀ d', ¬ usable tag d' → (∀ t, t ≠ tag → d' !! t = d !! t) →
    cache_inv d0 d' ∧ ¬ usable tag d' ∧ extracted b (layout_kind_for tag) (tag +:+ ".partial") d') as Hgo.
  { intros d' Hu Hsame. split; [|split; [done|]].
    - apply (cache_inv_other d0 d d' tag); [done..| |]; [intros; by apply Hsame|]. intros fs Hu'. by apply Hu in Hu'.
    - exists files. split; [by rewrite Hsame|done]. }
  split_and!.
  - destruct (d !! tag); [|done]. intros d' [= <-]. apply Hgo; [apply not_usable_none; by rewrite lookup_delete_eq|].
    intros t Ht. by rewrite lookup_delete_ne.
  - intros _. split; [done|]. by exists files.
  - intros n. apply Hgo; [by apply part_removed|]. intros t Ht. by rewrite lookup_alter_ne.
Qed.

(** The checked files take the release's place in one step. *)
Lemma rename_safe d0 tag b name sha :
  ¬ usable tag d0 → published name sha → has_sha b sha →
  safe (cache_inv d0) (λ d, ¬ usable tag d ∧ extracted b (layout_kind_for tag) (tag +:+ ".partial") d)
    (rename_dir (tag +:+ ".partial") tag) (λ (ok : bool) d, if ok then usable tag d else True).
Proof.
  intros Hnu Hpub Hsha. pose proof (staging_ne tag) as Hne. apply safe_call. intros d Hi [Hnd (files & Hf & HG)].
  split_and!; [|done|done]. rewrite Hf. case_decide; [|done]. intros d' [= <-]. split.
  - apply (cache_inv_other d0 d _ tag); [done..| |].
    + intros t H1' H2'. by rewrite lookup_insert_ne, lookup_delete_ne.
    + intros fs _. rewrite lookup_insert_eq. intros [= <-]. by exists name, sha, b.
  - intros t Ht. unfold has_file. rewrite lookup_insert_eq. destruct (HG t Ht) as (body & Hb & _). apply bool_decide_eq_true. by exists body.
Qed.

Lemma install_release_safe env root release d0 :
  (∀ name sha, fetch_expected_sha (rn_get env) (lr_assets release) name = Ok sha → published name sha) →
  ¬ usable (lr_tag_name release) d0 →
  safe (cache_inv d0) (λ d, d !! lr_tag_name release = d0 !! lr_tag_name release) (install_release env root release)
    (λ l d, usable (lr_tag_name release) d ∧ l = core_layout root (lr_tag_name release)).
Proof.
  intros Hpub Hnu. unfold install_release. cbv zeta. set (tag := lr_tag_name release) in *. set (staging := tag +:+ ".partial").
  set (J := λ d : Dirs, d !! tag = d0 !! tag). pose proof (staging_ne tag) as Hne. fold staging in Hne.
  assert (free staging (cache_inv d0)) as Hfree by apply cache_inv_free.
  assert (∀ d d', J d → (∀ t, t ≠ staging → d' !! t = d !! t) → J d') as HJ by (unfold J; intros d d' E Hs; by rewrite Hs).
  assert (∀ whole part, (∀ d d' t, t ≠ staging → whole d = Some d' → d' !! t = d !! t) → (∀ n d t, t ≠ staging → part n d !! t = d !! t) →
    safe (cache_inv d0) J (call whole part) (λ _, J)) as Hcall.
  { intros whole part Hw Hp. apply safe_call. intros d Hi Hj. split_and!; [|done|].
    - intros d' E. assert (∀ t, t ≠ staging → d' !! t = d !! t) by (intros; by eapply Hw). by split; [eapply Hfree|eapply HJ].
    - intros n. assert (∀ t, t ≠ staging → part n d !! t = d !! t) by (intros; by apply Hp). by split; [eapply Hfree|eapply HJ]. }
  apply (safe_bind_lift _ J). intros asset _. apply (safe_bind _ _ _ _ (λ _, J)); [apply safe_progress|]. intros _.
  apply (safe_bind_lift _ J). intros sha Hfetch%Hpub. apply (safe_bind _ _ _ _ (λ _, J)); [apply download_safe|]. intros b.
  destruct (verify_sha b sha) eqn:Hsha; [apply verify_sha_has in Hsha|eapply safe_bind; [apply (safe_fail _ _ _ (λ _ _, False))|done]].
  apply (safe_bind _ _ _ _ (λ _, J)); [by apply safe_ret|]. intros _.
  apply (safe_bind _ _ _ _ (λ _, J)).
  { apply Hcall; [intros d d' t Ht; case_match; intros [= <-]; by rewrite lookup_delete_ne|intros n d t Ht; by rewrite lookup_alter_ne]. }
  intros _. apply (safe_bind _ _ _ _ (λ _, J)).
  { apply (safe_must _ J _ _ (λ _, J)). apply Hcall; [intros d d' t Ht [= <-]; by rewrite lookup_insert_ne|done]. }
  intros _. apply (safe_bind _ _ _ _ (λ _, J)); [apply safe_progress|]. intros _.
  apply (safe_bind _ _ _ _ (λ _ d, J d ∧ extracted b (layout_kind_for tag) staging d)).
  { eapply safe_weaken; [apply safe_strengthen, (extract_safe (λ d, cache_inv d0 d ∧ J d))| |].
    - intros d d' [Hi Hj] Hs. by split; [eapply Hfree|eapply HJ].
    - by intros d Hj.
    - done. }
  intros _. eapply safe_bind; [by apply remove_old_safe|]. intros ?.
  eapply safe_bind; [eapply safe_must, rename_safe; done|]. intros ?.
  apply (safe_bind _ _ _ _ (λ dirs d, dirs = d ∧ usable tag d)).
  { intros s o s' Hi Hu [= <- <-]. split; [done|]. by intros ? [= <-]. }
  intros dirs. apply (safe_bind_lift _ (λ d, dirs = d ∧ usable tag d)). intros l Hl.
  apply (safe_bind _ _ _ _ (λ _ d, dirs = d ∧ usable tag d)); [apply safe_progress|]. intros _. apply safe_ret. intros d _ [-> Hu]. split; [done|].
  pose proof (try_cached_spec root tag d) as Hspec. destruct (try_cached root tag d); [|done]. destruct Hspec as [_ ->]. by injection Hl as <-.
Qed.

(** C34: The cache of Core binaries is sound, whatever fails and wherever the
    process dies.  If every release in the cache is genuine (its files come
    from a package whose published SHA-256 matched), so is every release
    afterwards, releases that were usable are untouched, and a resolved layout
    is that of a usable release: the pinned one, or the one the query
    named.  When the pinned release is cached, resolving succeeds without a
    request, a write or an event. *)
Theorem resolver_cache_sound env root s o s' :
  (∀ release name sha, rn_release env = Ok release → fetch_expected_sha (rn_get env) (lr_assets release) name = Ok sha → published name sha) →
  cache_ok (rs_dirs s) → ensure_upstream_core env root s = (o, s') →
  cache_ok (rs_dirs s') ∧
  (∀ tag, release_name tag → usable tag (rs_dirs s) → rs_dirs s' !! tag = rs_dirs s !! tag) ∧
  (∀ l, o = Done l → ∃ tag, usable tag (rs_dirs s') ∧ l = core_layout root tag ∧
     (tag = DESKFLOW_TAG ∨ ∃ release, rn_release env = Ok release ∧ tag = lr_tag_name release)) ∧
  (usable DESKFLOW_TAG (rs_dirs s) → o = Done (core_layout root DESKFLOW_TAG) ∧ s' = s).
Proof.
  intros Hpub Hok. unfold ensure_upstream_core. change ((λ s, (Done (rs_dirs s), s)) ≫= ?k) with (λ s : Res, k (rs_dirs s) s). cbv beta.
  pose proof (try_cached_spec root DESKFLOW_TAG (rs_dirs s)) as Hpin.
  destruct (try_cached root DESKFLOW_TAG (rs_dirs s)) as [l|].
  { intros [= <- <-]. destruct Hpin as [Hu ->]. split_and!; [done..| |done]. intros ? [= <-]. exists DESKFLOW_TAG. auto. }
  intros E. cut (cache_inv (rs_dirs s) (rs_dirs s') ∧ ∀ l, o = Done l → ∃ tag, usable tag (rs_dirs s') ∧ l = core_layout root tag ∧
     (tag = DESKFLOW_TAG ∨ ∃ release, rn_release env = Ok release ∧ tag = lr_tag_name release)).
  { intros [[? ?] ?]. split_and!; [done..|]. intros Hu. by apply Hpin in Hu. }
  assert (cache_inv (rs_dirs s) (rs_dirs s)) as Hi by (split; [done|auto]).
  revert E. apply (safe_bind (cache_inv (rs_dirs s)) (λ d, d = rs_dirs s) _ _ (λ _ d, d = rs_dirs s)
    (λ l d, ∃ tag, usable tag d ∧ l = core_layout root tag ∧ (tag = DESKFLOW_TAG ∨ ∃ release, rn_release env = Ok release ∧ tag = lr_tag_name release)));
    [apply safe_progress| |done|done].
  intros _. apply (safe_bind_lift _ (λ d, d = rs_dirs s)). intros release Hr.
  pose proof (try_cached_spec root (lr_tag_name release) (rs_dirs s)) as Hrel.
  destruct (try_cached root (lr_tag_name release) (rs_dirs s)) as [l|].
  { apply safe_ret. intros d _ ->. destruct Hrel as [Hu ->]. eauto 8. }
  eapply safe_weaken; [apply install_release_safe; [intros name sha; by apply Hpub|exact Hrel]|by intros d ->|].
  intros l d [Hu ->]. eauto 8.
Qed.
End laws.

(** ** Witness *)

Section witness.
#[local] Existing Instances toy_hex toy_sha.
#[local] Instance toy_archive : ArchiveOps := {|
  ar_members b := [Ok ("debian-binary"%string, []); Ok ("data.tar.zst"%string, b)];
  tar_entries _ m := Ok [Ok ("./usr/share/doc/deskflow-server"%string, []); Ok ("./usr/bin/deskflow-server"%string, m); Ok ("./usr/bin/deskflow-client"%string, m)]
|}.

Definition wit_deb : string := "deskflow-1.17.0_debian_trixie_amd64.deb".
Definition wit_package : bytes := bytes_of "package".
Definition wit_env : ResolverEnv := {|
  rn_os := "linux"; rn_arch := "x86_64";
  rn_release := Ok {| lr_tag_name := "v1.17.0"; lr_assets :=
    [{| ra_name := "sums.txt"; ra_url := "sums" |}; {| ra_name := wit_deb; ra_url := "deb" |}] |};
  rn_get url := if decide (url = "sums"%string) then Ok (bytes_of (hex_encode (sha256 wit_package) +:+ "  " +:+ wit_deb))
                else Err "404"%string;
  rn_stream url := if decide (url = "deb"%string) then Ok {| hb_total := None; hb_chunks := [Ok (take 3 wit_package); Ok (drop 3 wit_package)] |}
                   else Err "404"%string
|}.
(** A truncated staging directory and half a release, left by earlier runs. *)
Definition wit_res (fates : list Fate) : Res := {|
  rs_dirs := {["v1.17.0.partial" := {["junk" := []]}; "v1.17.0" := {["deskflow-client" := []]}]};
  rs_fates := fates; rs_events := []
|}%string.

Definition wit_run1 := ensure_upstream_core wit_env "/cache" (wit_res (replicate 8 FWorks ++ [FDies 1])).
Definition wit_run2 := ensure_upstream_core wit_env "/cache" (wit_run1.2 <| rs_fates := [] |>).
Definition wit_published (name sha : string) : Prop := sha = hex_encode (sha256 wit_package).

(** The process dies with the old directory half removed; the next run
    completes. *)
Example resolver_cache_sound_witness :
  wit_run1.1 = Waiting ∧ cache_ok wit_published (rs_dirs wit_run1.2) ∧
  wit_run2.1 = Done (SplitLegacy "/cache/v1.17.0/deskflow-server" "/cache/v1.17.0/deskflow-client") ∧
  cache_ok wit_published (rs_dirs wit_run2.2).
Proof.
  assert (∀ release name sha, rn_release wit_env = Ok release → fetch_expected_sha (rn_get wit_env) (lr_assets release) name = Ok sha →
    wit_published name sha) as Hpub.
  { intros release name sha [= <-]. unfold fetch_expected_sha.
    set (found := List.find _ _). assert (found = Some {| ra_name := "sums.txt"; ra_url := "sums" |}) as -> by (vm_compute; reflexivity).
    cbn [ra_url]. assert (rn_get wit_env "sums" = Ok (bytes_of (hex_encode (sha256 wit_package) +:+ "  " +:+ wit_deb))) as -> by (vm_compute; reflexivity).
    cbn [rbind]. set (ls := lines _).
    assert (ls = [bytes_of (hex_encode (sha256 wit_package)) ++ bytes_of "  " ++ bytes_of wit_deb]) as -> by (vm_compute; reflexivity).
    cbn [listed_sha]. set (sp := split_once _ _). assert (sp = Some (bytes_of (hex_encode (sha256 wit_package)), bytes_of wit_deb)) as -> by (vm_compute; reflexivity).
    case_decide; cbn [ok_or]; [|done]. intros [= <-]. vm_compute. reflexivity. }
  assert (cache_ok wit_published (rs_dirs (wit_res (replicate 8 FWorks ++ [FDies 1])))) as Hok.
  { intros tag files _ Hu Hf. exfalso. cbn [rs_dirs wit_res] in *.
    assert (tag = "v1.17.0.partial" ∨ tag = "v1.17.0")%string as [-> | ->].
    { apply lookup_insert_Some in Hf as [[<- _]|[_ [<- _]%lookup_singleton_Some]]; auto. }
    - specialize (Hu "deskflow-core"%string ltac:(vm_compute; left)). by vm_compute in Hu.
    - specialize (Hu "deskflow-server"%string ltac:(vm_compute; left)). by vm_compute in Hu. }
  assert (cache_ok wit_published (rs_dirs wit_run1.2)) as Hok1
    by exact (proj1 (resolver_cache_sound wit_published wit_env "/cache" _ wit_run1.1 wit_run1.2 Hpub Hok (surjective_pairing wit_run1))).
  split; [vm_compute; reflexivity|]. split; [exact Hok1|]. split; [vm_compute; reflexivity|].
  exact (proj1 (resolver_cache_sound wit_published wit_env "/cache" _ wit_run2.1 wit_run2.2 Hpub Hok1 (surjective_pairing wit_run2))).
Defined.
End witness.
