(* ===== verification/UpdateDialog.v ===== *)
(** * The update dialog ([crates/synbad-gui/src/update.rs], [app/mod.rs])

    The modal's state machine: a check or an install runs on a worker thread and
    reports through a channel that every frame polls; the user's clicks start
    workers and finally relaunch the window from the new binary.  A worker may die
    before it has reported. *)

From Stdlib Require Import ZArith Lia.
From S2P Require Import Prelude Primitives Config Conn IpcTypes Store FileOps GuiApp Updater.

Inductive CheckResultMsg := CrOk (r : CheckResult) | CrErr (e : string).

Record DoneInfo := { di_tag : string; di_elevated : bool; di_exe : string }.
Inductive InstallMsg := ImProgress (p : Progress) | ImDone (r : result string DoneInfo).

(** A channel: what has arrived, and what its worker will still send. *)
Record Rx (M : Type) := { rx_queue : list M; rx_unsent : list M }.
Arguments rx_queue {M} _.
Arguments rx_unsent {M} _.
Arguments Build_Rx {M} _ _.

Inductive UpdateState :=
| UdChecking (rx : Rx CheckResultMsg)
| UdReady (r : CheckResult)
| UdCheckFailed (e : string)
| UdInstalling (info : UpdateInfo) (rx : Rx InstallMsg) (stage : string) (downloaded total : Z)
| UdInstalled (tag : string) (elevated : bool) (exe : string)
| UdInstallFailed (e : string).

Definition in_flight (state : option UpdateState) : bool :=
  match state with Some (UdChecking _) | Some (UdInstalling _ _ _ _ _) => true | _ => false end.

(** The install arm's loop: the queue up to and including the outcome. *)
Fixpoint drain_install (queue : list InstallMsg) (stage : string) (downloaded total : Z)
    : string * Z * Z * option (result string DoneInfo) * list InstallMsg :=
  match queue with
  | [] => (stage, downloaded, total, None, [])
  | ImProgress (PgStage s) :: q => drain_install q s downloaded total
  | ImProgress (PgDownload d t) :: q => drain_install q stage d (if decide (0 < t)%Z then t else total)
  | ImDone r :: q => (stage, downloaded, total, Some r, q)
  end.

Definition poll (state : option UpdateState) : option UpdateState :=
  match state with
  | Some (UdChecking rx) =>
    match rx_queue rx with
    | CrOk r :: _ => Some (UdReady r)
    | CrErr e :: _ => Some (UdCheckFailed e)
    | [] => state
    end
  | Some (UdInstalling info rx stage downloaded total) =>
    let '(stage, downloaded, total, done, queue) := drain_install (rx_queue rx) stage downloaded total in
    match done with
    | Some (Ok d) => Some (UdInstalled (di_tag d) (di_elevated d) (di_exe d))
    | Some (Err e) => Some (UdInstallFailed e)
    | None => Some (UdInstalling info {| rx_queue := queue; rx_unsent := rx_unsent rx |} stage downloaded total)
    end
  | _ => state
  end.

(** The worker sends its next [n] messages. *)
Definition deliver {M} (n : nat) (rx : Rx M) : Rx M :=
  {| rx_queue := rx_queue rx ++ take n (rx_unsent rx); rx_unsent := drop n (rx_unsent rx) |}.

Definition deliver_state (n : nat) (state : option UpdateState) : option UpdateState :=
  match state with
  | Some (UdChecking rx) => Some (UdChecking (deliver n rx))
  | Some (UdInstalling info rx stage d t) => Some (UdInstalling info (deliver n rx) stage d t)
  | _ => state
  end.

(** What the user may choose in the modal. *)
Inductive Action := ActClose | ActCheck | ActInstall (info : UpdateInfo) | ActRelaunch (exe : string).

#[export] Instance UpdateInfo_eq_dec : EqDecision UpdateInfo.
Proof. solve_decision. Defined.
#[export] Instance Action_eq_dec : EqDecision Action.
Proof. solve_decision. Defined.

(** The buttons [draw_modal] shows; the window's own X closes it in any state. *)
Definition modal_actions (state : option UpdateState) : list Action :=
  ActClose ::
  match state with
  | None | Some (UdCheckFailed _) | Some (UdInstallFailed _) => [ActCheck]
  | Some (UdReady r) => if cr_newer r then [ActInstall (cr_info r)] else []
  | Some (UdInstalled _ _ exe) => [ActRelaunch exe]
  | Some (UdChecking _) | Some (UdInstalling _ _ _ _ _) => []
  end.

(** The window, its dialog, and what it did: [Exit] ends the process. *)
Inductive WinFx := DxInstall (info : UpdateInfo) | DxUnlinkSocket | DxRestartDaemon | DxSpawn (exe : string) | DxExit.
#[export] Instance WinFx_eq_dec : EqDecision WinFx.
Proof. solve_decision. Defined.

Record Win := {
  wn_app : App;
  wn_show_update_dialog : bool;
  wn_update_state : option UpdateState;
  wn_abandoned : nat;                     (* workers whose channel was dropped before they were done *)
  wn_fx : list WinFx
}.
#[export] Instance Win_eta : Eta Win := λ r,
  {| wn_app := wn_app r; wn_show_update_dialog := wn_show_update_dialog r; wn_update_state := wn_update_state r;
     wn_abandoned := wn_abandoned r; wn_fx := wn_fx r |}.

Definition win_new (a : App) : Win :=
  {| wn_app := a; wn_show_update_dialog := false; wn_update_state := None; wn_abandoned := 0; wn_fx := [] |}.

Definition wfx (x : WinFx) (w : Win) : Win := w <| wn_fx := wn_fx w ++ [x] |>.

(** Replacing the state drops the channel of a worker that may still run. *)
Definition set_update_state (st : UpdateState) (w : Win) : Win :=
  w <| wn_update_state := Some st |> <| wn_abandoned := (wn_abandoned w + if in_flight (wn_update_state w) then 1 else 0)%nat |>.

Section dialog.
Context `{SemverOps, TarOps, SelfReplaceOps, JsonOps Plan}.
(** The version this program was built as. *)
Context (current_version : string).

(** What a worker meets, and how many messages it sends before it dies. *)
Record UpdateWorld := {
  uw_target : result string string;
  uw_releases : result string (list GhRelease);
  uw_env : UpdateEnv;
  uw_fs : Fs;
  uw_lives : nat
}.

Definition check_msg (world : UpdateWorld) : CheckResultMsg :=
  match check_release current_version (uw_target world) (uw_releases world) with Ok r => CrOk r | Err e => CrErr e end.

Definition spawn_check (world : UpdateWorld) : UpdateState :=
  UdChecking {| rx_queue := []; rx_unsent := take (uw_lives world) [check_msg world] |}.

(** The worker's run: its progress events, then its outcome. *)
Definition install_run (world : UpdateWorld) (info : UpdateInfo) : outcome string Applied * Upd :=
  download_and_apply (uw_env world) info {| up_fs := uw_fs world; up_progress := [] |}.

Definition install_done (o : outcome string Applied) : list InstallMsg :=
  match o with
  | Done a => [ImDone (Ok {| di_tag := ap_tag a; di_elevated := ap_elevated a; di_exe := ap_replaced_self a |})]
  | Failed e => [ImDone (Err e)]
  | Waiting => []
  end.

Definition install_msgs (world : UpdateWorld) (info : UpdateInfo) : list InstallMsg :=
  map ImProgress (up_progress (install_run world info).2) ++ install_done (install_run world info).1.

Definition spawn_install (world : UpdateWorld) (info : UpdateInfo) : UpdateState :=
  UdInstalling info {| rx_queue := []; rx_unsent := take (uw_lives world) (install_msgs world info) |} "starting" 0 (ui_asset_size info).

Definition open_update_dialog (world : UpdateWorld) (w : Win) : Win :=
  let w := w <| wn_show_update_dialog := true |> in
  match wn_update_state w with
  | None | Some (UdCheckFailed _) | Some (UdInstallFailed _) => set_update_state (spawn_check world) w
  | _ => w
  end.

(** [spawned] is the outcome of starting the new window. *)
Definition relaunch_after_update (exe : string) (spawned : result string unit) (w : Win) : Win :=
  let w := wfx DxUnlinkSocket w in
  let w := w <| wn_app := shutdown_daemon_once (wn_app w) |> in
  let w := wfx (DxSpawn exe) (wfx DxRestartDaemon w) in
  match spawned with
  | Ok _ => wfx DxExit w
  | Err e => w <| wn_app := wn_app w <| ga_last_error := Some ("relaunch failed: " +:+ e) |> |>
  end.

Definition act (a : Action) (world : UpdateWorld) (spawned : result string unit) (w : Win) : Win :=
  match a with
  | ActClose => w <| wn_show_update_dialog := false |>
  | ActCheck => set_update_state (spawn_check world) w
  | ActInstall info => wfx (DxInstall info) (set_update_state (spawn_install world info) w)
  | ActRelaunch exe => relaunch_after_update exe spawned w
  end.

Inductive WinOp :=
| WoUi (op : UiOp)
| WoDeliver (n : nat)
| WoOpenDialog (world : UpdateWorld)
| WoClick (a : Action) (world : UpdateWorld) (spawned : result string unit).

Definition win_exec (op : WinOp) (w : Win) : Win :=
  match op with
  | WoUi op =>
    let w := w <| wn_app := ui_exec op (wn_app w) |> in
    match op with UiFrame _ _ _ _ _ => w <| wn_update_state := poll (wn_update_state w) |> | _ => w end
  | WoDeliver n => w <| wn_update_state := deliver_state n (wn_update_state w) |>
  | WoOpenDialog world => open_update_dialog world w
  | WoClick a world spawned =>
    (* the modal is drawn, and has that button *)
    if wn_show_update_dialog w && bool_decide (a ∈ modal_actions (wn_update_state w)) then act a world spawned w else w
  end.

Inductive win_reachable : Win → Prop :=
| wr_new a : win_reachable (win_new a)
| wr_step op w : win_reachable w → DxExit ∉ wn_fx w → win_reachable (win_exec op w).

(** ** Updates are guarded *)

(** A check found release [r]. *)
Definition checked (r : CheckResult) : Prop := ∃ target releases, check_release current_version target releases = Ok r.

(** An install that the window started put a new binary at [exe]. *)
Definition installed (l : list WinFx) (exe : string) : Prop :=
  ∃ info env fs a s', DxInstall info ∈ l ∧
    download_and_apply env info {| up_fs := fs; up_progress := [] |} = (Done a, s') ∧ ap_replaced_self a = exe.

Definition state_ok (l : list WinFx) (state : option UpdateState) : Prop :=
  match state with
  | Some (UdChecking rx) => ∀ r, CrOk r ∈ rx_queue rx ++ rx_unsent rx → checked r
  | Some (UdReady r) => checked r
  | Some (UdInstalling _ rx _ _ _) => ∀ d, ImDone (Ok d) ∈ rx_queue rx ++ rx_unsent rx → installed l (di_exe d)
  | Some (UdInstalled _ _ exe) => installed l exe
  | _ => True
  end.

Record win_ok (w : Win) : Prop := {
  wo_alone : wn_abandoned w = 0;
  wo_installs : ∀ info, DxInstall info ∈ wn_fx w → checked {| cr_info := info; cr_newer := true |};
  wo_spawns : ∀ exe, DxSpawn exe ∈ wn_fx w → installed (wn_fx w) exe;
  wo_state : state_ok (wn_fx w) (wn_update_state w)
}.

Lemma installed_mono l l' exe : (∀ x, x ∈ l → x ∈ l') → installed l exe → installed l' exe.
Proof. intros Hl (info & env & fs & a & s' & Hin & E). exists info, env, fs, a, s'. split; [by apply Hl|done]. Qed.

Lemma state_ok_mono l l' st : (∀ x, x ∈ l → x ∈ l') → state_ok l st → state_ok l' st.
Proof.
  intros Hl. destruct st as [[]|]; cbn [state_ok]; try done; [|by apply installed_mono].
  intros Hs d Hd. eapply installed_mono; [exact Hl|]. by apply Hs.
Qed.

Lemma drain_install_sub q s d t s' d' t' o q' :
  drain_install q s d t = (s', d', t', o, q') → (∀ m, m ∈ q' → m ∈ q) ∧ (∀ r, o = Some r → ImDone r ∈ q).
Proof.
  revert s d t; induction q as [|[[]|] q IH]; intros s d t; cbn [drain_install].
  - by intros [= <- <- <- <- <-].
  - intros [Hi1 Hi2]%IH. split; intros; apply elem_of_cons; right; auto.
  - intros [Hi1 Hi2]%IH. split; intros; apply elem_of_cons; right; auto.
  - intros [= <- <- <- <- <-]. split; [intros; by apply elem_of_cons; right|]. intros ? [= <-]. apply elem_of_cons; by left.
Qed.

Lemma poll_ok l st : state_ok l st → state_ok l (poll st).
Proof.
  destruct st as [[rx| | |info rx stage d t| | ]|]; try done; cbn [poll].
  - destruct (rx_queue rx) as [|[r|e] q] eqn:Eq; [done| |done]. cbn [state_ok]. rewrite Eq. intros Hs. apply Hs. apply elem_of_app; left. apply elem_of_cons; by left.
  - destruct (drain_install _ _ _ _) as [[[[s' d'] t'] o] q'] eqn:Ed. destruct (drain_install_sub _ _ _ _ _ _ _ _ _ Ed) as [Hq Ho].
    cbn [state_ok]. intros Hs. destruct o as [[di|e]|]; [|done|].
    + apply Hs. apply elem_of_app; left. by apply Ho.
    + cbn [state_ok rx_queue rx_unsent]. intros di Hin. apply Hs. apply elem_of_app in Hin as [Hin|Hin]; apply elem_of_app; [left; by apply Hq|by right].
Qed.

Lemma deliver_in {M} n (rx : Rx M) m : m ∈ rx_queue (deliver n rx) ++ rx_unsent (deliver n rx) ↔ m ∈ rx_queue rx ++ rx_unsent rx.
Proof. unfold deliver. cbn [rx_queue rx_unsent]. by rewrite <-app_assoc, take_drop. Qed.

Lemma deliver_ok l n st : state_ok l st → state_ok l (deliver_state n st).
Proof.
  destruct st as [[rx| | |info rx stage d t| | ]|]; try done; cbn [deliver_state state_ok]; intros Hs x Hx; apply Hs; by apply deliver_in in Hx.
Qed.

Lemma set_update_state_ok st w :
  in_flight (wn_update_state w) = false → win_ok w → state_ok (wn_fx w) (Some st) → win_ok (set_update_state st w).
Proof. intros Hf [H1' H2' H3' H4'] Hs. split; try done. unfold set_update_state. cbn. by rewrite H1', Hf. Qed.

Lemma spawn_check_ok l world : state_ok l (Some (spawn_check world)).
Proof.
  cbn [spawn_check state_ok rx_queue rx_unsent]. intros r Hr. apply elem_of_app in Hr as [[]%not_elem_of_nil|Hr].
  apply subseteq_take, list_elem_of_singleton in Hr. unfold check_msg in Hr.
  destruct (check_release _ _ _) as [r'|] eqn:E; [|done]. injection Hr as <-. by eexists _, _.
Qed.

Lemma spawn_install_ok l world info : DxInstall info ∈ l → state_ok l (Some (spawn_install world info)).
Proof.
  intros Hin. cbn [spawn_install state_ok rx_queue rx_unsent]. intros d Hd. apply elem_of_app in Hd as [[]%not_elem_of_nil|Hd].
  apply subseteq_take, elem_of_app in Hd as [(p & Hp & _)%list_elem_of_fmap|Hd]; [done|].
  unfold install_run in Hd. destruct (download_and_apply _ _ _) as [[a|e|] s'] eqn:E; cbn [fst install_done] in Hd.
  - apply list_elem_of_singleton in Hd. injection Hd as ->. by exists info, (uw_env world), (uw_fs world), a, s'.
  - by apply list_elem_of_singleton in Hd.
  - by apply not_elem_of_nil in Hd.
Qed.

Lemma relaunch_ok exe spawned w : win_ok w → installed (wn_fx w) exe → win_ok (relaunch_after_update exe spawned w).
Proof.
  intros [Ha Hi Hs Hst] Hex.
  set (w' := relaunch_after_update exe spawned w).
  assert (∃ tail, wn_fx w' = wn_fx w ++ DxUnlinkSocket :: DxRestartDaemon :: DxSpawn exe :: tail ∧ (tail = [] ∨ tail = [DxExit])) as (tail & Hfx & Ht).
  { unfold w', relaunch_after_update. destruct spawned; [exists [DxExit]|exists []]; (split; [|by auto]); unfold wfx; cbn; by rewrite <-!app_assoc. }
  assert (∀ x, x ∈ wn_fx w → x ∈ wn_fx w') as Hsub by (intros x Hx; rewrite Hfx; apply elem_of_app; by left).
  assert (wn_update_state w' = wn_update_state w) as Hu by (unfold w', relaunch_after_update; by destruct spawned).
  assert (∀ x, x ∈ wn_fx w' → x ∈ wn_fx w ∨ x = DxUnlinkSocket ∨ x = DxRestartDaemon ∨ x = DxSpawn exe ∨ x = DxExit) as Hnew.
  { intros x. rewrite Hfx, elem_of_app, !elem_of_cons. intros [Hx|[Hx|[Hx|[Hx|Hx]]]]; auto.
    destruct Ht as [-> | ->]; [by apply not_elem_of_nil in Hx|apply list_elem_of_singleton in Hx; auto 8]. }
  split.
  - unfold w', relaunch_after_update. by destruct spawned.
  - intros info [Hx|[Hx|[Hx|[Hx|Hx]]]]%Hnew; try done. by apply Hi.
  - intros e [Hx|[Hx|[Hx|[Hx|Hx]]]]%Hnew; try done; [by eapply installed_mono; [exact Hsub|]; apply Hs|].
    injection Hx as ->. by eapply installed_mono.
  - rewrite Hu. by eapply state_ok_mono.
Qed.

Lemma act_ok a world spawned w : win_ok w → a ∈ modal_actions (wn_update_state w) → win_ok (act a world spawned w).
Proof.
  intros Hok Ha. destruct a as [| |info|exe]; cbn [act].
  - by destruct Hok.
  - apply set_update_state_ok; [|done|apply spawn_check_ok].
    destruct (wn_update_state w) as [[]|]; try done; cbn [modal_actions] in Ha; set_solver.
  - assert (wn_update_state w = Some (UdReady {| cr_info := info; cr_newer := true |})) as Hst.
    { destruct (wn_update_state w) as [[|[i []]| | | |]|]; cbn [modal_actions cr_newer cr_info] in Ha;
        repeat (apply elem_of_cons in Ha as [[= ?]|Ha]); subst; try done; by apply not_elem_of_nil in Ha. }
    destruct Hok as [H1' H2' H3' H4']. rewrite Hst in H4'. cbn [state_ok] in H4'.
    assert (∀ x, x ∈ wn_fx w → x ∈ wn_fx w ++ [DxInstall info]) as Hsub by (intros; apply elem_of_app; by left).
    split; unfold wfx, set_update_state; cbn [wn_abandoned wn_fx wn_update_state update_field].
    + by rewrite H1', Hst.
    + intros i [Hi| Hi%list_elem_of_singleton]%elem_of_app; [by apply H2'|]. by injection Hi as ->.
    + intros e [He|He%list_elem_of_singleton]%elem_of_app; [|done]. eapply installed_mono; [exact Hsub|]. by apply H3'.
    + apply spawn_install_ok. apply elem_of_app; right. by apply list_elem_of_singleton.
  - apply relaunch_ok; [done|]. destruct Hok as [_ _ _ Hst]. revert Ha Hst.
    destruct (wn_update_state w) as [[|[i []]| | | |]|]; cbn [modal_actions cr_newer cr_info state_ok]; intros Ha;
      repeat (apply elem_of_cons in Ha as [[= ?]|Ha]); subst; try done; by apply not_elem_of_nil in Ha.
Qed.

Lemma win_exec_ok op w : win_ok w → win_ok (win_exec op w).
Proof.
  intros Hok. destruct op as [op|n|world|a world spawned]; cbn [win_exec].
  - assert (win_ok (w <| wn_app := ui_exec op (wn_app w) |>)) as [A B C D] by by destruct Hok.
    destruct op; try done. split; try done. by apply poll_ok.
  - destruct Hok as [A B C D]. split; try done. by apply deliver_ok.
  - unfold open_update_dialog. cbv zeta. set (w' := w <| wn_show_update_dialog := true |>). assert (win_ok w') as Hok' by by destruct Hok.
    destruct (wn_update_state w') as [[]|] eqn:E; try done; (apply set_update_state_ok; [by rewrite E|done|apply spawn_check_ok]).
  - destruct (wn_show_update_dialog w); [|done]. cbn [andb]. case_bool_decide; [|done]. by apply act_ok.
Qed.

Lemma checked_newer info : checked {| cr_info := info; cr_newer := true |} → is_newer (ui_tag info) current_version = true.
Proof.
  intros (target & releases & E). unfold check_release in E. destruct releases as [rs|]; [|done]. cbn [rbind] in E.
  destruct (latest rs) as [[v r]|]; [|done]. destruct target as [t|]; [|done]. cbn [rbind] in E.
  destruct (pick_asset _ _ _); [|done]. injection E as <- Hn. done.
Qed.

(** An update starts only when it should.  In every reachable window no
    worker was started while another was running; every install was of a release
    that a check found and whose version is newer than the running one; and the
    window is only ever relaunched from a path where an install it started, and
    which succeeded, put the new binary. *)
Theorem update_starts_guarded w :
  win_reachable w →
  wn_abandoned w = 0 ∧
  (∀ info, DxInstall info ∈ wn_fx w →
     checked {| cr_info := info; cr_newer := true |} ∧ is_newer (ui_tag info) current_version = true) ∧
  ∀ exe, DxSpawn exe ∈ wn_fx w → installed (wn_fx w) exe.
Proof.
  intros Hr. assert (win_ok w) as [A B C D].
  { induction Hr as [a|op w Hr IH _]; [|by apply win_exec_ok].
    split; try done; intros ? []%not_elem_of_nil. }
  split_and!; [done| |done]. intros info Hi. split; [by apply B|]. by apply checked_newer, B.
Qed.

(** ** The dialog settles *)

Fixpoint first_done (q : list InstallMsg) : option (result string DoneInfo) :=
  match q with [] => None | ImProgress _ :: q => first_done q | ImDone r :: _ => Some r end.

Definition done_state (r : result string DoneInfo) : UpdateState :=
  match r with Ok d => UdInstalled (di_tag d) (di_elevated d) (di_exe d) | Err e => UdInstallFailed e end.
Definition check_state (m : CheckResultMsg) : UpdateState := match m with CrOk r => UdReady r | CrErr e => UdCheckFailed e end.

(** Where a state ends up once its worker has reported, if it does. *)
Definition fate (st : UpdateState) : option UpdateState :=
  match st with
  | UdChecking rx => check_state <$> head (rx_queue rx ++ rx_unsent rx)
  | UdInstalling _ rx _ _ _ => done_state <$> first_done (rx_queue rx ++ rx_unsent rx)
  | _ => Some st
  end.

Definition unsent (st : UpdateState) : nat :=
  match st with
  | UdChecking rx => length (rx_unsent rx)
  | UdInstalling _ rx _ _ _ => length (rx_unsent rx)
  | _ => 0
  end.

Lemma first_done_app q q' : first_done (q ++ q') = match first_done q with Some r => Some r | None => first_done q' end.
Proof. induction q as [|[]]; by cbn. Qed.

Lemma drain_install_done q s d t s' d' t' o q' :
  drain_install q s d t = (s', d', t', o, q') → o = first_done q ∧ (o = None → q' = []).
Proof.
  revert s d t; induction q as [|[[]|] q IH]; intros s d t; cbn [drain_install first_done].
  - by intros [= <- <- <- <- <-].
  - by intros ?%IH.
  - by intros ?%IH.
  - by intros [= <- <- <- <- <-].
Qed.

Definition busy (st : UpdateState) : bool := in_flight (Some st).

(** Polling keeps the fate; without anything left to arrive it reaches it. *)
Lemma poll_fate st : ∃ st', poll (Some st) = Some st' ∧ fate st' = fate st ∧ unsent st' ≤ unsent st ∧
  (unsent st = 0 → is_Some (fate st) → Some st' = fate st).
Proof.
  destruct st as [rx| | |info rx stage d t| | ]; try (by eexists; split_and!; [cbn [poll]; reflexivity|..]); cbn [poll fate unsent].
  - destruct (rx_queue rx) as [|[r|e] q] eqn:Eq.
    + exists (UdChecking rx). cbn [fate unsent app]. rewrite Eq. split_and!; [done..|].
      intros Hz. apply nil_length_inv in Hz as ->. by intros [? ?].
    + exists (UdReady r). cbn. split_and!; [done..|lia|done].
    + exists (UdCheckFailed e). cbn. split_and!; [done..|lia|done].
  - destruct (drain_install _ _ _ _) as [[[[s' d'] t'] o] q'] eqn:Ed. apply drain_install_done in Ed as [-> Hq].
    rewrite first_done_app. destruct (first_done (rx_queue rx)) as [[di|e]|].
    + eexists. split_and!; [done|done|cbn; lia|done].
    + eexists. split_and!; [done|done|cbn; lia|done].
    + rewrite (Hq eq_refl). eexists. split_and!; [done|done|cbn; lia|]. intros Hz. apply nil_length_inv in Hz as ->. by intros [? ?].
Qed.

Lemma deliver_fate n st : ∃ st', deliver_state n (Some st) = Some st' ∧ fate st' = fate st ∧ unsent st' = unsent st - n.
Proof.
  destruct st as [rx| | |info rx stage d t| | ]; try (by eexists); eexists; (split; [reflexivity|]);
    unfold deliver; cbn [fate unsent rx_queue rx_unsent]; by rewrite <-app_assoc, take_drop, length_drop.
Qed.

(** Operations that start no worker. *)
Definition quiet_op (op : WinOp) : bool :=
  match op with WoUi _ | WoDeliver _ | WoClick ActClose _ _ => true | _ => false end.
Definition delivered (ops : list WinOp) : nat := sum_list_with (λ op, match op with WoDeliver n => n | _ => 0 end) ops.
Definition win_run (ops : list WinOp) (w : Win) : Win := fold_left (λ w op, win_exec op w) ops w.

Lemma quiet_fate op w st :
  quiet_op op = true → wn_update_state w = Some st →
  ∃ st', wn_update_state (win_exec op w) = Some st' ∧ fate st' = fate st ∧
    unsent st' ≤ unsent st - match op with WoDeliver n => n | _ => 0 end.
Proof.
  intros Hq Hst. destruct op as [op|n|world|[] world spawned]; try done; cbn [win_exec].
  - destruct (poll_fate st) as (st' & Hp & Hf & Hu & _). rewrite Nat.sub_0_r.
    destruct op; try (by exists st). exists st'. split_and!; [|done..]. by rewrite <-Hp, <-Hst.
  - destruct (deliver_fate n st) as (st' & Hd & Hf & Hu). exists st'. rewrite Hu. split_and!; [by rewrite <-Hd, <-Hst|done..].
  - exists st. rewrite Nat.sub_0_r. split_and!; [|done..]. by destruct (_ && _).
Qed.

Lemma run_fate ops w st :
  Forall (λ op, quiet_op op = true) ops → wn_update_state w = Some st →
  ∃ st', wn_update_state (win_run ops w) = Some st' ∧ fate st' = fate st ∧ unsent st' ≤ unsent st - delivered ops.
Proof.
  revert w st; induction ops as [|op ops IH]; intros w st; cbn [win_run fold_left].
  - intros _ Hst. exists st. change (delivered []) with 0. split_and!; [done|done|lia].
  - intros [Hq Hqs]%Forall_cons Hst. destruct (quiet_fate op w st Hq Hst) as (st1 & H1' & Hf1 & Hu1).
    destruct (IH _ _ Hqs H1') as (st' & H2' & Hf2 & Hu2). exists st'. split_and!; [done|congruence|].
    unfold delivered in *. cbn [sum_list_with]. lia.
Qed.

(** An install's run ends. *)
Definition ends {A} (m : upd A) : Prop := ∀ s, (m s).1 ≠ Waiting.

Lemma ends_bind {A B} (m : upd A) (k : A → upd B) : ends m → (∀ a, ends (k a)) → ends (m ≫= k).
Proof.
  intros Hm Hk s. unfold mbind, prog_bind. specialize (Hm s). destruct (m s) as [[a|e|] s']; [apply Hk|done|done].
Qed.

Lemma ends_ret {A} (a : A) : ends (mret a). Proof. by intros s. Qed.
Lemma ends_fail {A} e : ends (pfail e : upd A). Proof. by intros s. Qed.
Lemma ends_lift {A} (r : result string A) : ends (plift r : upd A). Proof. by intros s; destruct r. Qed.
Lemma ends_ask {A} (op : Fs → A) : ends (ask_fs op). Proof. by intros s. Qed.
Lemma ends_progress p : ends (on_progress p). Proof. by intros s. Qed.
Lemma ends_sys msg op : ends (sys msg op). Proof. intros s. unfold sys. destruct (op _) as [[] fs]; done. Qed.
Lemma ends_sys_val {A} (op : Fs → result string A * Fs) : ends (sys_val op). Proof. intros s. unfold sys_val. destruct (op _) as [[] fs]; done. Qed.
#[local] Hint Resolve ends_ret ends_fail ends_lift ends_ask ends_progress ends_sys ends_sys_val : ends.

Ltac ends_steps := repeat first [progress eauto with ends | apply ends_bind; [|intros ?] | case_match].

Lemma ends_chunks dest size total chunks : ends (download_chunks dest size total chunks).
Proof. revert total; induction chunks as [|[b|e] chunks IH]; intros total; cbn [download_chunks]; ends_steps. Qed.

Lemma ends_download r dest size : ends (download_to r dest size).
Proof. unfold download_to. destruct r; [|ends_steps]. apply ends_bind; [ends_steps|intros ?; apply ends_chunks]. Qed.

Lemma ends_install env tag b exe new_self on_disk present new_sibling : ends (install env tag b exe new_self on_disk present new_sibling).
Proof. unfold install, install_inline, helper_path_for, apply_with_elevation, is_file. cbv zeta. ends_steps. Qed.

Lemma ends_extract archive dest : ends (extract archive dest).
Proof. unfold extract. cbv zeta. ends_steps. Qed.

Lemma ends_download_and_apply env info : ends (download_and_apply env info).
Proof.
  unfold download_and_apply. cbv zeta. destruct (parent _); [|ends_steps].
  apply ends_bind; [intros u0; by destruct (fs_other _)|intros w].
  repeat first [apply ends_download | apply ends_install | apply ends_extract | progress eauto with ends | apply ends_bind; [|intros ?]].
  unfold is_file. ends_steps.
Qed.

(** The modal state a worker's report leads to. *)
Definition check_outcome (world : UpdateWorld) : UpdateState := check_state (check_msg world).
Definition install_outcome (world : UpdateWorld) (info : UpdateInfo) : UpdateState :=
  match (install_run world info).1 with
  | Done a => UdInstalled (ap_tag a) (ap_elevated a) (ap_replaced_self a)
  | Failed e => UdInstallFailed e
  | Waiting => UdInstallFailed ""
  end.

Lemma first_done_progress ps q : first_done (map ImProgress ps ++ q) = first_done q.
Proof. by induction ps. Qed.

Lemma spawn_check_fate world : 1 ≤ uw_lives world → fate (spawn_check world) = Some (check_outcome world).
Proof. intros Hl. unfold spawn_check. cbn [fate rx_queue rx_unsent app]. destruct (uw_lives world); [lia|done]. Qed.

Lemma spawn_install_fate world info :
  length (install_msgs world info) ≤ uw_lives world → fate (spawn_install world info) = Some (install_outcome world info).
Proof.
  intros Hl. unfold spawn_install. cbn [fate rx_queue rx_unsent app]. rewrite take_ge by done.
  unfold install_msgs, install_outcome. rewrite first_done_progress.
  pose proof (ends_download_and_apply (uw_env world) info {| up_fs := uw_fs world; up_progress := [] |}) as He.
  change (download_and_apply (uw_env world) info _) with (install_run world info) in He. by destruct (install_run world info).1.
Qed.

(** The dialog settles.  Once a check or an install that was started has
    been given the time to report, the next frame shows its outcome, and the
    outcome is that of the worker's run, however its messages and the frames were
    interleaved and whatever else the user did in the window meanwhile. *)
Theorem update_dialog_settles world info w st fin ops now us q cr fresh :
  (1 ≤ uw_lives world ∧ st = spawn_check world ∧ fin = check_outcome world) ∨
  (length (install_msgs world info) ≤ uw_lives world ∧ st = spawn_install world info ∧ fin = install_outcome world info) →
  wn_update_state w = Some st → Forall (λ op, quiet_op op = true) ops → unsent st ≤ delivered ops →
  wn_update_state (win_exec (WoUi (UiFrame now us q cr fresh)) (win_run ops w)) = Some fin.
Proof.
  intros Hst Hw Hq Hd.
  assert (fate st = Some fin) as Hf by (destruct Hst as [(?&->&->)|(?&->&->)]; [by apply spawn_check_fate|by apply spawn_install_fate]).
  destruct (run_fate ops w st Hq Hw) as (st1 & H1' & Hf1 & Hu1). cbn [win_exec].
  destruct (poll_fate st1) as (st2 & Hp & _ & _ & Hfin). rewrite Hf1, Hf in Hfin.
  change (wn_update_state _) with (poll (wn_update_state (win_run ops w))). rewrite H1', Hp. apply Hfin; [lia|done].
Qed.

(** A worker that dies before reporting leaves its dialog busy for good: nothing
    the user can do in the window starts another check. *)
Lemma dead_worker_sticks op w st :
  wn_update_state w = Some st → busy st = true → fate st = None →
  ∃ st', wn_update_state (win_exec op w) = Some st' ∧ busy st' = true ∧ fate st' = None.
Proof.
  intros Hw Hb Hf. destruct (quiet_op op) eqn:Hq.
  - destruct (quiet_fate op w st Hq Hw) as (st' & Hw' & Hf' & _). exists st'. rewrite Hf in Hf'. split_and!; [done| |done].
    by destruct st'.
  - exists st. split_and!; [|done..]. destruct op as [op|n|world|a world spawned]; try done; cbn [win_exec].
    + unfold open_update_dialog. cbv zeta. cbn [wn_update_state update_field]. rewrite Hw. by destruct st.
    + destruct (wn_show_update_dialog w); [|done]. cbn [andb]. case_bool_decide as Ha; [|done]. rewrite Hw in Ha.
      destruct a; try done; (destruct st; try done; by apply list_elem_of_singleton in Ha).
Qed.
End dialog.

Lemma dead_check_never_ends `{SemverOps, TarOps, SelfReplaceOps, JsonOps Plan} current world ops w :
  uw_lives world = 0 → wn_update_state w = Some (spawn_check current world) →
  ∃ st, wn_update_state (win_run current ops w) = Some st ∧ busy st = true.
Proof.
  intros Hl Hw. cut (∃ st, wn_update_state (win_run current ops w) = Some st ∧ busy st = true ∧ fate st = None); [naive_solver|].
  assert (fate (spawn_check current world) = None) as Hf by (unfold spawn_check; by rewrite Hl).
  assert (busy (spawn_check current world) = true) as Hb by done. revert w Hw Hb Hf. generalize (spawn_check current world).
  induction ops as [|op ops IH]; intros st w Hw Hb Hf; cbn [win_run fold_left]; [by exists st|].
  destruct (dead_worker_sticks current op w st Hw Hb Hf) as (st' & Hw' & Hb' & Hf'). by eapply IH.
Qed.

(** ** Witnesses *)

Section witnesses.
#[local] Existing Instances toy_semver toy_tar toy_self_replace toy_json_plan.

Definition wit_world (lives : nat) : UpdateWorld :=
  {| uw_target := Ok "x"%string; uw_releases := Ok [wit_release "v1.3.0" false]; uw_env := wit_update_env (Ok tt);
     uw_fs := up_fs wit_upd; uw_lives := lives |}.
Definition wit_offer : UpdateInfo :=
  {| ui_tag := "v1.3.0"; ui_version := "1.3.0"; ui_html_url := "h"; ui_asset_url := "u"; ui_asset_name := "synbad-1.3.0-x.tar.gz";
     ui_asset_size := 1; ui_body := "" |}.
Definition wit_frame : WinOp := WoUi (UiFrame 0 [] false false []).
(** Check, install and relaunch. *)
Definition wit_ops : list WinOp :=
  [WoOpenDialog (wit_world 9); WoDeliver 1; wit_frame; WoClick (ActInstall wit_offer) (wit_world 99) (Ok tt);
   WoDeliver 2; wit_frame; WoDeliver 97; wit_frame; WoClick (ActRelaunch "/opt/synbad/synbadd") (wit_world 0) (Ok tt)].
Definition wit_final : Win := win_run "1.0.0" wit_ops (win_new (app_new false [] true)).

Lemma run_reachable ops w :
  win_reachable "1.0.0" w → (∀ n, n < length ops → DxExit ∉ wn_fx (win_run "1.0.0" (take n ops) w)) →
  win_reachable "1.0.0" (win_run "1.0.0" ops w).
Proof.
  revert w; induction ops as [|op ops IH]; intros w Hw He; [done|]. cbn [win_run fold_left]. apply IH.
  - apply wr_step; [done|]. apply (He 0). cbn [length]. lia.
  - intros n Hn. apply (He (S n)). cbn [length]. lia.
Qed.

Example update_starts_guarded_witness :
  wn_fx wit_final = [DxInstall wit_offer; DxUnlinkSocket; DxRestartDaemon; DxSpawn "/opt/synbad/synbadd"; DxExit] ∧
  is_newer (ui_tag wit_offer) "1.0.0" = true ∧ installed (wn_fx wit_final) "/opt/synbad/synbadd".
Proof.
  assert (wn_fx wit_final = [DxInstall wit_offer; DxUnlinkSocket; DxRestartDaemon; DxSpawn "/opt/synbad/synbadd"; DxExit]) as Hfx
    by (vm_compute; reflexivity).
  assert (win_reachable "1.0.0" wit_final) as Hr.
  { apply run_reachable; [constructor|]. intros n Hn. do 9 (destruct n as [|n]; [apply (bool_decide_unpack _); vm_compute; exact I|]). cbn in Hn. lia. }
  destruct (update_starts_guarded "1.0.0" wit_final Hr) as (_ & Hi & Hs). split; [exact Hfx|]. split.
  - apply Hi. rewrite Hfx. apply elem_of_cons; by left.
  - apply Hs. rewrite Hfx. do 3 (apply elem_of_cons; right). apply elem_of_cons; by left.
Defined.

(** Five messages, in three batches with frames and an edit in between. *)
Example update_dialog_settles_witness :
  wn_update_state (win_exec "1.0.0" wit_frame (win_run "1.0.0"
    [WoDeliver 1; wit_frame; WoUi UiStart; WoDeliver 2; WoClick ActClose (wit_world 0) (Ok tt); wit_frame; WoDeliver 50]
    (win_new (app_new false [] true) <| wn_update_state := Some (spawn_install (wit_world 99) wit_offer) |>))) =
  Some (UdInstalled "v1.3.0" true "/opt/synbad/synbadd").
Proof.
  apply (update_dialog_settles "1.0.0" (wit_world 99) wit_offer _ (spawn_install (wit_world 99) wit_offer)).
  - right. split; [apply (bool_decide_unpack _); vm_compute; exact I|]. split; [reflexivity|vm_compute; reflexivity].
  - reflexivity.
  - repeat constructor.
  - apply (bool_decide_unpack _). vm_compute. exact I.
Defined.
End witnesses.
