(* ===== verification/Discovery.v ===== *)
(** * LAN discovery ([crates/synbad-discovery/src]: [advertiser.rs], [browser.rs], [interfaces.rs])

    What a machine announces over mDNS, on which interfaces, and how the browser
    turns what it resolves into the peers the supervisor is told of.  The mDNS
    engine and the enumeration of interfaces belong to other packages. *)

From Stdlib Require Import Ascii ZArith Lia.
From S2P Require Import Prelude Primitives Config IpcTypes LogParse SupState Store FileOps.

Definition SERVICE_TYPE : string := "_synbad._tcp.local.".
Definition PROTOCOL_VERSION : Z := 1.

(** ** Addresses ([std::net::IpAddr]) *)

Inductive IpAddr := IpV4 (a : Z) | IpV6 (a : Z).
#[export] Instance IpAddr_eq_dec : EqDecision IpAddr.
Proof. solve_decision. Defined.
#[export] Instance IpAddr_countable : Countable IpAddr.
Proof.
  refine (inj_countable' (λ ip, match ip with IpV4 a => inl a | IpV6 a => inr a end)
            (λ x, match x with inl a => IpV4 a | inr a => IpV6 a end) _). by intros [].
Defined.

Definition is_ipv6 (ip : IpAddr) : bool := match ip with IpV6 _ => true | IpV4 _ => false end.
(** [127.0.0.0/8] and [::1]. *)
Definition is_loopback (ip : IpAddr) : bool :=
  match ip with IpV4 a => bool_decide (Z.shiftr a 24 = 127)%Z | IpV6 a => bool_decide (a = 1)%Z end.
(** [fe80::/10]. *)
Definition is_link_local_v6 (ip : IpAddr) : bool :=
  match ip with IpV6 a => bool_decide (Z.shiftr a 118 = 1018)%Z | IpV4 _ => false end.

(** [Ord]: by family, then by value. *)
Definition ip_rank (ip : IpAddr) : bool * Z := match ip with IpV4 a => (false, a) | IpV6 a => (true, a) end.
Definition bz_le (x y : bool * Z) : Prop := if x.1 then y.1 = true ∧ (x.2 ≤ y.2)%Z else y.1 = true ∨ (x.2 ≤ y.2)%Z.
Definition ip_le (a b : IpAddr) : Prop := bz_le (ip_rank a) (ip_rank b).
#[export] Instance ip_le_dec : RelDecision ip_le.
Proof. intros a b. unfold ip_le, bz_le. destruct (ip_rank a).1; apply _. Defined.
#[export] Instance ip_le_total : Total ip_le.
Proof. intros a b. unfold ip_le, bz_le. destruct a, b; cbn; try (by left); try (by right); try (by left; left); try (by right; left); lia. Qed.
#[export] Instance ip_le_trans : Transitive ip_le.
Proof. intros a b c. unfold ip_le, bz_le. destruct a, b, c; cbn; intuition (try done); lia. Qed.
#[export] Instance ip_le_antisymm : AntiSymm (=) ip_le.
Proof. intros a b. unfold ip_le, bz_le. destruct a, b; cbn; intuition (try done); f_equal; lia. Qed.

(** [Display] *)
Definition ipv4_string (a : Z) : string :=
  pretty (Z.shiftr a 24 mod 256)%Z +:+ "." +:+ pretty (Z.shiftr a 16 mod 256)%Z +:+ "." +:+
  pretty (Z.shiftr a 8 mod 256)%Z +:+ "." +:+ pretty (a mod 256)%Z.

Definition ipv6_segments (a : Z) : list Z := map (λ i, (Z.shiftr a (16 * Z.of_nat i) mod 65536)%Z) (rev (seq 0 8)).

(** [{:x}] of a segment. *)
Definition hex16 (z : Z) : string :=
  let ds := map (λ k, (Z.shiftr z k mod 16)%Z) [12; 8; 4]%Z in
  let fix strip l := match l with 0%Z :: l' => strip l' | _ => l end in
  string_of (map nibble_char (strip ds ++ [z mod 16]%Z)).

Definition fmt_segments (l : list Z) : string := String.concat ":" (map hex16 l).

(** The first of the longest runs of zero segments: its start and length. *)
Fixpoint longest_zeros (l : list Z) (i : nat) (current longest : nat * nat) : nat * nat :=
  match l with
  | [] => longest
  | z :: l' =>
    let current := if decide (z = 0)%Z then (if decide (current.2 = 0) then i else current.1, S current.2) else (0, 0) in
    longest_zeros l' (S i) current (if decide (longest.2 < current.2) then current else longest)
  end.

Definition ipv6_string (a : Z) : string :=
  if decide (Z.shiftr a 32 = 65535)%Z then "::ffff:" +:+ ipv4_string (a mod 2 ^ 32) else
  let segs := ipv6_segments a in
  let '(start, len) := longest_zeros segs 0 (0, 0) (0, 0) in
  if decide (1 < len) then fmt_segments (take start segs) +:+ "::" +:+ fmt_segments (drop (start + len) segs)
  else fmt_segments segs.

Definition ip_string (ip : IpAddr) : string := match ip with IpV4 a => ipv4_string a | IpV6 a => ipv6_string a end.

Example ip_strings :
  map ip_string [IpV4 3232235557; IpV6 1; IpV6 0; IpV6 (Z.shiftl 65152 112 + 1); IpV6 (65535 * 2 ^ 32 + 2130706433);
                 IpV6 (Z.shiftl 8193 112 + Z.shiftl 1 64 + Z.shiftl 10 16)]%Z =
  ["192.168.0.37"; "::1"; "::"; "fe80::1"; "::ffff:127.0.0.1"; "2001::1:0:0:a:0"]%string.
Proof. vm_compute. reflexivity. Qed.

(** ** Decimal numbers: [to_string] and [str::parse] *)

Definition digit_val (c : ascii) : option Z := digit_of 10 c.

Fixpoint digits_val (acc : Z) (s : bytes) : option Z :=
  match s with
  | [] => Some acc
  | c :: s' => d ← digit_val c; digits_val (10 * acc + d) s'
  end.

(** [parse::<u16>] and [parse::<u32>]: an optional plus sign and at least one
    digit, the value in range. *)
Definition parse_uint (max : Z) (s : string) : option Z :=
  let b := match bytes_of s with c :: r => if decide (c = "+"%char) then r else c :: r | [] => [] end in
  match b with
  | [] => None
  | _ => v ← digits_val 0 b; if decide (v ≤ max)%Z then Some v else None
  end.

Lemma digit_val_pretty x : (x < 10)%N → digit_val (pretty_N_char x) = Some (Z.of_N x).
Proof.
  intros Hx. assert (x = 0 ∨ x = 1 ∨ x = 2 ∨ x = 3 ∨ x = 4 ∨ x = 5 ∨ x = 6 ∨ x = 7 ∨ x = 8 ∨ x = 9)%N as Hc by lia.
  repeat (destruct Hc as [->|Hc]; [vm_compute; reflexivity|]). subst. vm_compute. reflexivity.
Qed.

Lemma digits_pretty_go x s : digits_val 0 (bytes_of (pretty_N_go x s)) = digits_val (Z.of_N x) (bytes_of s).
Proof.
  revert s; induction (N.lt_wf_0 x) as [x _ IH]; intros s.
  assert (x = 0 ∨ 0 < x)%N as [->|Hx] by lia; [by rewrite pretty_N_go_0|].
  rewrite pretty_N_go_step, IH by (try apply N.div_lt; lia).
  change (bytes_of (String ?c s)) with (c :: bytes_of s). cbn [digits_val]. rewrite digit_val_pretty by (apply N.mod_lt; lia).
  cbn [mbind option_bind]. f_equal. pose proof (N.div_mod x 10 ltac:(done)). lia.
Qed.

Lemma digits_pretty z : (0 ≤ z)%Z → digits_val 0 (bytes_of (pretty z)) = Some z ∧ bytes_of (pretty z) ≠ [].
Proof.
  intros Hz. destruct z as [|p|]; [done| |lia]. change (pretty (Z.pos p)) with (pretty (N.pos p)).
  unfold pretty, pretty_N. rewrite decide_False by done. rewrite digits_pretty_go. split; [done|].
  intros E. pose proof (digits_pretty_go (N.pos p) "") as Hd. rewrite E in Hd. done.
Qed.

Lemma parse_uint_pretty max z : (0 ≤ z ≤ max)%Z → parse_uint max (pretty z) = Some z.
Proof.
  intros Hz. destruct (digits_pretty z ltac:(lia)) as [Hd Hne]. unfold parse_uint.
  destruct (bytes_of (pretty z)) as [|c r]; [done|].
  rewrite decide_False by (intros ->; vm_compute in Hd; discriminate). rewrite Hd. cbn [mbind option_bind]. by rewrite decide_True by lia.
Qed.

Example parse_examples :
  map (parse_uint 65535) ["24800"; "+7"; "65535"; "65536"; ""; "+"; "-1"; " 7"; "007"]%string =
  [Some 24800; Some 7; Some 65535; None; None; None; None; None; Some 7]%Z.
Proof. vm_compute. reflexivity. Qed.

(** ** Which interfaces take part ([interfaces.rs]) *)

Record Interface := { if_name : string; if_ip : IpAddr; if_is_loopback : bool }.

Definition excluded (name : string) (macos : bool) : bool :=
  bool_decide (name = "lo"%string) || bool_decide (name = "lo0"%string)
  || (macos && (starts_with (bytes_of "utun") (bytes_of name) || bool_decide (name = "awdl0"%string) || bool_decide (name = "llw0"%string))).

Record InterfacePolicy := { ip_initialized : bool; ip_enabled : gset string; ip_addresses : gset (string * IpAddr) }.
#[export] Instance InterfacePolicy_eta : Eta InterfacePolicy := λ r,
  {| ip_initialized := ip_initialized r; ip_enabled := ip_enabled r; ip_addresses := ip_addresses r |}.
Definition default_policy : InterfacePolicy := {| ip_initialized := false; ip_enabled := ∅; ip_addresses := ∅ |}.

(** [Vec::dedup]. *)
Fixpoint dedup {A} `{EqDecision A} (l : list A) : list A :=
  match l with
  | x :: (y :: _) as l' => if decide (x = y) then dedup l' else x :: dedup l'
  | _ => l
  end.

Definition advertised_addresses (pol : InterfacePolicy) : list IpAddr :=
  dedup (merge_sort ip_le (map snd (elements (ip_addresses pol)))).

(** What the mDNS daemon is told. *)
Inductive MdnsCall := DisableAll | Enable (name : string).

(** What a refresh meets: the platform, the interfaces if they can be listed, and
    whether the daemon takes each call. *)
Record NetEnv := {
  ne_macos : bool;
  ne_interfaces : option (list Interface);
  ne_disable_ok : bool;
  ne_enable_ok : string → bool;
  ne_register_ok : bool;
  ne_proc_hostname : option string;
  ne_env_hostname : option string
}.

Fixpoint refresh_loop (env : NetEnv) (ifs : list Interface) (enabled : gset string) (addresses : gset (string * IpAddr)) (calls : list MdnsCall)
    : bool * gset string * gset (string * IpAddr) * list MdnsCall :=
  match ifs with
  | [] => (true, enabled, addresses, calls)
  | i :: ifs' =>
    if excluded (if_name i) (ne_macos env) || if_is_loopback i then refresh_loop env ifs' enabled addresses calls
    else if bool_decide (if_name i ∈ enabled) then refresh_loop env ifs' enabled ({[(if_name i, if_ip i)]} ∪ addresses) calls
    else if ne_enable_ok env (if_name i)
         then refresh_loop env ifs' ({[if_name i]} ∪ enabled) ({[(if_name i, if_ip i)]} ∪ addresses) (calls ++ [Enable (if_name i)])
         else (false, enabled, addresses, calls)
  end.

(** [InterfacePolicy::refresh]: whether the LAN addresses changed. *)
Definition policy_refresh (env : NetEnv) (pol : InterfacePolicy) (calls : list MdnsCall)
    : result string bool * InterfacePolicy * list MdnsCall :=
  if negb (ip_initialized pol) && negb (ne_disable_ok env) then (Err "disable_interface"%string, pol, calls) else
  let calls := if ip_initialized pol then calls else calls ++ [DisableAll] in
  let pol := pol <| ip_initialized := true |> in
  match ne_interfaces env with
  | None => (Ok false, pol, calls)
  | Some ifs =>
    let '(ok, enabled, addresses, calls) := refresh_loop env ifs (ip_enabled pol) ∅ calls in
    let pol := pol <| ip_enabled := enabled |> in
    if ok : bool then (Ok (bool_decide (ip_addresses pol ≠ addresses)), pol <| ip_addresses := addresses |>, calls)
    else (Err "enable_interface"%string, pol, calls)
  end.

(** ** Services ([mdns_sd]) *)

Class MdnsOps := {
  ServiceInfo : Type;
  (* service type, instance name, host name, addresses, port, TXT properties *)
  service_info_new : string → string → string → list IpAddr → Z → gmap string string → option ServiceInfo;
  get_fullname : ServiceInfo → string;
  get_hostname : ServiceInfo → string;
  get_addresses : ServiceInfo → list IpAddr;
  get_port : ServiceInfo → Z;
  get_property_val_str : ServiceInfo → string → option string
}.

(** Keys are looked up without regard to case, so the law is for lower-case ones. *)
Class MdnsLaws `{MdnsOps} := {
  service_fullname : ∀ ty name host addrs port props info,
    service_info_new ty name host addrs port props = Some info → get_fullname info = name +:+ "." +:+ ty;
  service_port : ∀ ty name host addrs port props info,
    service_info_new ty name host addrs port props = Some info → get_port info = port;
  service_addresses : ∀ ty name host addrs port props info,
    service_info_new ty name host addrs port props = Some info → NoDup (get_addresses info) ∧ ∀ ip, ip ∈ get_addresses info ↔ ip ∈ addrs;
  service_property : ∀ ty name host addrs port props info k,
    service_info_new ty name host addrs port props = Some info → map ascii_lower (bytes_of k) = bytes_of k →
    map_Forall (λ k _, map ascii_lower (bytes_of k) = bytes_of k) props → get_property_val_str info k = props !! k
}.

(** ** The advertiser ([advertiser.rs]) *)

Record AdvertisedFields := {
  af_machine_id : string; af_fingerprint : string; af_display_name : string; af_host_name : string;
  af_service_port : Z; af_sync_port : Z; af_core_port : Z; af_audio_port : Z; af_config_head : string
}.
#[export] Instance AdvertisedFields_eq_dec : EqDecision AdvertisedFields.
Proof. solve_decision. Defined.
#[export] Instance AdvertisedFields_eta : Eta AdvertisedFields := λ r,
  {| af_machine_id := af_machine_id r; af_fingerprint := af_fingerprint r; af_display_name := af_display_name r;
     af_host_name := af_host_name r; af_service_port := af_service_port r; af_sync_port := af_sync_port r;
     af_core_port := af_core_port r; af_audio_port := af_audio_port r; af_config_head := af_config_head r |}.

Definition hostname (env : NetEnv) : string :=
  match ne_proc_hostname env, ne_env_hostname env with
  | Some s, _ => string_of (trim (bytes_of s))
  | None, Some s => s
  | None, None => ""
  end.

(** One [-] for each character that is not a letter, a digit or [-]: in UTF-8, for
    each byte that begins one. *)
Definition sanitize (s : string) : string :=
  let keep c := byte_in 48 57 c || byte_in 65 90 c || byte_in 97 122 c || bool_decide (c = "-"%char) in
  string_of (map (λ c, if keep c then c else "-"%char) (List.filter (λ c, negb (byte_in 128 191 c)) (bytes_of s))).

Fixpoint drop_dots (b : bytes) : bytes := match b with c :: b' => if decide (c = "."%char) then drop_dots b' else b | [] => [] end.

Definition ensure_local_dot (host : string) : string :=
  let h := reverse (drop_dots (reverse (bytes_of host))) in
  if ends_with (bytes_of ".local") h then string_of h +:+ "." else sanitize (string_of h) +:+ ".local.".

Section discovery.
Context `{MdnsOps}.

Definition txt_properties (f : AdvertisedFields) (host : string) : gmap string string :=
  let props := <["sync_port" := pretty (af_sync_port f)]> (<["core_port" := pretty (af_core_port f)]> (<["fp" := af_fingerprint f]>
               (<["id" := af_machine_id f]> {["v" := pretty PROTOCOL_VERSION]}))) in
  let props := if decide (af_audio_port f = 0)%Z then props else <["audio_port" := pretty (af_audio_port f)]> props in
  let props := if decide (af_config_head f = ""%string) then props else <["cfg" := af_config_head f]> props in
  <["host" := host]> props.

Definition build_service_info (f : AdvertisedFields) (addresses : list IpAddr) (host : string) : option ServiceInfo :=
  service_info_new SERVICE_TYPE (af_display_name f) (af_host_name f) addresses (af_service_port f) (txt_properties f host).

(** [av_service] is the record the daemon answers for. *)
Record Advertiser := {
  av_fields : AdvertisedFields;
  av_interfaces : InterfacePolicy;
  av_reannounce : bool;
  av_service : ServiceInfo;
  av_calls : list MdnsCall
}.
#[export] Instance Advertiser_eta : Eta Advertiser := λ r,
  {| av_fields := av_fields r; av_interfaces := av_interfaces r; av_reannounce := av_reannounce r; av_service := av_service r; av_calls := av_calls r |}.

Definition advertiser_start (env : NetEnv) (machine_id fingerprint display_name : string)
    (service_port sync_port core_port audio_port : Z) (config_head : string) : result string Advertiser :=
  if bool_decide (display_name = ""%string) || bool_decide ("."%char ∈ bytes_of display_name) then Err ("invalid display name: " +:+ display_name) else
  let '(r, pol, calls) := policy_refresh env default_policy [] in
  let? _ := r in
  let host_name := if decide (hostname env = ""%string) then sanitize display_name +:+ ".local." else ensure_local_dot (hostname env) in
  let fields := {| af_machine_id := machine_id; af_fingerprint := fingerprint; af_display_name := display_name; af_host_name := host_name;
                   af_service_port := service_port; af_sync_port := sync_port; af_core_port := core_port; af_audio_port := audio_port;
                   af_config_head := config_head |} in
  let? service := ok_or "mdns"%string (build_service_info fields (advertised_addresses pol) (hostname env)) in
  if ne_register_ok env
  then Ok {| av_fields := fields; av_interfaces := pol; av_reannounce := false; av_service := service; av_calls := calls |}
  else Err "mdns"%string.

Definition requested (f : AdvertisedFields) (service_port sync_port core_port audio_port : Z) (config_head : string) : AdvertisedFields :=
  f <| af_service_port := service_port |> <| af_sync_port := sync_port |> <| af_core_port := core_port |>
    <| af_audio_port := audio_port |> <| af_config_head := config_head |>.

Definition refresh (env : NetEnv) (service_port sync_port core_port audio_port : Z) (config_head : string) (a : Advertiser)
    : result string unit * Advertiser :=
  let fields := requested (av_fields a) service_port sync_port core_port audio_port config_head in
  let '(r, pol, calls) := policy_refresh env (av_interfaces a) (av_calls a) in
  let a := a <| av_interfaces := pol |> <| av_calls := calls |> in
  match r with
  | Err e => (Err e, a)
  | Ok changed =>
    let a := a <| av_reannounce := av_reannounce a || changed |> in
    if bool_decide (fields = av_fields a) && negb (av_reannounce a) then (Ok tt, a) else
    match build_service_info fields (advertised_addresses (av_interfaces a)) (hostname env) with
    | None => (Err "mdns"%string, a)
    | Some service =>
      if ne_register_ok env then (Ok tt, a <| av_service := service |> <| av_fields := fields |> <| av_reannounce := false |>)
      else (Err "mdns"%string, a)
    end
  end.

Definition set_audio_port (env : NetEnv) (audio_port : Z) (a : Advertiser) : result string unit * Advertiser :=
  let f := av_fields a in
  refresh env (af_service_port f) (af_sync_port f) (af_core_port f) audio_port (af_config_head f) a.

(** ** The browser ([browser.rs]) *)

Definition port_property (info : ServiceInfo) (key : string) : Z :=
  default 0%Z (s ← get_property_val_str info key; parse_uint u16_MAX s).

(** [sort_by_key] with the key (loopback, IPv6, address). *)
Definition key_le (a b : IpAddr) : Prop :=
  if is_loopback a then is_loopback b = true ∧ ip_le a b else is_loopback b = true ∨ ip_le a b.
#[export] Instance key_le_dec : RelDecision key_le.
Proof. intros a b. unfold key_le. destruct (is_loopback a); apply _. Defined.

Definition usable_address (ip : IpAddr) : bool := negb (is_loopback ip) && negb (is_link_local_v6 ip).

Definition peer_addresses (info : ServiceInfo) : list IpAddr := merge_sort key_le (List.filter usable_address (get_addresses info)).

Definition first_label (full_name : string) : string :=
  let b := bytes_of full_name in string_of match find_char "."%char b with Some i => take i b | None => b end.

Definition peer_from (info : ServiceInfo) : option DiscoveredPeer :=
  machine_id ← get_property_val_str info "id";
  fingerprint ← get_property_val_str info "fp";
  let addresses := map ip_string (peer_addresses info) in
  Some {| dp_machine_id := machine_id; dp_display_name := first_label (get_fullname info);
          dp_host := default (get_hostname info) (head addresses); dp_addresses := addresses;
          dp_service_port := get_port info; dp_core_port := port_property info "core_port"; dp_sync_port := port_property info "sync_port";
          dp_audio_port := port_property info "audio_port"; dp_fingerprint := fingerprint;
          dp_protocol_version := default 0%Z (s ← get_property_val_str info "v"; parse_uint u32_MAX s);
          dp_config_head := default ""%string (get_property_val_str info "cfg") |}.

Inductive ServiceEvent :=
| SearchStarted
| SearchStopped
| ServiceFound (full_name : string)
| ServiceResolved (info : ServiceInfo)
| ServiceRemoved (full_name : string).

(** The arms on services: the peers by full name, and the event to send. *)
Definition service_event (own_id : string) (ev : ServiceEvent) (full_to_peer : gmap string DiscoveredPeer)
    : gmap string DiscoveredPeer * option DiscoveryEvent :=
  match ev with
  | ServiceResolved info =>
    match peer_from info with
    | None => (full_to_peer, None)
    | Some peer =>
      if decide (dp_machine_id peer = own_id) then (full_to_peer, None) else
      if decide (full_to_peer !! get_fullname info = Some peer) then (full_to_peer, None) else
      (<[get_fullname info := peer]> full_to_peer, Some (Found peer))
    end
  | ServiceRemoved full_name =>
    match full_to_peer !! full_name with
    | None => (full_to_peer, None)
    | Some peer =>
      let rest := delete full_name full_to_peer in
      (rest, if existsb (λ x, bool_decide (dp_machine_id x.2 = dp_machine_id peer)) (map_to_list rest) then None
             else Some (Lost (dp_machine_id peer)))
    end
  | SearchStarted | SearchStopped | ServiceFound _ => (full_to_peer, None)
  end.

(** ** The browser's thread *)

Inductive QueryCall := StopBrowse | Browse.

Record Pump := {
  pu_full_to_peer : gmap string DiscoveredPeer;
  pu_interfaces : InterfacePolicy;
  pu_next_query : Z;
  pu_next_interfaces : Z;
  pu_restarting : bool;
  pu_queries : list (QueryCall * Z);        (* with the time of each *)
  pu_sent : list DiscoveryEvent
}.
#[export] Instance Pump_eta : Eta Pump := λ r,
  {| pu_full_to_peer := pu_full_to_peer r; pu_interfaces := pu_interfaces r; pu_next_query := pu_next_query r;
     pu_next_interfaces := pu_next_interfaces r; pu_restarting := pu_restarting r; pu_queries := pu_queries r; pu_sent := pu_sent r |}.

(** [Browser::start]'s query, at [now]; the interfaces have been refreshed. *)
Definition pump_start (now : Z) (pol : InterfacePolicy) : Pump :=
  {| pu_full_to_peer := ∅; pu_interfaces := pol; pu_next_query := now + 30000; pu_next_interfaces := now + 5000; pu_restarting := false;
     pu_queries := [(Browse, now)]; pu_sent := [] |}.

(** What one turn of the loop meets. *)
Inductive Received := RvEvent (ev : ServiceEvent) | RvTimeout | RvDisconnected.
Record Turn := {
  tn_tx_closed : bool;
  tn_network_event : bool;
  tn_now : Z;
  tn_env : NetEnv;
  tn_stop_ok : bool;
  tn_received : Received;
  tn_browse_ok : bool;
  tn_later : Z;                             (* the clock after the event has come *)
  tn_send_ok : bool
}.

(** The top of the turn: interfaces, then the query's restart.  [None]: the thread
    returns. *)
Definition pump_top (t : Turn) (p : Pump) : option Pump :=
  if tn_tx_closed t then None else
  let now := tn_now t in
  let p := if tn_network_event t || bool_decide (pu_next_interfaces p ≤ now)%Z then
             let '(r, pol, _) := policy_refresh (tn_env t) (pu_interfaces p) [] in
             let p := p <| pu_interfaces := pol |> in
             let p := match r with Ok true => p <| pu_next_query := Z.min (pu_next_query p) (now + 1000) |> | _ => p end in
             p <| pu_next_interfaces := (now + 5000)%Z |>
           else p in
  if bool_decide (pu_next_query p ≤ now)%Z && negb (pu_restarting p) then
    if tn_stop_ok t then Some (p <| pu_restarting := true |> <| pu_queries := pu_queries p ++ [(StopBrowse, now)] |>) else None
  else Some p.

Definition pump_event (own_id : string) (t : Turn) (ev : ServiceEvent) (p : Pump) : option Pump :=
  match ev, pu_restarting p with
  | SearchStopped, true =>
    if tn_browse_ok t
    then Some (p <| pu_queries := pu_queries p ++ [(Browse, tn_later t)] |> <| pu_next_query := (tn_later t + 30000)%Z |> <| pu_restarting := false |>)
    else None
  | _, _ =>
    let '(peers, to_send) := service_event own_id ev (pu_full_to_peer p) in
    let p := p <| pu_full_to_peer := peers |> in
    match to_send with
    | None => Some p
    | Some e => if tn_send_ok t then Some (p <| pu_sent := pu_sent p ++ [e] |>) else None
    end
  end.

Definition pump_turn (own_id : string) (t : Turn) (p : Pump) : option Pump :=
  p ← pump_top t p;
  match tn_received t with
  | RvDisconnected => None
  | RvTimeout => Some p
  | RvEvent ev => pump_event own_id t ev p
  end.

Fixpoint pump_run (own_id : string) (ts : list Turn) (p : Pump) : option Pump :=
  match ts with [] => Some p | t :: ts => p ← pump_turn own_id t p; pump_run own_id ts p end.

(** The events a thread that is still running has received. *)
Definition received (ts : list Turn) : list ServiceEvent := omap (λ t, match tn_received t with RvEvent ev => Some ev | _ => None end) ts.

(** *** What a subscriber sees *)

(** The peers of someone who applies the events in order. *)
Definition observe_one (m : gmap string DiscoveredPeer) (e : DiscoveryEvent) : gmap string DiscoveredPeer :=
  match e with Found p => <[dp_machine_id p := p]> m | Lost id => delete id m end.
Definition observe (es : list DiscoveryEvent) (m : gmap string DiscoveredPeer) : gmap string DiscoveredPeer := fold_left observe_one es m.

(** The services other than our own that are up: the last word on each name. *)
Definition live_one (own_id : string) (m : gmap string DiscoveredPeer) (ev : ServiceEvent) : gmap string DiscoveredPeer :=
  match ev with
  | ServiceResolved info =>
    match peer_from info with
    | Some p => if decide (dp_machine_id p = own_id) then m else <[get_fullname info := p]> m
    | None => m
    end
  | ServiceRemoved name => delete name m
  | _ => m
  end.
Definition live (own_id : string) (evs : list ServiceEvent) : gmap string DiscoveredPeer := fold_left (live_one own_id) evs ∅.

(** Each service name keeps to one machine. *)
Definition names_stable (evs : list ServiceEvent) : Prop :=
  ∀ i j p q, ServiceResolved i ∈ evs → ServiceResolved j ∈ evs → peer_from i = Some p → peer_from j = Some q →
    get_fullname i = get_fullname j → dp_machine_id p = dp_machine_id q.
(** Each machine keeps to one service name. *)
Definition ids_stable (evs : list ServiceEvent) : Prop :=
  ∀ i j p q, ServiceResolved i ∈ evs → ServiceResolved j ∈ evs → peer_from i = Some p → peer_from j = Some q →
    dp_machine_id p = dp_machine_id q → get_fullname i = get_fullname j.

Lemma pump_top_same t p p' : pump_top t p = Some p' → pu_full_to_peer p' = pu_full_to_peer p ∧ pu_sent p' = pu_sent p.
Proof.
  unfold pump_top. destruct (tn_tx_closed t); [done|]. cbv zeta.
  set (p1 := if _ || _ then _ else p). assert (pu_full_to_peer p1 = pu_full_to_peer p ∧ pu_sent p1 = pu_sent p) as [<- <-].
  { unfold p1. destruct (_ || _); [|done]. destruct (policy_refresh _ _ _) as [[[[]|] pol] calls]; done. }
  destruct (_ && _); [destruct (tn_stop_ok t); [|done]|]; by intros [= <-].
Qed.

(** One event's effect on the table and on the subscriber. *)
Lemma service_event_table own ev m : (service_event own ev m).1 = live_one own m ev.
Proof.
  destruct ev as [| | |info|name]; try done; cbn [service_event live_one].
  - destruct (peer_from info) as [p|]; [|done]. destruct (decide _); [done|]. destruct (decide _) as [E|]; [|done].
    cbn [fst]. by rewrite insert_id.
  - destruct (m !! name) eqn:E; [done|]. cbn [fst]. by rewrite delete_id.
Qed.

Definition sent_of (own : string) (m : gmap string DiscoveredPeer) (ev : ServiceEvent) : list DiscoveryEvent :=
  match (service_event own ev m).2 with Some e => [e] | None => [] end.
Fixpoint sent_all (own : string) (evs : list ServiceEvent) (m : gmap string DiscoveredPeer) : list DiscoveryEvent :=
  match evs with [] => [] | ev :: evs => sent_of own m ev ++ sent_all own evs (live_one own m ev) end.

Lemma pump_event_spec own t ev p p' :
  pump_event own t ev p = Some p' →
  pu_full_to_peer p' = live_one own (pu_full_to_peer p) ev ∧ pu_sent p' = pu_sent p ++ sent_of own (pu_full_to_peer p) ev.
Proof.
  unfold pump_event. intros E.
  assert ((∃ peers e, service_event own ev (pu_full_to_peer p) = (peers, e) ∧ pu_full_to_peer p' = peers ∧
     pu_sent p' = pu_sent p ++ match e with Some e => [e] | None => [] end)) as (peers & e & Es & -> & ->).
  2:{ unfold sent_of. rewrite <-service_event_table, Es. done. }
  revert E. destruct (service_event own ev (pu_full_to_peer p)) as [peers e] eqn:Es. intros E. exists peers, e. split; [done|].
  destruct ev; [| destruct (pu_restarting p); [cbn in Es; injection Es as <- <-; destruct (tn_browse_ok t); [|done]; injection E as <-; by rewrite app_nil_r|] | | |].
  all: destruct e; [destruct (tn_send_ok t); [|done]|]; injection E as <-; cbn; rewrite ?app_nil_r; auto.
Qed.

Lemma pump_run_spec own ts p p' :
  pump_run own ts p = Some p' →
  pu_full_to_peer p' = fold_left (live_one own) (received ts) (pu_full_to_peer p) ∧
  pu_sent p' = pu_sent p ++ sent_all own (received ts) (pu_full_to_peer p).
Proof.
  revert p; induction ts as [|t ts IH]; intros p; cbn [pump_run]; [by intros [= <-]; rewrite app_nil_r|].
  rewrite bind_Some. intros (p1 & E1 & E2). destruct (IH _ E2) as [-> ->]. clear IH E2. unfold pump_turn in E1. rewrite bind_Some in E1.
  destruct E1 as (p0 & E0 & E1). destruct (pump_top_same _ _ _ E0) as [Ht Hs].
  assert (received (t :: ts) = match tn_received t with RvEvent ev => ev :: received ts | _ => received ts end) as ->
    by (unfold received; cbn; by destruct (tn_received t)).
  destruct (tn_received t) as [ev| |]; [|by injection E1 as <-; rewrite Ht, Hs|done].
  destruct (pump_event_spec _ _ _ _ _ E1) as [H1' H2']. rewrite H1', H2', Ht, Hs. cbn [fold_left sent_all]. by rewrite app_assoc.
Qed.

Lemma sent_all_snoc own evs ev m :
  sent_all own (evs ++ [ev]) m = sent_all own evs m ++ sent_of own (fold_left (live_one own) evs m) ev.
Proof. revert m; induction evs as [|e evs IH]; intros m; cbn [app sent_all fold_left]; [by rewrite app_nil_r|]. by rewrite IH, app_assoc. Qed.

Lemma live_snoc own evs ev : live own (evs ++ [ev]) = live_one own (live own evs) ev.
Proof. apply fold_left_app. Qed.

(** The peers of the subscriber of a browser that received [evs]. *)
Definition seen (own : string) (evs : list ServiceEvent) : gmap string DiscoveredPeer := observe (sent_all own evs ∅) ∅.

Lemma seen_snoc own evs ev : seen own (evs ++ [ev]) = observe (sent_of own (live own evs) ev) (seen own evs).
Proof. unfold seen. rewrite sent_all_snoc. apply fold_left_app. Qed.

(** A step of table and subscriber: nothing, an announcement, a name that goes. *)
Lemma seen_step own evs ev :
  (live own (evs ++ [ev]) = live own evs ∧ seen own (evs ++ [ev]) = seen own evs) ∨
  (∃ info p, ev = ServiceResolved info ∧ peer_from info = Some p ∧ dp_machine_id p ≠ own ∧
     live own (evs ++ [ev]) = <[get_fullname info := p]> (live own evs) ∧
     seen own (evs ++ [ev]) = <[dp_machine_id p := p]> (seen own evs)) ∨
  (∃ name p, ev = ServiceRemoved name ∧ live own evs !! name = Some p ∧ live own (evs ++ [ev]) = delete name (live own evs) ∧
     (((∃ name' p', name' ≠ name ∧ live own evs !! name' = Some p' ∧ dp_machine_id p' = dp_machine_id p) ∧
         seen own (evs ++ [ev]) = seen own evs) ∨
      ((∀ name' p', name' ≠ name → live own evs !! name' = Some p' → dp_machine_id p' ≠ dp_machine_id p) ∧
         seen own (evs ++ [ev]) = delete (dp_machine_id p) (seen own evs)))).
Proof.
  rewrite live_snoc, seen_snoc. unfold sent_of. set (T := live own evs). set (V := seen own evs).
  destruct ev as [| | |info|name]; try (by left); cbn [service_event live_one].
  - destruct (peer_from info) as [p|] eqn:Ep; [|by left]. destruct (decide _) as [|Hne]; [by left|].
    destruct (decide _) as [E|_]; [left; by rewrite insert_id|]. right; left. by exists info, p.
  - destruct (T !! name) as [p|] eqn:E; [|left; by rewrite delete_id]. right; right. exists name, p. split_and!; [done..|]. cbn [snd].
    destruct (existsb _ _) eqn:Ex; [left|right]; (split; [|done]).
    + apply existsb_exists in Ex as ([n q] & Hin & Hq%bool_decide_eq_true). apply list_elem_of_In, elem_of_map_to_list, lookup_delete_Some in Hin as [Hn Hin].
      by exists n, q.
    + intros n q Hn Hq Hid. assert (existsb (λ x : string * DiscoveredPeer, bool_decide (dp_machine_id x.2 = dp_machine_id p)) (map_to_list (delete name T)) = true); [|congruence].
      apply existsb_exists. exists (n, q). split; [|by apply bool_decide_eq_true]. apply list_elem_of_In, elem_of_map_to_list. by rewrite lookup_delete_ne.
Qed.

(** Every live service was resolved, and is not our own; its machine is seen. *)
Record covered (own : string) (evs : list ServiceEvent) : Prop := {
  cv_resolved : ∀ name p, live own evs !! name = Some p →
    dp_machine_id p ≠ own ∧ ∃ i, ServiceResolved i ∈ evs ∧ peer_from i = Some p ∧ get_fullname i = name;
  cv_seen : ∀ name p, live own evs !! name = Some p → is_Some (seen own evs !! dp_machine_id p)
}.

Lemma covered_always own evs : covered own evs.
Proof.
  induction evs as [|ev evs [IR IS]] using rev_ind; [by split|].
  assert (∀ i, ServiceResolved i ∈ evs → ServiceResolved i ∈ evs ++ [ev]) as Hsub by (intros; apply elem_of_app; by left).
  assert (∀ name p, live own evs !! name = Some p →
    dp_machine_id p ≠ own ∧ ∃ i, ServiceResolved i ∈ evs ++ [ev] ∧ peer_from i = Some p ∧ get_fullname i = name) as IR'.
  { intros name p Hp. destruct (IR _ _ Hp) as (Hne & i & Hi & Hf & Hn). split; [done|]. exists i. auto. }
  destruct (seen_step own evs ev) as [[El Es]|[(info & p & -> & Hp & Hne & El & Es)|(name & p & -> & Hn & El & Hs)]]; split; rewrite El.
  - done.
  - by rewrite Es.
  - intros n q. destruct (decide (n = get_fullname info)) as [->|Hnn]; [rewrite lookup_insert_eq; intros [= <-]|rewrite lookup_insert_ne by done; apply IR'].
    split; [done|]. exists info. split_and!; [|done..]. apply elem_of_app; right. by apply list_elem_of_singleton.
  - rewrite Es. intros n q Hq. destruct (decide (dp_machine_id q = dp_machine_id p)) as [->|Hid]; [by rewrite lookup_insert_eq; eexists|].
    rewrite lookup_insert_ne by done. destruct (decide (n = get_fullname info)) as [->|Hnn]; [rewrite lookup_insert_eq in Hq; congruence|].
    rewrite lookup_insert_ne in Hq by done. by eapply IS.
  - intros n q [_ Hq]%lookup_delete_Some. by apply IR'.
  - intros n q [Hnn Hq]%lookup_delete_Some. destruct Hs as [[_ ->]|[Hno ->]]; [by eapply IS|].
    rewrite lookup_delete_ne; [by eapply IS|]. intros Hid. by eapply (Hno n q).
Qed.

(** Names are stable when the id is a function of the name. *)
Lemma names_stable_of (f : string → string) evs :
  Forall (λ ev, match ev with ServiceResolved i => ∀ p, peer_from i = Some p → dp_machine_id p = f (get_fullname i) | _ => True end) evs →
  names_stable evs.
Proof.
  rewrite Forall_forall. intros Hall i j p q Hi Hj Hp Hq E. by rewrite (Hall _ Hi _ Hp), (Hall _ Hj _ Hq), E.
Qed.

Lemma names_stable_app evs evs' : names_stable (evs ++ evs') → names_stable evs.
Proof. intros Hst i j p q Hi Hj. apply Hst; apply elem_of_app; by left. Qed.
Lemma ids_stable_app evs evs' : ids_stable (evs ++ evs') → ids_stable evs.
Proof. intros Hst i j p q Hi Hj. apply Hst; apply elem_of_app; by left. Qed.

(** With stable names, whoever is seen is live. *)
Lemma seen_live own evs :
  names_stable evs → ∀ id q, seen own evs !! id = Some q →
  dp_machine_id q = id ∧ ∃ name p, live own evs !! name = Some p ∧ dp_machine_id p = id.
Proof.
  induction evs as [|ev evs IH] using rev_ind; [by intros _ id q|]. intros Hst. specialize (IH (names_stable_app _ _ Hst)).
  destruct (covered_always own evs) as [IR _].
  destruct (seen_step own evs ev) as [[-> ->]|[(info & p & -> & Hp & Hne & -> & ->)|(name & p & -> & Hn & -> & Hs)]]; [done| |].
  - intros id q [[<- <-]|[Hid Hq]]%lookup_insert_Some; [split; [done|]; exists (get_fullname info), p; by rewrite lookup_insert_eq|].
    destruct (IH _ _ Hq) as (Hq' & n & q' & Hl & Hi). split; [done|]. exists n, q'. split; [|done]. rewrite lookup_insert_ne; [done|].
    intros <-. destruct (IR _ _ Hl) as (_ & i & Hir & Hif & Hin). apply Hid. rewrite <-Hi.
    apply (Hst info i p q'); [apply elem_of_app; right; by apply list_elem_of_singleton|apply elem_of_app; by left|done..].
  - intros id q Hq. destruct Hs as [[(n' & p' & Hnn & Hl & Hid) Es]|[Hno Es]]; rewrite Es in Hq.
    + destruct (IH _ _ Hq) as (Hq' & n & q' & Hl' & Hi). split; [done|]. destruct (decide (n = name)) as [->|Hn'].
      * exists n', p'. rewrite lookup_delete_ne by done. split; [done|]. congruence.
      * exists n, q'. by rewrite lookup_delete_ne by done.
    + apply lookup_delete_Some in Hq as [Hid Hq]. destruct (IH _ _ Hq) as (Hq' & n & q' & Hl' & Hi). split; [done|]. exists n, q'.
      rewrite lookup_delete_ne; [done|]. intros <-. congruence.
Qed.

(** With stable names and machines, each live service is seen as it is. *)
Lemma seen_exact own evs :
  names_stable evs → ids_stable evs → ∀ name p, live own evs !! name = Some p → seen own evs !! dp_machine_id p = Some p.
Proof.
  induction evs as [|ev evs IH] using rev_ind; [by intros _ _ name q|]. intros Hst Hid.
  specialize (IH (names_stable_app _ _ Hst) (ids_stable_app _ _ Hid)). destruct (covered_always own evs) as [IR _].
  destruct (seen_step own evs ev) as [[-> ->]|[(info & p & -> & Hp & Hne & -> & ->)|(name & p & -> & Hn & -> & Hs)]]; [done| |].
  - intros n q [[<- <-]|[Hnn Hq]]%lookup_insert_Some; [by rewrite lookup_insert_eq|]. rewrite lookup_insert_ne; [by eapply IH|].
    intros E. destruct (IR _ _ Hq) as (_ & i & Hir & Hif & <-). apply Hnn.
    apply (Hid info i p q); [apply elem_of_app; right; by apply list_elem_of_singleton|apply elem_of_app; by left|done..].
  - intros n q [Hnn Hq]%lookup_delete_Some. destruct Hs as [[_ ->]|[Hno ->]]; [by eapply IH|].
    rewrite lookup_delete_ne; [by eapply IH|]. intros E. by eapply (Hno n q).
Qed.

(** The browser mirrors the LAN.  Whoever applies the events of a browser
    that is still running, whatever its timers, interface changes and restarted
    queries did, sees every machine that has a service up, never its own; as long as
    no service name passes from one machine to another it sees no machine that has
    none; and where each machine also keeps to one name, it sees each exactly as it
    was last resolved. *)
Theorem browser_mirrors_lan own now pol ts p :
  pump_run own ts (pump_start now pol) = Some p →
  let up := live own (received ts) in
  let view := observe (pu_sent p) ∅ in
  (∀ name q, up !! name = Some q → is_Some (view !! dp_machine_id q) ∧ dp_machine_id q ≠ own) ∧
  (names_stable (received ts) → ∀ id, is_Some (view !! id) ↔ ∃ name q, up !! name = Some q ∧ dp_machine_id q = id) ∧
  (names_stable (received ts) → ids_stable (received ts) → ∀ name q, up !! name = Some q → view !! dp_machine_id q = Some q).
Proof.
  intros Hrun. destruct (pump_run_spec _ _ _ _ Hrun) as [_ Hs]. cbn [pump_start pu_sent pu_full_to_peer app] in Hs.
  cbv zeta. rewrite Hs. change (observe (sent_all own (received ts) ∅) ∅) with (seen own (received ts)).
  destruct (covered_always own (received ts)) as [IR IS]. split_and!.
  - intros name q Hq. split; [by eapply IS|by eapply IR].
  - intros Hst id. split.
    + intros [q Hq]. by destruct (seen_live _ _ Hst _ _ Hq) as [_ Hl].
    + intros (name & q & Hq & <-). by eapply IS.
  - apply seen_exact.
Qed.
End discovery.

(** ** Canonical address lists *)

#[export] Instance key_le_total : Total key_le.
Proof. intros a b. unfold key_le. destruct (is_loopback a), (is_loopback b), (total ip_le a b); auto. Qed.
#[export] Instance key_le_trans : Transitive key_le.
Proof.
  intros a b c. unfold key_le. pose proof (ip_le_trans a b c).
  destruct (is_loopback a), (is_loopback b), (is_loopback c); intuition congruence.
Qed.

Lemma dedup_in {A} `{EqDecision A} (l : list A) x : x ∈ dedup l ↔ x ∈ l.
Proof.
  induction l as [|y l IH]; [done|]. destruct l as [|z l]; [done|].
  change (dedup (y :: z :: l)) with (if decide (y = z) then dedup (z :: l) else y :: dedup (z :: l)).
  rewrite (elem_of_cons (z :: l) x y), <-IH. destruct (decide (y = z)) as [->|Hne]; [|by rewrite elem_of_cons].
  rewrite IH, elem_of_cons. tauto.
Qed.

Lemma dedup_sorted {A} `{EqDecision A} (R : relation A) (l : list A) : StronglySorted R l → StronglySorted R (dedup l).
Proof.
  induction l as [|y l IH]; [done|]. destruct l as [|z l]; [done|].
  change (dedup (y :: z :: l)) with (if decide (y = z) then dedup (z :: l) else y :: dedup (z :: l)).
  intros [Hs Hf]%StronglySorted_inv. destruct (decide (y = z)); [by apply IH|]. constructor; [by apply IH|].
  apply Forall_forall. rewrite Forall_forall in Hf. intros x Hx. apply Hf. by rewrite <-dedup_in.
Qed.

Lemma dedup_nodup {A} `{EqDecision A} (R : relation A) `{!AntiSymm (=) R} (l : list A) : StronglySorted R l → NoDup (dedup l).
Proof.
  induction l as [|y l IH]; [constructor|]. destruct l as [|z l]; [intros _; cbn; apply NoDup_singleton|].
  change (dedup (y :: z :: l)) with (if decide (y = z) then dedup (z :: l) else y :: dedup (z :: l)).
  intros [Hs Hf]%StronglySorted_inv. destruct (decide (y = z)) as [|Hne]; [by apply IH|]. constructor; [|by apply IH].
  intros Hy. rewrite dedup_in in Hy. apply elem_of_cons in Hy as [->|Hy]; [done|]. apply Hne.
  apply StronglySorted_inv in Hs as [_ Hz]. apply Forall_cons in Hf as [Hyz _]. apply (anti_symm R); [done|]. rewrite Forall_forall in Hz. by apply Hz.
Qed.

Lemma filter_sorted {A} (R : relation A) (p : A → bool) (l : list A) : StronglySorted R l → StronglySorted R (List.filter p l).
Proof.
  induction 1 as [|x l Hs IH Hf]; cbn; [constructor|]. destruct (p x); [|done]. constructor; [done|].
  rewrite Forall_forall in Hf. apply Forall_forall. intros y Hy%list_elem_of_In. apply filter_In in Hy as [Hy%list_elem_of_In _]. by apply Hf.
Qed.

Lemma filter_bool_in {A} (p : A → bool) (l : list A) x : x ∈ List.filter p l ↔ x ∈ l ∧ p x = true.
Proof. by rewrite !list_elem_of_In, filter_In. Qed.

Lemma filter_bool_nodup {A} (p : A → bool) (l : list A) : NoDup l → NoDup (List.filter p l).
Proof. induction 1 as [|x l Hx Hl IH]; cbn; [constructor|]. destruct (p x); [|done]. constructor; [|done]. by intros [??]%filter_bool_in. Qed.

Lemma key_le_usable l : Forall (λ ip, is_loopback ip = false) l → StronglySorted ip_le l ↔ StronglySorted key_le l.
Proof.
  induction l as [|x l IH]; [split; constructor|]. intros [Hx Hl]%Forall_cons.
  assert (Forall (ip_le x) l ↔ Forall (key_le x) l) as Hf.
  { rewrite !Forall_forall. rewrite Forall_forall in Hl. split; intros Hall y Hy; specialize (Hall y Hy); unfold key_le in *; rewrite Hx in *.
    - by right.
    - rewrite (Hl y Hy) in Hall. by destruct Hall. }
  split; intros [Hs Hxl]%StronglySorted_inv; constructor; try (by apply IH); by apply Hf.
Qed.

Section addresses.
Context `{MdnsOps}.

Lemma advertised_sorted pol : StronglySorted ip_le (advertised_addresses pol) ∧ NoDup (advertised_addresses pol).
Proof.
  unfold advertised_addresses. assert (StronglySorted ip_le (merge_sort ip_le (map snd (elements (ip_addresses pol))))) as Hs by (apply StronglySorted_merge_sort; apply _).
  split; [by apply dedup_sorted|]. by apply (dedup_nodup ip_le).
Qed.

Lemma advertised_in pol ip : ip ∈ advertised_addresses pol ↔ ∃ name, (name, ip) ∈ ip_addresses pol.
Proof.
  unfold advertised_addresses. rewrite dedup_in, merge_sort_Permutation. rewrite list_elem_of_In, in_map_iff. split.
  - intros ([name ip'] & <- & Hin). exists name. by apply elem_of_elements, list_elem_of_In.
  - intros [name Hin]. exists (name, ip). split; [done|]. by apply list_elem_of_In, elem_of_elements.
Qed.

(** What the browser makes of the addresses depends only on their set. *)
Lemma peer_addresses_of info l :
  StronglySorted ip_le l → NoDup l → NoDup (get_addresses info) → (∀ ip, ip ∈ get_addresses info ↔ ip ∈ l) →
  peer_addresses info = List.filter usable_address l.
Proof.
  intros Hs Hnd Hnd' Heq. unfold peer_addresses. set (raw := List.filter usable_address (get_addresses info)).
  assert (merge_sort key_le raw ≡ₚ raw) as Hperm by apply merge_sort_Permutation.
  assert (∀ ls, Forall (λ ip, is_loopback ip = false) (List.filter usable_address ls)) as Hnl.
  { intros ls. apply Forall_forall. intros ip [_ Hu]%filter_bool_in. unfold usable_address in Hu. by destruct (is_loopback ip). }
  apply (StronglySorted_unique ip_le).
  - apply key_le_usable; [eapply Permutation.Permutation_Forall; [symmetry; exact Hperm|apply Hnl]|]. apply (StronglySorted_merge_sort key_le).
  - by apply filter_sorted.
  - rewrite Hperm. apply NoDup_Permutation; [by apply filter_bool_nodup..|]. intros ip. unfold raw. by rewrite !filter_bool_in, Heq.
Qed.
End addresses.

(** ** Interfaces and announcements *)

Definition lan_interface (env : NetEnv) (i : Interface) : bool := negb (excluded (if_name i) (ne_macos env)) && negb (if_is_loopback i).

Lemma refresh_loop_spec env ifs enabled addresses calls ok enabled' addresses' calls' :
  refresh_loop env ifs enabled addresses calls = (ok, enabled', addresses', calls') →
  (ok = true → ∀ x, x ∈ addresses' ↔ x ∈ addresses ∨ ∃ i, i ∈ ifs ∧ lan_interface env i = true ∧ x = (if_name i, if_ip i)) ∧
  (∀ c, c ∈ calls' → c ∈ calls ∨ ∃ i, i ∈ ifs ∧ lan_interface env i = true ∧ c = Enable (if_name i)).
Proof.
  revert enabled addresses calls; induction ifs as [|i ifs IH]; intros enabled addresses calls; cbn [refresh_loop].
  { intros [= <- <- <- <-]. split; [intros _ x; split; [by left|]|by left]. intros [|(i & []%not_elem_of_nil & _)]; done. }
  assert (∀ Q : Interface → Prop, (∃ j, j ∈ i :: ifs ∧ Q j) ↔ Q i ∨ ∃ j, j ∈ ifs ∧ Q j) as Hcons.
  { intros Q. split.
    - intros (j & [->|Hj]%elem_of_cons & Hq); [by left|right; by exists j].
    - intros [Hq|(j & Hj & Hq)]; [exists i; split; [apply elem_of_cons; by left|done]|exists j; split; [apply elem_of_cons; by right|done]]. }
  unfold lan_interface. destruct (excluded (if_name i) (ne_macos env) || if_is_loopback i) eqn:Ex.
  { assert (lan_interface env i = false) as Hl by (unfold lan_interface; by destruct (excluded _ _), (if_is_loopback i)).
    intros [H1 H2]%IH. split; [intros Hok x; rewrite (H1 Hok x)|intros c Hc; destruct (H2 c Hc) as [|Hx]; [by left|right]].
    - rewrite (Hcons (λ j, lan_interface env j = true ∧ x = _)). rewrite Hl. intuition done.
    - apply (Hcons (λ j, lan_interface env j = true ∧ c = Enable (if_name j))). by right. }
  assert (lan_interface env i = true) as Hl by (unfold lan_interface; by destruct (excluded _ _), (if_is_loopback i)).
  assert (∀ en cl, refresh_loop env ifs en ({[(if_name i, if_ip i)]} ∪ addresses) cl = (ok, enabled', addresses', calls') →
    (∀ c, c ∈ cl → c ∈ calls ∨ c = Enable (if_name i)) →
    (ok = true → ∀ x, x ∈ addresses' ↔ x ∈ addresses ∨ ∃ j, j ∈ i :: ifs ∧ lan_interface env j = true ∧ x = (if_name j, if_ip j)) ∧
    (∀ c, c ∈ calls' → c ∈ calls ∨ ∃ j, j ∈ i :: ifs ∧ lan_interface env j = true ∧ c = Enable (if_name j))) as Hgo.
  { intros en cl [H1 H2]%IH Hcl. split.
    - intros Hok x. rewrite (H1 Hok x), elem_of_union, elem_of_singleton, (Hcons (λ j, lan_interface env j = true ∧ x = _)), Hl. intuition done.
    - intros c Hc. rewrite (Hcons (λ j, lan_interface env j = true ∧ c = Enable (if_name j))), Hl. destruct (H2 c Hc) as [Hc'|]; [|auto].
      destruct (Hcl c Hc'); auto. }
  destruct (bool_decide _); [intros E; eapply Hgo; [exact E|auto]|].
  destruct (ne_enable_ok _ _).
  - intros E. eapply Hgo; [exact E|]. intros c [|Hc%list_elem_of_singleton]%elem_of_app; auto.
  - intros [= <- <- <- <-]. split; [done|auto].
Qed.

(** A refresh that works knows exactly the LAN addresses listed. *)
Lemma policy_refresh_ok env pol calls changed pol' calls' :
  policy_refresh env pol calls = (Ok changed, pol', calls') →
  (changed = false → ip_addresses pol' = ip_addresses pol) ∧
  ∀ ifs, ne_interfaces env = Some ifs → ∀ ip,
    ip ∈ advertised_addresses pol' ↔ ∃ i, i ∈ ifs ∧ lan_interface env i = true ∧ if_ip i = ip.
Proof.
  unfold policy_refresh. destruct (_ && _); [done|]. cbv zeta. destruct (ne_interfaces env) as [l|]; [|by intros [= <- <- <-]].
  destruct (refresh_loop _ _ _ _ _) as [[[ok enabled] addresses] cl] eqn:E. destruct (refresh_loop_spec _ _ _ _ _ _ _ _ _ E) as [Ha _].
  destruct ok; [|done]. specialize (Ha eq_refl). intros [= <- <- <-]. cbn [ip_addresses update_field]. split.
  - intros Hd%bool_decide_eq_false. symmetry. by apply dec_stable.
  - intros ifs [= <-] ip. rewrite advertised_in. cbn [ip_addresses update_field]. split.
    + intros [name Hin]. apply Ha in Hin as [[]%not_elem_of_empty|(i & Hi & Hl & [= -> ->])]. by exists i.
    + intros (i & Hi & Hl & <-). exists (if_name i). apply Ha. right. by exists i.
Qed.

Lemma policy_refresh_err env pol calls e pol' calls' : policy_refresh env pol calls = (Err e, pol', calls') → ip_addresses pol' = ip_addresses pol.
Proof.
  unfold policy_refresh. destruct (_ && _); [by intros [= <- <- <-]|]. cbv zeta. destruct (ne_interfaces env) as [l|]; [|done].
  destruct (refresh_loop _ _ _ _ _) as [[[[] enabled] addresses] cl]; [done|]. by intros [= <- <- <-].
Qed.

(** Default-deny: before any interface is enabled all are disabled, and none that is
    excluded ever is. *)
Definition default_deny (macos : bool) (pol : InterfacePolicy) (calls : list MdnsCall) : Prop :=
  if ip_initialized pol
  then ∃ rest, calls = DisableAll :: rest ∧ ∀ c, c ∈ rest → ∃ name, c = Enable name ∧ excluded name macos = false
  else calls = [].

Lemma policy_refresh_deny env pol calls r pol' calls' :
  policy_refresh env pol calls = (r, pol', calls') → default_deny (ne_macos env) pol calls → default_deny (ne_macos env) pol' calls'.
Proof.
  unfold policy_refresh. destruct (_ && _); [by intros [= _ <- <-]|]. cbv zeta.
  set (calls1 := if ip_initialized pol then calls else calls ++ [DisableAll]). intros E Hd.
  assert (∃ rest, calls1 = DisableAll :: rest ∧ ∀ c, c ∈ rest → ∃ name, c = Enable name ∧ excluded name (ne_macos env) = false) as (rest & Hc & Hr).
  { unfold calls1, default_deny in *. destruct (ip_initialized pol); [done|]. rewrite Hd. exists []. split; [done|]. by intros c []%not_elem_of_nil. }
  assert (∀ cl, (∀ c, c ∈ cl → c ∈ calls1 ∨ ∃ i, lan_interface env i = true ∧ c = Enable (if_name i)) → (∃ t, cl = calls1 ++ t ∧ DisableAll ∉ t) →
    ∃ rest, cl = DisableAll :: rest ∧ ∀ c, c ∈ rest → ∃ name, c = Enable name ∧ excluded name (ne_macos env) = false) as Hgo.
  { intros cl Hcl (t & -> & Ht). rewrite Hc. exists (rest ++ t). split; [done|]. intros c [Hin|Hin]%elem_of_app; [by apply Hr|].
    destruct (Hcl c) as [Hin'|(i & Hl & ->)]; [apply elem_of_app; by right| |].
    - rewrite Hc in Hin'. apply elem_of_cons in Hin' as [->|Hin']; [done|by apply Hr].
    - exists (if_name i). split; [done|]. unfold lan_interface in Hl. by destruct (excluded _ _). }
  destruct (ne_interfaces env) as [l|]; [|injection E as _ <- <-; cbn; rewrite Hc; by exists rest].
  destruct (refresh_loop _ _ _ _ _) as [[[ok enabled] addresses] cl] eqn:El. destruct (refresh_loop_spec _ _ _ _ _ _ _ _ _ El) as [_ Hcl].
  assert (cl = calls' ∧ ip_initialized pol' = true) as [<- Hi] by (destruct ok; injection E as _ <- <-; done).
  unfold default_deny. rewrite Hi. apply Hgo; [intros c Hx; destruct (Hcl c Hx) as [|(i & _ & ?)]; eauto|].
  clear -El. revert El. generalize calls1, (∅ : gset (string * IpAddr)). cbn [ip_enabled update_field]. generalize (ip_enabled pol).
  induction l as [|i l IH]; intros en c0 ad; cbn [refresh_loop]; [intros [= _ _ _ <-]; exists []; rewrite app_nil_r; by split; [|apply not_elem_of_nil]|].
  destruct (_ || _); [apply IH|]. destruct (bool_decide _); [apply IH|]. destruct (ne_enable_ok _ _).
  - intros (t & -> & Ht)%IH. exists (Enable (if_name i) :: t). rewrite <-app_assoc. split; [done|]. by apply not_elem_of_cons.
  - intros [= _ _ _ <-]. exists []. rewrite app_nil_r. by split; [|apply not_elem_of_nil].
Qed.

Section announcement.
Context `{MdnsLaws} (macos : bool).

(** Advertisers on one machine: started, then refreshed with whatever outcomes. *)
Inductive adv_reachable : Advertiser → Prop :=
| ar_start env id fp name sp syp cp ap head a :
    ne_macos env = macos → advertiser_start env id fp name sp syp cp ap head = Ok a → adv_reachable a
| ar_refresh env sp syp cp ap head a r a' :
    ne_macos env = macos → adv_reachable a → refresh env sp syp cp ap head a = (r, a') → adv_reachable a'.

Record adv_ok (a : Advertiser) : Prop := {
  ao_name : "."%char ∉ bytes_of (af_display_name (av_fields a));
  ao_current : av_reannounce a = false →
    ∃ host, build_service_info (av_fields a) (advertised_addresses (av_interfaces a)) host = Some (av_service a);
  ao_deny : default_deny macos (av_interfaces a) (av_calls a)
}.

Lemma start_ok env id fp name sp syp cp ap head a :
  ne_macos env = macos → advertiser_start env id fp name sp syp cp ap head = Ok a → adv_ok a.
Proof.
  intros Hm. unfold advertiser_start. destruct (_ || _) eqn:En; [done|]. apply orb_false_iff in En as [_ Hdot%bool_decide_eq_false].
  destruct (policy_refresh env default_policy []) as [[r pol] calls] eqn:Er. destruct r as [ch|]; [|done]. cbn [rbind]. cbv zeta.
  set (fields := {| af_machine_id := id |}). destruct (build_service_info fields _ _) as [service|] eqn:Eb; [|done]. cbn [ok_or rbind].
  destruct (ne_register_ok env); [|done]. intros [= <-]. split; [done|by exists (hostname env)|]. rewrite <-Hm. by apply (policy_refresh_deny _ _ _ _ _ _ Er).
Qed.

Lemma advertised_ext pol pol' : ip_addresses pol' = ip_addresses pol → advertised_addresses pol' = advertised_addresses pol.
Proof. unfold advertised_addresses. by intros ->. Qed.

Lemma refresh_ok env sp syp cp ap head a r a' :
  ne_macos env = macos → adv_ok a → refresh env sp syp cp ap head a = (r, a') →
  adv_ok a' ∧ (r = Ok tt → av_reannounce a' = false ∧ av_fields a' = requested (av_fields a) sp syp cp ap head ∧
    ∀ ifs, ne_interfaces env = Some ifs → ∀ ip,
      ip ∈ advertised_addresses (av_interfaces a') ↔ ∃ i, i ∈ ifs ∧ lan_interface env i = true ∧ if_ip i = ip).
Proof.
  intros Hm [Hn Hc Hd]. unfold refresh. cbv zeta. destruct (policy_refresh env (av_interfaces a) (av_calls a)) as [[rp pol] calls] eqn:Er.
  assert (default_deny macos pol calls) as Hd' by (rewrite <-Hm in *; by apply (policy_refresh_deny _ _ _ _ _ _ Er)).
  destruct rp as [changed|e].
  2:{ intros [= <- <-]. split; [|done]. split; [done| |done]. cbn [av_reannounce av_fields av_interfaces av_service update_field]. intros Hf.
      destruct (Hc Hf) as [host Hh]. exists host. by rewrite (advertised_ext (av_interfaces a)) by (by eapply policy_refresh_err). }
  destruct (policy_refresh_ok _ _ _ _ _ _ Er) as [Hsame Hlan].
  cbn [av_reannounce av_fields av_interfaces av_service update_field].
  set (fields := requested (av_fields a) sp syp cp ap head). destruct (bool_decide (fields = av_fields a) && _) eqn:Eq.
  { apply andb_true_iff in Eq as [Ef%bool_decide_eq_true Ea%negb_true_iff]. pose proof Ea as [Ea' ->]%orb_false_iff.
    intros [= <- <-]. split; [split; [done| |done]|done].
    cbn [av_reannounce av_fields av_interfaces av_service update_field]. intros _. destruct (Hc Ea') as [host Hh]. exists host.
    by rewrite (advertised_ext (av_interfaces a) pol (Hsame eq_refl)). }
  assert (adv_ok (a <| av_interfaces := pol |> <| av_calls := calls |> <| av_reannounce := av_reannounce a || changed |>)) as Hstale.
  { split; [done| |done]. cbn [av_reannounce av_fields av_interfaces av_service update_field]. intros [Ea ->]%orb_false_iff.
    destruct (Hc Ea) as [host Hh]. exists host. by rewrite (advertised_ext (av_interfaces a) pol (Hsame eq_refl)). }
  destruct (build_service_info fields (advertised_addresses pol) (hostname env)) as [service|] eqn:Eb; [|by intros [= <- <-]].
  destruct (ne_register_ok env); [|by intros [= <- <-]]. intros [= <- <-]. split; [|done]. split; [done|by exists (hostname env)|done].
Qed.

Lemma reachable_adv_ok a : adv_reachable a → adv_ok a.
Proof. induction 1; [by eapply start_ok|by eapply refresh_ok]. Qed.

(** The record as another machine resolves it. *)
Definition same_record (i j : ServiceInfo) : Prop :=
  get_fullname j = get_fullname i ∧ get_port j = get_port i ∧ (∀ k, get_property_val_str j k = get_property_val_str i k) ∧
  NoDup (get_addresses j) ∧ ∀ ip, ip ∈ get_addresses j ↔ ip ∈ get_addresses i.

(** The peer that fields announce. *)
Definition announced_peer (f : AdvertisedFields) (addresses : list IpAddr) (host_name : string) : DiscoveredPeer :=
  let addresses := map ip_string (List.filter usable_address addresses) in
  {| dp_machine_id := af_machine_id f; dp_display_name := af_display_name f; dp_host := default host_name (head addresses);
     dp_addresses := addresses; dp_service_port := af_service_port f; dp_core_port := af_core_port f; dp_sync_port := af_sync_port f;
     dp_audio_port := af_audio_port f; dp_fingerprint := af_fingerprint f; dp_protocol_version := PROTOCOL_VERSION;
     dp_config_head := af_config_head f |}.

Definition ports_u16 (f : AdvertisedFields) : Prop :=
  (0 ≤ af_core_port f ≤ u16_MAX)%Z ∧ (0 ≤ af_sync_port f ≤ u16_MAX)%Z ∧ (0 ≤ af_audio_port f ≤ u16_MAX)%Z.

Lemma txt_keys_lower f host : map_Forall (λ k (_ : string), map ascii_lower (bytes_of k) = bytes_of k) (txt_properties f host).
Proof. unfold txt_properties. repeat case_decide; repeat (apply map_Forall_insert_2; [reflexivity|]); apply map_Forall_empty. Qed.

Lemma first_label_app name rest : "."%char ∉ bytes_of name → first_label (name +:+ "." +:+ rest) = name.
Proof.
  intros Hd. unfold first_label. cbv zeta. rewrite !bytes_of_app. change (bytes_of "." ++ bytes_of rest) with ("."%char :: bytes_of rest).
  rewrite find_char_app by done. by rewrite take_app_length, string_of_bytes_of.
Qed.

Lemma built_peer f addresses host service info :
  "."%char ∉ bytes_of (af_display_name f) → ports_u16 f → StronglySorted ip_le addresses → NoDup addresses →
  build_service_info f addresses host = Some service → same_record service info →
  peer_from info = Some (announced_peer f addresses (get_hostname info)).
Proof.
  intros Hdot (Hcp & Hsp & Hap) Hs Hnd Hb (Hfn & Hport & Hprop & Hnd' & Haddr). unfold build_service_info in Hb.
  assert (∀ k, map ascii_lower (bytes_of k) = bytes_of k → get_property_val_str info k = txt_properties f host !! k) as Hk.
  { intros k Hl. rewrite Hprop. eapply service_property; [exact Hb|exact Hl|apply txt_keys_lower]. }
  unfold peer_from, port_property. rewrite !Hk by reflexivity.
  assert (txt_properties f host !! "id"%string = Some (af_machine_id f) ∧ txt_properties f host !! "fp"%string = Some (af_fingerprint f) ∧
    txt_properties f host !! "core_port"%string = Some (pretty (af_core_port f)) ∧ txt_properties f host !! "sync_port"%string = Some (pretty (af_sync_port f)) ∧
    txt_properties f host !! "v"%string = Some (pretty PROTOCOL_VERSION)) as (-> & -> & -> & -> & ->).
  { unfold txt_properties. repeat case_decide; rewrite ?lookup_insert_ne by done; rewrite ?lookup_insert_eq; split_and!; try done; by rewrite ?lookup_insert_ne, ?lookup_insert_eq. }
  assert (default 0%Z (s ← txt_properties f host !! "audio_port"%string; parse_uint u16_MAX s) = af_audio_port f) as ->.
  { unfold txt_properties. destruct (decide (af_audio_port f = 0%Z)) as [->|]; case_decide; rewrite ?lookup_insert_ne by done; rewrite ?lookup_insert_eq;
      try done; cbn [mbind option_bind]; by rewrite parse_uint_pretty. }
  assert (default ""%string (txt_properties f host !! "cfg"%string) = af_config_head f) as ->.
  { unfold txt_properties. destruct (decide (af_config_head f = ""%string)) as [->|]; case_decide; rewrite ?lookup_insert_ne by done; by rewrite ?lookup_insert_eq. }
  cbn [mbind option_bind]. rewrite !parse_uint_pretty by done. cbn [default].
  destruct (service_addresses _ _ _ _ _ _ _ Hb) as [_ Ha].
  rewrite (peer_addresses_of info addresses) by (try done; intros ip; by rewrite Haddr, Ha).
  rewrite Hfn, Hport, (service_fullname _ _ _ _ _ _ _ Hb), (service_port _ _ _ _ _ _ _ Hb), first_label_app by done. done.
Qed.

(** C23: What one machine announces is what the others see.  After any start and
    refreshes, failed ones included, an advertiser with nothing left to reannounce
    is resolved by any browser to exactly its own id, name, key, ports and config
    head, with its LAN addresses in canonical order; a refresh that succeeds leaves
    nothing to reannounce, with the requested ports and head and exactly the
    addresses of the listed LAN interfaces; and the daemon is never told to use an
    excluded interface. *)
Theorem announcement_reaches_peers a :
  adv_reachable a →
  (∀ info, av_reannounce a = false → ports_u16 (av_fields a) → same_record (av_service a) info →
     peer_from info = Some (announced_peer (av_fields a) (advertised_addresses (av_interfaces a)) (get_hostname info))) ∧
  (∀ env sp syp cp ap head a', ne_macos env = macos → refresh env sp syp cp ap head a = (Ok tt, a') →
     av_reannounce a' = false ∧ av_fields a' = requested (av_fields a) sp syp cp ap head ∧
     ∀ ifs, ne_interfaces env = Some ifs → ∀ ip,
       ip ∈ advertised_addresses (av_interfaces a') ↔ ∃ i, i ∈ ifs ∧ lan_interface env i = true ∧ if_ip i = ip) ∧
  default_deny macos (av_interfaces a) (av_calls a).
Proof.
  intros Hr. pose proof (reachable_adv_ok a Hr) as Hok. split_and!.
  - intros info Hre Hp Hsame. destruct (ao_current a Hok Hre) as [host Hb]. destruct (advertised_sorted (av_interfaces a)).
    by eapply built_peer; [apply Hok|..].
  - intros env sp syp cp ap head a' Hm E. by destruct (refresh_ok _ _ _ _ _ _ _ _ _ Hm Hok E) as [_ Hx]; apply Hx.
  - apply Hok.
Qed.
End announcement.

(** ** Queries are paced *)

Definition follows (x y : QueryCall * Z) : Prop :=
  match x, y with
  | (Browse, t), (StopBrowse, t') => (t + 1000 ≤ t')%Z
  | (StopBrowse, t), (Browse, t') => (t ≤ t')%Z
  | _, _ => False
  end.

(** Queries alternate, and a query runs at least a second. *)
Fixpoint queries_ok (l : list (QueryCall * Z)) : Prop :=
  match l with
  | [] => False
  | x :: l' => match l' with [] => True | y :: _ => follows x y ∧ queries_ok l' end
  end.

Lemma queries_ok_snoc l x y : queries_ok (l ++ [x]) → follows x y → queries_ok ((l ++ [x]) ++ [y]).
Proof.
  induction l as [|z l IH]; intros Hq Hf; [done|].
  assert (∃ w r, l ++ [x] = w :: r) as (w & r & E) by (destruct l; eauto).
  change ((z :: l) ++ [x]) with (z :: (l ++ [x])) in *. rewrite E in *. destruct Hq as [Hz Hq]. split; [done|]. by apply IH.
Qed.

Section pacing.
Context `{MdnsOps} (own : string).

(** The clock goes forward through the turns from [now] on. *)
Fixpoint clocked (now : Z) (ts : list Turn) : Prop :=
  match ts with [] => True | t :: ts => (now ≤ tn_now t ≤ tn_later t)%Z ∧ clocked (tn_later t) ts end.

(** The last call to the daemon, and when the next may come. *)
Record paced_at (now : Z) (p : Pump) : Prop := {
  pa_ok : queries_ok (pu_queries p);
  pa_last : ∃ l t, pu_queries p = l ++ [(if pu_restarting p then StopBrowse else Browse, t)] ∧ (t ≤ now)%Z ∧
    (pu_restarting p = false → (t + 1000 ≤ pu_next_query p)%Z)
}.

Lemma paced_snoc now p c (t : Z) q :
  paced_at now p → follows (if pu_restarting p then StopBrowse else Browse, match last (pu_queries p) with Some x => x.2 | None => 0%Z end) (c, t) →
  pu_queries q = pu_queries p ++ [(c, t)] → queries_ok (pu_queries q).
Proof. intros [Hok (l & t0 & E & _)] Hf ->. rewrite E in *. rewrite last_snoc in Hf. by apply queries_ok_snoc. Qed.

Lemma pump_top_paced now t p p' : paced_at now p → (now ≤ tn_now t)%Z → pump_top t p = Some p' → paced_at (tn_now t) p'.
Proof.
  intros Hp Hn. unfold pump_top. destruct (tn_tx_closed t); [done|]. cbv zeta.
  set (p1 := if _ || _ then _ else p). assert (paced_at (tn_now t) p1) as H1.
  { destruct Hp as [Hok (l & t0 & E & Ht & Hq)]. unfold p1. destruct (_ || _).
    - destruct (policy_refresh _ _ _) as [[r pol] cl]. destruct r as [[]|]; split; try done; exists l, t0; (split; [done|]); (split; [lia|]); try done.
      cbn [pu_next_query update_field pu_restarting]. intros Hr. specialize (Hq Hr). lia.
    - split; [done|]. exists l, t0. split; [done|]. split; [lia|done]. }
  clearbody p1. destruct (bool_decide _ && _) eqn:Eb; [|by intros [= <-]]. apply andb_true_iff in Eb as [Hnq%bool_decide_eq_true Hr%negb_true_iff].
  destruct (tn_stop_ok t); [|done]. intros [= <-]. pose proof H1 as [_ (l & t0 & E & Ht & Hq)]. rewrite Hr in *. specialize (Hq eq_refl). split.
  - eapply (paced_snoc _ p1 StopBrowse (tn_now t)); [exact H1| |done]. rewrite Hr, E, last_snoc. cbn. lia.
  - exists (pu_queries p1), (tn_now t). split; [done|]. by split.
Qed.

Lemma pump_event_paced now t ev p p' : paced_at now p → (now ≤ tn_later t)%Z → pump_event own t ev p = Some p' → paced_at (tn_later t) p'.
Proof.
  intros Hp Hn. pose proof Hp as [Hok (l & t0 & E & Ht & Hq)].
  assert (∀ q, pu_queries q = pu_queries p → pu_restarting q = pu_restarting p → pu_next_query q = pu_next_query p → paced_at (tn_later t) q) as Hsame.
  { intros q E1 E2 E3. split; [by rewrite E1|]. exists l, t0. rewrite E1, E2, E3. split; [done|]. split; [lia|done]. }
  unfold pump_event. intros Ee.
  assert (∀ ev', (let '(peers, to_send) := service_event own ev' (pu_full_to_peer p) in
    let p := p <| pu_full_to_peer := peers |> in
    match to_send with
    | None => Some p
    | Some e => if tn_send_ok t then Some (p <| pu_sent := pu_sent p ++ [e] |>) else None
    end) = Some p' → paced_at (tn_later t) p') as Hgen.
  { intros ev'. destruct (service_event own ev' _) as [peers to_send]. cbv zeta. destruct to_send; [destruct (tn_send_ok t); [|done]|]; intros [= <-]; by apply Hsame. }
  destruct ev; try (by eapply Hgen). destruct (pu_restarting p) eqn:Er; [|by eapply Hgen].
  destruct (tn_browse_ok t); [|done]. injection Ee as <-. split.
  - eapply (paced_snoc _ p Browse (tn_later t)); [exact Hp| |done]. rewrite Er, E, last_snoc. cbn. lia.
  - exists (pu_queries p), (tn_later t). cbn. split; [done|]. split; [lia|intros _; lia].
Qed.

(** Discovery's queries are paced.  Whatever the interfaces, the network
    events and the daemon's answers, at most one query is open at any time, and
    a query is only replaced after it has run at least a second: a network that
    keeps changing cannot make the browser loop. *)
Theorem queries_paced now pol ts p :
  clocked now ts → pump_run own ts (pump_start now pol) = Some p → queries_ok (pu_queries p).
Proof.
  assert (paced_at now (pump_start now pol)) as Hs by (split; [done|]; exists [], now; cbn; split; [done|]; split; lia).
  revert Hs. generalize (pump_start now pol). revert now; induction ts as [|t ts IH]; intros now p0 Hp; cbn [pump_run clocked].
  - intros _ [= <-]. apply Hp.
  - intros [Hn Hc]. rewrite bind_Some. intros (p1 & E1 & E2). eapply IH; [|exact Hc|exact E2].
    unfold pump_turn in E1. rewrite bind_Some in E1. destruct E1 as (pt & Et & E1).
    assert (paced_at (tn_now t) pt) as Hpt by (eapply pump_top_paced; [exact Hp|lia|done]).
    destruct (tn_received t) as [ev| |]; [|injection E1 as <-|done].
    + eapply pump_event_paced; [exact Hpt|lia|done].
    + destruct Hpt as [Hok (l & t0 & E & Ht & Hq)]. split; [done|]. exists l, t0. split; [done|]. split; [lia|done].
Qed.
End pacing.

(** ** A concrete LAN *)

Record ToyService := { ty_name : string; ty_host : string; ty_addresses : list IpAddr; ty_port : Z; ty_props : gmap string string }.
Definition toy_mdns : MdnsOps := {|
  ServiceInfo := ToyService;
  service_info_new ty name host addrs port props :=
    Some {| ty_name := name +:+ "." +:+ ty; ty_host := host; ty_addresses := remove_dups addrs; ty_port := port; ty_props := props |};
  get_fullname := ty_name; get_hostname := ty_host; get_addresses := ty_addresses; get_port := ty_port;
  get_property_val_str i k := ty_props i !! k
|}.
Lemma toy_mdns_laws : MdnsLaws (H := toy_mdns).
Proof.
  split; cbn; intros; simplify_eq; try done. split; [apply NoDup_remove_dups|]. intros ip. cbn. by rewrite elem_of_remove_dups.
Qed.

Section witnesses.
#[local] Existing Instances toy_mdns toy_mdns_laws.

Definition wit_lan (register_ok : bool) : NetEnv := {|
  ne_macos := true;
  ne_interfaces := Some [{| if_name := "lo0"; if_ip := IpV4 2130706433; if_is_loopback := true |};
                         {| if_name := "utun3"; if_ip := IpV4 167772161; if_is_loopback := false |};
                         {| if_name := "en0"; if_ip := IpV6 (Z.shiftl 65152 112 + 7); if_is_loopback := false |};
                         {| if_name := "en0"; if_ip := IpV4 3232235557; if_is_loopback := false |}]%Z;
  ne_disable_ok := true; ne_enable_ok _ := true; ne_register_ok := register_ok; ne_proc_hostname := None; ne_env_hostname := Some "mac"%string
|}.
Definition wit_started : result string Advertiser := advertiser_start (wit_lan true) "id-a" "fp-a" "alpha" 24850 24851 24800 0 "".
Definition wit_refreshed (register_ok : bool) (a : Advertiser) : Advertiser := (refresh (wit_lan register_ok) 24850 24851 24800 24852 "head" a).2.

Definition wit_renewed (a : Advertiser) : Advertiser := wit_refreshed true (wit_refreshed false a).
Definition wit_peer : DiscoveredPeer :=
  {| dp_machine_id := "id-a"; dp_display_name := "alpha"; dp_host := "192.168.0.37"; dp_addresses := ["192.168.0.37"];
     dp_service_port := 24850; dp_core_port := 24800; dp_sync_port := 24851; dp_audio_port := 24852;
     dp_fingerprint := "fp-a"; dp_protocol_version := 1; dp_config_head := "head" |}%string.

(** A failed refresh, a successful one, and what the neighbours resolve. *)
Example announcement_reaches_peers_witness :
  match wit_started with Ok a => peer_from (av_service (wit_renewed a)) = Some wit_peer | Err _ => False end.
Proof.
  assert (match wit_started with
          | Ok a => let a' := wit_renewed a in
              av_reannounce a' = false ∧ (af_core_port (av_fields a'), af_sync_port (av_fields a'), af_audio_port (av_fields a')) = (24800, 24851, 24852)%Z ∧
              ty_addresses (av_service a') = [IpV4 3232235557; IpV6 (Z.shiftl 65152 112 + 7)]%Z ∧
              announced_peer (av_fields a') (advertised_addresses (av_interfaces a')) (ty_host (av_service a')) = wit_peer
          | Err _ => False
          end) as Hfacts by (vm_compute; repeat split; reflexivity).
  destruct wit_started as [a|e] eqn:E; [|exact Hfacts]. destruct Hfacts as (Hre & [= Hc Hs Ha] & Haddr & Hpeer).
  assert (adv_reachable true (wit_renewed a)) as Hr.
  { eapply (ar_refresh true (wit_lan true)); [reflexivity| |apply surjective_pairing].
    eapply (ar_refresh true (wit_lan false)); [reflexivity| |apply surjective_pairing].
    eapply (ar_start true (wit_lan true)); [reflexivity|exact E]. }
  destruct (announcement_reaches_peers true _ Hr) as (Hp & _ & _). rewrite <-Hpeer. apply Hp; [exact Hre| |].
  - unfold ports_u16, u16_MAX. rewrite Hc, Hs, Ha. lia.
  - split; [reflexivity|]. split; [reflexivity|]. split; [reflexivity|]. split; [|reflexivity].
    change (NoDup (ty_addresses (av_service (wit_renewed a)))). rewrite Haddr. apply (bool_decide_unpack _). vm_compute. exact I.
Defined.

Definition wit_service (name id host : string) : ToyService :=
  {| ty_name := name +:+ "." +:+ SERVICE_TYPE; ty_host := host; ty_addresses := [IpV4 3232235557]; ty_port := 1;
     ty_props := {["id"%string := id; "fp"%string := "f"%string; "v"%string := "999"%string]} |}.
Definition wit_turn (now : Z) (ev : ServiceEvent) : Turn :=
  {| tn_tx_closed := false; tn_network_event := true; tn_now := now; tn_env := wit_lan true; tn_stop_ok := true; tn_received := RvEvent ev;
     tn_browse_ok := true; tn_later := now; tn_send_ok := true |}.
(** Two neighbours, ourselves, a restarted query, and a goodbye. *)
Definition wit_turns : list Turn :=
  [wit_turn 10 (ServiceResolved (wit_service "beta" "id-b" "b")); wit_turn 1100 (ServiceResolved (wit_service "alpha" "id-a" "a"));
   wit_turn 1200 SearchStopped; wit_turn 1300 (ServiceResolved (wit_service "gamma" "id-c" "c"));
   wit_turn 1400 (ServiceRemoved ("beta." +:+ SERVICE_TYPE))]%Z.
Definition wit_pump : option Pump := pump_run "id-a" wit_turns (pump_start 0 default_policy).

Example queries_paced_witness :
  match wit_pump with Some p => length (pu_queries p) = 3 ∧ queries_ok (pu_queries p) | None => False end.
Proof.
  assert (match wit_pump with Some p => length (pu_queries p) = 3 | None => False end) as Hl by (vm_compute; reflexivity).
  destruct wit_pump as [p|] eqn:E; [|exact Hl]. split; [exact Hl|].
  apply (queries_paced "id-a" 0 default_policy wit_turns p); [cbn; lia|exact E].
Defined.

Example browser_mirrors_lan_witness :
  match wit_pump with
  | Some p => (∀ id, is_Some (observe (pu_sent p) ∅ !! id) ↔ ∃ name q, live "id-a" (received wit_turns) !! name = Some q ∧ dp_machine_id q = id) ∧
              dp_display_name <$> observe (pu_sent p) ∅ !! "id-c"%string = Some "gamma"%string
  | None => False
  end.
Proof.
  assert (match wit_pump with Some p => dp_display_name <$> observe (pu_sent p) ∅ !! "id-c"%string = Some "gamma"%string | None => False end) as Hl
    by (vm_compute; reflexivity).
  destruct wit_pump as [p|] eqn:E; [|exact Hl]. split; [|exact Hl].
  destruct (browser_mirrors_lan "id-a" 0 default_policy wit_turns p E) as (_ & Hids & _). apply Hids.
  apply (names_stable_of (λ n, match n with String "b" _ => "id-b" | String "a" _ => "id-a" | _ => "id-c" end%string)).
  assert (received wit_turns = [ServiceResolved (wit_service "beta" "id-b" "b"); ServiceResolved (wit_service "alpha" "id-a" "a"); SearchStopped;
    ServiceResolved (wit_service "gamma" "id-c" "c"); ServiceRemoved ("beta." +:+ SERVICE_TYPE)]) as -> by reflexivity.
  repeat (apply Forall_cons_2; [try exact I; intros q Hq;
    match type of Hq with ?x = _ => let v := eval vm_compute in (dp_machine_id <$> x) in assert (dp_machine_id <$> x = v) as Hx by (vm_compute; reflexivity) end;
    rewrite Hq in Hx; injection Hx as ->; reflexivity|]).
  apply Forall_nil_2.
Defined.

(** A record of another protocol version is taken like any other. *)
Example future_version_accepted :
  (λ p, dp_protocol_version p) <$> peer_from (wit_service "beta" "id-b" "b") = Some 999%Z.
Proof. vm_compute. reflexivity. Qed.

(** A service name that passes to a machine with a new id leaves the old machine
    with the subscriber for good: its goodbye only takes the new one away. *)
Example reused_name_leaves_ghost :
  let evs := [ServiceResolved (wit_service "beta" "id-b" "b"); ServiceResolved (wit_service "beta" "id-new" "b");
              ServiceRemoved ("beta." +:+ SERVICE_TYPE)] in
  live "id-a" evs = ∅ ∧ map fst (map_to_list (seen "id-a" evs)) = ["id-b"%string].
Proof. vm_compute. split; reflexivity. Qed.
End witnesses.
