(* ===== verification/LanMirror.v ===== *)
(** * From the LAN to the window

    Composition of the browser's thread ([browser.rs]), the supervisor's run loop
    ([supervisor/mod.rs]) and the window ([GuiMirror]): the machines the window
    lists are those with a service up on the LAN. *)

From Stdlib Require Import ZArith Lia.
From S2P Require Import Prelude Primitives Config Versioned IpcTypes Store CoreProc SupState NetSync Supervisor IpcWire GuiApp GuiIpc GuiMirror Discovery.

Section lan.
Context `{JsonSharedOps, Sha256Ops, HexOps, TomlOps, JsonOps SideCar, JsonOps TrustFile, MdnsOps}.
Context (our_id our_fingerprint : string) (config_path versions_path : PathPair).
Context (show_config_error : ConfigError → string) (show_trust_error : TrustError → string).

Local Notation exec := (sup_exec our_id our_fingerprint config_path versions_path show_config_error show_trust_error).

(** The daemon applies an event as any subscriber of the browser does. *)
Lemma handle_discovery_peers env ev s : sv_peers (handle_discovery our_id env ev s) = observe_one (sv_peers s) ev.
Proof.
  unfold handle_discovery. destruct ev as [peer|id]; cbn [observe_one]; cbv zeta.
  - destruct (_ || _); [|done]. by rewrite (q_peers _ _ (reconcile_audio_sessions_quiet our_id env _)), (q_peers _ _ (maybe_pull_from_quiet env peer _)).
  - destruct (sv_peers s !! id) eqn:E; [by repeat case_match|by rewrite delete_id].
Qed.

(** Turns of the running loop, among them those that take [evs] from the browser. *)
Inductive lan_steps : list DiscoveryEvent → Sup → Sup → Prop :=
| ls_refl s : lan_steps [] s s
| ls_other renv op evs s s1 s2 :
    (∀ ev, op ≠ SoDiscovery ev) → exec renv op s = (false, s1) → lan_steps evs s1 s2 → lan_steps evs s s2
| ls_event renv ev evs s s1 s2 :
    sv_discovery s = Some false → exec renv (SoDiscovery ev) s = (false, s1) → lan_steps evs s1 s2 → lan_steps (ev :: evs) s s2.

Lemma lan_steps_observe evs s s' : lan_steps evs s s' → sv_peers s' = observe evs (sv_peers s).
Proof.
  induction 1 as [s|renv op evs s s1 s2 Hop E _ IH|renv ev evs s s1 s2 Hd E _ IH]; [done| |].
  - rewrite IH. eapply exec_grows in E as [-> _]; done.
  - cbn [sup_exec] in E. rewrite Hd in E. injection E as <-. by rewrite IH, handle_discovery_peers.
Qed.

(** What a subscriber may say of the services that are up. *)
Record mirrors_lan (evs : list ServiceEvent) (view : gmap string DiscoveredPeer) : Prop := {
  ml_present : ∀ name q, live our_id evs !! name = Some q → is_Some (view !! dp_machine_id q) ∧ dp_machine_id q ≠ our_id;
  ml_only : names_stable evs → ∀ id, is_Some (view !! id) ↔ ∃ name q, live our_id evs !! name = Some q ∧ dp_machine_id q = id;
  ml_fields : names_stable evs → ids_stable evs → ∀ name q, live our_id evs !! name = Some q →
    ∃ q', view !! dp_machine_id q = Some q' ∧ q' ≡ q
}.

#[export] Instance mirrors_lan_proper evs : Proper ((≡) ==> iff) (mirrors_lan evs).
Proof.
  assert (∀ v w, v ≡ w → mirrors_lan evs v → mirrors_lan evs w) as Hgo.
  { intros v w Hvw [Hp Ho Hf]. assert (∀ id, is_Some (v !! id) ↔ is_Some (w !! id)) as Hs.
    { intros id. specialize (Hvw id). split; intros [x Hx]; rewrite Hx in Hvw; inversion Hvw; by eexists. }
    split.
    - intros name q Hq. rewrite <-Hs. by eapply Hp.
    - intros Hst id. rewrite <-Hs. by apply Ho.
    - intros Hst Hid name q Hq. destruct (Hf Hst Hid name q Hq) as (q' & Hq' & Heq). specialize (Hvw (dp_machine_id q)).
      rewrite Hq' in Hvw. inversion Hvw as [? q'' Hqq Ex Ey|]; subst. exists q''. split; [done|]. by rewrite <-Hqq. }
  intros v w Hvw. split; by apply Hgo.
Qed.

Lemma seen_mirrors evs : mirrors_lan evs (seen our_id evs).
Proof.
  destruct (covered_always our_id evs) as [IR IS]. split.
  - intros name q Hq. split; [by eapply IS|by eapply IR].
  - intros Hst id. split.
    + intros [q Hq]. by destruct (seen_live _ _ Hst _ _ Hq) as [_ Hl].
    + intros (name & q & Hq & <-). by eapply IS.
  - intros Hst Hid name q Hq. exists q. split; [by eapply seen_exact|done].
Qed.

Lemma pump_sent now pol ts p :
  pump_run our_id ts (pump_start now pol) = Some p → observe (pu_sent p) ∅ = seen our_id (received ts).
Proof. intros Hrun. destruct (pump_run_spec _ _ _ _ Hrun) as [_ Hs]. cbn [pump_start pu_sent pu_full_to_peer app] in Hs. by rewrite Hs. Qed.

(** The browser's view, from its thread to any daemon that took its events. *)
Lemma daemon_mirrors_lan now pol ts p s0 s :
  pump_run our_id ts (pump_start now pol) = Some p → sv_peers s0 = ∅ → lan_steps (pu_sent p) s0 s → mirrors_lan (received ts) (sv_peers s).
Proof. intros Hrun Hs0 Hst. rewrite (lan_steps_observe _ _ _ Hst), Hs0, (pump_sent _ _ _ _ Hrun). apply seen_mirrors. Qed.

End lan.

(** ** A concrete LAN, daemon and window *)

Section witnesses.
#[local] Existing Instances toy_json_shared toy_sha toy_hex toy_toml toy_json_sidecar toy_json_trust toy_mdns.

Definition lan_turns : list Turn :=
  [wit_turn 10 (ServiceResolved (wit_service "beta" "b" "b")); wit_turn 20 (ServiceResolved (wit_service "gamma" "c" "c"));
   wit_turn 30 (ServiceRemoved ("beta." +:+ SERVICE_TYPE))]%Z.
Definition lan_pump : option Pump := pump_run "a" lan_turns (pump_start 0 default_policy).

Definition lan_peer (name id : string) : DiscoveredPeer :=
  {| dp_machine_id := id; dp_display_name := name; dp_host := "192.168.0.37"; dp_addresses := ["192.168.0.37"];
     dp_service_port := 1; dp_core_port := 0; dp_sync_port := 0; dp_audio_port := 0; dp_fingerprint := "f";
     dp_protocol_version := 999; dp_config_head := "" |}%string.
Definition lan_first : Sup := GuiMirror.wit_turn (Found (lan_peer "beta" "b")) wit_boot.
Definition lan_last : Sup := GuiMirror.wit_turn (Lost "b") (GuiMirror.wit_turn (Found (lan_peer "gamma" "c")) lan_first).

Definition lan_session : Session :=
  {| sn_subscribe := Ok RsOk; sn_snapshot := Ok tt;
     sn_ask := λ r, match r with RqListPeers => Ok (RsPeers (visible lan_first)) | _ => Ok RsOk end;
     sn_blocking := Ok tt;
     sn_messages := [(MsgEvent (EvPeerDiscovered (lan_peer "beta" "b")), None); (MsgEvent (EvPeerDiscovered (lan_peer "gamma" "c")), None);
                     (MsgEvent (EvPeerLost "b"), None)];
     sn_end := "closed"; sn_lasted := 5000 |}.
Definition lan_frames : list UiOp :=
  [UiFrame 0 [UpPeerSnapshot (visible lan_first); UpConnected] false false [];
   UiFrame 16 [UpPeerDiscovered (lan_peer "beta" "b"); UpPeerDiscovered (lan_peer "gamma" "c"); UpPeerLost "b"] false false []].

Lemma lan_daemon : lan_steps "a" "ff" wit_config_path wit_versions_path (λ _, "bad config"%string) (λ _, "bad trust"%string)
  [Found (lan_peer "beta" "b"); Found (lan_peer "gamma" "c"); Lost "b"] wit_boot lan_last.
Proof.
  eapply (ls_event _ _ _ _ _ _ wit_renv); [reflexivity..|]. eapply (ls_event _ _ _ _ _ _ wit_renv); [reflexivity..|].
  eapply (ls_event _ _ _ _ _ _ wit_renv); [reflexivity..|]. apply ls_refl.
Qed.

Lemma lan_watch : watches "a" "ff" wit_config_path wit_versions_path (λ _, "bad config"%string) (λ _, "bad trust"%string)
   wit_show_error wit_show_response wit_boot lan_first lan_last lan_session lan_frames.
Proof.
  split.
  - apply wit_boot_reachable.
  - by eapply (ss_step _ _ _ _ _ _ wit_renv (SoDiscovery (Found (lan_peer "beta" "b")))), ss_refl.
  - eapply (ss_step _ _ _ _ _ _ wit_renv (SoDiscovery (Found (lan_peer "gamma" "c")))); [reflexivity|].
    by eapply (ss_step _ _ _ _ _ _ wit_renv (SoDiscovery (Lost "b"))), ss_refl.
  - reflexivity.
  - exists (drop (length (sv_out wit_boot)) (sv_out lan_last)). split; vm_compute; reflexivity.
  - exists [UpPeerSnapshot (visible lan_first)]. split; reflexivity.
Qed.

Definition lan_id (name : string) : string := if starts_with (bytes_of "b") (bytes_of name) then "b" else "c".
Lemma lan_stable : names_stable (received lan_turns).
Proof.
  apply (names_stable_of lan_id). unfold lan_turns, received. cbn [omap list_omap tn_received wit_turn].
  repeat (apply Forall_cons_2; [try exact I; intros q Hq; vm_compute in Hq; injection Hq as <-; reflexivity|]). apply Forall_nil_2.
Qed.

End witnesses.
