(* ===== verification/SocketPath.v ===== *)
(** * One process per socket ([crates/synbad-ipc/src/server.rs], [crates/synbad-gui/src/single_instance.rs])

    The daemon and the window each claim a socket path so that only one of them
    runs.  Both are programs of system calls on a shared path, which other launches,
    stops and crashes interleave with: the daemon takes a lock file first, the window
    does not.  The examples at the end are the races the window is left with. *)

From Stdlib Require Import ZArith Lia.
From S2P Require Import Prelude.

(** What the path names; a socket remembers the process that bound it. *)
Inductive PathNode := NdSocket (owner : nat) | NdOther.
#[export] Instance PathNode_eq_dec : EqDecision PathNode.
Proof. solve_decision. Defined.

Inductive Connected := CnOk (owner : nat) | CnRefused | CnNotFound.

(** [connect]: only a socket whose owner still listens answers. *)
Definition connect (listens : nat → bool) (path : option PathNode) : Connected :=
  match path with
  | None => CnNotFound
  | Some (NdSocket owner) => if listens owner then CnOk owner else CnRefused
  | Some NdOther => CnRefused
  end.

(** ** The daemon's listener *)

(** Where a launch of the daemon stands in [Listener::bind], and where its listener
    stands when the daemon stops: dropping the [Listener] only asks the task that owns
    the socket to end, and then releases the lock, in whichever order the two come. *)
Inductive DaPhase :=
| DaLock | DaCreate | DaStat | DaProbe | DaUnlink | DaRecreate
| DaListening
| DaStopping                                (* the task is asked to end; socket and lock still held *)
| DaUnlocked                                (* the lock is released; the socket still held *)
| DaDropped                                 (* the socket is gone; the lock still held *)
| DaFailed.
#[export] Instance DaPhase_eq_dec : EqDecision DaPhase.
Proof. solve_decision. Defined.

(** Whether each call fails for a reason of its own. *)
Record DaEnv := {
  de_lock_file_ok : bool;
  de_create_ok : bool;
  de_stat_ok : bool;
  de_connect_ok : bool;                     (* within a second, and no other error *)
  de_remove_ok : bool
}.

Record Host := {
  ho_path : option PathNode;
  ho_lock : option nat;                     (* who holds [flock] on the lock file *)
  ho_daemons : gmap nat DaPhase             (* the living *)
}.
#[export] Instance Host_eta : Eta Host := λ r, {| ho_path := ho_path r; ho_lock := ho_lock r; ho_daemons := ho_daemons r |}.

(** The socket is open, so that a connection to it is not refused. *)
Definition da_open (ph : DaPhase) : bool := match ph with DaListening | DaStopping | DaUnlocked => true | _ => false end.
Definition da_answers (h : Host) (p : nat) : bool := if ho_daemons h !! p is Some ph then da_open ph else false.
Definition da_listens (h : Host) (p : nat) : bool := bool_decide (ho_daemons h !! p = Some DaListening).
Definition da_goto (p : nat) (ph : DaPhase) (h : Host) : Host := h <| ho_daemons := <[p := ph]> (ho_daemons h) |>.
(** Dropping the lock file releases the lock. *)
Definition da_unlock (p : nat) (h : Host) : Host :=
  h <| ho_lock := if bool_decide (ho_lock h = Some p) then None else ho_lock h |>.
Definition da_fail (p : nat) (h : Host) : Host := da_goto p DaFailed (da_unlock p h).
Definition da_create (p : nat) (h : Host) : Host := da_goto p DaListening (h <| ho_path := Some (NdSocket p) |>).

(** The next call of [Listener::bind]. *)
Definition listener_bind (env : DaEnv) (p : nat) (h : Host) : Host :=
  match ho_daemons h !! p with
  | Some DaLock =>
    if negb (de_lock_file_ok env) then da_fail p h else
    match ho_lock h with
    | None => da_goto p DaCreate (h <| ho_lock := Some p |>)
    | Some _ => da_fail p h
    end
  | Some DaCreate =>
    if negb (de_create_ok env) then da_fail p h else
    match ho_path h with None => da_create p h | Some _ => da_goto p DaStat h end
  | Some DaStat =>
    match ho_path h with
    | Some (NdSocket _) => if de_stat_ok env then da_goto p DaProbe h else da_fail p h
    | _ => da_fail p h
    end
  | Some DaProbe =>
    match connect (da_answers h) (ho_path h) with
    | CnRefused => if de_connect_ok env then da_goto p DaUnlink h else da_fail p h
    | _ => da_fail p h
    end
  | Some DaUnlink => if de_remove_ok env then da_goto p DaRecreate (h <| ho_path := None |>) else da_fail p h
  | Some DaRecreate =>
    match ho_path h with
    | None => if de_create_ok env then da_create p h else da_fail p h
    | Some _ => da_fail p h
    end
  | _ => h
  end.

(** [Listener::drop] aborts the accept task; its fields, the lock file among them, are
    dropped next. *)
Definition listener_drop (p : nat) (h : Host) : Host :=
  match ho_daemons h !! p with Some DaListening => da_goto p DaStopping h | _ => h end.
Definition lock_drop (p : nat) (h : Host) : Host :=
  match ho_daemons h !! p with
  | Some DaStopping => da_goto p DaUnlocked (da_unlock p h)
  | Some DaDropped => da_unlock p h <| ho_daemons := delete p (ho_daemons h) |>
  | _ => h
  end.
(** The aborted task drops the socket, whenever the runtime gets to it: [interprocess]
    closes it and removes its name, whatever the path names by then.  Taken as one call. *)
Definition socket_drop (p : nat) (h : Host) : Host :=
  match ho_daemons h !! p with
  | Some DaStopping => da_goto p DaDropped (h <| ho_path := None |>)
  | Some DaUnlocked => h <| ho_path := None |> <| ho_daemons := delete p (ho_daemons h) |>
  | _ => h
  end.

(** A launch, a call, the three steps of an orderly stop, or the end of a process at any
    point, which leaves its socket behind. *)
Inductive HostOp :=
| HoLaunch (p : nat)
| HoStep (env : DaEnv) (p : nat)
| HoStop (p : nat)
| HoUnlock (p : nat)
| HoSocketDrop (p : nat)
| HoDie (p : nat).

Definition host_exec (op : HostOp) (h : Host) : Host :=
  match op with
  | HoLaunch p => if bool_decide (ho_daemons h !! p = None) && bool_decide (ho_path h ≠ Some (NdSocket p)) then da_goto p DaLock h else h
  | HoStep env p => listener_bind env p h
  | HoStop p => listener_drop p h
  | HoUnlock p => lock_drop p h
  | HoSocketDrop p => socket_drop p h
  | HoDie p => da_unlock p h <| ho_daemons := delete p (ho_daemons h) |>
  end.

(** Any interleaving, whatever the path named before. *)
Inductive host_reachable : Host → Prop :=
| hr_start path : host_reachable {| ho_path := path; ho_lock := None; ho_daemons := ∅ |}
| hr_step op h : host_reachable h → host_reachable (host_exec op h).

(** Past the lock, and not yet without it. *)
Definition da_holds (ph : DaPhase) : bool := match ph with DaLock | DaUnlocked | DaFailed => false | _ => true end.

(** What a daemon knows of the path. *)
Definition da_knows (h : Host) (p : nat) (ph : DaPhase) : Prop :=
  (da_open ph = true → ho_path h = Some (NdSocket p)) ∧
  (ph = DaProbe ∨ ph = DaUnlink → ho_path h ≠ Some NdOther) ∧
  (ph = DaUnlink → ∀ q, da_answers h q = false).

Record host_ok (h : Host) : Prop := {
  hk_lock : ∀ p, ho_lock h = Some p ↔ ∃ ph, ho_daemons h !! p = Some ph ∧ da_holds ph = true;
  hk_path : ∀ p ph, ho_daemons h !! p = Some ph → da_knows h p ph
}.

Lemma holder_unique h p q ph qh :
  host_ok h → ho_daemons h !! p = Some ph → da_holds ph = true → ho_daemons h !! q = Some qh → da_holds qh = true → p = q.
Proof.
  intros Hh Hp Hph Hq Hqh. assert (ho_lock h = Some p) as E by (apply (hk_lock _ Hh); eauto).
  assert (ho_lock h = Some q) as E' by (apply (hk_lock _ Hh); eauto). congruence.
Qed.

Lemma nobody_answers h : host_ok h → (∀ p, ho_path h ≠ Some (NdSocket p)) → ∀ q, da_answers h q = false.
Proof.
  intros Hh Hpath q. unfold da_answers. destruct (ho_daemons h !! q) as [qh|] eqn:E; [|done].
  destruct (da_open qh) eqn:Eo; [|done]. by destruct (Hpath q), (hk_path _ Hh _ _ E) as [-> _].
Qed.

(** [p] moves, and takes or leaves the lock and the path with it: what has to be seen is
    that it breaks nobody else's knowledge. *)
Lemma change_ok p m path lock h :
  host_ok h →
  (∀ q, q ≠ p → m !! q = ho_daemons h !! q) →
  (∀ q, q ≠ p → lock = Some q ↔ ho_lock h = Some q) →
  (lock = Some p ↔ ∃ ph, m !! p = Some ph ∧ da_holds ph = true) →
  let h' := {| ho_path := path; ho_lock := lock; ho_daemons := m |} in
  (∀ ph, m !! p = Some ph → da_knows h' p ph) →
  (∀ q qh, q ≠ p → ho_daemons h !! q = Some qh → da_knows h q qh → da_knows h' q qh) →
  host_ok h'.
Proof.
  intros Hh Hm Hlock Hown h' Hp Hother. subst h'. split; cbn [ho_lock ho_daemons].
  - intros q. destruct (decide (q = p)) as [->|Hne]; [done|]. rewrite Hlock, Hm by done. apply (hk_lock _ Hh).
  - intros q qh Hq. destruct (decide (q = p)) as [->|Hne]; [by apply Hp|].
    rewrite Hm in Hq by done. apply Hother; [done..|]. by apply (hk_path _ Hh).
Qed.

(** The path stays, and [p] answers only if it did. *)
Lemma knows_kept p m lock h q qh :
  (∀ r, r ≠ p → m !! r = ho_daemons h !! r) →
  (∀ ph, m !! p = Some ph → da_open ph = true → da_answers h p = true) →
  da_knows h q qh → da_knows {| ho_path := ho_path h; ho_lock := lock; ho_daemons := m |} q qh.
Proof.
  intros Hm Hp (H1 & H2 & H3). split_and!; [done..|]. intros E r. specialize (H3 E r).
  destruct (decide (r = p)) as [->|Hne].
  - unfold da_answers; cbn. destruct (m !! p) as [ph|] eqn:Ep; [|done]. destruct (da_open ph) eqn:Eo; [|done]. by rewrite <-H3, (Hp ph).
  - unfold da_answers in *; cbn. by rewrite Hm.
Qed.

(** Once the path names nothing. *)
Lemma knows_unlinked p m lock h q qh :
  (∀ r, r ≠ p → m !! r = ho_daemons h !! r) →
  (∀ ph, m !! p = Some ph → da_open ph = false) →
  da_open qh = false → da_knows h q qh → da_knows {| ho_path := None; ho_lock := lock; ho_daemons := m |} q qh.
Proof.
  intros Hm Hp Hqh (H1 & H2 & H3). split_and!; [by rewrite Hqh|done|]. intros E r. specialize (H3 E r). unfold da_answers in *; cbn.
  destruct (decide (r = p)) as [->|Hne]; [|by rewrite Hm]. destruct (m !! p) eqn:Ep; [by apply Hp|done].
Qed.

(** Without the lock before and after, and never closer to the socket. *)
Lemma outsider_ok p ph h :
  host_ok h → ho_lock h ≠ Some p → da_holds ph = false → da_open ph = false → host_ok (da_goto p ph h).
Proof.
  intros Hh Hlock Hph Ho. apply (change_ok p _ _ _ h); cbn; [done|by intros; apply lookup_insert_ne|done| | |].
  - rewrite lookup_insert_eq. split; [done|]. intros (ph' & [= <-] & Hph'). congruence.
  - intros ph'. rewrite lookup_insert_eq. intros [= <-].
    split_and!; [by rewrite Ho|by destruct ph; intros [?|?]|by destruct ph].
  - intros q qh Hne Hq. apply (knows_kept p); [by intros; apply lookup_insert_ne|].
    intros ph'. rewrite lookup_insert_eq. intros [= <-]. congruence.
Qed.

(** The lock goes, and the phase with it. *)
Lemma release_ok p m h :
  host_ok h → (∀ q, q ≠ p → m !! q = ho_daemons h !! q) →
  (∀ ph, m !! p = Some ph → da_holds ph = false ∧ (da_open ph = true → da_answers h p = true)) →
  host_ok (da_unlock p h <| ho_daemons := m |>).
Proof.
  intros Hh Hm Hp. apply (change_ok p _ _ _ h); cbn; [done|done| | | |].
  - intros q Hne. case_bool_decide; [|done]. split; congruence.
  - split; [by case_bool_decide|]. intros (ph & Hph & Hhold). destruct (Hp ph Hph). congruence.
  - intros ph Hph. destruct (Hp ph Hph) as [Hhold Ho]. split_and!; [|by destruct ph; intros [?|?]|by destruct ph].
    intros E. specialize (Ho E). unfold da_answers in Ho. destruct (ho_daemons h !! p) as [ph0|] eqn:Ep; [|done].
    by apply (hk_path _ Hh _ _ Ep).
  - intros q qh Hne Hq. apply (knows_kept p); [done|]. intros ph Hph. by apply Hp.
Qed.

Lemma delete_other (p : nat) (m : gmap nat DaPhase) : ∀ q, q ≠ p → delete p m !! q = m !! q.
Proof. intros. by apply lookup_delete_ne. Qed.
Lemma insert_other (p : nat) ph (m : gmap nat DaPhase) : ∀ q, q ≠ p → <[p := ph]> m !! q = m !! q.
Proof. intros. by apply lookup_insert_ne. Qed.

Lemma fail_ok p h : host_ok h → host_ok (da_fail p h).
Proof.
  intros Hh. apply (release_ok p (<[p := DaFailed]> (ho_daemons h)) h); [done|apply insert_other|].
  intros ph. rewrite lookup_insert_eq. by intros [= <-].
Qed.

(** The holder of the lock moves on, the path as it was. *)
Lemma holder_moves p ph0 ph h :
  host_ok h → ho_daemons h !! p = Some ph0 → da_holds ph0 = true → da_holds ph = true → (da_open ph = true → da_open ph0 = true) →
  (ph = DaProbe ∨ ph = DaUnlink → ho_path h ≠ Some NdOther) → (ph = DaUnlink → ∀ q, da_answers h q = false) →
  host_ok (da_goto p ph h).
Proof.
  intros Hh E Hold Hnew Hopen Hnode Hnone. apply (change_ok p _ _ _ h); cbn; [done|apply insert_other|done| | |].
  - rewrite lookup_insert_eq. split; [by exists ph|]. intros _. apply (hk_lock _ Hh). eauto.
  - intros ph'. rewrite lookup_insert_eq. intros [= <-]. apply (knows_kept p); [apply insert_other| |].
    + intros ph'. rewrite lookup_insert_eq. intros [= <-] Ho. unfold da_answers. rewrite E. auto.
    + split_and!; [|done..]. intros Ho. apply (hk_path _ Hh _ _ E). auto.
  - intros q qh Hne Hq. apply (knows_kept p); [apply insert_other|].
    intros ph'. rewrite lookup_insert_eq. intros [= <-] Ho. unfold da_answers. rewrite E. auto.
Qed.

(** The holder makes the socket where there is none. *)
Lemma create_ok p ph0 h :
  host_ok h → ho_daemons h !! p = Some ph0 → da_holds ph0 = true → ho_path h = None → host_ok (da_create p h).
Proof.
  intros Hh E Hold Hpath. apply (change_ok p _ _ _ h); cbn; [done|apply insert_other|done| | |].
  - rewrite lookup_insert_eq. split; [by exists DaListening|]. intros _. apply (hk_lock _ Hh). eauto.
  - intros ph'. rewrite lookup_insert_eq. intros [= <-]. split_and!; [done|by intros [?|?]|done].
  - intros q qh Hne Hq (H1 & H2 & H3). split_and!; [by intros Ho; rewrite (H1 Ho) in Hpath|done|].
    intros ->. destruct Hne. by eapply (holder_unique h q p).
Qed.

(** Somebody's path is removed, by itself or because nobody answers there. *)
Lemma unlink_ok p ph0 m lock h :
  host_ok h → ho_daemons h !! p = Some ph0 →
  da_open ph0 = true ∨ ph0 = DaUnlink →
  (∀ q, q ≠ p → m !! q = ho_daemons h !! q) →
  (∀ ph, m !! p = Some ph → da_open ph = false ∧ ph ≠ DaUnlink) →
  (∀ q, q ≠ p → lock = Some q ↔ ho_lock h = Some q) →
  (lock = Some p ↔ ∃ ph, m !! p = Some ph ∧ da_holds ph = true) →
  host_ok {| ho_path := None; ho_lock := lock; ho_daemons := m |}.
Proof.
  intros Hh E Hwho Hm Hp Hlock Hown. apply (change_ok p _ _ _ h); [done|done|done|done| |].
  - intros ph Hph. destruct (Hp ph Hph) as [Ho Hu]. split_and!; [by rewrite Ho|done|done].
  - intros q qh Hne Hq Hk. apply (knows_unlinked p m lock h); [done|intros ph Hph; by apply Hp| |done].
    destruct (da_open qh) eqn:Eq; [exfalso|done]. destruct Hk as (Hk & _). specialize (Hk Eq). destruct Hwho as [Ho| ->].
    + destruct (hk_path _ Hh _ _ E) as [Hmine _]. rewrite (Hmine Ho) in Hk. congruence.
    + destruct (hk_path _ Hh _ _ E) as (_ & _ & Hnone). specialize (Hnone eq_refl q). unfold da_answers in Hnone. rewrite Hq in Hnone. congruence.
Qed.

Lemma bind_ok env p h : host_ok h → host_ok (listener_bind env p h).
Proof.
  intros Hh. pose proof (fail_ok p h Hh) as Hfail. unfold listener_bind. destruct (ho_daemons h !! p) as [ph|] eqn:E; [|done].
  pose proof (hk_path _ Hh _ _ E) as (_ & Hnode & Hnone). destruct ph; try done.
  - destruct (de_lock_file_ok env); [|done]. cbn [negb]. destruct (ho_lock h) as [q|] eqn:El; [done|].
    apply (change_ok p _ _ _ h); cbn; [done|apply insert_other| | | |].
    + intros q Hne. rewrite El. split; congruence.
    + rewrite lookup_insert_eq. split; [by exists DaCreate|done].
    + intros ph. rewrite lookup_insert_eq. intros [= <-]. split_and!; [done|by intros [?|?]|done].
    + intros q qh Hne Hq. apply (knows_kept p); [apply insert_other|]. intros ph. rewrite lookup_insert_eq. by intros [= <-].
  - destruct (de_create_ok env); [|done]. cbn [negb]. destruct (ho_path h) eqn:En; [|by eapply create_ok].
    eapply holder_moves; [done..|by intros [?|?]|done].
  - destruct (ho_path h) as [[q|]|] eqn:En; [|done..]. destruct (de_stat_ok env); [|done].
    eapply holder_moves; [done..|by rewrite En|done].
  - destruct (connect _ _) eqn:Ec; [done| |done]. destruct (de_connect_ok env); [|done].
    eapply holder_moves; [done..|by auto|]. intros _ q. unfold connect in Ec.
    destruct (ho_path h) as [[o|]|] eqn:En; [|by destruct (Hnode (or_introl eq_refl))|done].
    destruct (da_answers h q) eqn:Eq; [|done]. assert (q = o) as ->; [|by rewrite Eq in Ec].
    unfold da_answers in Eq. destruct (ho_daemons h !! q) as [qh|] eqn:Hq; [|done].
    destruct (hk_path _ Hh _ _ Hq) as [Hk _]. specialize (Hk Eq). congruence.
  - destruct (de_remove_ok env); [|done]. eapply unlink_ok; [exact Hh|exact E|by right|apply insert_other| |done|]; cbn.
    + intros ph. rewrite lookup_insert_eq. by intros [= <-].
    + rewrite lookup_insert_eq. split; [by exists DaRecreate|]. intros _. apply (hk_lock _ Hh). eauto.
  - destruct (ho_path h) eqn:En; [done|]. destruct (de_create_ok env); [|done]. by eapply create_ok.
Qed.

Lemma lock_drop_ok p h : host_ok h → host_ok (lock_drop p h).
Proof.
  intros Hh. unfold lock_drop. destruct (ho_daemons h !! p) as [ph|] eqn:E; [|done]. destruct ph; try done.
  - apply (release_ok p (<[p := DaUnlocked]> (ho_daemons h)) h); [done|apply insert_other|].
    intros ph. rewrite lookup_insert_eq. intros [= <-]. unfold da_answers. by rewrite E.
  - apply release_ok; [done|apply delete_other|]. intros ph. by rewrite lookup_delete_eq.
Qed.

Lemma socket_drop_ok p h : host_ok h → host_ok (socket_drop p h).
Proof.
  intros Hh. unfold socket_drop. destruct (ho_daemons h !! p) as [ph|] eqn:E; [|done]. destruct ph; try done.
  - eapply unlink_ok; [exact Hh|exact E|by left|apply insert_other| |done|]; cbn.
    + intros ph. rewrite lookup_insert_eq. by intros [= <-].
    + rewrite lookup_insert_eq. split; [by exists DaDropped|]. intros _. apply (hk_lock _ Hh). eauto.
  - eapply unlink_ok; [exact Hh|exact E|by left|apply delete_other| |done|]; cbn.
    + intros ph. by rewrite lookup_delete_eq.
    + rewrite lookup_delete_eq, (hk_lock _ Hh), E. naive_solver.
Qed.

Lemma host_reachable_ok h : host_reachable h → host_ok h.
Proof.
  induction 1 as [path|op h _ Hh]; [split; cbn; [intros p; rewrite lookup_empty; naive_solver|done]|]. destruct op as [p|env p|p|p|p|p]; cbn [host_exec].
  - destruct (bool_decide (ho_daemons h !! p = None)) eqn:E; [|done]. apply bool_decide_eq_true in E. cbn [andb].
    destruct (bool_decide _); [|done]. apply outsider_ok; [done| |done..]. rewrite (hk_lock _ Hh), E. naive_solver.
  - by apply bind_ok.
  - unfold listener_drop. destruct (ho_daemons h !! p) as [ph|] eqn:E; [|done]. destruct ph; try done.
    eapply holder_moves; [done..|by intros [?|?]|done].
  - by apply lock_drop_ok.
  - by apply socket_drop_ok.
  - apply release_ok; [done|apply delete_other|]. intros ph. by rewrite lookup_delete_eq.
Qed.

Lemma listens_true h p : da_listens h p = true ↔ ho_daemons h !! p = Some DaListening.
Proof. apply bool_decide_eq_true. Qed.

Lemma listening_reached h p : host_reachable h → da_listens h p = true → connect (da_answers h) (ho_path h) = CnOk p.
Proof.
  intros Hr Hp%listens_true. destruct (hk_path _ (host_reachable_ok _ Hr) _ _ Hp) as [-> _]; [|done]. cbn. unfold da_answers. by rewrite Hp.
Qed.

Lemma listening_stays h p op : da_listens h p = true → op ≠ HoDie p → op ≠ HoStop p → da_listens (host_exec op h) p = true.
Proof.
  rewrite !listens_true. intros Hp Hdie Hstop. destruct op as [q|env q|q|q|q|q]; cbn [host_exec].
  - repeat case_bool_decide; try done. cbn. rewrite lookup_insert_ne; [done|]. by intros ->; congruence.
  - destruct (decide (q = p)) as [->|Hne]; [unfold listener_bind; by rewrite Hp|].
    unfold listener_bind, da_create, da_fail, da_goto. repeat case_match; cbn; by rewrite ?lookup_insert_ne by done.
  - unfold listener_drop. destruct (decide (q = p)) as [->|Hne]; [done|]. repeat case_match; cbn; by rewrite ?lookup_insert_ne by done.
  - unfold lock_drop. destruct (decide (q = p)) as [->|Hne]; [by rewrite Hp|].
    repeat case_match; cbn; by rewrite ?lookup_insert_ne, ?lookup_delete_ne by done.
  - unfold socket_drop. destruct (decide (q = p)) as [->|Hne]; [by rewrite Hp|].
    repeat case_match; cbn; by rewrite ?lookup_insert_ne, ?lookup_delete_ne by done.
  - cbn. rewrite lookup_delete_ne; [done|]. congruence.
Qed.

Lemma other_file_kept h op : host_ok h → ho_path h = Some NdOther → ho_path (host_exec op h) = Some NdOther.
Proof.
  intros Hh Hp. destruct op as [q|env q|q|q|q|q]; cbn [host_exec]; [by repeat case_match| | | | |done].
  - unfold listener_bind. destruct (ho_daemons h !! q) as [ph|] eqn:E; [|done]. destruct (hk_path _ Hh _ _ E) as (_ & Hk & _).
    destruct ph; rewrite ?Hp; try by repeat case_match. by destruct (Hk (or_intror eq_refl)).
  - unfold listener_drop. by repeat case_match.
  - unfold lock_drop. by repeat case_match.
  - unfold socket_drop. destruct (ho_daemons h !! q) as [ph|] eqn:E; [|done]. destruct (hk_path _ Hh _ _ E) as (Hk & _ & _).
    destruct ph; try done; by rewrite Hk in Hp.
Qed.

Definition calls_ok : DaEnv := {| de_lock_file_ok := true; de_create_ok := true; de_stat_ok := true; de_connect_ok := true; de_remove_ok := true |}.
(** A launch that runs to its end undisturbed. *)
Definition daemon_launch (p : nat) (h : Host) : Host := Nat.iter 6 (host_exec (HoStep calls_ok p)) (host_exec (HoLaunch p) h).

Local Notation host_at path lock p ph ds := {| ho_path := path; ho_lock := lock; ho_daemons := <[p := ph]> ds |}.

Lemma call_at path lock p ph (ds : gmap nat DaPhase) :
  listener_bind calls_ok p (host_at path lock p ph ds) =
  match ph with
  | DaLock => match lock with None => host_at path (Some p) p DaCreate ds | Some _ => da_fail p (host_at path lock p ph ds) end
  | DaCreate => match path with None => host_at (Some (NdSocket p)) lock p DaListening ds | Some _ => host_at path lock p DaStat ds end
  | DaStat => match path with Some (NdSocket _) => host_at path lock p DaProbe ds | _ => da_fail p (host_at path lock p ph ds) end
  | DaProbe => match connect (da_answers (host_at path lock p ph ds)) path with
               | CnRefused => host_at path lock p DaUnlink ds | _ => da_fail p (host_at path lock p ph ds) end
  | DaUnlink => host_at None lock p DaRecreate ds
  | DaRecreate => match path with None => host_at (Some (NdSocket p)) lock p DaListening ds | Some _ => da_fail p (host_at path lock p ph ds) end
  | _ => host_at path lock p ph ds
  end.
Proof.
  unfold listener_bind. cbn [ho_daemons]. rewrite lookup_insert_eq.
  destruct ph; cbn; rewrite ?insert_insert_eq; repeat case_match; unfold da_create, da_goto; cbn; by rewrite ?insert_insert_eq.
Qed.

Lemma launch_listens h p :
  host_ok h → ho_lock h = None → (∀ q, ho_daemons h !! q ≠ Some DaUnlocked) →
  ho_daemons h !! p = None → ho_path h ≠ Some NdOther → ho_path h ≠ Some (NdSocket p) →
  connect (da_answers (daemon_launch p h)) (ho_path (daemon_launch p h)) = CnOk p.
Proof.
  intros Hh Hl Hopen Hp Hother Hown. assert (∀ q, da_answers h q = false) as Hnone.
  { intros q. unfold da_answers. destruct (ho_daemons h !! q) as [ph|] eqn:E; [|done]. destruct (da_holds ph) eqn:Eh.
    - assert (ho_lock h = Some q) by (apply (hk_lock _ Hh); eauto). congruence.
    - destruct ph; try done. by destruct (Hopen q). }
  unfold daemon_launch. cbn [Nat.iter nat_rect host_exec]. rewrite !bool_decide_eq_true_2 by done. cbn [andb].
  destruct h as [path lock ds]. cbn in Hl, Hp, Hother, Hown. subst lock.
  change (da_goto p DaLock _) with (host_at path None p DaLock ds). do 2 (rewrite call_at; cbv iota).
  destruct path as [[q|]|]; [|done|].
  - do 2 (rewrite call_at; cbv iota).
    assert (connect (da_answers (host_at (Some (NdSocket q)) (Some p) p DaProbe ds)) (Some (NdSocket q)) = CnRefused) as Hc.
    { unfold connect, da_answers. cbn. rewrite lookup_insert_ne by congruence. specialize (Hnone q). unfold da_answers in Hnone. cbn in Hnone. by rewrite Hnone. }
    rewrite Hc.
    do 2 (rewrite call_at; cbv iota). cbn. unfold da_answers; cbn. by rewrite lookup_insert_eq.
  - do 4 (rewrite call_at; cbv iota). cbn. unfold da_answers; cbn. by rewrite lookup_insert_eq.
Qed.

(** The lock first or the socket first: a stopped daemon leaves neither. *)
Lemma stop_leaves_nothing h p :
  host_ok h → da_listens h p = true →
  let gone := {| ho_path := None; ho_lock := None; ho_daemons := delete p (ho_daemons h) |} in
  host_exec (HoSocketDrop p) (host_exec (HoUnlock p) (host_exec (HoStop p) h)) = gone ∧
  host_exec (HoUnlock p) (host_exec (HoSocketDrop p) (host_exec (HoStop p) h)) = gone.
Proof.
  intros Hh Hp%listens_true gone. assert (ho_lock h = Some p) as Hl by (apply (hk_lock _ Hh); eauto).
  cbn [host_exec]. unfold listener_drop. rewrite Hp. unfold lock_drop, socket_drop, da_goto, da_unlock. cbn. rewrite !lookup_insert_eq. cbn.
  rewrite !lookup_insert_eq, Hl. cbn. rewrite bool_decide_eq_true_2 by done. by rewrite !delete_insert_eq.
Qed.

(** C25: One daemon per socket, under any interleaving of launches, orderly stops and
    crashes.  At most one daemon listens; until it stops or dies a connection to the path
    reaches it, whatever other launches do; a file that is no socket is never
    removed; a daemon that stops leaves neither socket nor lock, whichever of the two its
    runtime drops first; and once nobody holds the lock, or the socket of a stop that
    released it first, the next launch listens, stale socket or not. *)
Theorem daemon_socket_exclusive h :
  host_reachable h →
  (∀ p q, da_listens h p = true → da_listens h q = true → p = q) ∧
  (∀ p op, da_listens h p = true → op ≠ HoDie p → op ≠ HoStop p → let h' := host_exec op h in connect (da_answers h') (ho_path h') = CnOk p) ∧
  (∀ op, ho_path h = Some NdOther → ho_path (host_exec op h) = Some NdOther) ∧
  (∀ p, da_listens h p = true →
     let gone := {| ho_path := None; ho_lock := None; ho_daemons := delete p (ho_daemons h) |} in
     host_exec (HoSocketDrop p) (host_exec (HoUnlock p) (host_exec (HoStop p) h)) = gone ∧
     host_exec (HoUnlock p) (host_exec (HoSocketDrop p) (host_exec (HoStop p) h)) = gone) ∧
  (∀ p, ho_lock h = None → (∀ q, ho_daemons h !! q ≠ Some DaUnlocked) →
     ho_daemons h !! p = None → ho_path h ≠ Some NdOther → ho_path h ≠ Some (NdSocket p) →
     let h' := daemon_launch p h in connect (da_answers h') (ho_path h') = CnOk p).
Proof.
  intros Hr. pose proof (host_reachable_ok _ Hr) as Hh. split_and!.
  - intros p q Hp%(listening_reached _ _ Hr) Hq%(listening_reached _ _ Hr). congruence.
  - intros p op Hp Hdie Hstop. by apply listening_reached, listening_stays; [by constructor|..].
  - intros op. by apply other_file_kept.
  - intros p. by apply stop_leaves_nothing.
  - intros p. by apply launch_listens.
Qed.

(** A crash, two launches that both find the stale socket, a third after the first of them
    listens; it stops, the lock first, and a launch finds its socket still open. *)
Definition race_ops : list HostOp :=
  [HoLaunch 1; HoStep calls_ok 1; HoStep calls_ok 1; HoDie 1; HoLaunch 2; HoLaunch 3; HoStep calls_ok 2; HoStep calls_ok 3; HoStep calls_ok 2;
   HoStep calls_ok 3; HoStep calls_ok 2; HoStep calls_ok 2; HoStep calls_ok 2; HoStep calls_ok 2; HoLaunch 4; HoStep calls_ok 4;
   HoStop 2; HoUnlock 2; HoLaunch 5; HoStep calls_ok 5; HoStep calls_ok 5; HoStep calls_ok 5; HoStep calls_ok 5; HoSocketDrop 2;
   HoLaunch 6; HoStep calls_ok 6; HoStep calls_ok 6].
Definition race_end : Host := fold_left (λ h op, host_exec op h) race_ops {| ho_path := None; ho_lock := None; ho_daemons := ∅ |}.

Example daemon_socket_exclusive_witness :
  map_to_list (ho_daemons race_end) = [(6, DaListening); (4, DaFailed); (5, DaFailed); (3, DaFailed)] ∧
  (∀ q, da_listens race_end q = true → q = 6) ∧
  connect (da_answers (host_exec (HoDie 3) race_end)) (ho_path (host_exec (HoDie 3) race_end)) = CnOk 6.
Proof.
  assert (host_reachable race_end) as Hr.
  { unfold race_end. generalize race_ops. intros ops. induction ops as [|op ops IH] using rev_ind; [apply hr_start|].
    rewrite fold_left_app. cbn. by apply hr_step. }
  destruct (daemon_socket_exclusive _ Hr) as (Hone & Hstay & _). split_and!.
  - vm_compute. reflexivity.
  - intros q Hq. apply (Hone q 6); [exact Hq|vm_compute; reflexivity].
  - apply (Hstay 6 (HoDie 3)); [vm_compute; reflexivity|discriminate..].
Defined.

(** ** The window's guard *)

(** Where a launch of the window stands in [acquire], and what it came to;
    [second] is the loop's second attempt. *)
Inductive GuPhase :=
| GuBind (second : bool)
| GuProbe (second : bool)
| GuUnlink
| GuAcquired
| GuForwarded
| GuUnsupported.
#[export] Instance GuPhase_eq_dec : EqDecision GuPhase.
Proof. solve_decision. Defined.

Record GuEnv := {
  ge_bind_ok : bool;
  ge_connect_ok : bool;
  ge_remove_ok : bool;
  ge_sent : bool                            (* the owner read SHOW within its second *)
}.
#[export] Instance GuEnv_eta : Eta GuEnv := λ r,
  {| ge_bind_ok := ge_bind_ok r; ge_connect_ok := ge_connect_ok r; ge_remove_ok := ge_remove_ok r; ge_sent := ge_sent r |}.

Record Desk := {
  dk_path : option PathNode;
  dk_guis : gmap nat GuPhase;               (* the living *)
  dk_shown : list nat                       (* the windows raised, in order *)
}.
#[export] Instance Desk_eta : Eta Desk := λ r, {| dk_path := dk_path r; dk_guis := dk_guis r; dk_shown := dk_shown r |}.

Definition gu_listens (d : Desk) (p : nat) : bool := bool_decide (dk_guis d !! p = Some GuAcquired).
Definition gu_goto (p : nat) (ph : GuPhase) (d : Desk) : Desk := d <| dk_guis := <[p := ph]> (dk_guis d) |>.

(** The next call of [acquire]. *)
Definition acquire_step (env : GuEnv) (p : nat) (d : Desk) : Desk :=
  match dk_guis d !! p with
  | Some (GuBind second) =>
    if negb (ge_bind_ok env) then gu_goto p GuUnsupported d else
    match dk_path d with
    | None => gu_goto p GuAcquired (d <| dk_path := Some (NdSocket p) |>)
    | Some _ => gu_goto p (GuProbe second) d
    end
  | Some (GuProbe second) =>
    if negb (ge_connect_ok env) then gu_goto p GuUnsupported d else
    match connect (gu_listens d) (dk_path d) with
    | CnOk owner => gu_goto p GuForwarded (if ge_sent env then d <| dk_shown := dk_shown d ++ [owner] |> else d)
    | CnRefused => gu_goto p (if second : bool then GuUnsupported else GuUnlink) d
    | CnNotFound => gu_goto p GuUnsupported d
    end
  | Some GuUnlink => gu_goto p (GuBind true) (if ge_remove_ok env then d <| dk_path := None |> else d)
  | Some GuAcquired | Some GuForwarded | Some GuUnsupported | None => d
  end.

(** [acquire] undisturbed: five calls at most. *)
Definition acquire (envs : nat → GuEnv) (p : nat) (d : Desk) : Desk :=
  fold_left (λ d i, acquire_step (envs i) p d) (seq 0 5) (gu_goto p (GuBind false) d).

(** [main] leaks the guard, so that [Guard::drop] never runs: however the window
    ends, its socket file stays.  [relaunch_after_update] unlinks it, then starts the
    new window and exits, or stays if that fails. *)
Inductive DeskOp :=
| DkArrive (p : nat)
| DkCall (env : GuEnv) (p : nat)
| DkExit (p : nat)
| DkRelaunch (spawned : bool) (p : nat).

Definition relaunch_socket (spawned : bool) (p : nat) (d : Desk) : Desk :=
  let d := d <| dk_path := None |> in
  if spawned then d <| dk_guis := delete p (dk_guis d) |> else d.

Definition desk_exec (op : DeskOp) (d : Desk) : Desk :=
  match op with
  | DkArrive p => if bool_decide (dk_guis d !! p = None) && bool_decide (dk_path d ≠ Some (NdSocket p)) then gu_goto p (GuBind false) d else d
  | DkCall env p => acquire_step env p d
  | DkExit p => d <| dk_guis := delete p (dk_guis d) |>
  | DkRelaunch spawned p =>
    match dk_guis d !! p with Some GuAcquired | Some GuUnsupported => relaunch_socket spawned p d | _ => d end
  end.

(** The call of [p] makes the socket. *)
Definition gu_binds (env : GuEnv) (p : nat) (d : Desk) : bool :=
  match dk_guis d !! p, dk_path d with Some (GuBind _), None => ge_bind_ok env | _, _ => false end.
Definition gu_unlinking (d : Desk) : bool := bool_decide (map_Exists (λ _ ph, ph = GuUnlink) (dk_guis d)).

(** Launches may overlap, call by call, but none makes the socket while another, which
    found the stale one, is about to unlink the path; and a relaunch is by the window that
    holds the guard, and starts the new one. *)
Definition orderly (op : DeskOp) (d : Desk) : bool :=
  match op with
  | DkCall env p => negb (gu_binds env p d && gu_unlinking d)
  | DkRelaunch spawned p => spawned && gu_listens d p
  | DkArrive _ | DkExit _ => true
  end.

Inductive desk_reachable : Desk → Prop :=
| dr_start path : desk_reachable {| dk_path := path; dk_guis := ∅; dk_shown := [] |}
| dr_step op d : desk_reachable d → orderly op d = true → desk_reachable (desk_exec op d).

(** Whoever acquired the guard owns the path, and nobody is about to unlink it. *)
Definition desk_ok (d : Desk) : Prop :=
  ∀ p, dk_guis d !! p = Some GuAcquired →
    dk_path d = Some (NdSocket p) ∧ ∀ q, dk_guis d !! q ≠ Some GuUnlink.

Local Notation desk_at path p ph ds shown := {| dk_path := path; dk_guis := <[p := ph]> ds; dk_shown := shown |}.

Lemma acquire_at env path p ph (ds : gmap nat GuPhase) shown :
  acquire_step env p (desk_at path p ph ds shown) =
  match ph with
  | GuBind second =>
    if negb (ge_bind_ok env) then desk_at path p GuUnsupported ds shown else
    match path with None => desk_at (Some (NdSocket p)) p GuAcquired ds shown | Some _ => desk_at path p (GuProbe second) ds shown end
  | GuProbe second =>
    if negb (ge_connect_ok env) then desk_at path p GuUnsupported ds shown else
    match connect (gu_listens (desk_at path p ph ds shown)) path with
    | CnOk owner => desk_at path p GuForwarded ds (if ge_sent env then shown ++ [owner] else shown)
    | CnRefused => desk_at path p (if second : bool then GuUnsupported else GuUnlink) ds shown
    | CnNotFound => desk_at path p GuUnsupported ds shown
    end
  | GuUnlink => desk_at (if ge_remove_ok env then None else path) p (GuBind true) ds shown
  | GuAcquired | GuForwarded | GuUnsupported => desk_at path p ph ds shown
  end.
Proof.
  unfold acquire_step. cbn [dk_guis]. rewrite lookup_insert_eq.
  destruct ph; cbn; repeat case_match; unfold gu_goto; cbn; by rewrite ?insert_insert_eq.
Qed.

(** What a launch finds at the path does not change until it acts itself. *)
Lemma connect_other path p ph ds shown :
  path ≠ Some (NdSocket p) →
  connect (gu_listens (desk_at path p ph ds shown)) path = connect (gu_listens {| dk_path := path; dk_guis := ds; dk_shown := shown |}) path.
Proof. intros Hown. destruct path as [[q|]|]; cbn; try done. unfold gu_listens; cbn. by rewrite lookup_insert_ne by congruence. Qed.

Local Ltac one_call := rewrite acquire_at; cbv iota; rewrite ?connect_other by done; try match goal with |- context [negb (?f (?envs ?i))] => destruct (f (envs i)) eqn:?; cbn [negb] end.

(** A launch that meets a live owner leaves the path alone; one that meets none
    acquires the guard or runs without one. *)
Lemma acquire_spec envs p d :
  dk_guis d !! p = None → dk_path d ≠ Some (NdSocket p) →
  ∃ path ph shown, acquire envs p d = desk_at path p ph (dk_guis d) shown ∧
    match connect (gu_listens d) (dk_path d) with
    | CnOk owner => path = dk_path d ∧ (ph = GuUnsupported ∨ ph = GuForwarded)
    | _ => ph = GuUnsupported ∨ ph = GuAcquired ∧ path = Some (NdSocket p)
    end.
Proof.
  intros Hp Hown. unfold acquire. cbn [seq fold_left]. destruct d as [path ds shown]. cbn [dk_guis dk_path] in *.
  change (gu_goto p (GuBind false) _) with (desk_at path p (GuBind false) ds shown).
  one_call; [|do 4 one_call; eexists _, _, _; split; [reflexivity|]; destruct (connect _ _); auto].
  destruct path as [n|] eqn:En; [|do 4 one_call; eexists _, _, _; split; [reflexivity|]; cbn; auto]. rewrite <-En in *.
  assert (∀ x y : Desk, match path with None => x | Some _ => y end = y) as Hsome by (intros; by rewrite En).
  one_call; [|do 3 one_call; eexists _, _, _; split; [reflexivity|]; destruct (connect _ _); auto].
  destruct (connect _ _) as [owner| |] eqn:Ec; [do 3 one_call; eexists _, _, _; split; [reflexivity|]; auto| |rewrite En in Ec; destruct n; cbn in Ec; by repeat case_match].
  one_call. destruct (ge_remove_ok (envs 2)).
  - do 2 one_call; eexists _, _, _; (split; [reflexivity|]); auto.
  - one_call; [|one_call; eexists _, _, _; split; [reflexivity|]; auto]. rewrite Hsome.
    one_call; [|eexists _, _, _; split; [reflexivity|]; auto]. rewrite Ec. eexists _, _, _; split; [reflexivity|]; auto.
Qed.

(** Every call succeeds. *)
Definition undisturbed : nat → GuEnv := λ _, {| ge_bind_ok := true; ge_connect_ok := true; ge_remove_ok := true; ge_sent := true |}.

Lemma acquire_undisturbed p d :
  dk_guis d !! p = None → dk_path d ≠ Some (NdSocket p) →
  acquire undisturbed p d =
  match connect (gu_listens d) (dk_path d) with
  | CnOk owner => desk_at (dk_path d) p GuForwarded (dk_guis d) (dk_shown d ++ [owner])
  | _ => desk_at (Some (NdSocket p)) p GuAcquired (dk_guis d) (dk_shown d)
  end.
Proof.
  intros Hp Hown. unfold acquire. cbn [seq fold_left]. destruct d as [path ds shown]. cbn [dk_guis dk_path dk_shown] in *.
  change (gu_goto p (GuBind false) _) with (desk_at path p (GuBind false) ds shown).
  rewrite acquire_at. cbn [undisturbed ge_bind_ok negb]. destruct path as [n|] eqn:En; [|by do 4 (rewrite acquire_at; cbv iota)].
  rewrite acquire_at, connect_other by done. cbn [undisturbed ge_connect_ok ge_sent negb].
  destruct (connect _ _) as [owner| |] eqn:Ec; [by do 3 (rewrite acquire_at; cbv iota)| |].
  - rewrite acquire_at. cbn [undisturbed ge_remove_ok]. rewrite acquire_at. cbn [undisturbed ge_bind_ok negb]. by rewrite acquire_at.
  - destruct n; cbn in Ec; by repeat case_match.
Qed.

Lemma gu_listens_true d p : gu_listens d p = true ↔ dk_guis d !! p = Some GuAcquired.
Proof. apply bool_decide_eq_true. Qed.

Lemma gu_unlinking_false d : gu_unlinking d = false → ∀ q, dk_guis d !! q ≠ Some GuUnlink.
Proof. intros Hd%bool_decide_eq_false q Hq. apply Hd. by exists q, GuUnlink. Qed.

(** Arriving, leaving, and every call that neither binds nor finds a stale socket. *)
Lemma desk_phase_ok p m shown d :
  desk_ok d → (∀ q, q ≠ p → m !! q = dk_guis d !! q) → m !! p ≠ Some GuAcquired → m !! p ≠ Some GuUnlink →
  desk_ok {| dk_path := dk_path d; dk_guis := m; dk_shown := shown |}.
Proof.
  intros Hd Hm Ha Hu q; cbn. destruct (decide (q = p)) as [->|Hne]; [done|]. rewrite Hm by done. intros [Hpath Hno]%Hd.
  split; [done|]. intros r. destruct (decide (r = p)) as [->|Hr]; [done|]. by rewrite Hm.
Qed.

Lemma desk_goto_ok p ph shown d :
  desk_ok d → ph ≠ GuAcquired → ph ≠ GuUnlink → desk_ok {| dk_path := dk_path d; dk_guis := <[p := ph]> (dk_guis d); dk_shown := shown |}.
Proof.
  intros Hd Ha Hu. apply (desk_phase_ok p _ _ d); [done|by intros; apply lookup_insert_ne|rewrite lookup_insert_eq; congruence..].
Qed.

(** With nobody holding the guard, only a binding call makes a holder. *)
Lemma desk_free_ok d : (∀ p, dk_guis d !! p ≠ Some GuAcquired) → desk_ok d.
Proof. intros Hd p Hp. by destruct (Hd p). Qed.

Lemma acquire_step_ok env p d : desk_ok d → orderly (DkCall env p) d = true → desk_ok (acquire_step env p d).
Proof.
  intros Hd Hord. unfold orderly, gu_binds in Hord. unfold acquire_step. destruct (dk_guis d !! p) as [[second|second| | | |]|] eqn:E; try done.
  - destruct (ge_bind_ok env); cbn [negb]; [|by apply desk_goto_ok]. destruct (dk_path d) eqn:Ep; [by apply desk_goto_ok|].
    cbn in Hord. apply negb_true_iff in Hord. pose proof (gu_unlinking_false _ Hord) as Hno.
    intros q; cbn. intros [[<- _]|[Hne Hq]]%lookup_insert_Some; [|by destruct (Hd q Hq) as [Hq' _]; rewrite Hq' in Ep].
    split; [done|]. intros r. destruct (decide (r = p)) as [->|Hr]; [by rewrite lookup_insert_eq|by rewrite lookup_insert_ne].
  - destruct (ge_connect_ok env); cbn [negb]; [|by apply desk_goto_ok].
    destruct (connect _ _) as [o| |] eqn:Ec; [destruct (ge_sent env); by apply (desk_goto_ok p GuForwarded _ d)| |by apply desk_goto_ok].
    destruct second; [by apply desk_goto_ok|]. apply desk_free_ok. intros q; cbn. intros [[_ [=]]|[Hne Hq]]%lookup_insert_Some.
    destruct (Hd q Hq) as [Hpath _]. rewrite Hpath in Ec. cbn in Ec. by rewrite (proj2 (gu_listens_true _ _) Hq) in Ec.
  - assert (∀ q, dk_guis d !! q ≠ Some GuAcquired) as Hfree by by intros q [_ Hq]%Hd; destruct (Hq p).
    apply desk_free_ok. intros q. destruct (ge_remove_ok env); cbn; intros [[_ [=]]|[_ Hq]]%lookup_insert_Some; by destruct (Hfree q).
Qed.

Lemma desk_reachable_ok d : desk_reachable d → desk_ok d.
Proof.
  induction 1 as [path|op d _ Hd Hop]; [done|]. destruct op as [p|env p|p|spawned p]; cbn [desk_exec].
  - destruct (_ && _); [|done]. by apply desk_goto_ok.
  - by apply acquire_step_ok.
  - apply (desk_phase_ok p _ _ d); [done|by intros; apply lookup_delete_ne|by rewrite lookup_delete_eq..].
  - cbn in Hop. apply andb_true_iff in Hop as [-> Hop]. apply gu_listens_true in Hop. rewrite Hop.
    apply desk_free_ok. intros q. cbn. intros [Hne Hq]%lookup_delete_Some. apply Hd in Hop as [Hp _], Hq as [Hq _]. congruence.
Qed.


Definition empty_desk : Desk := {| dk_path := None; dk_guis := ∅; dk_shown := [] |}.
Definition desk_run (ops : list DeskOp) (d : Desk) : Desk := fold_left (λ d op, desk_exec op d) ops d.
Definition dk_call : nat → DeskOp := DkCall (undisturbed 0).

(** A window exits; two launches overlap, and both find its socket; one of them is
    through before the other probes. *)
Definition wit_desk_ops : list DeskOp :=
  [DkArrive 1; dk_call 1; DkExit 1; DkArrive 2; DkArrive 3; dk_call 3; dk_call 2; dk_call 2; dk_call 2; dk_call 2; dk_call 3].
Definition wit_desk : Desk := desk_run wit_desk_ops empty_desk.


(** The next launch after an ordinary exit meets the stale socket. *)
Example closing_leaves_socket :
  let d := desk_run [DkArrive 1; dk_call 1; DkExit 1] empty_desk in
  dk_path d = Some (NdSocket 1) ∧ connect (gu_listens d) (dk_path d) = CnRefused.
Proof. vm_compute. split; reflexivity. Qed.

(** Overlapping launches after an exit: both find the stale socket, and the second
    unlinks the socket the first has just bound.  Two windows hold the guard. *)
Example overlapping_launches_race :
  let d := desk_run [DkArrive 1; dk_call 1; DkExit 1; DkArrive 2; DkArrive 3; dk_call 2; dk_call 2; dk_call 3; dk_call 3] empty_desk in
  let d := desk_run [dk_call 2; dk_call 2; dk_call 3; dk_call 3] d in
  (gu_listens d 2, gu_listens d 3) = (true, true).
Proof. vm_compute. reflexivity. Qed.

(** If starting the new window fails, the old one stays without its guard; and a
    window that runs without one unlinks the socket of the one that has it. *)
Example failed_relaunch_loses_guard :
  let d := desk_run [DkArrive 1; dk_call 1; DkRelaunch false 1; DkArrive 2; dk_call 2] empty_desk in
  (gu_listens d 1, gu_listens d 2) = (true, true).
Proof. vm_compute. reflexivity. Qed.

Example unguarded_relaunch_unlinks :
  let no_answer := undisturbed 0 <| ge_connect_ok := false |> in
  let d := desk_run [DkArrive 1; dk_call 1; DkArrive 2; dk_call 2; DkCall no_answer 2; DkRelaunch true 2; DkArrive 3; dk_call 3] empty_desk in
  (gu_listens d 1, gu_listens d 3) = (true, true).
Proof. vm_compute. reflexivity. Qed.
