(* ===== verification/Sockets.v ===== *)
(** * Dialling and accepting ([crates/synbadd/src/transport.rs], [sync.rs], [audio.rs], [pairing.rs], [crates/synbad-ipc/src/server.rs])

    The race over a peer's addresses, and the four accept loops.  All four keep at
    most 64 sessions: three own them in a [JoinSet], the pairing listener counts
    them with a semaphore.  [Listener] is what they promise alike. *)

From Stdlib Require Import ZArith Lia.
From S2P Require Import Prelude Primitives Config IpcTypes SyncSession.

(** ** [connect_hosts] *)

Inductive IoError := IoNoAddress | IoTimedOut | IoFailed (e : string).

(** A finished attempt, as [join_next] returns it: when, to which host, and the
    error or whether [set_nodelay] succeeds on the stream. *)
Record DialAttempt := { at_time : Z; at_host : string; at_result : result string bool }.

Fixpoint race (budget : Z) (running : nat) (last_error : IoError) (attempts : list DialAttempt) : result IoError string :=
  match running, attempts with
  | 0, _ => Err last_error
  | S _, [] => Err IoTimedOut
  | S running, a :: attempts =>
    if decide (budget ≤ at_time a)%Z then Err IoTimedOut else
    match at_result a with
    | Ok true => Ok (at_host a)
    | Ok false => Err (IoFailed "set_nodelay")
    | Err e => race budget running (IoFailed e) attempts
    end
  end.

(** The host reached; [attempts] are the ends of the tasks, one for each candidate. *)
Definition connect_hosts (hosts : list string) (budget : Z) (attempts : list DialAttempt) : result IoError string :=
  race budget (length hosts) IoNoAddress attempts.

Definition connect_peer (peer : DiscoveredPeer) (budget : Z) (attempts : list DialAttempt) : result IoError string :=
  connect_hosts (connect_candidates peer) budget attempts.

(** ** The accept loops *)

Definition MAX_SESSIONS : nat := 64.

(** [tokio::task::JoinSet]: the sessions it owns, and those that have finished but
    have not been joined. *)
Record JoinLoop := { jo_sessions : gset nat; jo_finished : gset nat; jo_stopped : bool }.
#[export] Instance JoinLoop_eta : Eta JoinLoop := λ r,
  {| jo_sessions := jo_sessions r; jo_finished := jo_finished r; jo_stopped := jo_stopped r |}.

Inductive JoinOp :=
| JoJoin (c : nat)                          (* [join_next] *)
| JoAccept (c : option nat)                 (* a connection, or an error *)
| JoFinish (c : nat)                        (* a session returns *)
| JoStop.                                   (* the loop's task is aborted, or [tx.closed()] *)

Definition join_loop (op : JoinOp) (l : JoinLoop) : JoinLoop :=
  if jo_stopped l then l else
  match op with
  | JoJoin c =>
    if bool_decide (c ∈ jo_sessions l) && bool_decide (c ∈ jo_finished l)
    then l <| jo_sessions := jo_sessions l ∖ {[c]} |> <| jo_finished := jo_finished l ∖ {[c]} |> else l
  | JoAccept oc =>
    if bool_decide (size (jo_sessions l) < MAX_SESSIONS)
    then match oc with Some c => if bool_decide (c ∈ jo_sessions l) then l else l <| jo_sessions := {[c]} ∪ jo_sessions l |> | None => l end
    else l
  | JoFinish c => if bool_decide (c ∈ jo_sessions l) then l <| jo_finished := {[c]} ∪ jo_finished l |> else l
  | JoStop => {| jo_sessions := ∅; jo_finished := ∅; jo_stopped := true |}
  end.

(** The pairing listener: where its loop stands, and the tasks that hold a slot. *)
Inductive PlPhase := PlAcquire | PlAccept | PlSend (c : nat) | PlStopped.
Inductive PairTask := TkUnregistered | TkRunning.
Record SlotLoop := { pl_phase : PlPhase; pl_tasks : gmap nat PairTask }.
#[export] Instance SlotLoop_eta : Eta SlotLoop := λ r, {| pl_phase := pl_phase r; pl_tasks := pl_tasks r |}.

Inductive SlotOp :=
| PoAcquire                                 (* [acquire_owned] *)
| PoAccept (c : option nat)
| PoSend (ok : bool)                        (* the supervisor's channel takes it, or is closed *)
| PoRegister (c : nat) (ok : bool)          (* the supervisor registers the session, or drops it *)
| PoFinish (c : nat)
| PoAbort.                                  (* the loop's task is aborted; the sessions are not *)

Definition spawn_listener (op : SlotOp) (l : SlotLoop) : SlotLoop :=
  match op, pl_phase l with
  | PoAcquire, PlAcquire => if bool_decide (size (pl_tasks l) < MAX_SESSIONS) then l <| pl_phase := PlAccept |> else l
  | PoAccept (Some c), PlAccept =>
    match pl_tasks l !! c with
    | Some _ => l
    | None => l <| pl_phase := PlSend c |> <| pl_tasks := <[c := TkUnregistered]> (pl_tasks l) |>
    end
  | PoAccept None, PlAccept => l <| pl_phase := PlAcquire |>
  | PoSend true, PlSend _ => l <| pl_phase := PlAcquire |>
  | PoSend false, PlSend c => l <| pl_phase := PlStopped |> <| pl_tasks := delete c (pl_tasks l) |>
  | PoRegister c ok, _ =>
    match pl_tasks l !! c with
    | Some TkUnregistered => l <| pl_tasks := if ok : bool then <[c := TkRunning]> (pl_tasks l) else delete c (pl_tasks l) |>
    | _ => l
    end
  | PoFinish c, _ => match pl_tasks l !! c with Some TkRunning => l <| pl_tasks := delete c (pl_tasks l) |> | _ => l end
  | PoAbort, PlSend c => l <| pl_phase := PlStopped |> <| pl_tasks := delete c (pl_tasks l) |>
  | PoAbort, _ => l <| pl_phase := PlStopped |>
  | _, _ => l
  end.

(** ** What the loops promise alike *)

(** The operations a loop performs by itself, or that always happen in time:
    joining, taking a slot, handing a session to the supervisor; and those that
    end a session. *)
Class Listener (L Op : Type) := {
  ls_start : L;
  ls_exec : Op → L → L;
  ls_live : L → gset nat;
  ls_stopped : L → bool;
  ls_arrive : nat → Op;
  ls_own : Op → bool;
  ls_ends : nat → Op → bool
}.

Inductive ls_reachable `{Listener L Op} : L → Prop :=
| lr_start : ls_reachable ls_start
| lr_step op l : ls_reachable l → ls_reachable (ls_exec op l).

Definition ls_run `{Listener L Op} (ops : list Op) (l : L) : L := fold_left (λ l op, ls_exec op l) ops l.

Class ListenerLaws (L Op : Type) `{Listener L Op} := {
  ls_inv : L → Prop;
  ls_inv_start : ls_inv ls_start;
  ls_inv_step op l : ls_inv l → ls_inv (ls_exec op l);
  ls_bounded l : ls_inv l → size (ls_live l) ≤ MAX_SESSIONS;
  ls_ready l : ls_inv l → ls_stopped l = false → size (ls_live l) < MAX_SESSIONS →
    ∃ ops, Forall (λ op, ls_own op = true) ops ∧ ls_live (ls_run ops l) = ls_live l ∧
      ∀ c, c ∉ ls_live l → ls_live (ls_exec (ls_arrive c) (ls_run ops l)) = {[c]} ∪ ls_live l;
  ls_kept op c l : ls_inv l → c ∈ ls_live l → ls_ends c op = false → c ∈ ls_live (ls_exec op l)
}.

(** A listener never runs more than 64 sessions; below that, unless it was
    stopped, the next connection gets one; and a session lasts until something
    ends it. *)
Definition serves (L Op : Type) `{Listener L Op} : Prop :=
  ∀ l : L, ls_reachable l →
    size (ls_live l) ≤ MAX_SESSIONS ∧
    (∀ c, ls_stopped l = false → size (ls_live l) < MAX_SESSIONS → c ∉ ls_live l →
       ∃ ops, Forall (λ op, ls_own op = true) ops ∧ ls_live (ls_exec (ls_arrive c) (ls_run ops l)) = {[c]} ∪ ls_live l) ∧
    (∀ c ops, c ∈ ls_live l → Forall (λ op, ls_ends c op = false) ops → c ∈ ls_live (ls_run ops l)).

Section laws.
Context `{ListenerLaws L Op}.

Lemma reachable_ls_inv (l : L) : ls_reachable l → ls_inv l.
Proof. induction 1; [apply ls_inv_start|by apply ls_inv_step]. Qed.

Lemma laws_serve : serves L Op.
Proof.
  intros l Hr%reachable_ls_inv. split_and!; [by apply ls_bounded| |].
  - intros c Hs Hlt Hc. destruct (ls_ready l Hr Hs Hlt) as (ops & Hown & _ & Harr). exists ops. auto.
  - intros c ops. revert l Hr. induction ops as [|op ops IH]; intros l Hr Hc Hall; [done|]. apply Forall_cons in Hall as [Hop Hall].
    cbn. apply IH; [by apply ls_inv_step|by apply ls_kept|done].
Qed.
End laws.

#[export] Instance join_listener : Listener JoinLoop JoinOp := {|
  ls_start := {| jo_sessions := ∅; jo_finished := ∅; jo_stopped := false |};
  ls_exec := join_loop;
  ls_live l := jo_sessions l ∖ jo_finished l;
  ls_stopped := jo_stopped;
  ls_arrive c := JoAccept (Some c);
  ls_own op := match op with JoJoin _ => true | _ => false end;
  ls_ends c op := match op with JoFinish c' => bool_decide (c' = c) | JoStop => true | _ => false end
|}.

#[export] Instance slot_listener : Listener SlotLoop SlotOp := {|
  ls_start := {| pl_phase := PlAcquire; pl_tasks := ∅ |};
  ls_exec := spawn_listener;
  ls_live l := dom (pl_tasks l);
  ls_stopped l := match pl_phase l with PlStopped => true | _ => false end;
  ls_arrive c := PoAccept (Some c);
  ls_own op := match op with PoAcquire | PoSend true => true | _ => false end;
  ls_ends c op := match op with PoFinish c' | PoRegister c' false => bool_decide (c' = c) | PoSend false | PoAbort => true | _ => false end
|}.

(** Joining every finished session leaves the live ones. *)
Lemma join_all l :
  jo_stopped l = false → jo_finished l ⊆ jo_sessions l →
  ∃ ops, Forall (λ op, ls_own op = true) ops ∧
    ls_run ops l = {| jo_sessions := jo_sessions l ∖ jo_finished l; jo_finished := ∅; jo_stopped := false |}.
Proof.
  remember (size (jo_finished l)) as n eqn:En. revert l En. induction n as [|n IH]; intros l En Hs Hsub.
  - exists []. split; [done|]. symmetry in En. apply size_empty_inv in En. destruct l as [S F st]; cbn in *. subst st.
    apply leibniz_equiv in En. subst F. by rewrite difference_empty_L.
  - destruct (set_choose_L (jo_finished l)) as [c Hc]; [intros E; rewrite E, size_empty in En; done|].
    assert (join_loop (JoJoin c) l = l <| jo_sessions := jo_sessions l ∖ {[c]} |> <| jo_finished := jo_finished l ∖ {[c]} |>) as E.
    { unfold join_loop. rewrite Hs, !bool_decide_eq_true_2; [done|done|set_solver]. }
    destruct (IH (join_loop (JoJoin c) l)) as (ops & Hown & Hj); rewrite ?E; cbn.
    + rewrite size_difference by set_solver. rewrite size_singleton. lia.
    + done.
    + set_solver.
    + exists (JoJoin c :: ops). split; [by apply Forall_cons|]. change (ls_run (JoJoin c :: ops) l) with (ls_run ops (join_loop (JoJoin c) l)).
      rewrite Hj, E. cbn. f_equal. apply set_eq. intros x. destruct (decide (x = c)) as [->|]; set_solver.
Qed.

#[export] Instance join_laws : ListenerLaws JoinLoop JoinOp.
Proof.
  refine {| ls_inv l := size (jo_sessions l) ≤ MAX_SESSIONS ∧ jo_finished l ⊆ jo_sessions l |}.
  - cbn. rewrite size_empty. unfold MAX_SESSIONS. split; [lia|done].
  - intros op l [Hl Hsub]. cbn. unfold join_loop. destruct (jo_stopped l); [done|]. destruct op as [c|[c|]|c|].
    + destruct (_ && _); [|done]. cbn. split; [|set_solver]. etrans; [|exact Hl]. apply subseteq_size. set_solver.
    + repeat case_bool_decide; try done. cbn. rewrite size_union by set_solver. rewrite size_singleton. split; [lia|set_solver].
    + by case_bool_decide.
    + case_bool_decide; [|done]. cbn. split; [done|set_solver].
    + cbn. rewrite size_empty. unfold MAX_SESSIONS. split; [lia|done].
  - intros l [Hl _]. cbn. etrans; [|exact Hl]. apply subseteq_size. set_solver.
  - intros l [_ Hsub] Hs Hlt. destruct (join_all l Hs Hsub) as (ops & Hown & Hj). exists ops. rewrite Hj. split; [done|]. cbn in *.
    split; [set_solver|]. intros c Hc. unfold join_loop. cbn. rewrite bool_decide_eq_true_2 by done. rewrite bool_decide_eq_false_2 by done. cbn. set_solver.
  - intros op c l [_ Hsub] Hc Hop. cbn in *. unfold join_loop. destruct (jo_stopped l); [done|]. destruct op as [c'|[c'|]|c'|]; [| | | |done].
    + destruct (_ && _) eqn:E; [|done]. apply andb_true_iff in E as [_ E%bool_decide_eq_true]. cbn. set_solver.
    + repeat case_bool_decide; try done. cbn. set_solver.
    + by case_bool_decide.
    + apply bool_decide_eq_false in Hop. case_bool_decide; [|done]. cbn. set_solver.
Defined.

(** The slots: taken when the loop is about to accept. *)
Definition slots_ok (l : SlotLoop) : Prop :=
  size (pl_tasks l) ≤ MAX_SESSIONS ∧ (pl_phase l = PlAccept → size (pl_tasks l) < MAX_SESSIONS).

Lemma slots_fewer ph m l : slots_ok l → size m ≤ size (pl_tasks l) → ph ≠ PlAccept ∨ ph = pl_phase l → slots_ok {| pl_phase := ph; pl_tasks := m |}.
Proof. intros [Hl Hp] Hm Hph. split; cbn; [lia|]. intros ->. destruct Hph as [?|Hph]; [done|]. specialize (Hp (eq_sym Hph)). lia. Qed.

Lemma size_delete_le c (m : gmap nat PairTask) : size (delete c m) ≤ size m.
Proof. rewrite map_size_delete. destruct (m !! c); cbn; lia. Qed.

Lemma slots_step op l : slots_ok l → slots_ok (spawn_listener op l).
Proof.
  intros Hl. pose proof size_delete_le as Hdel. pose proof Hl as [Hsize Hacc].
  unfold spawn_listener. destruct op as [|[c|]|[]|c ok|c|]; destruct (pl_phase l) as [| |c0|] eqn:Eph; try done.
  all: try (case_bool_decide; [|done]; split; cbn; [done|by intros _]).
  all: try (by apply (slots_fewer _ _ l Hl); cbn; [|left]).
  all: try (destruct (pl_tasks l !! c) as [[]|] eqn:Ec; try done).
  all: try (destruct ok; apply (slots_fewer _ _ l Hl); cbn; auto; by rewrite map_size_insert_Some by by eexists).
  all: try (by apply (slots_fewer _ _ l Hl); cbn; auto).
  split; cbn; [|done]. rewrite map_size_insert_None by done. specialize (Hacc eq_refl). lia.
Qed.

#[export] Instance slot_laws : ListenerLaws SlotLoop SlotOp.
Proof.
  refine {| ls_inv := slots_ok |}.
  - split; cbn; rewrite ?map_size_empty; unfold MAX_SESSIONS; [lia|done].
  - apply slots_step.
  - intros l [Hl _]. cbn. by rewrite size_dom.
  - intros l [_ Hacc] Hs Hlt. cbn in Hs, Hlt. rewrite size_dom in Hlt.
    assert (∀ l', pl_phase l' = PlAccept → pl_tasks l' = pl_tasks l → ∀ c, c ∉ dom (pl_tasks l) → dom (pl_tasks (spawn_listener (PoAccept (Some c)) l')) = {[c]} ∪ dom (pl_tasks l)) as Harr.
    { intros l' Hph Ht c Hc%not_elem_of_dom. unfold spawn_listener. rewrite Hph, Ht, Hc. cbn. by rewrite ?Ht, dom_insert_L. }
    destruct (pl_phase l) as [| |c|] eqn:Eph; [| | |done].
    + exists [PoAcquire]. assert (spawn_listener PoAcquire l = l <| pl_phase := PlAccept |>) as E.
      { unfold spawn_listener. by rewrite Eph, bool_decide_eq_true_2. }
      change (ls_run [PoAcquire] l) with (spawn_listener PoAcquire l). rewrite E. split; [by apply Forall_singleton|]. split; [done|]. by apply Harr.
    + exists []. split; [done|]. split; [done|]. by apply Harr.
    + exists [PoSend true; PoAcquire].
      assert (spawn_listener PoAcquire (spawn_listener (PoSend true) l) = l <| pl_phase := PlAccept |>) as E.
      { unfold spawn_listener at 2. rewrite Eph. unfold spawn_listener. cbn. by rewrite bool_decide_eq_true_2. }
      change (ls_run [PoSend true; PoAcquire] l) with (spawn_listener PoAcquire (spawn_listener (PoSend true) l)). rewrite E. split; [by apply Forall_cons_2; [|apply Forall_singleton]|]. split; [done|]. by apply Harr.
  - intros op c l _ Hc Hop. cbn in *. apply elem_of_dom in Hc as [t Ht]. apply elem_of_dom. unfold spawn_listener.
    destruct op as [|[c'|]|[]|c' ok|c'|]; try done.
    + destruct (pl_phase l); try case_bool_decide; by eexists.
    + destruct (pl_phase l); try (by eexists). destruct (pl_tasks l !! c') eqn:Ec; [by eexists|]. cbn. rewrite lookup_insert_ne by congruence. by eexists.
    + destruct (pl_phase l); by eexists.
    + destruct (pl_phase l); by eexists.
    + destruct (pl_tasks l !! c') as [[]|] eqn:Ec; try (destruct (pl_phase l); by eexists).
      destruct ok; cbn in Hop.
      * destruct (decide (c' = c)) as [->|Hne]; destruct (pl_phase l); cbn; rewrite ?lookup_insert_eq, ?lookup_insert_ne by done; by eexists.
      * apply bool_decide_eq_false in Hop. destruct (pl_phase l); cbn; rewrite lookup_delete_ne by done; by eexists.
    + apply bool_decide_eq_false in Hop. destruct (pl_tasks l !! c') as [[]|] eqn:Ec; destruct (pl_phase l); cbn; rewrite ?lookup_delete_ne by done; by eexists.
Defined.

(** C27: The listeners stay available.  The accept loops of the sync, audio and IPC
    listeners, and the pairing listener with its slots, keep to the same
    promise: never more than 64 sessions at a time; below that, unless it was
    stopped, the next connection gets a session of its own whatever failed before;
    and no session ends because of another. *)
Theorem listeners_serve : serves JoinLoop JoinOp ∧ serves SlotLoop SlotOp.
Proof. split; apply laws_serve. Qed.

(** Aborting the pairing listener leaves its sessions running; a [JoinSet] takes
    them down with it. *)
Example abort_keeps_pairings :
  dom (pl_tasks (ls_run [PoAcquire; PoAccept (Some 1); PoSend true; PoRegister 1 true; PoAbort] ls_start)) = ({[1]} : gset nat) ∧
  ls_live (ls_run [JoAccept (Some 1); JoStop] ls_start) = (∅ : gset nat).
Proof. split; vm_compute; reflexivity. Qed.

(** ** Dialling *)

Lemma add_host_in hosts h x : x ∈ add_host hosts h → x ∈ hosts ∨ x = h.
Proof. unfold add_host. destruct (_ && _); [|by left]. intros [?|?%list_elem_of_singleton]%elem_of_app; auto. Qed.

Lemma candidates_ok peer :
  NoDup (connect_candidates peer) ∧ head (connect_candidates peer) = Some (dp_host peer) ∧ length (connect_candidates peer) ≤ 16 ∧
  ∀ h, h ∈ connect_candidates peer → h = dp_host peer ∨ h ∈ dp_addresses peer.
Proof.
  unfold connect_candidates.
  assert (∀ l hosts, NoDup hosts → head hosts = Some (dp_host peer) → length hosts ≤ 16 →
    let r := fold_left add_host l hosts in
    NoDup r ∧ head r = Some (dp_host peer) ∧ length r ≤ 16 ∧ ∀ h, h ∈ r → h ∈ hosts ∨ h ∈ l) as Hgo.
  { induction l as [|x l IH]; intros hosts Hnd Hhd Hlen; cbn [fold_left]; [cbv zeta; auto|].
    destruct (IH (add_host hosts x)) as (H1 & H2 & H3 & H4).
    - unfold add_host. destruct (_ && _) eqn:E; [|done]. apply andb_true_iff in E as [E1%negb_true_iff%bool_decide_eq_false _].
      apply NoDup_app. split_and!; [done| |apply NoDup_singleton]. by intros y Hy ->%list_elem_of_singleton.
    - unfold add_host. destruct (_ && _); [|done]. by destruct hosts.
    - unfold add_host. destruct (_ && _) eqn:E; [|done]. apply andb_true_iff in E as [_ E%bool_decide_eq_true]. rewrite length_app. cbn. lia.
    - split_and!; try done. intros h [Hh|Hh]%H4; [|right; by apply list_elem_of_further].
      apply add_host_in in Hh as [?| ->]; [by left|right; apply list_elem_of_here]. }
  destruct (Hgo (dp_addresses peer) [dp_host peer]) as (H1 & H2 & H3 & H4); [apply NoDup_singleton|done|cbn; lia|].
  split_and!; try done. intros h [->%list_elem_of_singleton|Hh]%H4; auto.
Qed.

(** What the attempts of one dial are: each candidate ends at most once, in order
    of time. *)
Record attempts_ok (hosts : list string) (attempts : list DialAttempt) : Prop := {
  ao_hosts : NoDup (at_host <$> attempts);
  ao_among : ∀ a, a ∈ attempts → at_host a ∈ hosts;
  ao_sorted : StronglySorted (λ a b, at_time a ≤ at_time b)%Z attempts
}.

Lemma race_spec budget running last attempts :
  StronglySorted (λ a b, at_time a ≤ at_time b)%Z attempts → length attempts ≤ running →
  (∀ h, race budget running last attempts = Ok h → ∃ a, a ∈ attempts ∧ at_host a = h ∧ at_result a = Ok true ∧ (at_time a < budget)%Z) ∧
  (∀ a, a ∈ attempts → is_ok (at_result a) = true → (at_time a < budget)%Z → Forall (λ a, at_result a ≠ Ok false) attempts →
     is_ok (race budget running last attempts) = true).
Proof.
  revert running last; induction attempts as [|a attempts IH]; intros running last Hs Hlen.
  { destruct running; (split; [done|]); intros a Ha; by apply not_elem_of_nil in Ha. }
  destruct running as [|running]; [cbn in Hlen; lia|]. apply StronglySorted_inv in Hs as [Hs Ha]. cbn [race].
  destruct (IH running) with (last := match at_result a with Err e => IoFailed e | _ => last end) as [I1 I2]; [done|cbn in Hlen; lia|].
  destruct (decide _) as [Hb|Hb].
  - split; [done|]. intros b [->|Hin]%elem_of_cons _ Hlt _; [lia|]. rewrite Forall_forall in Ha. specialize (Ha _ Hin). lia.
  - destruct (at_result a) as [[]|e] eqn:Er.
    + split; [|done]. intros h [= <-]. exists a. split_and!; [apply list_elem_of_here|done|done|lia].
    + split; [done|]. intros b _ _ _ [Hf _]%Forall_cons. congruence.
    + split.
      * intros h Hh. destruct (I1 h Hh) as (b & Hb' & Hr). exists b. split; [by apply list_elem_of_further|done].
      * intros b [->|Hin]%elem_of_cons Hok Hlt [_ Hf]%Forall_cons; [by rewrite Er in Hok|]. by apply (I2 b).
Qed.

(** A dial reaches the peer if any address does.  It only ever connects to the
    peer's own host or addresses, at most sixteen and each once; if one of them
    accepts within the budget, and [set_nodelay] does not fail, the dial succeeds,
    however many of the others, the preferred one included, fail or hang. *)
Theorem dial_reaches_any peer budget attempts :
  attempts_ok (connect_candidates peer) attempts →
  length attempts ≤ length (connect_candidates peer) ∧ length (connect_candidates peer) ≤ 16 ∧
  (∀ h, connect_peer peer budget attempts = Ok h → h = dp_host peer ∨ h ∈ dp_addresses peer) ∧
  ((∃ a, a ∈ attempts ∧ is_ok (at_result a) = true ∧ (at_time a < budget)%Z) → Forall (λ a, at_result a ≠ Ok false) attempts →
     ∃ a, a ∈ attempts ∧ at_result a = Ok true ∧ (at_time a < budget)%Z ∧ connect_peer peer budget attempts = Ok (at_host a)).
Proof.
  intros [Hnd Ham Hs]. destruct (candidates_ok peer) as (Hcd & _ & H16 & Hin).
  assert (length attempts ≤ length (connect_candidates peer)) as Hlen.
  { rewrite <-(length_fmap at_host attempts). apply submseteq_length, NoDup_submseteq; [done|]. intros h (a & -> & Ha)%list_elem_of_fmap. by apply Ham. }
  destruct (race_spec budget (length (connect_candidates peer)) IoNoAddress attempts Hs Hlen) as [R1 R2].
  split; [done|]. split; [done|]. split.
  - intros h Hh. destruct (R1 h Hh) as (a & Ha & <- & _). by apply Hin, Ham.
  - intros (a & Ha & Hok & Hlt) Hf. specialize (R2 a Ha Hok Hlt Hf). unfold connect_peer, connect_hosts.
    destruct (race _ _ _ _) as [h|e] eqn:Er; [|done]. destruct (R1 h eq_refl) as (b & Hb & <- & Hr & Ht). by exists b.
Qed.

Definition wit_dial_peer : DiscoveredPeer :=
  {| dp_machine_id := "b"; dp_display_name := "b"; dp_host := "10.0.0.9"; dp_addresses := ["10.0.0.9"; "192.168.0.5"; "fd00::5"];
     dp_service_port := 24850; dp_core_port := 0; dp_sync_port := 24851; dp_audio_port := 0; dp_fingerprint := "";
     dp_protocol_version := 1; dp_config_head := "" |}%string.
Definition wit_attempts : list DialAttempt :=
  [{| at_time := 3; at_host := "fd00::5"; at_result := Err "no route" |}; {| at_time := 20; at_host := "192.168.0.5"; at_result := Ok true |}]%string%Z.

(** The preferred address hangs, another has no route, the third accepts. *)
Example dial_reaches_any_witness : ∃ h, connect_peer wit_dial_peer 1000 wit_attempts = Ok h ∧ (h = "10.0.0.9" ∨ h ∈ ["10.0.0.9"; "192.168.0.5"; "fd00::5"])%string.
Proof.
  destruct (dial_reaches_any wit_dial_peer 1000 wit_attempts) as (_ & _ & Hpeer & Hreach).
  - split.
    + apply (bool_decide_unpack _). vm_compute. exact I.
    + apply Forall_forall, (bool_decide_unpack _). vm_compute. exact I.
    + repeat constructor; cbn; lia.
  - destruct Hreach as (a & _ & _ & _ & Ha); [|by repeat constructor|].
    + exists {| at_time := 20; at_host := "192.168.0.5"; at_result := Ok true |}. split_and!; [|done|done]. by right; left.
    + exists (at_host a). split; [exact Ha|]. by apply Hpeer.
Defined.
