(* ===== verification/Dashboard.v ===== *)
(** * What the window shows and lets edit ([crates/synbad-gui/src/app/views.rs])

    The dashboard's summaries (the hero line, the cards, the chips of the top
    bar) as functions of the window's state, and the edits of the settings tab.
    Layout and painting belong to another package. *)

From Stdlib Require Import Ascii ZArith Lia.
From S2P Require Import Prelude Config IpcTypes LogParse GuiApp.

Inductive Colour := Gray | LightRed | Yellow | LightYellow | LightGreen | LightBlue.
#[export] Instance Colour_eq_dec : EqDecision Colour.
Proof. solve_decision. Defined.

(** [{:?}] of an exit code. *)
Definition debug_exit (code : option Z) : string := match code with Some c => "Some(" +:+ pretty c +:+ ")" | None => "None" end.

(** ** The hero line *)

Record HealthSummary := { hs_icon : string; hs_colour : Colour; hs_headline : string; hs_detail : option string }.

Definition dot (colour : Colour) (headline : string) (detail : option string) : HealthSummary :=
  {| hs_icon := "●"; hs_colour := colour; hs_headline := headline; hs_detail := detail |}.

(** [None]: the [unreachable!] of the last match. *)
Definition overall_health (a : App) : option HealthSummary :=
  if negb (ga_connected a) then
    Some (if negb (ga_daemon_wanted a)
          then dot Gray "Not started" (Some "Click Start to launch synbadd and begin sharing.")
          else dot LightRed "Daemon offline" (Some "Synbad is trying to reconnect — the rest of the UI will catch up once it's reachable."))
  else
  match ga_state a with
  | Reconnecting attempt next_retry_secs =>
    Some (dot Yellow "Reconnecting to server"
      (Some ("Can't reach the server yet — retrying in " +:+ pretty next_retry_secs +:+ "s (attempt " +:+ pretty attempt
             +:+ "). This recovers on its own once the server is back.")))
  | Crashed exit_code =>
    Some (dot LightRed "Core unavailable; retrying"
      (Some ("Last exit code: " +:+ debug_exit exit_code +:+ ". Recovery is automatic; see the log for details or click Stop to cancel.")))
  | st =>
    match ga_audio_last_error a with
    | Some err => Some {| hs_icon := "⚠"; hs_colour := LightYellow; hs_headline := "Audio bridge degraded"; hs_detail := Some err |}
    | None =>
      match st with
      | Starting => Some (dot Yellow "Core starting…" None)
      | Stopped => Some (dot Gray "Idle" (Some "Click Start to begin sharing input."))
      | Running _ => Some (dot LightGreen "Everything's working" None)
      | Reconnecting _ _ | Crashed _ => None
      end
    end
  end.

(** ** The top bar *)

Definition state_chip (s : DaemonState) (connected : bool) : Colour * string :=
  if negb connected then (Gray, "daemon offline"%string) else
  match s with
  | Stopped => (Gray, "stopped"%string)
  | Starting => (Yellow, "starting"%string)
  | Running pid => (LightGreen, "running (pid " +:+ pretty pid +:+ ")")
  | Reconnecting attempt next_retry_secs => (Yellow, "reconnecting (attempt " +:+ pretty attempt +:+ ", " +:+ pretty next_retry_secs +:+ "s)")
  | Crashed exit_code => (LightRed, "retrying (exit " +:+ debug_exit exit_code +:+ ")")
  end.

(** The message of the last sync has expired by [frame]'s end if it is old. *)
Definition sync_chip (a : App) : option (Colour * string) :=
  match map_to_list (ga_active_syncs a) with
  | [(id, _)] => Some (LightBlue, "syncing with " +:+ peer_label id a)
  | _ :: _ as l => Some (LightBlue, "syncing " +:+ pretty (Z.of_nat (length l)) +:+ " peers")
  | [] => (λ s, (if sy_ok s then LightGreen else LightRed, sy_message s)) <$> ga_last_sync_status a
  end.

(** ** The cards: their lines, with a colour where they have one *)

Definition Line : Type := option Colour * string.
Definition plain (s : string) : Line := (None, s).
Definition coloured (c : Colour) (s : string) : Line := (Some c, s).

Definition connection_card (a : App) : list Line :=
  [if ga_connected a then coloured LightGreen "Daemon connected"
   else if ga_daemon_wanted a then coloured LightRed "Daemon offline" else coloured Gray "Daemon not started";
   match ga_state a with
   | Running pid => coloured LightGreen ("Core running (pid " +:+ pretty pid +:+ ")")
   | Starting => coloured Yellow "Core starting…"
   | Stopped => coloured Gray "Core stopped"
   | Reconnecting attempt next => coloured Yellow ("Reconnecting to server… (attempt " +:+ pretty attempt +:+ ", retry in " +:+ pretty next +:+ "s)")
   | Crashed code => coloured LightRed ("Core unavailable; retrying (exit " +:+ debug_exit code +:+ ")")
   end] ++ option_list (coloured LightRed <$> ga_last_error a).

Definition sharing_card (a : App) : list Line :=
  let linked := size (ga_connected_peers a) in
  [plain match cfg_role (ga_config a) with
         | Server => "Server (this machine drives input)" | Client => "Client (driven by another machine)" end]
  ++ option_list ((λ s, plain ("Active screen: " +:+ s)) <$> ga_active_screen a)
  ++ [plain (pretty (Z.of_nat linked) +:+ " " +:+ (if decide (linked = 1) then "peer" else "peers") +:+ " linked")].

(** Paired machines, those of them on the LAN, and strangers on the LAN. *)
Definition paired (a : App) : nat := size (ga_trusted_peers a).
Definition online (a : App) : nat := size (dom (ga_trusted_peers a) ∩ dom (ga_discovered_peers a)).
Definition unverified (a : App) : nat := size (dom (ga_discovered_peers a) ∖ dom (ga_trusted_peers a)).

Definition peers_card (a : App) : list Line :=
  plain (pretty (Z.of_nat (paired a)) +:+ " paired (" +:+ pretty (Z.of_nat (online a)) +:+ " online)") ::
  if decide (0 < unverified a) then [coloured LightYellow (pretty (Z.of_nat (unverified a)) +:+ " unpaired on LAN — Peers tab to pair")]
  else if decide (paired a = 0) then [plain "No peers yet. Start synbad on another machine."] else [].

Definition streaming (a : App) : nat :=
  length (List.filter (λ s, as_sending_to_peer s || as_receiving_from_peer s) (map snd (map_to_list (ga_audio_peer_status a)))).

Definition audio_card (a : App) : list Line :=
  if negb (aud_enabled (cfg_audio (ga_config a))) then [plain "Off"; plain "Enable in the Audio tab to stream mic / system audio."] else
  (if decide (streaming a = 0) then plain "On — no active streams"
   else coloured LightGreen (pretty (Z.of_nat (streaming a)) +:+ " stream" +:+ (if decide (streaming a = 1) then "" else "s") +:+ " up"))
  :: option_list ((λ e, coloured LightRed ("⚠ " +:+ e)) <$> ga_audio_last_error a).

Definition sync_card (a : App) : list Line :=
  let n := size (ga_active_syncs a) in
  if decide (n ≠ 0) then [coloured LightBlue ("Syncing with " +:+ pretty (Z.of_nat n) +:+ " peer" +:+ (if decide (n = 1) then "" else "s") +:+ "…")] else
  match ga_last_sync_status a with
  | Some s => [coloured (if sy_ok s then LightGreen else LightRed) (sy_message s)]
  | None => [plain (if decide (paired a = 0) then "Pair a peer to start syncing layout edits." else "Idle — layout is in sync.")]
  end.

(** ** The settings tab *)

Inductive SettingsEdit :=
| SeName (name : string)
| SeClipboard (on : bool)
| SeRole (role : NodeRole)
| SePort (typed : Z)
| SeServerAddress (typed : string)          (* greyed out on a server *)
| SeCore (typed : string).

Definition opt_path (s : string) : option string :=
  let t := string_of (trim (bytes_of s)) in if decide (t = ""%string) then None else Some t.

Definition settings_edit (e : SettingsEdit) (c : Config) : Config :=
  match e with
  | SeName name => c <| cfg_server_name := name |>
  | SeClipboard on => c <| cfg_clipboard_sharing := on |>
  | SeRole role => c <| cfg_role := role |>
  | SePort typed => c <| cfg_port := Z.max 1 (Z.min 65535 typed) |>
  | SeServerAddress typed => c <| cfg_server_address := if decide (typed = ""%string) then None else Some typed |>
  | SeCore typed => c <| cfg_binaries := {| bin_core := opt_path typed |} |>
  end.

(** The widget takes the edit. *)
Definition edit_enabled (e : SettingsEdit) (c : Config) : bool :=
  match e with SeServerAddress _ => bool_decide (cfg_role c = Client) | _ => true end.

(** ** The hero line is honest *)

Definition all_well (a : App) : Prop := ga_connected a = true ∧ (∃ pid, ga_state a = Running pid) ∧ ga_audio_last_error a = None.

(** Where the hero line sees more than the chip of the top bar: a daemon that is
    wanted but unreachable, and an audio error beside a Core that is not failing. *)
Definition hero_alone (a : App) : Prop :=
  (ga_connected a = false ∧ ga_daemon_wanted a = true) ∨
  (ga_connected a = true ∧ is_Some (ga_audio_last_error a) ∧
   match ga_state a with Reconnecting _ _ | Crashed _ => False | _ => True end).

(** The hero line can be trusted.  It exists for every state (its [unreachable!]
    is never reached); it is green, and says that everything works, exactly when
    the daemon is connected, the Core runs and no audio error is shown; and it
    differs in colour from the chip of the top bar exactly when it knows of a
    daemon that should be up, or of an audio error. *)
Theorem hero_honest a :
  ∃ h, overall_health a = Some h ∧
    (hs_colour h = LightGreen ↔ all_well a) ∧ (hs_headline h = "Everything's working"%string ↔ all_well a) ∧
    (hs_colour h = (state_chip (ga_state a) (ga_connected a)).1 ↔ ¬ hero_alone a).
Proof.
  unfold overall_health, all_well, hero_alone, state_chip.
  destruct (ga_connected a) eqn:Ec; cbn [negb]; [|destruct (ga_daemon_wanted a) eqn:Ew; cbn [negb]; eexists; (split; [reflexivity|]); cbn; naive_solver].
  destruct (ga_state a) as [| |pid|n s|code] eqn:Es; try (destruct (ga_audio_last_error a) as [err|] eqn:Ee);
    (eexists; split; [reflexivity|]); cbn; split_and!; naive_solver.
Qed.

(** ** Which settings the daemon will take *)

(** The settings tab cannot wreck a config unnoticed, and cannot rename the
    machine.  Whatever is typed, the port stays one a listener can have; an edit of
    a valid config is refused by validation exactly when it names this machine
    after no screen, makes it a client without a server's address, or empties that
    address. *)
Theorem settings_refused e c :
  validate c = Ok tt → edit_enabled e c = true →
  ((1 ≤ cfg_port c ≤ 65535)%Z → (1 ≤ cfg_port (settings_edit e c) ≤ 65535)%Z) ∧
  (validate (settings_edit e c) = Ok tt ↔
   match e with
   | SeName name => ∃ s, s ∈ cfg_screens c ∧ scr_name s = name
   | SeRole role => role = Client → is_Some (cfg_server_address c)
   | SeServerAddress typed => typed ≠ ""%string
   | SeClipboard _ | SePort _ | SeCore _ => True
   end).
Proof.
  intros Hv%validate_ok_valid He. split; [destruct e; cbn; lia|]. rewrite validate_ok_valid. destruct Hv as (Hn & Hl & Hr).
  unfold valid_config, screen_names in *. destruct e as [name|on|role|typed|typed|typed]; cbn -[cfg_links] in *; try (split; [done|by intros _]).
  - rewrite list_elem_of_fmap. split; [|intros (s & Hs & <-); split; [|done]; by exists s].
    intros ((s & -> & Hs) & _). by exists s.
  - split; [by intros (_ & _ & ?)|by intros].
  - apply bool_decide_eq_true in He. case_decide; (split; [|done]).
    + intros (_ & _ & Ha). by destruct (Ha He).
    + done.
Qed.

(** Renaming a machine takes a screen of the new name first. *)
Example settings_refused_witness :
  validate (settings_edit (SeName "renamed") sample_config) ≠ Ok tt ∧ validate (settings_edit (SeName "beta") sample_config) = Ok tt ∧
  cfg_port (settings_edit (SePort 70000) sample_config) = 65535%Z.
Proof.
  destruct (settings_refused (SeName "renamed") sample_config) as [_ Hn]; [vm_compute; reflexivity|reflexivity|].
  destruct (settings_refused (SeName "beta") sample_config) as [_ Hb]; [vm_compute; reflexivity|reflexivity|].
  split_and!; [rewrite Hn|apply Hb|reflexivity].
  - intros (s & Hs & Hr). repeat (apply elem_of_cons in Hs as [->|Hs]; [discriminate Hr|]). by apply not_elem_of_nil in Hs.
  - exists (mk_screen "beta"). split; [|reflexivity]. by right; left.
Defined.
