(* ===== verification/GuiApply.v ===== *)
(** * Apply, from the button to the disk

    Composition of the window's buttons ([app/mod.rs]), its command dispatcher
    ([ipc_thread.rs], [client.rs]) and the supervisor's [SetConfig] handler
    ([supervisor/requests.rs], [config_edit.rs]). *)

From Stdlib Require Import ZArith Lia.
From S2P Require Import Prelude Primitives Config Versioned IpcTypes LogParse Store CoreProc SupState NetSync Supervisor IpcWire GuiApp GuiIpc.

Section apply.
Context `{JsonSharedOps, Sha256Ops, HexOps, TomlOps, JsonOps SideCar, JsonOps TrustFile}.
Context (our_id our_fingerprint : string) (config_path versions_path : PathPair).
Context (show_config_error : ConfigError → string) (show_trust_error : TrustError → string).
Context (show_error : ClientError → string).

(** One command of the window carried out by the daemon, and what the window
    is told of it. *)
Definition carry_out (renv : REnv) (cmd : Cmd) (s : Sup) : list Update * Sup :=
  let '(resp, s') := dispatch our_id our_fingerprint config_path versions_path show_config_error show_trust_error renv (cmd_request cmd) s in
  (dispatch_command show_error (Ok tt) (λ _, client_request (Ok tt) (Ok (MsgResponse resp))) cmd, s').

(** C20: What Apply promises.  The click sends the edit buffer, as the window shows it,
    and the buffer counts as saved; once the daemon has answered and the window
    has drained the answer, either the daemon runs on exactly that config, the
    file on disk loads back as it, and the Core was restarted if and only if sharing
    is on and its inputs changed; or the window shows the error and the daemon, its
    versions and its file are as before.  The window shows its own edits either way. *)
Theorem apply_takes_effect `{!TomlLaws, !JsonLaws SideCar} renv now a s :
  pp_ok config_path → pp_ok versions_path →
  pp_path config_path ≠ pp_path versions_path → pp_path config_path ≠ pp_tmp versions_path →
  let c := ga_config a in
  config_eqb c c = true → ga_connected a = true → ga_dirty a = true →
  let a1 := ui_exec UiApply a in
  let '(us, s') := carry_out renv (CmdSetConfig c) s in
  let a2 := drain_ipc now us a1 in
  ga_fx a1 = ga_fx a ++ [FxCmd (CmdSetConfig c)] ∧ ga_config a2 = c ∧ ga_dirty a2 = false ∧ ga_pending_remote_config a2 = None ∧
  ((us = [] ∧ ga_last_error a2 = ga_last_error a ∧ validate c = Ok tt ∧ sv_config s' = c ∧ mirrors s' ∧
    (config_load (pp_path config_path) (healthy (sv_fs s'))).1 = Ok (Some c) ∧
    sv_core s' = (if co_desired_running (sv_core s) && core_inputs_differ (sv_config s) c
                  then restart_core (se_core (re_env renv)) c (sv_core s) else sv_core s)) ∨
   (is_Some (ga_last_error a2) ∧
    sv_config s' = sv_config s ∧ sv_versioned s' = sv_versioned s ∧ sv_core s' = sv_core s ∧
    content (pp_path config_path) (sv_fs s') = content (pp_path config_path) (sv_fs s))).
Proof.
  intros Hp1 Hp2 Hd1 Hd2 c Hself Hcon Hdirty. unfold carry_out. cbn [cmd_request dispatch].
  destruct (set_config our_id config_path versions_path show_config_error (re_env renv) c s) as [r s'] eqn:E.
  pose proof (set_config_outcome our_id config_path versions_path show_config_error (re_env renv) c s r s' Hp1 Hp2 Hself Hd1 Hd2 E) as Hout.
  cbv zeta. cbn [ui_exec]. rewrite Hcon, Hdirty. cbn [andb]. destruct r as [[]|e]; cbn [is_ok] in Hout.
  - destruct Hout as (Ho1 & Ho2 & Ho3 & Ho4 & Ho5). split_and!; try done. left. by split_and!.
  - destruct Hout as (Ho1 & Ho2 & Ho3 & Ho4). split_and!; try done. right. by split_and!.
Qed.

(** A refused Apply leaves the edits unprotected: they count as saved, so the next
    config the daemon sends replaces them. *)
Lemma refused_apply_forgets a now c' e :
  ga_connected a = true → ga_dirty a = true →
  ga_config (drain_ipc now [UpError e; UpConfig c'] (ui_exec UiApply a)) = c'.
Proof. intros Hcon Hdirty. cbn [ui_exec]. by rewrite Hcon, Hdirty. Qed.
End apply.

Section witnesses.
#[local] Existing Instances toy_json_shared toy_sha toy_hex toy_toml toy_toml_laws toy_json_sidecar toy_json_sidecar_laws toy_json_trust.

Definition wit_editing : App :=
  ui_exec (UiEdit (λ _, sample_config)) (drain_ipc 0 [UpConnected; UpConfig default_Config] (app_new false [] true)).

Example apply_takes_effect_witness :
  let '(us, s') := carry_out "a" "ff" wit_config_path wit_versions_path (λ _, "bad config"%string) (λ _, "bad trust"%string) (λ _, "error"%string)
                     wit_renv (CmdSetConfig sample_config) wit_boot in
  us = [] ∧ sv_config s' = sample_config ∧ ga_dirty wit_editing = true.
Proof.
  pose proof (apply_takes_effect "a" "ff" wit_config_path wit_versions_path (λ _, "bad config"%string) (λ _, "bad trust"%string) (λ _, "error"%string)
    wit_renv 0 wit_editing wit_boot ltac:(discriminate) ltac:(discriminate) ltac:(discriminate) ltac:(discriminate)
    ltac:(vm_compute; reflexivity) ltac:(reflexivity) ltac:(reflexivity)) as Ha.
  change (ga_config wit_editing) with sample_config in Ha.
  assert ((carry_out "a" "ff" wit_config_path wit_versions_path (λ _, "bad config"%string) (λ _, "bad trust"%string) (λ _, "error"%string)
             wit_renv (CmdSetConfig sample_config) wit_boot).1 = []) as Hus by (vm_compute; reflexivity).
  destruct (carry_out _ _ _ _ _ _ _ _ _ _) as [us s']. cbn [fst] in Hus. subst us.
  destruct Ha as (_ & _ & _ & _ & [(_ & _ & _ & Hc & _)|[[e He] _]]); [|discriminate He]. split_and!; [reflexivity|exact Hc|reflexivity].
Defined.
End witnesses.
