(* ===== verification/AudioTab.v ===== *)
(** * The audio tab ([crates/synbad-audio/src/devices.rs], [crates/synbad-gui/src/app/views.rs])

    The device lists the daemon enumerates, what the tab's combo boxes make of them,
    the edits of the tab, and one edit's way to the disk and the bridge. *)

From Stdlib Require Import Ascii ZArith Lia.
From S2P Require Import Prelude Primitives Config Versioned IpcTypes LogParse Store CoreProc SupState NetSync Supervisor AudioDriver FileOps Resolver IpcWire GuiApp GuiIpc GuiApply.

(** ** Devices *)

(** What [cpal] says of a device: its name, its default rate and channels. *)
Record CpalDevice := { cd_name : result string string; cd_config : result string (Z * Z) }.

Definition looks_like_loopback (name : string) : bool :=
  let lower := map ascii_lower (bytes_of name) in
  ends_with (bytes_of ".monitor") lower
  || contains "monitor of " (string_of lower)
  || contains "loopback" (string_of lower)
  || contains "blackhole" (string_of lower)
  || contains "soundflower" (string_of lower).

(** A device that will not give its name or its format is left out. *)
Definition list_devices (loopback : string → bool) (default_device : option CpalDevice) (devices : result string (list CpalDevice)) :
  result AudioError (list AudioDeviceInfo) :=
  let default_name := match default_device with Some d => match cd_name d with Ok n => n | Err _ => ""%string end | None => ""%string end in
  match devices with
  | Err e => Err (AuDevice e)
  | Ok ds => Ok (omap (λ d, match cd_name d, cd_config d with
                            | Ok name, Ok (rate, channels) =>
                              Some {| ad_name := name; ad_is_default := bool_decide (name = default_name); ad_native_sample_rate := rate;
                                      ad_channels := channels; ad_is_loopback := loopback name |}
                            | _, _ => None end) ds)
  end.

Definition list_input_devices : option CpalDevice → result string (list CpalDevice) → result AudioError (list AudioDeviceInfo) :=
  list_devices looks_like_loopback.
Definition list_output_devices : option CpalDevice → result string (list CpalDevice) → result AudioError (list AudioDeviceInfo) :=
  list_devices (λ _, false).

Example loopback_detection :
  map looks_like_loopback
    ["alsa_output.pci-0000_00_1f.3.analog-stereo.monitor"; "Monitor of Built-in Audio"; "Stereo Mix (Loopback)"; "BlackHole 2ch";
     "Soundflower (2ch)"; "Built-in Microphone"; "MacBook Pro Microphone"]%string = [true; true; true; true; true; false; false].
Proof. vm_compute. reflexivity. Qed.

(** ** The tab *)

(** [device_combo]: the entries, as what choosing one selects and how it reads. *)
Definition device_combo (devices : list AudioDeviceInfo) : list (option string * string) :=
  (None, "(OS default)"%string) ::
  map (λ d, (Some (ad_name d),
             ad_name d +:+ (if ad_is_loopback d then "  (loopback)" else "") +:+ (if ad_is_default d then "  *" else ""))) devices.

Inductive AudioEdit :=
| AeEnabled (on : bool)
| AeInput (entry : nat)                     (* of its combo box *)
| AeOutput (entry : nat)
| AeInputGain (slider : Z)
| AeOutputGain (slider : Z)
| AePort (typed : Z).

#[export] Instance AudioConfig_eta : Eta AudioConfig := λ r,
  {| aud_enabled := aud_enabled r; aud_input_device := aud_input_device r; aud_output_device := aud_output_device r;
     aud_input_gain := aud_input_gain r; aud_output_gain := aud_output_gain r; aud_per_peer := aud_per_peer r;
     aud_signal_port := aud_signal_port r |}.

(** [None]: there is no such entry, or the widget is greyed out. *)
Definition audio_edit (e : AudioEdit) (a : App) : option AudioConfig :=
  let audio := cfg_audio (ga_config a) in
  let whenever_on (x : option AudioConfig) := if aud_enabled audio then x else None in
  match e with
  | AeEnabled on => Some (audio <| aud_enabled := on |>)
  | AeInput i => whenever_on ((λ d : option string * string, audio <| aud_input_device := d.1 |>) <$> device_combo (ga_audio_input_devices a) !! i)
  | AeOutput i => whenever_on ((λ d : option string * string, audio <| aud_output_device := d.1 |>) <$> device_combo (ga_audio_output_devices a) !! i)
  | AeInputGain slider => whenever_on (Some (audio <| aud_input_gain := slider |>))
  | AeOutputGain slider => whenever_on (Some (audio <| aud_output_gain := slider |>))
  | AePort typed => Some (audio <| aud_signal_port := Z.max 1 (Z.min 65535 typed) |>)
  end.

Definition edit_audio (e : AudioEdit) (a : App) : App :=
  match audio_edit e a with Some audio => ui_exec (UiAudio audio) a | None => a end.

(** ** One edit, from the widget to the disk *)

Section edit.
Context `{JsonSharedOps, Sha256Ops, HexOps, TomlOps, JsonOps SideCar, JsonOps TrustFile}.
Context (our_id our_fingerprint : string) (config_path versions_path : PathPair).
Context (show_config_error : ConfigError → string) (show_trust_error : TrustError → string).
Context (show_error : ClientError → string).

Definition same_run (s s' : Sup) : Prop :=
  sv_config s' = sv_config s ∧ sv_fs s' = sv_fs s ∧ sv_core s' = sv_core s ∧ sv_audio s' = sv_audio s.

Lemma same_run_trans s1 s2 s3 : same_run s1 s2 → same_run s2 s3 → same_run s1 s3.
Proof. unfold same_run. intros (?&?&?&?) (?&?&?&?). split_and!; congruence. Qed.

Lemma same_run_fold {A} (f : Sup → A → Sup) l s : (∀ s x, same_run s (f s x)) → same_run s (fold_left f l s).
Proof. intros Hf. revert s. induction l as [|x l IH]; intros s; [done|]. eapply same_run_trans; [apply Hf|apply IH]. Qed.

Lemma reconcile_audio_sessions_same env s : same_run s (reconcile_audio_sessions our_id env s).
Proof.
  unfold reconcile_audio_sessions. destruct (negb _); [done|]. apply same_run_fold. intros s0 p. unfold dial_audio_one. by repeat case_match.
Qed.

Lemma reconcile_audio_subsystem_same env s :
  let s' := reconcile_audio_subsystem our_id env s in sv_config s' = sv_config s ∧ sv_fs s' = sv_fs s ∧ sv_core s' = sv_core s.
Proof.
  cbv zeta. unfold reconcile_audio_subsystem. destruct (_ && _).
  - unfold ensure_audio_subsystem. destruct (sv_audio s); [done|]. destruct (negb _); [done|].
    match goal with |- context [reconcile_audio_sessions our_id env ?x] => destruct (reconcile_audio_sessions_same env x) as (-> & -> & -> & _) end.
    by destruct (se_can_bind env _).
  - destruct (sv_audio s) eqn:Ha; [|done]. unfold teardown_audio_subsystem. cbn. by rewrite Ha.
Qed.

(** The Core does not consume the audio section. *)
Lemma audio_restarts_no_core c audio : core_inputs_differ c (set_cfg_audio audio c) = false.
Proof.
  unfold core_inputs_differ. apply negb_false_iff. change (core_view (set_cfg_audio audio c)) with (core_view c).
  rewrite config_eqb_refl. by vm_compute.
Qed.

(** C21: What an edit of the audio tab promises.  It is sent at once, and is shown; the
    unsaved edits of the other tabs stay unsaved and are not sent with it.  Once the
    daemon has answered, either it runs on its own config with the new audio
    section, the file loads back as that, the Core was left alone, and the audio
    bridge is up, if it was toggled, exactly when sharing and audio are both on; or
    the window shows the error and the daemon and its file are as before.  The port
    is always one a listener can have. *)
Theorem audio_edit_takes_effect `{!TomlLaws, !JsonLaws SideCar} renv now e a audio s :
  pp_ok config_path → pp_ok versions_path →
  pp_path config_path ≠ pp_path versions_path → pp_path config_path ≠ pp_tmp versions_path →
  audio_edit e a = Some audio →
  let c := set_cfg_audio audio (sv_config s) in
  config_eqb c c = true →
  let a1 := edit_audio e a in
  let '(us, s') := carry_out our_id our_fingerprint config_path versions_path show_config_error show_trust_error show_error renv
                     (CmdSetAudioConfig audio) s in
  let a2 := drain_ipc now us a1 in
  (ga_fx a1 = ga_fx a ++ [FxCmd (CmdSetAudioConfig audio)] ∧ ga_config a2 = set_cfg_audio audio (ga_config a) ∧
   ga_dirty a2 = ga_dirty a ∧ ga_pending_remote_config a2 = ga_pending_remote_config a) ∧
  ((1 ≤ aud_signal_port (cfg_audio (ga_config a)) ≤ 65535)%Z → (1 ≤ aud_signal_port audio ≤ 65535)%Z) ∧
  ((us = [] ∧ sv_config s' = c ∧ (config_load (pp_path config_path) (healthy (sv_fs s'))).1 = Ok (Some c) ∧ sv_core s' = sv_core s ∧
    (aud_enabled (cfg_audio (sv_config s)) ≠ aud_enabled audio → sv_audio s' = co_desired_running (sv_core s) && aud_enabled audio)) ∨
   (is_Some (ga_last_error a2) ∧ sv_config s' = sv_config s ∧ sv_versioned s' = sv_versioned s ∧ sv_core s' = sv_core s ∧
    content (pp_path config_path) (sv_fs s') = content (pp_path config_path) (sv_fs s))).
Proof.
  intros Hp1 Hp2 Hd1 Hd2 He c Hself. unfold carry_out. cbn [cmd_request dispatch]. unfold update_audio_config.
  destruct (set_config our_id config_path versions_path show_config_error (re_env renv) (set_cfg_audio audio (sv_config s)) s) as [r s1] eqn:E.
  pose proof (set_config_outcome our_id config_path versions_path show_config_error (re_env renv) c s r s1 Hp1 Hp2 Hself Hd1 Hd2 E) as Hout.
  assert ((1 ≤ aud_signal_port (cfg_audio (ga_config a)) ≤ 65535)%Z → (1 ≤ aud_signal_port audio ≤ 65535)%Z) as Hport.
  { unfold audio_edit in He. destruct e; cbn in He; try (destruct (aud_enabled _); [|done]); try (destruct (_ !! _); [|done]);
      simplify_eq/=; lia. }
  unfold edit_audio. rewrite He. destruct r as [[]|msg]; cbn [is_ok] in Hout.
  - destruct Hout as (_ & Ho2 & _ & Ho4 & Ho5). unfold c in Ho5. rewrite audio_restarts_no_core, andb_false_r in Ho5.
    cbv zeta. set (s2 := if negb _ then _ else s1). set (s3 := if sv_audio s2 then _ else s2).
    match goal with |- context [reconcile_audio_sessions our_id (re_env renv) ?x] => set (s4 := x) end.
    assert (same_run s2 (reconcile_audio_sessions our_id (re_env renv) s4)) as (Hr1 & Hr2 & Hr3 & Hr4).
    { eapply same_run_trans; [|apply reconcile_audio_sessions_same]. apply (same_run_trans _ s3); [subst s3; by destruct (sv_audio s2)|].
      subst s4. destruct (_ && _); [by apply same_run_fold|done]. }
    assert (sv_config s2 = c ∧ sv_fs s2 = sv_fs s1 ∧ sv_core s2 = sv_core s) as (Hq1 & Hq2 & Hq3).
    { subst s2. destruct (negb _); [|done]. destruct (reconcile_audio_subsystem_same (re_env renv) s1) as (-> & -> & ->). done. }
    split_and!; try done. left. rewrite Hr1, Hr2, Hr3, Hr4, Hq1, Hq2, Hq3. split_and!; try done.
    intros Hne. subst s2. destruct (Bool.eqb _ _) eqn:Eb; [exfalso; apply Hne; by apply Bool.eqb_prop|]. cbn [negb].
    destruct (reconcile_audio_subsystem_services our_id (re_env renv) s1) as [_ ->]. by rewrite Ho5, Ho2.
  - destruct Hout as (Ho1 & Ho2 & Ho3 & Ho4). split_and!; try done. right. by split_and!.
Qed.
End edit.

(** ** A concrete edit

    Audio is switched on while a layout edit is unsaved. *)

Section witnesses.
#[local] Existing Instances toy_json_shared toy_sha toy_hex toy_json_sidecar toy_json_sidecar_laws toy_json_trust.

Definition wit_audio_on : AudioConfig := default_AudioConfig <| aud_enabled := true |>.
Definition wit_audio_config : Config := set_cfg_audio wit_audio_on (sv_config wit_boot).

(** A serialiser for the one config the daemon is to save. *)
#[local] Instance tab_toml : TomlOps :=
  {| toml_to_string_pretty c := if decide (c = wit_audio_config) then Some "audio"%string else None;
     toml_from_str s := if decide (s = "audio"%string) then Some wit_audio_config else None |}.
#[local] Instance tab_toml_laws : TomlLaws.
Proof.
  split; unfold toml_to_string_pretty, toml_from_str, tab_toml; generalize wit_audio_config; intros w c s; case_decide as Hc; try done.
  - by intros [= <-].
  - intros _ [= <-]. by subst.
Qed.

Definition wit_tab : App := drain_ipc 0 [UpConnected] (app_new false [] true <| ga_dirty := true |>).

Example audio_edit_takes_effect_witness :
  let '(us, s') := carry_out "a" "ff" wit_config_path wit_versions_path (λ _, "bad config"%string) (λ _, "bad trust"%string) (λ _, "error"%string)
                     wit_renv (CmdSetAudioConfig wit_audio_on) wit_boot in
  us = [] ∧ sv_config s' = wit_audio_config ∧ sv_core s' = sv_core wit_boot ∧ ga_dirty (edit_audio (AeEnabled true) wit_tab) = true.
Proof.
  pose proof (audio_edit_takes_effect "a" "ff" wit_config_path wit_versions_path (λ _, "bad config"%string) (λ _, "bad trust"%string) (λ _, "error"%string)
    wit_renv 0 (AeEnabled true) wit_tab wit_audio_on wit_boot ltac:(discriminate) ltac:(discriminate) ltac:(discriminate) ltac:(discriminate)
    ltac:(vm_compute; reflexivity) ltac:(vm_compute; reflexivity)) as Ha. cbv zeta in Ha.
  assert ((carry_out "a" "ff" wit_config_path wit_versions_path (λ _, "bad config"%string) (λ _, "bad trust"%string) (λ _, "error"%string)
             wit_renv (CmdSetAudioConfig wit_audio_on) wit_boot).1 = []) as Hus by (vm_compute; reflexivity).
  destruct (carry_out _ _ _ _ _ _ _ _ _ _) as [us s']. cbn [fst] in Hus. subst us.
  destruct Ha as (_ & _ & [(_ & Hc & _ & Hk & _)|[[e He] _]]); [|discriminate He]. split_and!; [reflexivity|exact Hc|exact Hk|reflexivity].
Defined.
End witnesses.
