(* ===== verification/Bundle.v ===== *)
(** * Replacing a complete app ([crates/synbad-update/src/bundle.rs])

    On macOS an update replaces the whole application bundle: the new tree is
    copied beside the installed one, which is renamed away, and the copy is renamed
    into place.  Any system call may fail and the process may die between two of
    them: a run is its outcome and every state the directory was in. *)

From Stdlib Require Import Ascii ZArith Lia.
From S2P Require Import Prelude Config Cipher LogParse.

(** A file tree, with permissions. *)
Inductive Tree :=
| File (content : bytes) (mode : Z)
| Symlink (target : string)
| Dir (mode : Z) (entries : list (string * Tree)).

(** Whether each call works, in order; with the list used up they all do. *)
Definition next_call (faults : list bool) : bool * list bool :=
  match faults with [] => (true, []) | ok :: faults => (ok, faults) end.

(** A new directory's own mode, until [set_permissions]. *)
Definition DIR_MODE : Z := 493.

(** [copy_tree]: whether it succeeded, every state of the destination (the last one
    stays), and the calls not used.  A copy that fails may leave an empty file. *)
Fixpoint copy_tree (source : Tree) (faults : list bool) : bool * list Tree * list bool :=
  match source with
  | File content mode =>
    let '(ok, faults) := next_call faults in
    if ok then (true, [File content mode], faults) else (false, [File [] mode], faults)
  | Symlink target =>
    let '(ok, faults) := next_call faults in
    if ok then (true, [Symlink target], faults) else (false, [], faults)
  | Dir mode entries =>
    let '(ok, faults) := next_call faults in
    if negb ok then (false, [], faults) else
    let '(ok, copied, states, faults) :=
      (fix copy_entries (entries copied : list (string * Tree)) (faults : list bool) : bool * list (string * Tree) * list Tree * list bool :=
         match entries with
         | [] => (true, copied, [], faults)
         | (name, t) :: entries =>
           let '(ok, states, faults) := copy_tree t faults in
           let here := map (λ t', Dir DIR_MODE (copied ++ [(name, t')])) states in
           match last states with
           | Some t' =>
             if ok : bool then
               let '(ok, copied, states', faults) := copy_entries entries (copied ++ [(name, t')]) faults in
               (ok, copied, here ++ states', faults)
             else (false, copied ++ [(name, t')], here, faults)
           | None => (false, copied, [], faults)
           end
         end) entries [] faults in
    let states := Dir DIR_MODE [] :: states in
    if negb ok then (false, states, faults) else
    let '(ok, faults) := next_call faults in
    if ok : bool then (true, states ++ [Dir mode copied], faults) else (false, states, faults)
  end.

(** The directory the app is installed in. *)
Notation Parent := (gmap string Tree).

(** [rename] of a directory onto a free name. *)
Definition rename_tree (a b : string) (p : Parent) : option Parent :=
  match p !! a, p !! b with Some t, None => Some (<[b := t]> (delete a p)) | _, _ => None end.

Definition try_rename (a b : string) (p : Parent) (faults : list bool) : option Parent * list bool :=
  let '(ok, faults) := next_call faults in ((if ok then rename_tree a b p else None), faults).

(** [remove_dir_all]: every state of the tree, [None] once it is gone.  It removes the
    entries one by one, stops at the first call that fails, and leaves the rest. *)
Fixpoint remove_tree (t : Tree) (faults : list bool) : list (option Tree) * list bool :=
  match t with
  | File _ _ | Symlink _ => let '(ok, faults) := next_call faults in ([if ok : bool then None else Some t], faults)
  | Dir mode entries =>
    let '(ok, faults) := next_call faults in
    if negb ok then ([Some t], faults) else
    (fix remove_entries (entries : list (string * Tree)) (faults : list bool) : list (option Tree) * list bool :=
       match entries with
       | [] => let '(ok, faults) := next_call faults in ([if ok : bool then None else Some (Dir mode [])], faults)
       | (name, t) :: entries =>
         let '(states, faults) := remove_tree t faults in
         let here := map (λ o, Some (Dir mode (match o with Some t' => (name, t') :: entries | None => entries end))) states in
         match last states with
         | Some None => let '(states', faults) := remove_entries entries faults in (here ++ states', faults)
         | _ => (here, faults)
         end
       end) entries faults
  end.

(** [let _ = remove_dir_all]: the states the directory goes through. *)
Definition remove_all (name : string) (p : Parent) (faults : list bool) : list Parent :=
  match p !! name with
  | Some t => map (λ o, match o with Some t' => <[name := t']> p | None => delete name p end) (remove_tree t faults).1
  | None => []
  end.

Inductive ReplaceError := ReCopy | ReMoveOld | ReMoveNew | ReRestore.

(** [replace]: its outcome and the states the directory was in, oldest first. *)
Definition replace (source : Tree) (dest staging old : string) (faults : list bool) (p : Parent) : result ReplaceError unit * list Parent :=
  let '(ok, states, faults) :=
    match p !! staging with Some _ => (false, [], faults) | None => copy_tree source faults end in   (* [create_dir] *)
  let copies := map (λ t, <[staging := t]> p) states in
  let p1 := default p (last copies) in
  if negb ok then (Err ReCopy, copies ++ remove_all staging p1 faults) else
  match try_rename dest old p1 faults with
  | (None, faults) => (Err ReMoveOld, copies ++ remove_all staging p1 faults)
  | (Some p2, faults) =>
    match try_rename staging dest p2 faults with
    | (None, faults) =>
      match try_rename old dest p2 faults with
      | (None, _) => (Err ReRestore, copies ++ [p2])
      | (Some p3, faults) => (Err ReMoveNew, copies ++ [p2; p3] ++ remove_all staging p3 faults)
      end
    | (Some p3, faults) => (Ok tt, copies ++ [p2; p3] ++ remove_all old p3 faults)
    end
  end.

(** The app's name, and the names [replace] may use beside it: at any instant the
    app is the one installed, the new one, or for a moment missing with the installed
    one kept aside. *)
Definition app_safe (app source : Tree) (dest old : string) (p : Parent) : Prop :=
  p !! dest = Some app ∨ p !! dest = Some source ∨ (p !! dest = None ∧ p !! old = Some app).

(** ** Copying *)

(** The loop over the entries, on its own. *)
Fixpoint copy_entries (entries copied : list (string * Tree)) (faults : list bool) : bool * list (string * Tree) * list Tree * list bool :=
  match entries with
  | [] => (true, copied, [], faults)
  | (name, t) :: entries =>
    let '(ok, states, faults) := copy_tree t faults in
    let here := map (λ t', Dir DIR_MODE (copied ++ [(name, t')])) states in
    match last states with
    | Some t' =>
      if ok : bool then
        let '(ok, copied, states', faults) := copy_entries entries (copied ++ [(name, t')]) faults in
        (ok, copied, here ++ states', faults)
      else (false, copied ++ [(name, t')], here, faults)
    | None => (false, copied, [], faults)
    end
  end.

Lemma copy_dir mode entries faults :
  copy_tree (Dir mode entries) faults =
  let '(ok, faults) := next_call faults in
  if negb ok then (false, [], faults) else
  let '(ok, copied, states, faults) := copy_entries entries [] faults in
  let states := Dir DIR_MODE [] :: states in
  if negb ok then (false, states, faults) else
  let '(ok, faults) := next_call faults in
  if ok : bool then (true, states ++ [Dir mode copied], faults) else (false, states, faults).
Proof. reflexivity. Qed.

(** A copy that succeeds is the source, and one that meets no fault succeeds. *)
Definition copies (t : Tree) : Prop :=
  (∀ faults states faults', copy_tree t faults = (true, states, faults') → last states = Some t) ∧
  ∃ states, copy_tree t [] = (true, states, []).

Lemma entries_copied entries :
  Forall (λ e, copies e.2) entries →
  (∀ copied faults c states faults', copy_entries entries copied faults = (true, c, states, faults') → c = copied ++ entries) ∧
  (∀ copied, ∃ c states, copy_entries entries copied [] = (true, c, states, [])).
Proof.
  induction 1 as [|[name t] entries [Hc (st & Hn)] _ [I1 I2]].
  - split; [intros copied faults c states faults' [= <- _ _]; by rewrite app_nil_r|intros copied; by eexists _, _].
  - cbn [snd] in Hc, Hn. split.
    + intros copied faults c states faults'. cbn [copy_entries]. destruct (copy_tree t faults) as [[ok s] f] eqn:E.
      destruct (last s) as [t'|] eqn:El; [|done]. destruct ok; [|done].
      rewrite (Hc _ _ _ E) in El. injection El as <-. destruct (copy_entries entries _ f) as [[[ok c'] s'] f'] eqn:E'.
      intros [= -> <- _ _]. rewrite (I1 _ _ _ _ _ E'). by rewrite <-app_assoc.
    + intros copied. destruct (I2 (copied ++ [(name, t)])) as (c & s' & E). eexists _, _. cbn [copy_entries]. rewrite Hn. cbv iota beta. rewrite (Hc _ _ _ Hn). cbv iota beta. by rewrite E.
Qed.

Fixpoint copy_tree_copies (t : Tree) {struct t} : copies t.
Proof.
  destruct t as [content mode|target|mode entries].
  - split; [|by eexists]. intros faults states faults'. cbn. destruct (next_call faults) as [[] f]; [|done]. by intros [= <- _].
  - split; [|by eexists]. intros faults states faults'. cbn. destruct (next_call faults) as [[] f]; [|done]. by intros [= <- _].
  - assert (Forall (λ e, copies e.2) entries) as Hall by (induction entries as [|[n t] entries IH]; constructor; [apply copy_tree_copies|apply IH]).
    destruct (entries_copied entries Hall) as [I1 I2]. split.
    + intros faults states faults'. rewrite copy_dir. destruct (next_call faults) as [[] f]; [|done]. cbn [negb].
      destruct (copy_entries entries [] f) as [[[ok c] s] f'] eqn:E. destruct ok; [|done]. cbn [negb].
      destruct (next_call f') as [[] f'']; [|done]. intros [= <- _]. rewrite (I1 _ _ _ _ _ E). apply (last_snoc (Dir mode entries) (_ :: s)).
    + destruct (I2 []) as (c & s & E). rewrite copy_dir. cbn [next_call negb]. rewrite E. by eexists.
Qed.

(** ** Replacing *)

Lemma last_map {A B} (f : A → B) l : last (map f l) = f <$> last l.
Proof. exact (fmap_last f l). Qed.

Lemma next_nil faults ok f : faults = [] → next_call faults = (ok, f) → ok = true ∧ f = [].
Proof. intros ->. by intros [= <- <-]. Qed.

Section replace.
Context (source app : Tree) (dest staging old : string).
Hypothesis names : staging ≠ dest ∧ old ≠ dest ∧ staging ≠ old.

(** A state of the installation directory: only the three names may differ. *)
Record state_of (p q : Parent) : Prop := {
  so_safe : app_safe app source dest old q;
  so_frame : ∀ name, name ≠ dest → name ≠ staging → name ≠ old → q !! name = p !! name
}.

Lemma rename_some a b p q : rename_tree a b p = Some q → ∃ t, p !! a = Some t ∧ p !! b = None ∧ q = <[b := t]> (delete a p).
Proof. unfold rename_tree. destruct (p !! a) as [t|], (p !! b); intros [= <-]; by exists t. Qed.

Lemma try_rename_some a b p faults q f : try_rename a b p faults = (Some q, f) → ∃ t, p !! a = Some t ∧ p !! b = None ∧ q = <[b := t]> (delete a p).
Proof. unfold try_rename. destruct (next_call faults) as [[] f']; [|done]. intros [= E _]. by apply rename_some. Qed.

Lemma remove_all_other name p faults : Forall (λ q, ∀ n, n ≠ name → q !! n = p !! n) (remove_all name p faults).
Proof.
  unfold remove_all. destruct (p !! name) as [t|]; [|constructor]. apply Forall_map, Forall_true. intros [t'|] n Hn.
  - by rewrite lookup_insert_ne.
  - by rewrite lookup_delete_ne.
Qed.

Lemma remove_staging_ok p q faults :
  state_of p q → Forall (λ q', state_of p q' ∧ q' !! dest = q !! dest) (remove_all staging q faults).
Proof.
  intros [Hs Hf]. eapply Forall_impl; [apply remove_all_other|]. cbn. intros q' Hq. destruct names as (N1 & N2 & N3).
  split; [|by apply Hq]. split.
  - unfold app_safe. by rewrite !Hq by done.
  - intros name H1 H2 H3. rewrite Hq by done. by apply Hf.
Qed.

(** The last state, when a removal follows. *)
Lemma last_after (P : Parent → Prop) (d : Parent) l r : P (default d (last l)) → Forall P r → P (default d (last (l ++ r))).
Proof.
  intros Hl Hr. destruct r as [|y r _] using rev_ind; [by rewrite app_nil_r|].
  rewrite app_assoc, last_snoc. rewrite Forall_app, Forall_singleton in Hr. exact (proj2 Hr).
Qed.

Lemma copy_state p t : p !! dest = Some app → state_of p (<[staging := t]> p) ∧ <[staging := t]> p !! dest = Some app.
Proof.
  intros Hp. destruct names as (N1 & N2 & N3). assert (<[staging := t]> p !! dest = Some app) as E by by rewrite lookup_insert_ne.
  split; [|done]. split; [by left|]. intros name _ Hn _. by rewrite lookup_insert_ne.
Qed.

(** The second half: the installed app has been moved aside in [p2]. *)
Lemma swap_in p hist p2 f2 r states :
  Forall (state_of p) hist → p2 !! dest = None → p2 !! old = Some app → p2 !! staging = Some source →
  (∀ name, name ≠ dest → name ≠ staging → name ≠ old → p2 !! name = p !! name) →
  match try_rename staging dest p2 f2 with
  | (None, faults) =>
    match try_rename old dest p2 faults with
    | (None, _) => (Err ReRestore, hist ++ [p2])
    | (Some p3, faults) => (Err ReMoveNew, hist ++ [p2; p3] ++ remove_all staging p3 faults)
    end
  | (Some p3, faults) => (Ok tt, hist ++ [p2; p3] ++ remove_all old p3 faults)
  end = (r, states) →
  Forall (state_of p) states ∧
  (let final := default p (last states) in
   match r with
   | Ok _ => final !! dest = Some source
   | Err ReRestore => final !! dest = None ∧ final !! old = Some app
   | Err _ => final !! dest = Some app
   end) ∧
  (f2 = [] → r = Ok tt).
Proof.
  intros Hhist H2d H2o H2s Hframe. destruct names as (N1 & N2 & N3).
  assert (state_of p p2) as H2 by (split; [right; right|]; done).
  destruct (try_rename staging dest p2 f2) as [[p3|] f3] eqn:E3.
  - intros [= <- <-]. apply try_rename_some in E3 as (t & Ht & _ & ->). rewrite H2s in Ht. injection Ht as <-.
    set (p3 := <[dest := source]> (delete staging p2)).
    assert (∀ q, q !! dest = Some source → (∀ name, name ≠ dest → name ≠ staging → name ≠ old → q !! name = p3 !! name) → state_of p q) as Hnew.
    { intros q Hq Hsame. split; [by right; left|]. intros name Hn1 Hn2 Hn3. rewrite Hsame by done. unfold p3.
      rewrite lookup_insert_ne, lookup_delete_ne by done. by apply Hframe. }
    assert (p3 !! dest = Some source) as H3d by (unfold p3; by rewrite lookup_insert_eq).
    assert (Forall (λ q, state_of p q ∧ q !! dest = Some source) (remove_all old p3 f3)) as H4.
    { eapply Forall_impl; [apply remove_all_other|]. cbn. intros q Hq. assert (q !! dest = Some source) as Hd by by rewrite Hq.
      split; [|done]. apply Hnew; [done|]. intros name _ _ Hn. by apply Hq. }
    cbv zeta. change (p2 :: p3 :: ?X) with ([p2; p3] ++ X). rewrite app_assoc. split_and!; [| |done].
    + rewrite !Forall_app, !Forall_cons, Forall_nil. split_and!; [done|done|by apply Hnew|done|]. eapply Forall_impl; [exact H4|]. by intros q [? _].
    + apply (last_after (λ q, q !! dest = Some source) p); [by rewrite last_app|]. eapply Forall_impl; [exact H4|]. by intros q [_ ?].
  - destruct (try_rename old dest p2 f3) as [[p3|] f4] eqn:E4; intros [= <- <-].
    + apply try_rename_some in E4 as (t & Ht & _ & ->). rewrite H2o in Ht. injection Ht as <-. set (p3 := <[dest := app]> (delete old p2)).
      assert (p3 !! dest = Some app) as H3d by (unfold p3; by rewrite lookup_insert_eq).
      assert (state_of p p3) as H3.
      { split; [by left|]. intros name Hn1 Hn2 Hn3. unfold p3. rewrite lookup_insert_ne, lookup_delete_ne by done. by apply Hframe. }
      pose proof (remove_staging_ok p p3 f4 H3) as H4. cbv zeta. change (p2 :: p3 :: ?X) with ([p2; p3] ++ X). rewrite app_assoc. split_and!.
      * rewrite !Forall_app, !Forall_cons, Forall_nil. split_and!; [done..|]. eapply Forall_impl; [exact H4|]. by intros q [? _].
      * apply (last_after (λ q, q !! dest = Some app) p); [by rewrite last_app|]. eapply Forall_impl; [exact H4|]. intros q [_ ->]. done.
      * intros ->. unfold try_rename, rename_tree in E3. cbn [next_call] in E3. by rewrite H2s, H2d in E3.
    + rewrite last_snoc. cbv zeta; cbn [from_option id]. split_and!; [rewrite Forall_app; by repeat constructor|done|done|].
      intros ->. unfold try_rename, rename_tree in E3. cbn [next_call] in E3. by rewrite H2s, H2d in E3.
Qed.

(** C33: A bundle is replaced whole or not at all.  Whatever call fails and wherever the
    process dies, at every instant the app is the installed one, the new one in full,
    or missing while the installed one is kept aside, and nothing else in the directory
    changes but the two working names; when [replace] succeeds the app is the new
    one; when it fails the app is the installed one, unless putting it back failed
    too, which is what it reports; and with no failing call it succeeds. *)
Theorem bundle_replaced_whole faults p r states :
  p !! dest = Some app → replace source dest staging old faults p = (r, states) →
  Forall (state_of p) states ∧
  (let final := default p (last states) in
   match r with
   | Ok _ => final !! dest = Some source
   | Err ReRestore => final !! dest = None ∧ final !! old = Some app
   | Err _ => final !! dest = Some app
   end) ∧
  (faults = [] → p !! staging = None → p !! old = None → r = Ok tt).
Proof.
  intros Hp. destruct names as (N1 & N2 & N3). unfold replace.
  set (copied := match p !! staging with Some _ => (false, [], faults) | None => copy_tree source faults end).
  assert (∀ sts f, copied = (true, sts, f) → last sts = Some source) as Hcopy.
  { intros sts f. unfold copied. destruct (p !! staging); [done|]. apply copy_tree_copies. }
  assert (faults = [] → p !! staging = None → ∃ sts, copied = (true, sts, [])) as Hgood.
  { intros -> Hn. unfold copied. rewrite Hn. apply copy_tree_copies. }
  destruct copied as [[ok sts] f] eqn:Ec. clear Ec.
  set (hist := map (λ t, <[staging := t]> p) sts).
  assert (Forall (state_of p) hist) as Hhist by (apply Forall_map, Forall_true; intros t; by apply copy_state).
  assert (state_of p (default p (last hist)) ∧ default p (last hist) !! dest = Some app) as [H1 H1d].
  { unfold hist. rewrite last_map. destruct (last sts) as [t|]; [by apply copy_state|]. split; [split; [by left|done]|done]. }
  assert (∀ f', Forall (state_of p) (hist ++ remove_all staging (default p (last hist)) f') ∧
    default p (last (hist ++ remove_all staging (default p (last hist)) f')) !! dest = Some app) as Hcleared.
  { intros f'. pose proof (remove_staging_ok p _ f' H1) as Hr. rewrite H1d in Hr. split.
    - rewrite Forall_app. split; [done|]. eapply Forall_impl; [exact Hr|]. by intros q [? _].
    - apply (last_after (λ q, q !! dest = Some app) p); [done|]. eapply Forall_impl; [exact Hr|]. by intros q [_ ?]. }
  destruct ok; cbn [negb].
  2:{ intros [= <- <-]. destruct (Hcleared f) as [C1 C2]. split_and!; [done|done|]. intros Hf Hn. by destruct (Hgood Hf Hn). }
  specialize (Hcopy _ _ eq_refl). assert (last hist = Some (<[staging := source]> p)) as Hl.
  { unfold hist. by rewrite last_map, Hcopy. }
  rewrite Hl in *. cbv zeta; cbn [from_option id] in *. set (p1 := <[staging := source]> p) in *.
  destruct (try_rename dest old p1 f) as [[p2|] f2] eqn:E2.
  2:{ intros [= <- <-]. destruct (Hcleared f2) as [C1 C2]. split_and!; [done|done|]. intros Hf Hn Hn'. destruct (Hgood Hf Hn) as [sts' [= -> ->]]. unfold try_rename, rename_tree in E2. cbn in E2.
      rewrite H1d in E2. unfold p1 in E2. by rewrite lookup_insert_ne, Hn' in E2 by done. }
  pose proof (try_rename_some _ _ _ _ _ _ E2) as (t & Ht & Ho & ->). rewrite H1d in Ht. injection Ht as <-.
  set (p2 := <[old := app]> (delete dest p1)) in *. intros Hswap. apply (swap_in p) in Hswap as (Hs1 & Hs2 & Hs3).
  - split_and!; [done|done|]. intros Hf Hn Hn'. apply Hs3. destruct (Hgood Hf Hn) as [sts' [= -> ->]]. unfold try_rename in E2. cbn [next_call] in E2. by injection E2.
  - done.
  - unfold p2. by rewrite lookup_insert_ne, lookup_delete_eq.
  - unfold p2. by rewrite lookup_insert_eq.
  - unfold p2, p1. by rewrite lookup_insert_ne, lookup_delete_ne, lookup_insert_eq.
  - intros name Hn1 Hn2 Hn3. unfold p2, p1. by rewrite lookup_insert_ne, lookup_delete_ne, lookup_insert_ne.
Qed.
End replace.

(** ** Finding the app *)

(** [Path::extension] of a file name. *)
Definition extension (name : string) : option string :=
  let b := bytes_of name in
  match find_char "."%char (reverse b) with
  | Some i => if decide (S i = length b) then None else Some (string_of (drop (length b - i) b))
  | None => None
  end.

(** [app_root]: the innermost ancestor with extension [app]; a path is its components,
    innermost first. *)
Fixpoint app_root (path : list string) : option (list string) :=
  match path with
  | [] => None
  | name :: parent => if decide (extension name = Some "app"%string) then Some path else app_root parent
  end.

Definition is_dir (t : Tree) : bool := match t with Dir _ _ => true | _ => false end.

(** [find]: the path of the first directory named [Synbad.app], depth first, when every
    directory can be listed. *)
Fixpoint find (t : Tree) : option (list string) :=
  match t with
  | Dir _ entries =>
    (fix go (entries : list (string * Tree)) : option (list string) :=
       match entries with
       | [] => None
       | (name, t) :: entries =>
         if is_dir t then
           if decide (name = "Synbad.app"%string) then Some [name] else
           match find t with Some path => Some (path ++ [name]) | None => go entries end
         else go entries
       end) entries
  | _ => None
  end.

(** ** A concrete app *)

Definition wit_app (version core : string) : Tree :=
  Dir 493 [("Contents", Dir 493 [("MacOS", Dir 493 [("synbad-gui", File (bytes_of version) 493); ("deskflow-core", File (bytes_of core) 493)]);
                                 ("current", Symlink "MacOS")])]%string%Z.
Definition wit_parent : Parent := {[ "Synbad.app" := wit_app "old" "old-core"; "Other.app" := File [] 420 ]}%string%Z.
Definition wit_replace (faults : list bool) : result ReplaceError unit * list Parent :=
  replace (wit_app "new" "new-core") "Synbad.app" ".synbad-update-7.app" ".synbad-old-7.app" faults wit_parent.

Example app_paths :
  app_root ["synbad-gui"; "MacOS"; "Contents"; "Synbad.app"; "Applications"]%string = Some ["Synbad.app"; "Applications"]%string ∧
  app_root [".app"; "bin"]%string = None ∧
  find (Dir 493 [("notes", File [] 420); ("release", Dir 493 [("Synbad.app", wit_app "new" "c")])]%string) = Some ["Synbad.app"; "release"]%string.
Proof. vm_compute. split_and!; reflexivity. Qed.

(** A removal that fails half way leaves the rest; one without faults leaves nothing. *)
Example removal_leaves_rest :
  let t := Dir 493 [("a", File [] 420); ("b", File [] 420)]%string%Z in
  last (remove_tree t [true; true; false]).1 = Some (Some (Dir 493 [("b", File [] 420)]%string%Z)) ∧ last (remove_tree t []).1 = Some None.
Proof. vm_compute. split; reflexivity. Qed.

(** The second rename fails and is undone; without faults the new app is in place. *)
Example bundle_replaced_whole_witness :
  default wit_parent (last (wit_replace ([true; true; true; true; true; true; true; true; true; true; false])).2) !! "Synbad.app"%string = Some (wit_app "old" "old-core") ∧
  (wit_replace []).1 = Ok tt.
Proof.
  assert (".synbad-update-7.app" ≠ "Synbad.app" ∧ ".synbad-old-7.app" ≠ "Synbad.app" ∧ ".synbad-update-7.app" ≠ ".synbad-old-7.app")%string as Hn by done.
  split.
  - destruct (bundle_replaced_whole (wit_app "new" "new-core") (wit_app "old" "old-core") _ _ _ Hn
      [true; true; true; true; true; true; true; true; true; true; false] wit_parent _ _ eq_refl (surjective_pairing _)) as (_ & Hr & _).
    revert Hr. unfold wit_replace. replace (replace _ _ _ _ _ _).1 with (Err ReMoveNew : result ReplaceError unit) by (vm_compute; reflexivity). intros Hr. exact Hr.
  - apply (bundle_replaced_whole (wit_app "new" "new-core") (wit_app "old" "old-core") _ _ _ Hn [] wit_parent _ _ eq_refl (surjective_pairing _)); reflexivity.
Defined.
