(* ===== verification/Startup.v ===== *)
(** * The daemon's entry point ([crates/synbadd/src/main.rs], [log_sink.rs])

    What happens before the run loop: the update helper's short-circuit, the disk
    log, the seeding of a first config, the IPC socket and the supervisor's
    constructor; and the writer that turns the daemon's own log events into lines of
    the window's log. *)

From Stdlib Require Import Ascii ZArith Lia.
From S2P Require Import Prelude Primitives Config Versioned IpcTypes LogParse Store CoreProc SupState NetSync Supervisor FileOps RotatingLog Updater.

(** ** Starting *)

Inductive Started := StHelper (r : result string Plan) | StDaemon (s : option Sup).

Section startup.
Context `{JsonSharedOps, Sha256Ops, HexOps, TomlOps, JsonOps SideCar, JsonOps TrustFile, JsonOps Plan}.
Context (our_id our_fingerprint : string) (config_path versions_path : PathPair).
Context (show_config_error : ConfigError → string) (show_trust_error : TrustError → string).

(** What a start meets besides the files: whether the socket can be bound, and what
    the constructor asks the system. *)
Record LaunchEnv := {
  st_log : string;
  st_trust : PathPair;
  st_listener_ok : bool;
  st_new : NEnv;
  st_stage : string → string
}.

(** [None]: [run_daemon] returned an error before the run loop. *)
Definition run_daemon (env : LaunchEnv) (fs : Fs) : option Sup * Fs :=
  let '(log, fs) := RotatingLog.open (st_log env) fs in
  match log with
  | None => (None, fs)
  | Some _ =>
    let '(loaded, fs) := config_load (pp_path config_path) fs in
    match loaded with
    | Err _ => (None, fs)
    | Ok loaded =>
      let '(seeded, fs) := match loaded with Some _ => (Ok tt, fs) | None => config_save default_Config config_path fs end in
      match seeded with
      | Err _ => (None, fs)
      | Ok _ => if st_listener_ok env then sup_new our_id config_path versions_path (st_new env) (st_trust env) fs else (None, fs)
      end
    end
  end.

(** [args] are those after the program's name. *)
Definition main (env : LaunchEnv) (args : list string) (fs : Fs) : Started * Fs :=
  match parse_apply_update_args args with
  | Some plan_path => let '(r, fs) := apply_plan (st_stage env) plan_path fs in (StHelper r, fs)
  | None => let '(s, fs) := run_daemon env fs in (StDaemon s, fs)
  end.

(** ** What a start touches *)

Lemma next_fault_touches P fs f fs' : next_fault fs = (f, fs') → touches P fs fs'.
Proof. intros E q _. unfold content. by rewrite (next_fault_files _ _ _ E). Qed.

Lemma fs_read_touches P path fs r fs' : fs_read path fs = (r, fs') → touches P fs fs'.
Proof.
  unfold fs_read. destruct (next_fault fs) as [f fs1] eqn:E. apply (next_fault_touches P) in E. intros Hr. destruct f; by injection Hr as _ <-.
Qed.

Lemma set_file_touches path b fs fs' : touches (.= path) fs fs' → touches (.= path) fs (set_file path b fs').
Proof. intros Ht q Hq. unfold content, set_file. cbn. rewrite lookup_insert_ne by (intros <-; by apply Hq). by apply Ht. Qed.

Lemma trim_existing_touches path limit fs ok fs' : trim_existing path limit fs = (ok, fs') → touches (.= path) fs fs'.
Proof.
  unfold trim_existing. destruct (fs_read path fs) as [r fs1] eqn:E. apply (fs_read_touches (.= path)) in E.
  destruct r as [b| |]; [|by intros [= _ <-]..]. case_decide; [|by intros [= _ <-]].
  unfold fs_overwrite. destruct (next_fault fs1) as [f fs2] eqn:E2. apply (next_fault_touches (.= path)) in E2.
  assert (touches (.= path) fs fs2) as T by by etrans. destruct f; [|intros [= _ <-]; by apply set_file_touches].
  unfold fs_set_len. match goal with |- context [next_fault ?x] => destruct (next_fault x) as [f fs3] eqn:E3; set (fsx := x) in * end.
  apply (next_fault_touches (.= path)) in E3. assert (touches (.= path) fs fsx) as T' by by apply set_file_touches.
  assert (touches (.= path) fs fs3) as T'' by by etrans. destruct f; intros [= _ <-]; [by apply set_file_touches|done].
Qed.

Lemma open_touches path fs log fs' : RotatingLog.open path fs = (log, fs') → touches (λ q, ∃ i, i ≤ BACKUPS ∧ q = log_name path i) fs fs'.
Proof.
  set (P := λ q, ∃ i, i ≤ BACKUPS ∧ q = log_name path i). unfold RotatingLog.open, with_limit.
  destruct (fs_other fs) as [ok fs1] eqn:E1. apply (fs_other_touches P) in E1. destruct ok; [|by intros [= _ <-]]. cbn [negb].
  assert (∀ l fs ok fs', Forall (λ i, i ≤ BACKUPS) l → trim_all path LOG_BYTES l fs = (ok, fs') → touches P fs fs') as Hall.
  { induction l as [|i l IH]; intros fs0 ok0 fs0' Hle; cbn [trim_all]; [by intros [= _ <-]|]. apply Forall_cons in Hle as [Hi Hle].
    destruct (trim_existing _ _ fs0) as [ok1 fs2] eqn:E. apply trim_existing_touches in E.
    assert (touches P fs0 fs2) as T by (eapply touches_weaken; [|exact E]; intros q ->; by exists i).
    destruct ok1; [|by intros [= _ <-]]. intros E'. etrans; [exact T|by eapply (IH _ _ _ Hle)]. }
  destruct (trim_all path LOG_BYTES _ fs1) as [ok fs2] eqn:E2. apply Hall in E2; [|unfold BACKUPS; repeat constructor]. assert (touches P fs fs2) as T2 by by etrans.
  destruct ok; [|by intros [= _ <-]]. cbn [negb]. unfold fs_open_append. destruct (next_fault fs2) as [f fs3] eqn:E3. apply (next_fault_touches P) in E3.
  assert (touches P fs fs3) as T3 by by etrans. destruct f; cbn [negb]; [|by intros [= _ <-]].
  match goal with |- context [fs_other ?x] => assert (touches P fs x) as T4 end.
  { intros q Hq. unfold content, set_file; cbn. rewrite lookup_insert_ne; [by apply T3|]. intros <-. apply Hq. exists 0. split; [lia|done]. }
  destruct (fs_other _) as [ok fs4] eqn:E4. apply (fs_other_touches P) in E4. destruct ok; cbn [negb]; intros [= _ <-]; by etrans.
Qed.

Lemma config_load_touches P path fs r fs' : config_load path fs = (r, fs') → touches P fs fs'.
Proof.
  unfold config_load, fs_read_to_string. destruct (fs_read path fs) as [rr fs1] eqn:E. apply (fs_read_touches P) in E.
  destruct rr as [b| |]; by intros [= _ <-].
Qed.

Lemma load_sidecar_touches P path fs r fs' : load_sidecar path fs = (r, fs') → touches P fs fs'.
Proof. unfold load_sidecar. destruct (fs_read path fs) as [rr fs1] eqn:E. apply (fs_read_touches P) in E. by intros [= _ <-]. Qed.

Lemma trust_load_touches P path fs r fs' : trust_load path fs = (r, fs') → touches P fs fs'.
Proof. unfold trust_load. destruct (fs_read _ fs) as [rr fs1] eqn:E. apply (fs_read_touches P) in E. by intros [= _ <-]. Qed.

(** The constructor reads the config once, and writes only the sidecar. *)
Lemma sup_new_touches `{!JsonLaws SideCar} nenv trust fs r fs' :
  pp_ok versions_path → sup_new our_id config_path versions_path nenv trust fs = (r, fs') →
  touches (λ q, q = pp_path versions_path ∨ q = pp_tmp versions_path) fs fs' ∧
  ∀ s, r = Some s → ∃ loaded fs1, config_load (pp_path config_path) fs = (Ok loaded, fs1) ∧ sv_config s = default default_Config loaded.
Proof.
  intros Hp. set (P := λ q, _ ∨ _). unfold sup_new.
  destruct (config_load _ fs) as [l fs1] eqn:E1. pose proof (config_load_touches P _ _ _ _ E1) as T1. destruct l as [loaded|]; [|by intros [= <- <-]].
  destruct (negb _); [by intros [= <- <-]|]. destruct (load_sidecar _ fs1) as [side fs2] eqn:E2. apply (load_sidecar_touches P) in E2.
  assert (touches P fs fs2) as T2 by by etrans.
  set (vf := match side with Ok (Some _) => _ | Ok None => _ | Err _ => _ end).
  assert (touches P fs vf.2) as T3.
  { subst vf. destruct side as [[sc|]|]; cbn [snd]; [done| |done]. etrans; [exact T2|]. intros q Hq.
    apply save_sidecar_saved; [done|..]; intros ->; apply Hq; subst P; cbn; auto. }
  destruct vf as [versioned fs3]. cbn [snd] in T3. destruct (trust_load trust fs3) as [t fs4] eqn:E4. apply (trust_load_touches P) in E4.
  assert (touches P fs fs4) as T4 by by etrans. destruct t as [t|]; [|by intros [= <- <-]].
  cbv zeta. match goal with |- context [sup_initial ?e ?c ?v ?tr ?u ?f] => set (s0 := sup_initial e c v tr u f) end.
  intros [= <- <-]. split; [done|]. intros s [= <-]. exists loaded, fs1. split; [done|].
  match goal with |- context [reconcile_audio_subsystem our_id ?e ?x] => destruct (reconcile_audio_subsystem_configs our_id e x) as (_ & Hc & _) end.
  cbv zeta in Hc. rewrite Hc. pose proof (q_config _ _ (start_discovery_quiet (ne_env nenv) s0)) as Hq. by destruct (negb _).
Qed.

(** ** Properties *)

(** A load that succeeds says what the file holds. *)
Lemma config_load_true path fs loaded fs' : config_load path fs = (Ok loaded, fs') → (config_load path (healthy fs)).1 = Ok loaded.
Proof.
  unfold config_load. rewrite fs_read_to_string_content. unfold fs_read_to_string, fs_read, content. destruct (next_fault fs) as [f fs1] eqn:E.
  apply next_fault_files in E. destruct f; [|done]. rewrite E. destruct (fs_files fs !! path) as [b|]; [|by intros [= <-]].
  destruct (valid_utf8 b); [|done]. intros Hl. by injection Hl as -> _.
Qed.

Lemma config_load_same path fs fs' : content path fs' = content path fs → (config_load path (healthy fs')).1 = (config_load path (healthy fs)).1.
Proof. intros Hc. unfold config_load. rewrite !fs_read_to_string_content, Hc. by destruct (content path fs) as [b|]; [destruct (valid_utf8 b)|]. Qed.

Lemma config_load_none path fs : (config_load path (healthy fs)).1 = Ok None ↔ content path fs = None.
Proof.
  unfold config_load. rewrite fs_read_to_string_content. destruct (content path fs) as [b|]; [|done]. split; [|done].
  destruct (valid_utf8 b); [|done]. cbn. destruct (toml_from_str _) as [c|]; [|done]. by destruct (validate c).
Qed.

(** A start never loses a config.  Whatever call fails on the way: a config
    file that exists is left byte for byte as it is, malformed or not; where there
    was none, there is none or the default one, whole; a config the daemon cannot
    read stops it; and a daemon that starts runs on the config its file holds, in a
    state the run loop's invariants cover. *)
Theorem startup_keeps_config `{!TomlLaws, !JsonLaws SideCar} env fs r fs' :
  pp_ok config_path → pp_ok versions_path →
  pp_path config_path ≠ pp_path versions_path → pp_path config_path ≠ pp_tmp versions_path →
  (∀ i, i ≤ BACKUPS → pp_path config_path ≠ log_name (st_log env) i) →
  run_daemon env fs = (r, fs') →
  (is_Some (content (pp_path config_path) fs) → content (pp_path config_path) fs' = content (pp_path config_path) fs) ∧
  (content (pp_path config_path) fs = None → content (pp_path config_path) fs' = None ∨
     (config_load (pp_path config_path) (healthy fs')).1 = Ok (Some default_Config)) ∧
  (is_ok (config_load (pp_path config_path) (healthy fs)).1 = false → r = None) ∧
  ∀ s, r = Some s →
    sup_reachable our_id our_fingerprint config_path versions_path show_config_error show_trust_error s ∧
    (config_load (pp_path config_path) (healthy fs')).1 = Ok (Some (sv_config s)).
Proof.
  assert (config_eqb default_Config default_Config = true) as Hself by by vm_compute.
  intros Hp1 Hp2 Hd1 Hd2 Hlog. unfold run_daemon.
  set (P := pp_path config_path) in *.
  destruct (RotatingLog.open (st_log env) fs) as [log fs1] eqn:E1. apply open_touches in E1.
  assert (content P fs1 = content P fs) as C1 by (apply E1; intros (i & Hle & Hi); by apply (Hlog i)).
  assert (∀ fsx : Fs, content P fsx = content P fs → (is_Some (content P fs) → content P fsx = content P fs) ∧
    (content P fs = None → content P fsx = None ∨ (config_load P (healthy fsx)).1 = Ok (Some default_Config))) as Hsame.
  { intros fsx Hx. split; [done|]. intros Hn. left. by rewrite Hx. }
  destruct log as [log|]; [|intros [= <- <-]; split_and!; [by apply Hsame..|done|done]].
  destruct (config_load P fs1) as [loaded fs2] eqn:E2. pose proof (config_load_touches (λ _, False) _ _ _ _ E2) as T2.
  assert (content P fs2 = content P fs) as C2 by (rewrite T2; [exact C1|by intros []]).
  destruct loaded as [loaded|]; [|intros [= <- <-]; split_and!; [by apply Hsame..|done|done]].
  apply config_load_true in E2. rewrite (config_load_same _ _ _ C1) in E2. rewrite E2.
  (* what the constructor does with a file that holds [c] *)
  assert (∀ c fs3 r0 fs4, (config_load P (healthy fs3)).1 = Ok (Some c) →
    (if st_listener_ok env then sup_new our_id config_path versions_path (st_new env) (st_trust env) fs3 else (None, fs3)) = (r0, fs4) →
    content P fs4 = content P fs3 ∧ ∀ s, r0 = Some s →
      sup_reachable our_id our_fingerprint config_path versions_path show_config_error show_trust_error s ∧
      (config_load P (healthy fs4)).1 = Ok (Some (sv_config s))) as Hnew.
  { intros c fs3 r0 fs4 Hc. destruct (st_listener_ok env); [|by intros [= <- <-]]. intros E. destruct (sup_new_touches _ _ _ _ _ Hp2 E) as [T Hs].
    assert (content P fs4 = content P fs3) as C by (apply T; intros [?|?]; congruence). split; [done|]. intros s ->. split; [by eapply sr_new|].
    destruct (Hs s eq_refl) as (l & fsl & El & ->). apply config_load_true in El. rewrite (config_load_same _ _ _ C).
    fold P in El. rewrite Hc in El. injection El as <-. exact Hc. }
  destruct loaded as [c|].
  - rewrite <-(config_load_same _ _ _ C2) in E2. intros E. destruct (Hnew _ _ _ _ E2 E) as [C Hs].
    assert (content P fs' = content P fs) as C' by by rewrite C. split_and!; [by apply Hsame..|done|done].
  - apply config_load_none in E2. destruct (config_save default_Config config_path fs2) as [r0 fs3] eqn:E3.
    destruct (config_save_spec _ _ _ _ _ Hp1 Hself E3) as [Hsave _]. destruct r0 as [[]|e]; cbn [is_ok] in Hsave.
    + destruct Hsave as [_ Hsave]. intros E. destruct (Hnew _ _ _ _ Hsave E) as [C Hs]. split_and!; [|by right; rewrite (config_load_same _ _ _ C)|done|done].
      rewrite E2. by intros [].
    + intros [= <- <-]. assert (content P fs3 = content P fs) as C by (etrans; [exact Hsave|exact C2]). split_and!; [by apply Hsame..|done|done].
Qed.
End startup.

(** ** The log sink *)

(** U+FFFD. *)
Definition replacement : bytes := map byte_of_Z [0xEF; 0xBF; 0xBD]%Z.

(** [String::from_utf8_lossy]: each maximal beginning of a character that is not
    completed becomes U+FFFD. *)
Fixpoint utf8_lossy (s : bytes) : bytes :=
  match s with
  | [] => []
  | b0 :: s1 =>
    if byte_in 0 0x7F b0 then b0 :: utf8_lossy s1 else
    if byte_in 0xC2 0xDF b0 then
      match s1 with
      | b1 :: s2 => if byte_in 0x80 0xBF b1 then b0 :: b1 :: utf8_lossy s2 else replacement ++ utf8_lossy s1
      | [] => replacement
      end
    else if byte_in 0xE0 0xEF b0 then
      match s1 with
      | b1 :: s2 =>
        if (if byte_in 0xE0 0xE0 b0 then byte_in 0xA0 0xBF b1 else if byte_in 0xED 0xED b0 then byte_in 0x80 0x9F b1 else byte_in 0x80 0xBF b1) then
          match s2 with
          | b2 :: s3 => if byte_in 0x80 0xBF b2 then b0 :: b1 :: b2 :: utf8_lossy s3 else replacement ++ utf8_lossy s2
          | [] => replacement
          end
        else replacement ++ utf8_lossy s1
      | [] => replacement
      end
    else if byte_in 0xF0 0xF4 b0 then
      match s1 with
      | b1 :: s2 =>
        if (if byte_in 0xF0 0xF0 b0 then byte_in 0x90 0xBF b1 else if byte_in 0xF4 0xF4 b0 then byte_in 0x80 0x8F b1 else byte_in 0x80 0xBF b1) then
          match s2 with
          | b2 :: s3 =>
            if byte_in 0x80 0xBF b2 then
              match s3 with
              | b3 :: s4 => if byte_in 0x80 0xBF b3 then b0 :: b1 :: b2 :: b3 :: utf8_lossy s4 else replacement ++ utf8_lossy s3
              | [] => replacement
              end
            else replacement ++ utf8_lossy s2
          | [] => replacement
          end
        else replacement ++ utf8_lossy s1
      | [] => replacement
      end
    else replacement ++ utf8_lossy s1
  end.

Definition LINE_PREFIX : bytes := bytes_of "[synbad] ".
Definition newline : ascii := byte_of_Z 10.

Fixpoint drop_cr (b : bytes) : bytes :=
  match b with c :: b' => if decide (c = byte_of_Z 13) then drop_cr b' else b | [] => [] end.

(** A line as it is sent. *)
Definition sink_line (line : bytes) : bytes := LINE_PREFIX ++ reverse (drop_cr (reverse (utf8_lossy line))).

(** [ChannelWriter]: its buffer, what it sent, and whether the channel has room for
    each line to come; without room the line is dropped. *)
Record ChannelWriter := { cw_buf : bytes; cw_sent : list bytes; cw_room : list bool }.
#[export] Instance ChannelWriter_eta : Eta ChannelWriter := λ r, {| cw_buf := cw_buf r; cw_sent := cw_sent r; cw_room := cw_room r |}.

Definition try_send (line : bytes) (w : ChannelWriter) : ChannelWriter :=
  match cw_room w with
  | false :: room => w <| cw_room := room |>
  | _ => w <| cw_sent := cw_sent w ++ [line] |> <| cw_room := tail (cw_room w) |>
  end.

(** [write], with a turn of its loop for each newline. *)
Fixpoint write_loop (turns : nat) (buf : bytes) (w : ChannelWriter) : ChannelWriter :=
  match turns, find_char newline buf with
  | S turns, Some pos =>
    let line := cw_buf w ++ take pos buf in
    write_loop turns (drop (S pos) buf) (try_send (sink_line line) (w <| cw_buf := [] |>))
  | _, _ => w <| cw_buf := cw_buf w ++ buf |>
  end.
Definition sink_write (buf : bytes) (w : ChannelWriter) : ChannelWriter := write_loop (length buf) buf w.

Example utf8_lossy_examples :
  utf8_lossy (bytes_of "plain é") = bytes_of "plain é" ∧
  utf8_lossy (map byte_of_Z [0x61; 0xE2; 0x82; 0x62; 0xFF; 0xC3]%Z) = [byte_of_Z 0x61] ++ replacement ++ [byte_of_Z 0x62] ++ replacement ++ replacement.
Proof. vm_compute. split; reflexivity. Qed.

(** What a reader of the whole text sees: its complete lines, and the rest. *)
Fixpoint split_lines (line text : bytes) : list bytes * bytes :=
  match text with
  | [] => ([], line)
  | c :: text => if decide (c = newline) then let '(ls, rest) := split_lines [] text in (line :: ls, rest) else split_lines (line ++ [c]) text
  end.

(** The lines the channel had room for. *)
Fixpoint kept {A} (room : list bool) (l : list A) : list A :=
  match l, room with
  | [], _ => []
  | x :: l, false :: room => kept room l
  | x :: l, _ => x :: kept (tail room) l
  end.

Lemma split_lines_app line a b :
  split_lines line (a ++ b) = let '(ls, rest) := split_lines line a in let '(ls', rest') := split_lines rest b in (ls ++ ls', rest').
Proof.
  revert line; induction a as [|c a IH]; intros line; cbn; [by destruct (split_lines line b)|]. case_decide; [|apply IH].
  rewrite IH. destruct (split_lines [] a) as [ls rest]. by destruct (split_lines rest b).
Qed.

Lemma split_lines_find line text :
  split_lines line text =
  match find_char newline text with
  | Some pos => let '(ls, rest) := split_lines [] (drop (S pos) text) in ((line ++ take pos text) :: ls, rest)
  | None => ([], line ++ text)
  end.
Proof.
  revert line; induction text as [|c text IH]; intros line; cbn; [by rewrite app_nil_r|]. case_decide; [by rewrite app_nil_r|].
  rewrite IH. destruct (find_char newline text) as [pos|]; cbn; [destruct (split_lines _ _)|]; by rewrite <-app_assoc.
Qed.

Definition send_all (ls : list bytes) (w : ChannelWriter) : ChannelWriter := fold_left (λ w l, try_send (sink_line l) w) ls w.

Lemma send_all_spec ls w :
  send_all ls w = {| cw_buf := cw_buf w; cw_sent := cw_sent w ++ map sink_line (kept (cw_room w) ls); cw_room := drop (length ls) (cw_room w) |}.
Proof.
  revert w; induction ls as [|l ls IH]; intros w; [cbn; rewrite app_nil_r, drop_0; by destruct w|].
  change (send_all (l :: ls) w) with (send_all ls (try_send (sink_line l) w)). rewrite IH. unfold try_send.
  destruct w as [buf sent room]. destruct room as [|[] room]; cbn; rewrite <-?app_assoc, ?drop_nil; done.
Qed.

Lemma write_loop_spec turns buf w :
  length buf ≤ turns →
  write_loop turns buf w = let '(ls, rest) := split_lines (cw_buf w) buf in send_all ls (w <| cw_buf := [] |>) <| cw_buf := rest |>.
Proof.
  revert buf w; induction turns as [|turns IH]; intros buf w Hlen.
  { destruct buf; [|cbn in Hlen; lia]. cbn. rewrite app_nil_r. by destruct w. }
  rewrite split_lines_find. cbn [write_loop]. destruct (find_char newline buf) as [pos|] eqn:E; [|by destruct w].
  rewrite IH by (rewrite length_drop; lia).
  set (t := sink_line _). assert (cw_buf (try_send t (w <| cw_buf := [] |>)) = []) as Hb by (unfold try_send; by repeat case_match). rewrite Hb.
  destruct (split_lines [] _) as [ls rest]. rewrite !send_all_spec. unfold t, try_send.
  destruct w as [b sent room]; destruct room as [|[] room]; cbn; rewrite <-?app_assoc, ?drop_nil; done.
Qed.

(** Text passes unchanged. *)
Lemma utf8_lossy_valid s : valid_utf8 s = true → utf8_lossy s = s.
Proof.
  remember (length s) as n eqn:En. revert s En. induction n as [n IH] using lt_wf_ind. intros s -> Hv.
  assert (∀ t u, s = t ++ u → t ≠ [] → valid_utf8 u = true → utf8_lossy u = u) as R.
  { intros t u -> Ht Hu. eapply IH; [|done|done]. rewrite length_app. destruct t; [done|cbn; lia]. }
  destruct s as [|b0 s1]; [done|]. cbn [valid_utf8 utf8_lossy] in Hv |- *.
  destruct (byte_in 0 0x7F b0); [f_equal; by apply (R [b0])|].
  destruct s1 as [|b1 s2]; [done|]. destruct (byte_in 0xC2 0xDF b0).
  { apply andb_true_iff in Hv as [-> Hv]. do 2 f_equal. by apply (R [b0; b1]). }
  destruct s2 as [|b2 s3]; [done|]. destruct (byte_in 0xE0 0xEF b0).
  { rewrite !andb_true_iff in Hv. destruct Hv as [[-> ->] Hv]. do 3 f_equal. by apply (R [b0; b1; b2]). }
  destruct s3 as [|b3 s4]; [done|]. rewrite !andb_true_iff in Hv. destruct Hv as [[[[-> ->] ->] ->] Hv].
  do 4 f_equal. by apply (R [b0; b1; b2; b3]).
Qed.

(** The calls of one event's writer. *)
Definition sink_writes (ws : list bytes) (w : ChannelWriter) : ChannelWriter := fold_left (λ w b, sink_write b w) ws w.

(** However an event's text is cut into writes, what reaches the channel is the
    sequence of its complete lines, in order, each behind the prefix, less those the
    full channel refused; the unfinished rest waits in the buffer, and is lost with
    the writer. *)
Theorem sink_forwards_lines ws room :
  let '(ls, rest) := split_lines [] (concat ws) in
  sink_writes ws {| cw_buf := []; cw_sent := []; cw_room := room |} =
    {| cw_buf := rest; cw_sent := map sink_line (kept room ls); cw_room := drop (length ls) room |}.
Proof.
  assert (∀ w, sink_writes ws w = let '(ls, rest) := split_lines (cw_buf w) (concat ws) in send_all ls (w <| cw_buf := [] |>) <| cw_buf := rest |>) as H.
  { induction ws as [|b ws IH]; intros w; [by destruct w|]. change (sink_writes (b :: ws) w) with (sink_writes ws (sink_write b w)).
    rewrite IH. unfold sink_write. rewrite write_loop_spec by done. cbn [concat]. rewrite split_lines_app.
    destruct (split_lines (cw_buf w) b) as [ls rest]. rewrite !send_all_spec. cbn. destruct (split_lines rest _) as [ls' rest'].
    rewrite !send_all_spec. cbn. rewrite drop_drop, length_app. f_equal. rewrite <-app_assoc, <-map_app. do 2 f_equal.
    generalize (cw_room w). clear. induction ls as [|l ls IH]; intros room; cbn; [by rewrite drop_0|].
    destruct room as [|[] room]; cbn; rewrite <-IH, ?drop_nil; done. }
  rewrite H. cbn. destruct (split_lines [] _) as [ls rest]. by rewrite send_all_spec.
Qed.

(** ** A concrete start

    A first start on an empty disk, and one over a config that is not TOML. *)

Section witnesses.
#[local] Existing Instances toy_json_shared toy_sha toy_hex toy_json_sidecar toy_json_sidecar_laws toy_json_trust toy_json_plan.

(** A serialiser for the default config and the sample one. *)
#[local] Instance start_toml : TomlOps :=
  {| toml_to_string_pretty c := if decide (c = default_Config) then Some "default"%string else if decide (c = sample_config) then Some "sample"%string else None;
     toml_from_str s := if decide (s = "default"%string) then Some default_Config else if decide (s = "sample"%string) then Some sample_config else None |}.
#[local] Instance start_toml_laws : TomlLaws.
Proof. split; intros c s; cbn; repeat case_decide; try done; intros; by simplify_eq. Qed.

Definition wit_start_env : LaunchEnv :=
  {| st_log := "synbad.log"; st_trust := wit_paths; st_listener_ok := true; st_new := wit_nenv; st_stage := λ p, p |}.
Definition wit_disk (files : list (string * bytes)) : Fs := {| fs_files := list_to_map files; fs_faults := [] |}.
Definition wit_start (files : list (string * bytes)) : option Sup * Fs :=
  run_daemon "a" wit_config_path wit_versions_path wit_start_env (wit_disk files).
Definition wit_bad_config : bytes := map byte_of_Z [0xFF]%Z.

Lemma startup_keeps_config_witness :
  (config_load "config.toml" (healthy (wit_start []).2)).1 = Ok (Some default_Config) ∧
  (wit_start [("config.toml"%string, wit_bad_config)]).1 = None ∧
  content "config.toml" (wit_start [("config.toml"%string, wit_bad_config)]).2 = Some wit_bad_config.
Proof.
  assert (∀ i, i ≤ BACKUPS → pp_path wit_config_path ≠ log_name (st_log wit_start_env) i) as Hlog by (intros [|i] _; cbn; discriminate).
  split.
  - destruct (startup_keeps_config "a" "ff" wit_config_path wit_versions_path (λ _, "bad config"%string) (λ _, "bad trust"%string)
      wit_start_env (wit_disk []) (wit_start []).1 (wit_start []).2 ltac:(discriminate) ltac:(discriminate) ltac:(discriminate) ltac:(discriminate) Hlog (surjective_pairing _))
      as (_ & Hn & _). destruct (Hn eq_refl) as [Hx|Hx]; [|exact Hx]. exfalso. vm_compute in Hx. discriminate Hx.
  - destruct (startup_keeps_config "a" "ff" wit_config_path wit_versions_path (λ _, "bad config"%string) (λ _, "bad trust"%string)
      wit_start_env (wit_disk [("config.toml"%string, wit_bad_config)]) (wit_start [("config.toml"%string, wit_bad_config)]).1 (wit_start [("config.toml"%string, wit_bad_config)]).2 ltac:(discriminate) ltac:(discriminate) ltac:(discriminate) ltac:(discriminate)
      Hlog (surjective_pairing _)) as (Hk & _ & Hr & _). split; [apply Hr; reflexivity|]. etrans; [apply Hk; eexists; reflexivity|reflexivity].
Defined.
End witnesses.
