(* ===== verification/Paths.v ===== *)
(** * Where the files live ([crates/synbad-config/src/paths.rs])

    The names of the daemon's and the window's files, that no two of them collide
    wherever the platform puts the two directories, and what that gives the start
    of the installed daemon. *)

From Stdlib Require Import Ascii ZArith Lia.
From S2P Require Import Prelude Primitives Config Versioned IpcTypes LogParse Store CoreProc SupState NetSync Supervisor FileOps RotatingLog Updater Startup.

(** What the [directories] crate finds for the user, if it finds a home. *)
Record ProjectDirs := { pd_config_dir : string; pd_data_local_dir : string }.

Definition config_dir (dirs : option ProjectDirs) : string := match dirs with Some d => pd_config_dir d | None => "./synbad-config" end.
Definition state_dir (dirs : option ProjectDirs) : string := match dirs with Some d => pd_data_local_dir d | None => "./synbad-state" end.
Definition config_file dirs : string := join (config_dir dirs) "config.toml".
Definition config_versions_file dirs : string := join (config_dir dirs) "config.versions.json".
Definition generated_conf dirs : string := join (state_dir dirs) "synergy.conf".
Definition generated_settings dirs : string := join (state_dir dirs) "deskflow.ini".
Definition user_stopped_marker dirs : string := join (state_dir dirs) "user-stopped".

(** On Unix, from [UID] or else [USER]. *)
Definition ipc_socket (uid user : option string) dirs : string :=
  join (state_dir dirs) ("synbadd-" +:+ match uid, user with Some u, _ => u | None, Some u => u | None, None => "anon" end +:+ ".sock").

(** On Windows, from [USERNAME]. *)
Definition ipc_pipe (username : option string) : string :=
  let safe c := byte_in 48 57 c || byte_in 65 90 c || byte_in 97 122 c || bool_decide (c = "-"%char) || bool_decide (c = "_"%char) in
  "\\.\pipe\synbadd-" +:+ string_of (map (λ c, if safe c then c else "_"%char) (bytes_of (default "anon"%string username))).

(** The other files, by the code that names them. *)
Definition daemon_log dirs : string := join (state_dir dirs) "daemon.log".
Definition core_log dirs : string := join (state_dir dirs) "core.log".
Definition launch_log dirs : string := join (state_dir dirs) "synbadd.log".
Definition gui_socket dirs : string := join (state_dir dirs) "synbad-gui.sock".
Definition trusted_peers dirs : string := join (config_dir dirs) "trusted-peers.json".

Definition config_paths dirs : PathPair :=
  {| pp_path := config_file dirs; pp_parent := config_dir dirs; pp_tmp := with_extension (config_file dirs) "toml.tmp" |}.
Definition versions_paths dirs : PathPair :=
  {| pp_path := config_versions_file dirs; pp_parent := config_dir dirs; pp_tmp := with_extension (config_versions_file dirs) "json.tmp" |}.

(** ** Last components *)

Notation slash := "/"%char.

Fixpoint base (cur s : bytes) : bytes :=
  match s with [] => cur | c :: s' => if decide (c = slash) then base [] s' else base (cur ++ [c]) s' end.

Lemma base_plain cur n : slash ∉ n → base cur n = cur ++ n.
Proof.
  revert cur; induction n as [|c n IH]; intros cur Hn; cbn; [by rewrite app_nil_r|]. apply not_elem_of_cons in Hn as [Hc Hn].
  rewrite decide_False by done. rewrite IH by done. by rewrite <-app_assoc.
Qed.

Lemma base_slash cur d n : slash ∉ n → base cur (d ++ slash :: n) = n.
Proof.
  intros Hn. revert cur; induction d as [|c d IH]; intros cur; cbn [app base].
  - rewrite decide_True by done. by rewrite base_plain.
  - destruct (decide (c = slash)); apply IH.
Qed.

Lemma ends_slash b : ends_with (bytes_of "/") b = true → ∃ d, b = d ++ [slash].
Proof.
  unfold ends_with. rewrite starts_with_true. intros [r Hr]. exists (reverse r).
  by rewrite <-(reverse_involutive b), Hr, reverse_app.
Qed.

(** [join], by how the directory is written. *)
Lemma join_form dir name : ∃ d, bytes_of (join dir name) = d ++ bytes_of name ∧ (d = [] ∨ ∃ d', d = d' ++ [slash]).
Proof.
  unfold join. destruct (bool_decide (dir = ""%string)) eqn:E1; cbn [orb].
  - apply bool_decide_eq_true in E1 as ->. exists []. split; [|by left]. by rewrite bytes_of_app.
  - destruct (ends_with _ _) eqn:E2.
    + apply ends_slash in E2 as [d Hd]. exists (bytes_of dir). split; [by rewrite bytes_of_app|right; by exists d].
    + exists (bytes_of dir ++ [slash]). rewrite !bytes_of_app, <-app_assoc. split; [done|right; by exists (bytes_of dir)].
Qed.

Lemma base_join dir name : slash ∉ bytes_of name → base [] (bytes_of (join dir name)) = bytes_of name.
Proof.
  intros Hn. destruct (join_form dir name) as (d & -> & [->|[d' ->]]); [by rewrite base_plain|]. rewrite <-app_assoc. by apply base_slash.
Qed.

Lemma rsplit_once_app c d n : c ∉ n → rsplit_once c (d ++ c :: n) = Some (d, n).
Proof.
  intros Hn. unfold rsplit_once. rewrite reverse_app, reverse_cons, <-app_assoc. cbn [app].
  rewrite find_char_app by by rewrite elem_of_reverse. rewrite length_reverse, length_app. cbn [length].
  replace (length d + S (length n) - S (length n)) with (length d) by lia.
  replace (length d + S (length n) - length n) with (length d + 1) by lia.
  rewrite take_app_length. f_equal. f_equal. rewrite drop_app_ge by lia. replace (length d + 1 - length d) with 1 by lia. done.
Qed.

Lemma rsplit_once_none c n : c ∉ n → rsplit_once c n = None.
Proof. intros Hn. unfold rsplit_once. by rewrite (proj2 (find_char_None c (reverse n))) by by rewrite elem_of_reverse. Qed.

(** The new extension, beside the file. *)
Lemma with_extension_join dir name ext :
  slash ∉ bytes_of name →
  with_extension (join dir name) ext = join dir (with_extension name ext).
Proof.
  intros Hn. apply (inj bytes_of). unfold with_extension at 1. destruct (join_form dir name) as (d & Hd & Hform). rewrite Hd.
  assert (∀ m, bytes_of (join dir m) = d ++ bytes_of m) as Hj.
  { intros m. revert Hd. unfold join. destruct (_ || _); rewrite !bytes_of_app, ?app_assoc;
      intros Hd%app_inv_tail; by rewrite ?app_assoc, <-Hd. }
  rewrite Hj. unfold with_extension. rewrite (rsplit_once_none "/"%char (bytes_of name)) by done.
  destruct Hform as [->|[d' ->]].
  - cbn [app]. rewrite (rsplit_once_none "/"%char (bytes_of name)) by done. done.
  - rewrite <-app_assoc. cbn [app]. rewrite rsplit_once_app by done. rewrite !bytes_of_app, !bytes_of_string_of. change (bytes_of "/") with [slash].
    by rewrite <-!app_assoc.
Qed.

Lemma join_differ dir1 name1 dir2 name2 :
  slash ∉ bytes_of name1 → slash ∉ bytes_of name2 → name1 ≠ name2 → join dir1 name1 ≠ join dir2 name2.
Proof.
  intros H1 H2 Hne E. apply Hne. apply (inj bytes_of). by rewrite <-(base_join dir1 name1), <-(base_join dir2 name2), E.
Qed.

Lemma log_name_join dir name i : log_name (join dir name) i = join dir (log_name name i).
Proof.
  destruct i as [|i]; [done|]. unfold log_name, backup_path, join. apply (inj bytes_of).
  destruct (_ || _); by rewrite !bytes_of_app, <-?app_assoc.
Qed.

Ltac no_slash := apply (bool_decide_unpack _); vm_compute; exact I.

(** ** No two files collide *)

(** Every file the daemon, the Core it starts and the window keep in the two
    directories. *)
Definition files (socket_user : string) dirs : list string :=
  let socket := join (state_dir dirs) ("synbadd-" +:+ socket_user +:+ ".sock") in
  [socket; socket +:+ ".lock"; config_file dirs; pp_tmp (config_paths dirs); config_versions_file dirs; pp_tmp (versions_paths dirs);
   trusted_peers dirs; generated_conf dirs; generated_settings dirs; user_stopped_marker dirs; gui_socket dirs; launch_log dirs]
  ++ map (log_name (daemon_log dirs)) (seq 0 (S BACKUPS)) ++ map (log_name (core_log dirs)) (seq 0 (S BACKUPS)).

Definition names (socket_user : string) : list string :=
  ["synbadd-" +:+ socket_user +:+ ".sock"; "synbadd-" +:+ socket_user +:+ ".sock.lock"; "config.toml"; "config.toml.tmp"; "config.versions.json";
   "config.versions.json.tmp"; "trusted-peers.json"; "synergy.conf"; "deskflow.ini"; "user-stopped"; "synbad-gui.sock"; "synbadd.log"]%string
  ++ map (log_name "daemon.log") (seq 0 (S BACKUPS)) ++ map (log_name "core.log") (seq 0 (S BACKUPS)).

Lemma names_plain u : slash ∉ bytes_of u → Forall (λ n, slash ∉ bytes_of n) (names u).
Proof.
  intros Hu. unfold names. cbn [app seq map BACKUPS].
  assert (slash ∉ bytes_of "synbadd-" ∧ slash ∉ bytes_of ".sock" ∧ slash ∉ bytes_of ".sock.lock") as (Hs1 & Hs2 & Hs3) by no_slash.
  apply Forall_cons_2; [rewrite !bytes_of_app, !elem_of_app; by intros [?|[?|?]]|].
  apply Forall_cons_2; [rewrite !bytes_of_app, !elem_of_app; by intros [?|[?|?]]|].
  repeat (apply Forall_cons_2; [no_slash|]). apply Forall_nil_2.
Qed.

Lemma names_distinct u : NoDup (names u).
Proof.
  assert (("synbadd-" +:+ u +:+ ".sock")%string ≠ ("synbadd-" +:+ u +:+ ".sock.lock")%string) as Hlock.
  { intros E%(f_equal (λ s, length (bytes_of s))). rewrite !bytes_of_app, !length_app in E.
    change (length (bytes_of ".sock.lock")) with 10 in E. change (length (bytes_of ".sock")) with 5 in E. lia. }
  unfold names. cbn [app seq map BACKUPS].
  apply NoDup_cons; split; [|apply NoDup_cons; split].
  - rewrite !not_elem_of_cons. split; [done|]. split_and!; try (intros E; discriminate E). apply not_elem_of_nil.
  - rewrite !not_elem_of_cons. split_and!; try (intros E; discriminate E). apply not_elem_of_nil.
  - apply (bool_decide_unpack _). vm_compute. exact I.
Qed.

Lemma files_names u dirs : Forall2 (λ f n, ∃ dir, f = join dir n) (files u dirs) (names u).
Proof.
  unfold files, names, daemon_log, core_log. cbn [app seq map BACKUPS]. rewrite !log_name_join.
  unfold config_paths, versions_paths, config_file, config_versions_file. cbn [pp_tmp]. rewrite !with_extension_join by no_slash.
  repeat apply Forall2_cons_2; try (eexists; reflexivity); [|apply Forall2_nil_2].
  exists (state_dir dirs). apply (inj bytes_of). unfold join. destruct (_ || _); by rewrite !bytes_of_app, <-!app_assoc.
Qed.

(** No two of the files collide, wherever the platform puts the directories, even
    both in one place as on macOS, for any user name a path component can be. *)
Lemma files_distinct u dirs : slash ∉ bytes_of u → NoDup (files u dirs).
Proof.
  intros Hu. assert (map (λ f, base [] (bytes_of f)) (files u dirs) = map bytes_of (names u)) as E.
  { pose proof (names_plain u Hu) as Hp. induction (files_names u dirs) as [|f n fs ns [dir ->] _ IH]; [done|].
    apply Forall_cons in Hp as [Hn Hp]. cbn. by rewrite base_join, IH. }
  apply (NoDup_fmap_1 (λ f, base [] (bytes_of f))). change ((λ f, base [] (bytes_of f)) <$> files u dirs) with (map (λ f, base [] (bytes_of f)) (files u dirs)).
  rewrite E. apply NoDup_fmap_2; [|apply names_distinct]. intros s t Hst. by apply (inj bytes_of).
Qed.

(** ** The installed daemon's start *)

Section installed.
Context `{JsonSharedOps, Sha256Ops, HexOps, TomlOps, JsonOps SideCar, JsonOps TrustFile}.
Context (our_id our_fingerprint : string) (show_config_error : ConfigError → string) (show_trust_error : TrustError → string).

(** [run_daemon] with the paths of [paths.rs]. *)
Definition installed_run_daemon (dirs : option ProjectDirs) (env : LaunchEnv) : Fs → option Sup * Fs :=
  run_daemon our_id (config_paths dirs) (versions_paths dirs)
    {| st_log := daemon_log dirs; st_trust := st_trust env; st_listener_ok := st_listener_ok env; st_new := st_new env; st_stage := st_stage env |}.

(** C16: A start never loses a config.  Wherever the platform puts the directories and
    whatever call fails on the way: a config file that exists is left byte for byte
    as it is, malformed or not; where there was none, there is none or the default
    one, whole; a config the daemon cannot read stops it; and a daemon that starts
    runs on the config its file holds, in a state the run loop's invariants
    cover. *)
Theorem start_keeps_config `{!TomlLaws, !JsonLaws SideCar} dirs env fs r fs' :
  installed_run_daemon dirs env fs = (r, fs') →
  let path := config_file dirs in
  (is_Some (content path fs) → content path fs' = content path fs) ∧
  (content path fs = None → content path fs' = None ∨ (config_load path (healthy fs')).1 = Ok (Some default_Config)) ∧
  (is_ok (config_load path (healthy fs)).1 = false → r = None) ∧
  ∀ s, r = Some s →
    sup_reachable our_id our_fingerprint (config_paths dirs) (versions_paths dirs) show_config_error show_trust_error s ∧
    (config_load path (healthy fs')).1 = Ok (Some (sv_config s)).
Proof.
  intros E. assert (pp_tmp (config_paths dirs) = join (config_dir dirs) "config.toml.tmp") as Ht1
    by (unfold config_paths, config_file; cbn [pp_tmp]; by rewrite with_extension_join by no_slash).
  assert (pp_tmp (versions_paths dirs) = join (config_dir dirs) "config.versions.json.tmp") as Ht2
    by (unfold versions_paths, config_versions_file; cbn [pp_tmp]; by rewrite with_extension_join by no_slash).
  eapply (startup_keeps_config our_id our_fingerprint (config_paths dirs) (versions_paths dirs)); [..|exact E]; unfold pp_ok; rewrite ?Ht1, ?Ht2;
    try exact _; try (apply join_differ; [no_slash|no_slash|discriminate]).
  intros i Hi. cbn [st_log]. unfold daemon_log. rewrite log_name_join. unfold BACKUPS in Hi.
  apply join_differ; [no_slash|..]; do 4 (destruct i as [|i]; [first [discriminate|no_slash]|]); lia.
Qed.
End installed.

Section witnesses.
#[local] Existing Instances toy_json_shared toy_sha toy_hex toy_toml toy_toml_laws toy_json_sidecar toy_json_sidecar_laws toy_json_trust.

(** macOS: one directory for both. *)
Definition wit_dirs : option ProjectDirs := Some {| pd_config_dir := "/Users/a/synbad"; pd_data_local_dir := "/Users/a/synbad" |}.
Definition wit_broken : Fs := wit_disk [("/Users/a/synbad/config.toml"%string, wit_bad_config)].

Lemma start_keeps_config_witness :
  (installed_run_daemon "a" wit_dirs wit_start_env wit_broken).1 = None ∧
  content "/Users/a/synbad/config.toml" (installed_run_daemon "a" wit_dirs wit_start_env wit_broken).2 = Some wit_bad_config.
Proof.
  destruct (start_keeps_config "a" "ff" (λ _, "bad config"%string) (λ _, "bad trust"%string) wit_dirs wit_start_env wit_broken _ _
    (surjective_pairing _)) as (Hk & _ & Hr & _).
  split; [apply Hr; vm_compute; reflexivity|]. etrans; [apply Hk; eexists; vm_compute; reflexivity|vm_compute; reflexivity].
Defined.
End witnesses.
