(* ===== verification/Elevation.v ===== *)
(** * Elevation and restart ([crates/synbad-update/src/elevate.rs], [restart.rs])

    Which tool [apply_with_elevation] starts on Linux, how it reads the tool's exit,
    and that this, with the helper's short-circuit in [main], does what the
    updater's model of elevation assumes; the supervisors' restart commands. *)

From Stdlib Require Import Ascii ZArith Lia.
From S2P Require Import Prelude Primitives Config Store Conn FileOps Updater.

(** ** Processes *)

(** [std::process::ExitStatus]. *)
Inductive ExitStatus := Exited (code : Z) | Signalled.

Definition success (st : ExitStatus) : bool := match st with Exited c => bool_decide (c = 0%Z) | Signalled => false end.

Definition interpret_status (st : ExitStatus) (tool : string) : result string unit :=
  if success st then Ok tt else
  match st with
  | Exited 126 => Err (tool +:+ ": authentication dialog was cancelled")
  | Exited 127 => Err (tool +:+ ": authentication failed")
  | Exited c => Err (tool +:+ ": helper exited with status " +:+ pretty c)
  | Signalled => Err (tool +:+ ": helper terminated by signal")
  end.

(** [{:?}] of [ExitStatus::code]. *)
Definition debug_code (st : ExitStatus) : string := match st with Exited c => "Some(" +:+ pretty c +:+ ")" | Signalled => "None" end.

(** ** Which tool *)

(** [std::env::split_paths] on Unix. *)
Fixpoint split_paths (s cur : bytes) : list string :=
  match s with
  | [] => [string_of cur]
  | c :: s' => if decide (c = ":"%char) then string_of cur :: split_paths s' [] else split_paths s' (cur ++ [c])
  end.

Record ElevationEnv := {
  ss_display : bool;                        (* DISPLAY or WAYLAND_DISPLAY is set *)
  ss_path : option string;                  (* PATH *)
  ss_tty : bool;                            (* [isatty(0) == 1] *)
  ss_is_file : string → bool
}.

Definition which (ss : ElevationEnv) (name : string) : option string :=
  path ← ss_path ss; List.find (ss_is_file ss) (map (λ dir, join dir name) (split_paths (bytes_of path) [])).

Definition apply_args (plan_path : string) : list string := ["__apply-update"; "--plan"; plan_path]%string.

(** The command line, and the tool's name for messages. *)
Definition elevation_command (ss : ElevationEnv) (helper plan_path : string) : option (string * list string) :=
  if ss_display ss && bool_decide (is_Some (which ss "pkexec")) then Some ("pkexec"%string, helper :: apply_args plan_path) else
  if ss_tty ss && bool_decide (is_Some (which ss "sudo")) then Some ("sudo"%string, helper :: apply_args plan_path) else None.

(** ** Running it *)

Section elevation.
Context `{JsonOps Plan}.
(** What starting a command does: [Err] if it does not start. *)
Context (command_status : string → list string → Fs → result string ExitStatus * Fs).
(** The temporary names the helper's run picks. *)
Context (stage : string → string).

(** [main] of either binary: with the hidden subcommand it applies the plan and
    exits with 0 or 1; [None] otherwise. *)
Definition apply_update_helper (args : list string) (fs : Fs) : option (ExitStatus * Fs) :=
  (λ plan_path, let '(r, fs) := apply_plan stage plan_path fs in (Exited (if is_ok r then 0 else 1), fs)) <$> parse_apply_update_args args.

Definition linux_run (ss : ElevationEnv) (helper plan_path : string) (fs : Fs) : result string unit * Fs :=
  match elevation_command ss helper plan_path with
  | None => (Err ("no elevation tool available — install `pkexec` (preferred for GUI sessions) or run the updater from a terminal with `sudo`")%string, fs)
  | Some (tool, args) =>
    let '(r, fs) := command_status tool args fs in
    (match r with Err e => Err ("spawn " +:+ tool +:+ ": " +:+ e) | Ok st => interpret_status st tool end, fs)
  end.

Definition apply_with_elevation_linux (ss : ElevationEnv) (helper plan_path : string) (fs : Fs) : result string unit * Fs :=
  if negb (bool_decide (is_Some (content helper fs))) then 
    (Err ("elevation helper not found at `" +:+ helper +:+ "` — the sibling Synbad binary must be installed alongside the running one for in-place updates to system locations"), fs)
  else linux_run ss helper plan_path fs.

(** [pkexec(1)], [sudo(8)]: the tool does not start, or exits with a code of its own
    other than 0, or runs its first argument on the others and exits as that did.
    What it runs here is a Synbad binary. *)
Definition elevator (tool : string) : Prop := ∀ helper args fs,
  (∃ e, command_status tool (helper :: args) fs = (Err e, fs)) ∨
  (∃ st, success st = false ∧ command_status tool (helper :: args) fs = (Ok st, fs)) ∨
  (∃ st fs', apply_update_helper args fs = Some (st, fs') ∧ command_status tool (helper :: args) fs = (Ok st, fs')).

Lemma interpret_status_ok st tool : is_ok (interpret_status st tool) = success st.
Proof.
  unfold interpret_status. destruct (success st) eqn:E; [done|]. destruct st as [c|]; [|done].
  destruct c as [|c|c]; [done| |done]. by repeat (destruct c as [c|c|]; [| |]; try done).
Qed.

(** The tool chosen. *)
Lemma elevation_command_spec ss helper plan_path tool args :
  elevation_command ss helper plan_path = Some (tool, args) →
  args = helper :: apply_args plan_path ∧
  ((tool = "pkexec"%string ∧ ss_display ss = true) ∨
   (tool = "sudo"%string ∧ ss_tty ss = true ∧ (ss_display ss = true → which ss "pkexec" = None))).
Proof.
  unfold elevation_command. destruct (ss_display ss) eqn:Ed; cbn [andb].
  - case_bool_decide as Hp; [intros [= <- <-]; auto|]. destruct (ss_tty ss) eqn:Et; [|done]. case_bool_decide; [|done].
    intros [= <- <-]. split; [done|]. right. split_and!; [done..|]. intros _. by apply eq_None_not_Some.
  - destruct (ss_tty ss) eqn:Et; [|done]. cbn [andb]. case_bool_decide; [|done]. intros [= <- <-]. split; [done|]. right. by split_and!.
Qed.

(** The updater's world, in which the tool does or does not start the helper. *)
Definition with_tool (env : UpdateEnv) (started : result string unit) : UpdateEnv :=
  {| ue_current_exe := ue_current_exe env; ue_tmp_dir := ue_tmp_dir env; ue_response := ue_response env; ue_stage := ue_stage env; ue_elevated := started |}.

Lemma with_tool_spec env started helper plan_path fs prog :
  apply_with_elevation (with_tool env started) helper plan_path {| up_fs := fs; up_progress := prog |} =
  if negb (bool_decide (is_Some (content helper fs))) then (Failed ("elevation helper not found at `" +:+ helper +:+ "`"), {| up_fs := fs; up_progress := prog |}) else
  match started with
  | Err e => (Failed e, {| up_fs := fs; up_progress := prog |})
  | Ok _ => let '(r, fs) := apply_plan (ue_stage env) plan_path fs in
            (match r with Ok _ => Done tt | Err e => Failed e end, {| up_fs := fs; up_progress := prog |})
  end.
Proof.
  unfold apply_with_elevation, is_file, ask_fs, plift, sys_val, mbind, prog_bind. cbn [up_fs].
  destruct (negb _); [done|]. cbn [with_tool ue_elevated ue_stage]. destruct started as [[]|e]; [|done].
  change (parse_apply_update_args _) with (Some plan_path). cbn. by destruct (apply_plan _ _ fs) as [[] fs1].
Qed.

(** C32: Elevation refines what the updater's model assumes of it: under tools that
    behave as documented, what [apply_with_elevation] does on Linux is what the
    model does for some outcome of the tool: the plan is applied exactly once by
    the helper, which reads back the very path it was given, and success is
    reported exactly when that application succeeded; or nothing is touched and an
    error is reported.  The dialog is only used with a display, [sudo] only with a
    terminal. *)
Theorem elevation_refines ss helper plan_path env prog fs r fs' :
  (∀ tool, tool ∈ ["pkexec"; "sudo"]%string → elevator tool) → ue_stage env = stage →
  apply_with_elevation_linux ss helper plan_path fs = (r, fs') →
  (∃ started, let '(o, s') := apply_with_elevation (with_tool env started) helper plan_path {| up_fs := fs; up_progress := prog |} in
     up_fs s' = fs' ∧ up_progress s' = prog ∧ (r = Ok tt ↔ o = Done tt)) ∧
  ((r = Ok tt ∧ is_ok (apply_plan stage plan_path fs).1 = true ∧ fs' = (apply_plan stage plan_path fs).2) ∨
   ((∃ e, r = Err e) ∧ (fs' = fs ∨ (is_ok (apply_plan stage plan_path fs).1 = false ∧ fs' = (apply_plan stage plan_path fs).2)))) ∧
  (∀ tool args, elevation_command ss helper plan_path = Some (tool, args) →
     parse_apply_update_args (tail args) = Some plan_path ∧
     (tool = "pkexec"%string ∧ ss_display ss = true ∨ tool = "sudo"%string ∧ ss_tty ss = true)).
Proof.
  intros Htool Hstage. unfold apply_with_elevation_linux.
  assert (∀ tool args, elevation_command ss helper plan_path = Some (tool, args) →
     parse_apply_update_args (tail args) = Some plan_path ∧
     (tool = "pkexec"%string ∧ ss_display ss = true ∨ tool = "sudo"%string ∧ ss_tty ss = true)) as Hcmd.
  { intros tool args [-> Ht]%elevation_command_spec. split; [done|]. destruct Ht as [Ht|(? & ? & _)]; auto. }
  destruct (negb (bool_decide (is_Some (content helper fs)))) eqn:Eh.
  { intros [= <- <-]. split; [|split; [right; eauto|done]]. exists (Ok tt). rewrite with_tool_spec, Eh. split_and!; [done..|]. by split. }
  (* the helper did not run *)
  assert (∀ e, r = Err e → fs' = fs → ∃ started,
    let '(o, s') := apply_with_elevation (with_tool env started) helper plan_path {| up_fs := fs; up_progress := prog |} in
    up_fs s' = fs' ∧ up_progress s' = prog ∧ (r = Ok tt ↔ o = Done tt)) as Hnot.
  { intros e -> ->. exists (Err e). rewrite with_tool_spec, Eh. split_and!; [done..|]. by split. }
  unfold linux_run. destruct (elevation_command ss helper plan_path) as [[tool args]|] eqn:Ec.
  2: { intros [= <- <-]. split; [by eapply Hnot|split; [right; eauto|done]]. }
  apply elevation_command_spec in Ec as [-> Ht]. assert (tool ∈ ["pkexec"; "sudo"]%string) as Hin by (destruct Ht as [[-> _]|[-> _]]; set_solver).
  destruct (Htool tool Hin helper (apply_args plan_path) fs) as [[e ->]|[(st & Hst & ->)|(st & fs1 & Hmain & ->)]].
  - intros [= <- <-]. split; [by eapply Hnot|split; [right; eauto|done]].
  - intros [= Hr <-]. pose proof (interpret_status_ok st tool) as Hi. rewrite Hst, Hr in Hi.
    destruct r as [|e]; [done|]. split; [by eapply Hnot|split; [right; eauto|done]].
  - unfold apply_update_helper in Hmain. change (parse_apply_update_args _) with (Some plan_path) in Hmain. cbn in Hmain.
    destruct (apply_plan stage plan_path fs) as [rp fsp] eqn:Ep. injection Hmain as <- <-.
    intros [= Hr <-]. pose proof (interpret_status_ok (Exited (if is_ok rp then 0 else 1)) tool) as Hi. rewrite Hr in Hi.
    split; [|split; [|done]].
    + exists (Ok tt). rewrite with_tool_spec, Eh, Hstage, Ep. destruct rp, r as [[]|]; cbn in *; try done; by split_and!.
    + destruct rp, r as [[]|]; cbn in *; try done; [left|right]; eauto 6.
Qed.
End elevation.

(** ** macOS: the script *)

Fixpoint shell_escape (s : bytes) : bytes :=
  match s with
  | [] => []
  | c :: s' => if decide (c = "\"%char) then "\"%char :: "\"%char :: shell_escape s' else
               if decide (c = byte_of_Z 34) then "\"%char :: c :: shell_escape s' else c :: shell_escape s'
  end.

Definition macos_script (helper plan_path : string) : bytes :=
  bytes_of "do shell script " ++ [byte_of_Z 34] ++ shell_escape (bytes_of helper) ++ bytes_of " __apply-update --plan "
  ++ shell_escape (bytes_of plan_path) ++ [byte_of_Z 34] ++ bytes_of " with administrator privileges".

(** A string literal up to its closing quote, and what follows. *)
Fixpoint read_literal (s : bytes) : option (bytes * bytes) :=
  match s with
  | [] => None
  | c :: s' =>
    if decide (c = byte_of_Z 34) then Some ([], s') else
    if decide (c = "\"%char) then match s' with [] => None | d :: s'' => (λ '(l, r), (d :: l, r)) <$> read_literal s'' end
    else (λ '(l, r), (c :: l, r)) <$> read_literal s'
  end.

(** No path closes the literal early or loses a character in it. *)
Lemma read_escaped s t : read_literal (shell_escape s ++ t) = (λ '(l, r), (s ++ l, r)) <$> read_literal t.
Proof.
  induction s as [|c s IH]; cbn [shell_escape app]; [by destruct (read_literal t) as [[]|]|].
  destruct (decide (c = "\"%char)) as [->|H1]; [|destruct (decide (c = byte_of_Z 34)) as [->|H2]]; cbn [app read_literal].
  - cbn. rewrite IH. by destruct (read_literal t) as [[]|].
  - cbn. rewrite IH. by destruct (read_literal t) as [[]|].
  - rewrite decide_False, decide_False by done. rewrite IH. by destruct (read_literal t) as [[]|].
Qed.

(** The literal is the shell's command line, in which the paths stand unquoted: a
    blank in one ends its word. *)
Lemma macos_command_line helper plan_path :
  read_literal (drop 17 (macos_script helper plan_path)) =
  Some (bytes_of helper ++ bytes_of " __apply-update --plan " ++ bytes_of plan_path, bytes_of " with administrator privileges").
Proof.
  change (drop 17 (macos_script helper plan_path)) with
    (shell_escape (bytes_of helper) ++ bytes_of " __apply-update --plan " ++ shell_escape (bytes_of plan_path)
     ++ byte_of_Z 34 :: bytes_of " with administrator privileges").
  rewrite read_escaped. change (bytes_of " __apply-update --plan ") with (shell_escape (bytes_of " __apply-update --plan ")) at 1.
  rewrite !read_escaped. change (read_literal (byte_of_Z 34 :: ?r)) with (Some ([] : bytes, r)). cbn [fmap option_fmap option_map].
  by rewrite app_nil_r.
Qed.

(** ** Restarting the daemon *)

(** [run] starts a command of the platform's supervisor. *)
Definition linux_restart (run : list string → result string ExitStatus) : result string unit :=
  match run ["systemctl"; "--user"; "restart"; "synbadd.service"]%string with
  | Err e => Err ("spawn systemctl: " +:+ e)
  | Ok st => if success st then Ok tt else Err ("systemctl --user restart synbadd.service exited with " +:+ debug_code st)
  end.

Definition macos_restart (uid : Z) (run : list string → result string ExitStatus) : result string unit :=
  let target := "gui/" +:+ pretty uid +:+ "/dev.synbad.synbadd" in
  match run ["launchctl"; "kickstart"; "-k"; target]%string with
  | Err e => Err ("spawn launchctl: " +:+ e)
  | Ok st => if success st then Ok tt else Err ("launchctl kickstart -k " +:+ target +:+ " exited with " +:+ debug_code st)
  end.

(** The task need not have been running. *)
Definition windows_restart (run : list string → result string ExitStatus) : result string unit :=
  match run ["schtasks"; "/End"; "/TN"; "SynbadDaemon"]%string with
  | Err e => Err ("spawn schtasks /End: " +:+ e)
  | Ok _ =>
    match run ["schtasks"; "/Run"; "/TN"; "SynbadDaemon"]%string with
    | Err e => Err ("spawn schtasks /Run: " +:+ e)
    | Ok st => if success st then Ok tt else Err ("schtasks /Run /TN SynbadDaemon exited with " +:+ debug_code st)
    end
  end.

(** ** A concrete elevation *)

Section witnesses.
#[local] Existing Instances toy_json_plan.

Definition wit_session : ElevationEnv :=
  {| ss_display := true; ss_path := Some "/bin:/usr/bin"%string; ss_tty := false; ss_is_file := λ p, bool_decide (p = "/usr/bin/pkexec"%string) |}.
(** The user agrees to everything. *)
Definition wit_command (tool : string) (argv : list string) (fs : Fs) : result string ExitStatus * Fs :=
  match apply_update_helper (λ d, d +:+ ".stage") (tail argv) fs with Some (st, fs) => (Ok st, fs) | None => (Ok (Exited 2), fs) end.
Definition wit_plan : Plan := {| pl_tag := "v2"; pl_moves := [{| pm_src := "/tmp/u/synbadd"; pm_dst := "/opt/synbadd" |}] |}.
Definition wit_plan_fs : Fs :=
  {| fs_files := {["/opt/synbadd"%string := bytes_of "old"; "/tmp/u/synbadd"%string := bytes_of "new";
                   "/tmp/u/plan.json"%string := default [] (to_vec wit_plan)]}; fs_faults := [] |}.

Example elevation_refines_witness :
  elevation_command wit_session "/opt/synbadd" "/tmp/u/plan.json" =
    Some ("pkexec", ["/opt/synbadd"; "__apply-update"; "--plan"; "/tmp/u/plan.json"])%string ∧
  let '(r, fs') := apply_with_elevation_linux wit_command wit_session "/opt/synbadd" "/tmp/u/plan.json" wit_plan_fs in
  r = Ok tt ∧ fs' = (apply_plan (λ d, d +:+ ".stage") "/tmp/u/plan.json" wit_plan_fs).2.
Proof.
  split; [reflexivity|].
  assert (is_ok (apply_with_elevation_linux wit_command wit_session "/opt/synbadd" "/tmp/u/plan.json" wit_plan_fs).1 = true) as Hok by (vm_compute; reflexivity).
  destruct (apply_with_elevation_linux wit_command wit_session "/opt/synbadd" "/tmp/u/plan.json" wit_plan_fs) as [r fs'] eqn:E.
  destruct (elevation_refines wit_command (λ d, d +:+ ".stage") wit_session "/opt/synbadd" "/tmp/u/plan.json"
    {| ue_current_exe := "/opt/synbadd"; ue_tmp_dir := "/tmp/u"; ue_response := Err ""%string; ue_stage := λ d, d +:+ ".stage"; ue_elevated := Ok tt |}
    [] wit_plan_fs r fs') as (_ & [(-> & _ & ->)|[[e ->] _]] & _); [|reflexivity|exact E|split; reflexivity|discriminate Hok].
  intros tool _ helper args fs. unfold wit_command. cbn [tail].
  destruct (apply_update_helper _ args fs) as [[st fs1]|] eqn:Ea; [right; right; eauto|right; left; exists (Exited 2); split; reflexivity].
Defined.
End witnesses.
