(* ===== verification/Tray.v ===== *)
(** * The window between tray and screen ([crates/synbad-gui/src/tray.rs], [app/mod.rs])

    One turn of the window's event loop with everything that can raise, hide or end
    it: clicks in the tray's menu, SHOW pings from later launches, and close
    requests. *)

From Stdlib Require Import ZArith Lia.
From S2P Require Import Prelude Primitives Config Versioned IpcTypes LogParse Store CoreProc SupState NetSync Supervisor IpcWire FileOps Updater GuiApp UpdateDialog.

Definition MENU_ID_SHOW : string := "synbad.show".
Definition MENU_ID_CHECK_UPDATES : string := "synbad.check-updates".
Definition MENU_ID_QUIT : string := "synbad.quit".

(** [FxShow] stands for [Visible(true)] and [Focus]. *)
Definition on_app (f : App → App) (w : Win) : Win := w <| wn_app := f (wn_app w) |>.

(** The pings queued since the last turn; [None]: there is no guard to listen with. *)
Definition drain_show_requests (show_rx : option nat) (w : Win) : Win :=
  match show_rx with Some (S _) => on_app (fx FxShow) w | _ => w end.

Section tray.
Context `{SemverOps, TarOps, SelfReplaceOps, JsonOps Plan}.
Context (current_version : string).

Definition tray_click (world : UpdateWorld) (id : string) (w : Win) : Win :=
  if decide (id = MENU_ID_SHOW) then on_app (fx FxShow) w else
  if decide (id = MENU_ID_CHECK_UPDATES) then open_update_dialog current_version world (on_app (fx FxShow) w) else
  if decide (id = MENU_ID_QUIT) then on_app (λ a, fx FxClose (a <| ga_quitting := true |>)) w else w.

Definition drain_tray (world : UpdateWorld) (ids : list string) (w : Win) : Win :=
  if negb (ga_has_tray (wn_app w)) then w else fold_left (λ w id, tray_click world id w) ids w.

(** [SynbadApp::update] up to the panels. *)
Definition update (now : Z) (updates : list Update) (world : UpdateWorld) (ids : list string) (show_rx : option nat)
    (close_requested : bool) (fresh : list MonitorInfo) (w : Win) : Win :=
  let w := on_app (drain_ipc now updates) w in
  let w := drain_tray world ids w in
  let w := drain_show_requests show_rx w in
  let w := on_app (handle_close close_requested) w in
  let w := w <| wn_update_state := poll (wn_update_state w) |> in
  on_app (periodic now fresh) w.

(** ** What the effects come to *)

(** Whether the window is on screen after its commands. *)
Definition shown (l : list GuiFx) (before : bool) : bool :=
  fold_left (λ v x, match x with FxShow => true | FxHide => false | _ => v end) l before.

Definition only_cmds (l : list GuiFx) : Prop := Forall (λ x, match x with FxCmd _ => True | _ => False end) l.

(** [a'] is [a] after sending some commands to the daemon, and whatever else. *)
Record quietly (a a' : App) : Prop := {
  qt_fx : ∃ l, ga_fx a' = ga_fx a ++ l ∧ only_cmds l;
  qt_tray : ga_has_tray a' = ga_has_tray a;
  qt_quitting : ga_quitting a' = ga_quitting a;
  qt_sent : ga_daemon_shutdown_sent a' = ga_daemon_shutdown_sent a
}.

Lemma quietly_same a a' :
  ga_fx a' = ga_fx a → ga_has_tray a' = ga_has_tray a → ga_quitting a' = ga_quitting a → ga_daemon_shutdown_sent a' = ga_daemon_shutdown_sent a →
  quietly a a'.
Proof. intros. split; try done. exists []. rewrite app_nil_r. by split; [|constructor]. Qed.

Lemma quietly_trans a b c : quietly a b → quietly b c → quietly a c.
Proof.
  intros [(l1 & E1 & Hc1) ? ? ?] [(l2 & E2 & Hc2) ? ? ?]. split; [|congruence..]. exists (l1 ++ l2). rewrite E2, E1, app_assoc.
  split; [done|by apply Forall_app].
Qed.

Lemma send_quietly cmd a : quietly a (send cmd a).
Proof. split; try done. exists [FxCmd cmd]. split; [done|by repeat constructor]. Qed.

Lemma push_log_quietly l a : quietly a (push_log l a).
Proof. by apply quietly_same. Qed.

Lemma apply_update_quietly now u a : quietly a (apply_update now u a).
Proof.
  destruct u; cbn [apply_update]; try (by apply quietly_same); try apply send_quietly.
  - cbv zeta. match goal with |- quietly a (fold_left _ ?ls ?b) => apply (quietly_trans _ b); [by apply quietly_same|]; generalize b; induction ls as [|l logs IH] end;
    intros b; cbn [fold_left]; [by apply quietly_same|]. eapply quietly_trans; [apply push_log_quietly|apply IH].
  - by destruct (ga_dirty a); apply quietly_same.
  - by destruct (is_running state); apply quietly_same.
Qed.

Lemma drain_ipc_quietly now us a : quietly a (drain_ipc now us a).
Proof.
  unfold drain_ipc. revert a. induction us as [|u us IH]; intros a; cbn [fold_left]; [by apply quietly_same|].
  eapply quietly_trans; [apply apply_update_quietly|apply IH].
Qed.

Lemma periodic_quietly now fresh a : quietly a (periodic now fresh a).
Proof.
  assert (∀ a, quietly a (reconcile fresh a)) as Hr.
  { intros a0. unfold reconcile. destruct (negb _); [by apply quietly_same|]. destruct (bool_decide _); [by apply quietly_same|].
    destruct (ga_dragging a0); [by apply quietly_same|]. cbv zeta. destruct (mirror_monitors _ _) as [b ss].
    destruct (b || _); [|by apply quietly_same]. split; try done. eexists [FxCmd _]. split; [done|by repeat constructor]. }
  unfold periodic. cbv zeta. match goal with |- context [if ?b then reconcile ?x ?y else a] => set (a1 := if b then reconcile x y else a) end.
  assert (quietly a a1) as Hq1. { subst a1. destruct (match _ with Some _ => _ | None => _ end); [|by apply quietly_same]. eapply quietly_trans; [|apply Hr]. by apply quietly_same. }
  destruct (ga_last_sync_status a1) as [s|]; [|done]. destruct (bool_decide _); [|done]. eapply quietly_trans; [exact Hq1|]. by apply quietly_same.
Qed.

(** The clicks of one turn. *)
Definition raises (id : string) : bool := bool_decide (id = MENU_ID_SHOW ∨ id = MENU_ID_CHECK_UPDATES).

Lemma shown_app l1 l2 v : shown (l1 ++ l2) v = shown l2 (shown l1 v).
Proof. apply fold_left_app. Qed.

Lemma shown_cmds l v : only_cmds l → shown l v = v.
Proof. induction 1 as [|x l Hx _ IH]; [done|]. by destruct x. Qed.

Lemma shutdowns_plus l1 l2 : shutdowns (l1 ++ l2) = shutdowns l1 + shutdowns l2.
Proof. unfold shutdowns. by rewrite List.filter_app, length_app. Qed.

Lemma shutdowns_cmds l : only_cmds l → shutdowns l = 0.
Proof. induction 1 as [|x l Hx _ IH]; [done|]. by destruct x. Qed.

Lemma open_update_dialog_app world w : wn_app (open_update_dialog current_version world w) = wn_app w ∧
  wn_show_update_dialog (open_update_dialog current_version world w) = true.
Proof. unfold open_update_dialog. by destruct (wn_update_state w) as [[]|] eqn:E; cbn; rewrite ?E. Qed.

(** What the clicks add: raisings and closings, in order. *)
Lemma clicks_spec world ids w :
  let w' := fold_left (λ w id, tray_click world id w) ids w in
  ∃ l, ga_fx (wn_app w') = ga_fx (wn_app w) ++ l ∧ shutdowns l = 0 ∧
    (∀ v, shown l v = v || existsb raises ids) ∧ (FxClose ∈ l ↔ MENU_ID_QUIT ∈ ids) ∧
    ga_quitting (wn_app w') = ga_quitting (wn_app w) || bool_decide (MENU_ID_QUIT ∈ ids) ∧
    ga_has_tray (wn_app w') = ga_has_tray (wn_app w) ∧ ga_daemon_shutdown_sent (wn_app w') = ga_daemon_shutdown_sent (wn_app w) ∧
    wn_show_update_dialog w' = wn_show_update_dialog w || bool_decide (MENU_ID_CHECK_UPDATES ∈ ids).
Proof.
  revert w. induction ids as [|id ids IH]; intros w; cbv zeta; cbn [fold_left].
  { exists []. rewrite app_nil_r, !bool_decide_eq_false_2, !orb_false_r by by intros ?%not_elem_of_nil.
    split_and!; try done; [intros v; by rewrite orb_false_r|]. split; by intros ?%not_elem_of_nil. }
  assert (∃ x, ga_fx (wn_app (tray_click world id w)) = ga_fx (wn_app w) ++ x ∧ shutdowns x = 0 ∧
    (∀ v, shown x v = v || raises id) ∧ (FxClose ∈ x ↔ id = MENU_ID_QUIT) ∧
    ga_quitting (wn_app (tray_click world id w)) = ga_quitting (wn_app w) || bool_decide (id = MENU_ID_QUIT) ∧
    ga_has_tray (wn_app (tray_click world id w)) = ga_has_tray (wn_app w) ∧
    ga_daemon_shutdown_sent (wn_app (tray_click world id w)) = ga_daemon_shutdown_sent (wn_app w) ∧
    wn_show_update_dialog (tray_click world id w) = wn_show_update_dialog w || bool_decide (id = MENU_ID_CHECK_UPDATES)) as
    (x & Ex & Sx & Vx & Cx & Qx & Tx & Dx & Ux).
  { unfold tray_click, raises. destruct (decide (id = MENU_ID_SHOW)) as [->|N1]; [|destruct (decide (id = MENU_ID_CHECK_UPDATES)) as [->|N2];
      [|destruct (decide (id = MENU_ID_QUIT)) as [->|N3]]].
    - exists [FxShow]. rewrite !orb_false_r. split_and!; try done; [intros v; by destruct v|]. split; [by intros ?%list_elem_of_singleton|done].
    - destruct (open_update_dialog_app world (on_app (fx FxShow) w)) as [-> ->]. exists [FxShow].
      rewrite orb_false_r, orb_true_r. split_and!; try done; [intros v; by destruct v|]. split; [by intros ?%list_elem_of_singleton|done].
    - exists [FxClose]. rewrite orb_true_r, orb_false_r. split_and!; try done; [intros v; by destruct v|]. split; [done|]. intros _. by apply list_elem_of_singleton.
    - exists []. rewrite app_nil_r, !bool_decide_eq_false_2, !orb_false_r by naive_solver. split_and!; try done.
      + intros v. by rewrite orb_false_r.
      + split; [|done]. by intros ?%not_elem_of_nil. }
  destruct (IH (tray_click world id w)) as (l & El & Sl & Vl & Cl & Ql & Tl & Dl & Ul). exists (x ++ l).
  rewrite El, Ex, Ql, Qx, Tl, Tx, Dl, Dx, Ul, Ux, <-app_assoc, shutdowns_plus, Sl, Sx, <-!orb_assoc. split_and!; try done.
  - intros v. rewrite shown_app, Vl, Vx. cbn [existsb]. by rewrite orb_assoc.
  - rewrite elem_of_app, elem_of_cons, Cx, Cl. clear. naive_solver.
  - f_equal. apply eq_true_iff_eq. rewrite orb_true_iff, !bool_decide_eq_true, elem_of_cons. clear. naive_solver.
  - f_equal. apply eq_true_iff_eq. rewrite orb_true_iff, !bool_decide_eq_true, elem_of_cons. clear. naive_solver.
Qed.
Definition pinged (show_rx : option nat) : bool := match show_rx with Some (S _) => true | _ => false end.

(** A window with a tray icon can always be brought back, and only Quit ends it.
    Until the user has chosen Quit, in any turn of its loop: without a click on Quit
    nothing shuts the daemon down and the window is not closed; a close request is
    cancelled and hides it, and otherwise a click on Show or on Check for updates, or
    a ping of a later launch, shows it, and nothing else changes whether it is on
    screen.  With a click on Quit, the daemon is told to shut down exactly once,
    even if the window was hidden, and the window closes and is not hidden again.
    Check for updates opens the dialog. *)
Theorem tray_turn now updates world ids show_rx close_requested fresh w :
  app_reachable (wn_app w) → ga_has_tray (wn_app w) = true → ga_quitting (wn_app w) = false →
  let w' := update now updates world ids show_rx close_requested fresh w in
  ∃ l, ga_fx (wn_app w') = ga_fx (wn_app w) ++ l ∧
    (MENU_ID_QUIT ∉ ids →
       ga_quitting (wn_app w') = false ∧ shutdowns l = 0 ∧ FxClose ∉ l ∧
       ∀ v, shown l v = if close_requested then false else v || existsb raises ids || pinged show_rx) ∧
    (MENU_ID_QUIT ∈ ids → ga_quitting (wn_app w') = true ∧ shutdowns l = 1 ∧ FxClose ∈ l ∧ ∀ v, v = true → shown l v = true) ∧
    (MENU_ID_CHECK_UPDATES ∈ ids → wn_show_update_dialog w' = true).
Proof.
  intros Hreach Htray Hquit. cbv zeta. assert (ga_daemon_shutdown_sent (wn_app w) = false) as Hsent.
  { destruct (ga_daemon_shutdown_sent (wn_app w)) eqn:E; [|done]. pose proof (wo_tray _ (window_invariant _ Hreach) E Htray). congruence. }
  unfold update. set (w1 := on_app (drain_ipc now updates) w).
  destruct (drain_ipc_quietly now updates (wn_app w)) as [(l1 & El1 & Hl1) Ht1 Hq1 Hs1]. fold (wn_app w1) in El1, Ht1, Hq1, Hs1.
  change (drain_ipc now updates (wn_app w)) with (wn_app w1) in *.
  assert (drain_tray world ids w1 = fold_left (λ w id, tray_click world id w) ids w1) as -> by (unfold drain_tray; by rewrite Ht1, Htray).
  destruct (clicks_spec world ids w1) as (l2 & El2 & Sl2 & Vl2 & Cl2 & Ql2 & Tl2 & Dl2 & Ul2). cbv zeta in *.
  set (w2 := fold_left _ ids w1) in *. rewrite Ht1, Htray in Tl2. rewrite Hq1, Hquit in Ql2. rewrite Hs1, Hsent in Dl2. cbn [orb] in Ql2.
  set (w3 := drain_show_requests show_rx w2).
  assert (ga_fx (wn_app w3) = ga_fx (wn_app w2) ++ (if pinged show_rx then [FxShow] else []) ∧ ga_has_tray (wn_app w3) = true ∧
    ga_quitting (wn_app w3) = bool_decide (MENU_ID_QUIT ∈ ids) ∧ ga_daemon_shutdown_sent (wn_app w3) = false ∧
    wn_show_update_dialog w3 = wn_show_update_dialog w2) as (El3 & Tl3 & Ql3 & Dl3 & Ul3).
  { subst w3. unfold drain_show_requests. destruct show_rx as [[|n]|]; cbn; by rewrite ?app_nil_r. }
  clearbody w1 w2 w3. set (w4 := on_app (handle_close close_requested) w3).
  assert (ga_fx (wn_app w4) = ga_fx (wn_app w3) ++ (if bool_decide (MENU_ID_QUIT ∈ ids) then [FxShutdownDaemon]
                                                    else if close_requested then [FxCancelClose; FxHide] else []) ∧
    ga_quitting (wn_app w4) = ga_quitting (wn_app w3) ∧ wn_show_update_dialog w4 = wn_show_update_dialog w3) as (El4 & Ql4 & Ul4).
  { subst w4. change (wn_show_update_dialog (on_app _ w3)) with (wn_show_update_dialog w3).
    change (wn_app (on_app ?f w3)) with (f (wn_app w3)). unfold handle_close. rewrite Tl3, Ql3. destruct (bool_decide (MENU_ID_QUIT ∈ ids)); cbn [andb negb].
    - rewrite orb_true_r. unfold shutdown_daemon_once. by rewrite Dl3.
    - destruct close_requested; cbn; [by rewrite <-app_assoc|by rewrite app_nil_r]. }
  destruct (periodic_quietly now fresh (wn_app w4)) as [(l5 & El5 & Hl5) _ Ql5 _].
  match goal with |- context [on_app (periodic now fresh) ?x] => set (w5 := on_app (periodic now fresh) x) end.
  change (periodic now fresh (wn_app w4)) with (wn_app w5) in *. change (wn_show_update_dialog w5) with (wn_show_update_dialog w4).
  rewrite El5, El4, El3, El2, El1, Ql5, Ql4, Ql3, Ul4, Ul3, Ul2, <-!app_assoc. eexists. split; [reflexivity|].
  assert (∀ l, only_cmds l → FxClose ∉ l) as Hno by (intros l Hl Hin; by apply (proj1 (Forall_forall _ _) Hl) in Hin).
  split_and!.
  - intros Hn. rewrite !bool_decide_eq_false_2 by done. rewrite !shutdowns_plus, (shutdowns_cmds l1), (shutdowns_cmds l5), Sl2 by done. split_and!; [done|..].
    + by destruct (pinged show_rx), close_requested.
    + rewrite !elem_of_app. pose proof (Hno _ Hl1). pose proof (Hno _ Hl5). destruct (pinged show_rx), close_requested; set_solver.
    + intros v. rewrite !shown_app, (shown_cmds l1), (shown_cmds l5), Vl2 by done. destruct (pinged show_rx), close_requested; cbn; by rewrite ?orb_true_r, ?orb_false_r.
  - intros Hin. rewrite !bool_decide_eq_true_2 by done. rewrite !shutdowns_plus, (shutdowns_cmds l1), (shutdowns_cmds l5), Sl2 by done. split_and!; [done|by destruct (pinged show_rx)|..].
    + rewrite !elem_of_app. right; left. by apply Cl2.
    + intros v ->. rewrite !shown_app, (shown_cmds l1), (shown_cmds l5), Vl2 by done. by destruct (pinged show_rx).
  - intros Hin. rewrite (bool_decide_eq_true_2 _ Hin). apply orb_true_r.
Qed.
End tray.

Section witnesses.
#[local] Existing Instances toy_semver toy_tar toy_self_replace toy_json_plan.

Definition wit_window : Win := win_new (app_new true [] true).
Definition wit_turn (ids : list string) (pings : nat) (close_requested : bool) : Win :=
  update "1.0.0" 0 [] (wit_world 9) ids (Some pings) close_requested [] wit_window.

(** Closed into the tray; closed and quit in one turn. *)
Example tray_turn_witness :
  shown (ga_fx (wn_app (wit_turn [] 0 true))) true = false ∧ shown (ga_fx (wn_app (wit_turn [] 2 false))) false = true ∧
  shutdowns (ga_fx (wn_app (wit_turn [MENU_ID_SHOW; MENU_ID_QUIT] 0 true))) = 1.
Proof.
  assert (app_reachable (wn_app wit_window)) as Hr by apply gr_new.
  assert (MENU_ID_QUIT ∉ []) as Hn by (intros Hin; inversion Hin).
  assert (MENU_ID_QUIT ∈ [MENU_ID_SHOW; MENU_ID_QUIT]) as Hin by (right; left).
  split_and!.
  - destruct (tray_turn "1.0.0" 0 [] (wit_world 9) [] (Some 0) true [] wit_window Hr eq_refl eq_refl) as (l & E & Hq & _).
    destruct (Hq Hn) as (_ & _ & _ & Hv). unfold wit_turn. rewrite E. exact (Hv true).
  - destruct (tray_turn "1.0.0" 0 [] (wit_world 9) [] (Some 2) false [] wit_window Hr eq_refl eq_refl) as (l & E & Hq & _).
    destruct (Hq Hn) as (_ & _ & _ & Hv). unfold wit_turn. rewrite E. exact (Hv false).
  - destruct (tray_turn "1.0.0" 0 [] (wit_world 9) [MENU_ID_SHOW; MENU_ID_QUIT] (Some 0) true [] wit_window Hr eq_refl eq_refl) as (l & E & _ & Hq & _).
    destruct (Hq Hin) as (_ & Hs & _). unfold wit_turn. rewrite E. exact Hs.
Defined.
End witnesses.
