(* ===== verification/CoreLog.v ===== *)
(** * Reading the Core's output ([spawn_log_reader], [crates/synbadd/src/supervisor/core_proc.rs])

    The task behind each of the Core's output pipes: it cuts the stream into lines
    of bounded length, for the log on disk and for the supervisor's channel. *)

From Stdlib Require Import Ascii ZArith Lia.
From S2P Require Import Prelude Config IpcTypes LogParse Startup.

(** Kept small enough to compute with: the definitions take the limit, and the
    code's is this. *)
Definition LINE_MAX : nat := 16 * 1024.

(** What [fill_buf] returns next: some bytes, or an error; at the end, nothing. *)
Definition Pipe : Type := list (result string bytes).

(** The task's locals, the lines it put on disk and in the channel, and how many the
    channel takes before its receiver is gone ([None]: it stays). *)
Record LogReader := {
  lr_bytes : bytes;
  lr_truncated : bool;
  lr_disk : list bytes;
  lr_sent : list bytes;
  lr_room : option nat
}.
#[export] Instance LogReader_eta : Eta LogReader := λ r,
  {| lr_bytes := lr_bytes r; lr_truncated := lr_truncated r; lr_disk := lr_disk r; lr_sent := lr_sent r; lr_room := lr_room r |}.

Section reader.
Context (limit : nat) (pid : Z).

Definition core_prefix : bytes := bytes_of ("[core " +:+ pretty pid +:+ "] ").

(** A completed line, to the disk and to the channel; [false]: the channel is closed. *)
Definition emit_line (r : LogReader) : bool * LogReader :=
  let line := trim_end (utf8_lossy (lr_bytes r)) ++ (if lr_truncated r then bytes_of " [truncated]" else []) in
  let r := r <| lr_disk := lr_disk r ++ [core_prefix ++ line] |> in
  match lr_room r with
  | Some O => (false, r)
  | room => (true, r <| lr_sent := lr_sent r ++ [line] |> <| lr_room := pred <$> room |> <| lr_bytes := [] |> <| lr_truncated := false |>)
  end.

(** One turn on a chunk: how much was consumed, whether to go on. *)
Definition take_chunk (chunk : bytes) (r : LogReader) : nat * bool * LogReader :=
  let e := find_char newline chunk in
  let n := match e with Some i => S i | None => length chunk end in
  let keep := Nat.min n (limit - length (lr_bytes r)) in
  let r := r <| lr_bytes := lr_bytes r ++ take keep chunk |> <| lr_truncated := lr_truncated r || bool_decide (keep < n) |> in
  match e with
  | Some _ => let '(ok, r) := emit_line r in (n, ok, r)
  | None => (n, true, r)
  end.

(** [spawn_log_reader]'s loop; a turn that ends no line consumes a chunk. *)
Fixpoint log_reader (turns : nat) (pipe : Pipe) (r : LogReader) : LogReader :=
  match turns with
  | O => r
  | S turns =>
    match pipe with
    | [] | Ok [] :: _ => if bool_decide (lr_bytes r = []) then r else (emit_line r).2
    | Err e :: _ => r <| lr_disk := lr_disk r ++ [core_prefix ++ bytes_of ("log read failed: " +:+ e)] |>
    | Ok chunk :: rest =>
      let '(n, go, r) := take_chunk chunk r in
      if go : bool then log_reader turns (match drop n chunk with [] => rest | more => Ok more :: rest end) r else r
    end
  end.

(** ** What a reader of the whole output sees *)

(** A raw line, with its newline if it has one, as it is shown. *)
Definition shown_line (raw : bytes) : bytes :=
  trim_end (utf8_lossy (take limit raw)) ++ (if bool_decide (limit < length raw) then bytes_of " [truncated]" else []).

(** The raw lines after [line], and the unfinished one. *)
Definition raw_lines (line text : bytes) : list bytes * bytes :=
  let '(ls, rest) := split_lines line text in (map (λ l, l ++ [newline]) ls, rest).

(** Puts [lines] out, as far as the channel goes. *)
Definition put_out (room : option nat) (lines : list bytes) : list bytes * list bytes * bool :=
  match room with
  | None => (lines, lines, true)
  | Some k => (take (S k) lines, take k lines, bool_decide (length lines ≤ k))
  end.

(** The task's locals stand for the unfinished line [cur]. *)
Definition holds (cur : bytes) (r : LogReader) : Prop := lr_bytes r = take limit cur ∧ lr_truncated r = bool_decide (limit < length cur).

Lemma holds_nil r : lr_bytes r = [] → lr_truncated r = false → holds [] r.
Proof. intros Hb Ht. split; [by rewrite Hb, take_nil|]. rewrite Ht. symmetry. apply bool_decide_eq_false. cbn. lia. Qed.

Lemma holds_more cur r chunk n :
  holds cur r → n ≤ length chunk →
  holds (cur ++ take n chunk)
    (r <| lr_bytes := lr_bytes r ++ take (Nat.min n (limit - length (lr_bytes r))) chunk |>
       <| lr_truncated := lr_truncated r || bool_decide (Nat.min n (limit - length (lr_bytes r)) < n) |>).
Proof.
  intros [Hb Ht] Hn. split; cbn.
  - rewrite Hb, take_app, length_take, take_take. f_equal. f_equal. lia.
  - rewrite Hb, Ht, length_take, length_app, length_take. apply eq_true_iff_eq. rewrite orb_true_iff, !bool_decide_eq_true. lia.
Qed.

Lemma emit_line_holds cur r :
  holds cur r →
  emit_line r =
  let r' := r <| lr_disk := lr_disk r ++ [core_prefix ++ shown_line cur] |> in
  match lr_room r with
  | Some O => (false, r')
  | room => (true, r' <| lr_sent := lr_sent r ++ [shown_line cur] |> <| lr_room := pred <$> room |> <| lr_bytes := [] |> <| lr_truncated := false |>)
  end.
Proof. intros [Hb Ht]. unfold emit_line. rewrite Hb, Ht. done. Qed.
(** How the stream ends: its end of file, or an error. *)
Definition ending (tail : Pipe) : Prop := match tail with [] => True | Err _ :: _ => True | _ => False end.

(** What the task has done with a stream of [chunks] and an ending. *)
Definition outcome_of (r : LogReader) (cur : bytes) (chunks : list bytes) (tail : Pipe) (disk sent : list bytes) : Prop :=
  let '(ls, rest) := raw_lines cur (concat chunks) in
  let lines := map shown_line (ls ++ match tail, rest with [], _ :: _ => [rest] | _, _ => [] end) in
  let '(on_disk, in_channel, ok) := put_out (lr_room r) lines in
  disk = lr_disk r ++ map (app core_prefix) on_disk
         ++ match tail with Err e :: _ => if ok : bool then [core_prefix ++ bytes_of ("log read failed: " +:+ e)] else [] | _ => [] end ∧
  sent = lr_sent r ++ in_channel.

Definition turns_for (chunks : list bytes) : nat := S (length chunks + length (concat chunks)).

Lemma find_char_at c (s : bytes) i : find_char c s = Some i → s !! i = Some c.
Proof.
  revert i; induction s as [|a s IH]; intros i; cbn; [done|]. case_decide as Hc; [intros [= <-]; by subst|].
  intros (j & Hj & ->)%fmap_Some. by apply IH.
Qed.

Lemma raw_lines_whole cur chunk text :
  newline ∉ chunk → raw_lines cur (chunk ++ text) = raw_lines (cur ++ chunk) text.
Proof.
  intros Hn. unfold raw_lines. rewrite split_lines_app, split_lines_find, (proj2 (find_char_None _ _)) by done.
  by destruct (split_lines (cur ++ chunk) text).
Qed.

Lemma raw_lines_cut cur chunk i text :
  find_char newline chunk = Some i →
  raw_lines cur (chunk ++ text) = let '(ls, rest) := raw_lines [] (drop (S i) chunk ++ text) in ((cur ++ take (S i) chunk) :: ls, rest).
Proof.
  intros Hi. unfold raw_lines. rewrite split_lines_app, split_lines_find, Hi, split_lines_app.
  destruct (split_lines [] (drop (S i) chunk)) as [ls rest]. destruct (split_lines rest text) as [ls' rest']. cbn [map app]. f_equal. f_equal.
  apply find_char_at in Hi. by rewrite (take_S_r _ _ _ Hi), app_assoc.
Qed.

Lemma put_out_cons room x lines :
  put_out room (x :: lines) =
  match room with
  | Some O => ([x], [], false)
  | _ => let '(on_disk, in_channel, ok) := put_out (pred <$> room) lines in (x :: on_disk, x :: in_channel, ok)
  end.
Proof. destruct room as [[|k]|]; cbn; try done. f_equal. apply bool_decide_ext. lia. Qed.

Lemma log_reader_turn turns chunk rest r :
  chunk ≠ [] →
  log_reader (S turns) (Ok chunk :: rest) r =
  let '(n, go, r') := take_chunk chunk r in
  if go : bool then log_reader turns (match drop n chunk with [] => rest | more => Ok more :: rest end) r' else r'.
Proof. by destruct chunk. Qed.

(** The next chunks, once part of one was consumed. *)
Definition left_over (more : bytes) (chunks : list bytes) : list bytes := (match more with [] => [] | _ => [more] end) ++ chunks.

Lemma left_over_pipe more chunks tail :
  (match more with [] => (map Ok chunks ++ tail : Pipe) | c :: m => Ok (c :: m) :: map Ok chunks ++ tail end : Pipe) = map Ok (left_over more chunks) ++ tail.
Proof. by destruct more. Qed.
Lemma left_over_concat more chunks : concat (left_over more chunks) = more ++ concat chunks.
Proof. unfold left_over. rewrite concat_app. destruct more; cbn; by rewrite ?app_nil_r. Qed.
Lemma left_over_ne more chunks : Forall (.≠ []) chunks → Forall (.≠ []) (left_over more chunks).
Proof. intros Hne. apply Forall_app. split; [by destruct more; repeat constructor|done]. Qed.
Lemma left_over_turns chunk chunks n : 0 < n → chunk ≠ [] → turns_for (left_over (drop n chunk) chunks) < turns_for (chunk :: chunks).
Proof.
  intros Hn Hc. assert (0 < length chunk) by (destruct chunk; cbn; [done|lia]).
  unfold turns_for. rewrite left_over_concat. cbn [concat length]. rewrite !length_app, length_drop.
  unfold left_over. rewrite length_app. pose proof (length_drop chunk n) as Hd.
  destruct (drop n chunk); cbn [length] in *; lia.
Qed.

(** A line completed, then the rest of the stream. *)
Lemma outcome_line r r' cur chunk i chunks tail disk sent :
  find_char newline chunk = Some i → lr_room r ≠ Some 0 →
  lr_disk r' = lr_disk r ++ [core_prefix ++ shown_line (cur ++ take (S i) chunk)] →
  lr_sent r' = lr_sent r ++ [shown_line (cur ++ take (S i) chunk)] → lr_room r' = pred <$> lr_room r →
  outcome_of r' [] (left_over (drop (S i) chunk) chunks) tail disk sent → outcome_of r cur (chunk :: chunks) tail disk sent.
Proof.
  intros Ei Hroom Hd Hs Hr. unfold outcome_of. rewrite left_over_concat, concat_cons, (raw_lines_cut _ _ _ _ Ei), Hd, Hs, Hr.
  destruct (raw_lines [] (drop (S i) chunk ++ concat chunks)) as [ls rest]. cbn [app map]. rewrite put_out_cons.
  destruct (lr_room r) as [[|k]|]; [done| |]; destruct (put_out _ _) as [[on_disk in_channel] ok]; cbn [map]; intros [-> ->]; by rewrite <-!app_assoc.
Qed.

(** A line the closed channel refused. *)
Lemma outcome_refused r cur chunk i chunks tail :
  find_char newline chunk = Some i → lr_room r = Some 0 →
  outcome_of r cur (chunk :: chunks) tail (lr_disk r ++ [core_prefix ++ shown_line (cur ++ take (S i) chunk)]) (lr_sent r).
Proof.
  intros Ei Hr. unfold outcome_of. rewrite concat_cons, (raw_lines_cut _ _ _ _ Ei), Hr.
  destruct (raw_lines [] _) as [ls rest]. cbn [app map]. rewrite put_out_cons. cbn. rewrite ?app_nil_r. by destruct tail as [|[|e] tail].
Qed.

(** The stream's end. *)
Lemma outcome_end turns tail cur r :
  0 < limit → ending tail → holds cur r →
  outcome_of r cur [] tail (lr_disk (log_reader (S turns) tail r)) (lr_sent (log_reader (S turns) tail r)).
Proof.
  intros Hlim Htail Hh. unfold outcome_of. cbn [log_reader concat raw_lines split_lines map app].
  destruct tail as [|[|e] tail]; [|done|destruct (lr_room r) as [k|]; cbn; rewrite ?take_nil, ?app_nil_r; done].
  assert (lr_bytes r = [] ↔ cur = []) as Hnil.
  { destruct Hh as [-> _]. split; [|intros ->; apply take_nil]. destruct cur, limit; try done; lia. }
  destruct (bool_decide (lr_bytes r = [])) eqn:Eb; [apply bool_decide_eq_true in Eb|apply bool_decide_eq_false in Eb].
  - rewrite (proj1 Hnil Eb). destruct (lr_room r) as [k|]; cbn; rewrite ?take_nil, ?app_nil_r; done.
  - destruct cur as [|c cur]; [by destruct Eb; apply Hnil|]. rewrite (emit_line_holds _ _ Hh). cbn zeta.
    destruct (lr_room r) as [[|k]|]; cbn; rewrite ?take_nil, ?app_nil_r; done.
Qed.

Lemma log_reader_spec turns chunks tail cur r :
  0 < limit → ending tail → Forall (.≠ []) chunks → holds cur r → turns_for chunks ≤ turns →
  outcome_of r cur chunks tail (lr_disk (log_reader turns (map Ok chunks ++ tail) r)) (lr_sent (log_reader turns (map Ok chunks ++ tail) r)).
Proof.
  intros Hlim Htail. revert chunks cur r. induction turns as [|turns IH]; intros chunks cur r Hne Hh Hturns; [unfold turns_for in Hturns; lia|].
  destruct chunks as [|chunk chunks]; [by apply outcome_end|].
  apply Forall_cons in Hne as [Hc Hne]. cbn [map app]. rewrite log_reader_turn by done. unfold take_chunk. destruct (find_char newline chunk) as [i|] eqn:Ei.
  - pose proof (lookup_lt_Some _ _ _ (find_char_at _ _ _ Ei)) as Hi.
    pose proof (holds_more cur r chunk (S i) Hh ltac:(lia)) as Hh'.
    set (r1 := r <| lr_bytes := _ |> <| lr_truncated := _ |>) in *.
    rewrite (emit_line_holds _ _ Hh'). cbn zeta. change (lr_room r1) with (lr_room r).
    pose proof (left_over_turns chunk chunks (S i) ltac:(lia) Hc) as Hlt.
    destruct (lr_room r) as [[|k]|] eqn:Er; [exact (outcome_refused r cur chunk i chunks tail Ei Er)| |];
      cbn beta iota zeta; rewrite left_over_pipe;
      (eapply (outcome_line r); [done|by rewrite Er| | | |apply IH; [by apply left_over_ne|by apply holds_nil|lia]]); cbn; by rewrite ?Er.
  - pose proof (holds_more cur r chunk (length chunk) Hh ltac:(lia)) as Hh'.
    rewrite firstn_all in Hh'. rewrite drop_all. unfold outcome_of. apply find_char_None in Ei. rewrite concat_cons, raw_lines_whole by done.
    match goal with |- context [log_reader turns _ ?x] => pose proof (IH chunks (cur ++ chunk) x Hne Hh') as Hx end.
    apply Hx. unfold turns_for in *. cbn [concat length] in Hturns. rewrite length_app in Hturns. lia.
Qed.

Lemma take_chunk_bounded chunk r : length (lr_bytes r) ≤ limit → length (lr_bytes (take_chunk chunk r).2) ≤ limit.
Proof.
  intros Hr. unfold take_chunk, emit_line.
  assert (∀ n, length (lr_bytes r ++ take (Nat.min n (limit - length (lr_bytes r))) chunk) ≤ limit) as Hb
    by (intros n; rewrite length_app, length_take; lia).
  destruct (find_char newline chunk); cbn -[Nat.min Nat.sub]; [|apply Hb].
  destruct (lr_room r) as [[|k]|]; cbn -[Nat.min Nat.sub]; [apply Hb|lia|lia].
Qed.

Lemma log_reader_bounded turns pipe r : length (lr_bytes r) ≤ limit → length (lr_bytes (log_reader turns pipe r)) ≤ limit.
Proof.
  revert pipe r. induction turns as [|turns IH]; intros pipe r Hr; [done|]. cbn.
  assert (length (lr_bytes (if bool_decide (lr_bytes r = []) then r else (emit_line r).2)) ≤ limit) as Heof.
  { case_bool_decide; [exact Hr|]. unfold emit_line. cbn. destruct (lr_room r) as [[|k]|]; cbn; [exact Hr|lia|lia]. }
  destruct pipe as [|[[|c chunk]|e] rest]; [exact Heof|exact Heof| |exact Hr].
  pose proof (take_chunk_bounded (c :: chunk) r Hr) as Hb. destruct (take_chunk (c :: chunk) r) as [[n go] r']. cbn in Hb |- *.
  destruct go; [by apply IH|done].
Qed.
End reader.

(** ** The task as it is started *)

Definition fresh_reader (room : option nat) : LogReader :=
  {| lr_bytes := []; lr_truncated := false; lr_disk := []; lr_sent := []; lr_room := room |}.

(** [spawn_log_reader]'s task, for a stream of [chunks] that ends as [tail] says. *)
Definition spawn_log_reader (pid : Z) (room : option nat) (chunks : list bytes) (tail : Pipe) : LogReader :=
  log_reader LINE_MAX pid (turns_for chunks) (map Ok chunks ++ tail) (fresh_reader room).

Lemma line_max_pos : 0 < LINE_MAX.
Proof. unfold LINE_MAX. lia. Qed.

(** C22: However the pipe cuts the Core's output into chunks, the task ends, having put out
    the output's lines in order: each one's first sixteen kibibytes, trailing blanks cut,
    marked when anything was left out; a last line without its newline too, unless the
    stream ended in an error. The log on disk has every line up to and including the one
    a closed channel refused, the channel those before it; and the buffer never holds
    more than the limit. *)
Theorem core_log_lines pid room chunks tail :
  ending tail → Forall (.≠ []) chunks →
  let '(ls, rest) := raw_lines [] (concat chunks) in
  let lines := map (shown_line LINE_MAX) (ls ++ match tail, rest with [], _ :: _ => [rest] | _, _ => [] end) in
  let '(on_disk, in_channel, all) := put_out room lines in
  let r := spawn_log_reader pid room chunks tail in
  lr_disk r = map (app (core_prefix pid)) on_disk
              ++ match tail with Err e :: _ => if all : bool then [core_prefix pid ++ bytes_of ("log read failed: " +:+ e)] else [] | _ => [] end ∧
  lr_sent r = in_channel ∧
  ∀ turns pipe, length (lr_bytes (log_reader LINE_MAX pid turns pipe (fresh_reader room))) ≤ LINE_MAX.
Proof.
  intros Htail Hne.
  pose proof (log_reader_spec LINE_MAX pid (turns_for chunks) chunks tail [] (fresh_reader room) line_max_pos Htail Hne
    (holds_nil _ (fresh_reader room) eq_refl eq_refl) ltac:(lia)) as Hspec. unfold outcome_of in Hspec.
  destruct (raw_lines [] (concat chunks)) as [ls rest]. change (lr_room (fresh_reader room)) with room in Hspec. cbv zeta in Hspec |- *.
  destruct (put_out room _) as [[on_disk in_channel] all]. destruct Hspec as [Hd Hs]. split_and!; [exact Hd|exact Hs|].
  intros turns pipe. apply log_reader_bounded. cbn. lia.
Qed.

(** Two lines over three chunks, and the rest of a third. *)
Example core_log_lines_witness :
  lr_sent (spawn_log_reader 7 None [bytes_of "on"; bytes_of "e" ++ [newline] ++ bytes_of "two "; [newline] ++ bytes_of "thr"] []) =
  [bytes_of "one"; bytes_of "two"; bytes_of "thr"].
Proof.
  assert (Forall (.≠ []) [bytes_of "on"; bytes_of "e" ++ [newline] ++ bytes_of "two "; [newline] ++ bytes_of "thr"]) as Hne by (repeat constructor; done).
  exact (proj1 (proj2 (core_log_lines 7 None _ [] I Hne))).
Defined.

(** A line that just fits is marked as cut although only its newline was left out. *)
Lemma full_line_marked limit line :
  length line = limit → shown_line limit (line ++ [newline]) = trim_end (utf8_lossy line) ++ bytes_of " [truncated]".
Proof.
  intros Hl. unfold shown_line. rewrite take_app_le, firstn_all2 by lia.
  rewrite bool_decide_eq_true_2; [done|]. rewrite length_app. cbn. lia.
Qed.
