(* ===== verification/MacCore.v ===== *)
(** * The Core on macOS ([ensure_macos_core], [crates/synbadd/src/binaries.rs]; [platform.rs])

    The patched Core of a release: beside the daemon, in the cache of this version and
    architecture, or downloaded, verified, unpacked aside and renamed into place, with
    every system call fallible and the process free to die in it.  [lipo], [sysctl], the
    archive decoder and the HTTP client are not this program's. *)

From Stdlib Require Import Ascii ZArith Lia.
From S2P Require Import Prelude Primitives Config LogParse CoreProc Store Conn FileOps Resolver.

(** ** The platform *)

(** What the compiler built for. *)
Inductive Arch := Aarch64 | X86_64.
Inductive BuildTarget := LinuxGnu (a : Arch) | MacOs (a : Arch) | WindowsMsvc (a : Arch) | OtherTarget (arch : string).

Definition arch_str (a : Arch) : string := match a with Aarch64 => "aarch64" | X86_64 => "x86_64" end.
Definition consts_arch (t : BuildTarget) : string :=
  match t with LinuxGnu a | MacOs a | WindowsMsvc a => arch_str a | OtherTarget arch => arch end.

Definition ascii_blank (c : ascii) : bool := bool_decide (c ∈ map byte_of_Z [9; 10; 12; 13; 32]%Z).
Fixpoint skip_blanks (b : bytes) : bytes := match b with c :: b' => if ascii_blank c then skip_blanks b' else b | [] => [] end.
(** [trim_ascii]. *)
Definition trim_ascii (b : bytes) : bytes := reverse (skip_blanks (reverse (skip_blanks b))).

(** [sysctl -n hw.optional.arm64]: its success and output, if it could be run. *)
Definition native_arch (sysctl : option (bool * bytes)) (t : BuildTarget) : string :=
  match t, sysctl with
  | MacOs _, Some (true, stdout) => if decide (trim_ascii stdout = bytes_of "1") then "aarch64"%string else consts_arch t
  | _, _ => consts_arch t
  end.

Definition host_target (sysctl : option (bool * bytes)) (t : BuildTarget) : result string string :=
  match t with
  | LinuxGnu X86_64 => Ok "x86_64-unknown-linux-gnu"%string
  | LinuxGnu Aarch64 => Ok "aarch64-unknown-linux-gnu"%string
  | MacOs _ => Ok (if decide (native_arch sysctl t = "aarch64"%string) then "aarch64-apple-darwin" else "x86_64-apple-darwin")%string
  | WindowsMsvc X86_64 => Ok "x86_64-pc-windows-msvc"%string
  | _ => Err "auto-update is not supported on this host"%string
  end.

(** ** Resolution *)

(** [lipo -verify_arch] on a file's content; what unpacking a compressed archive
    writes, in order, up to an error. *)
Class MacOps := {
  lipo_verify : string → bytes → bool;
  tar_unpack : bytes → list (result string (string * bytes))
}.

(** The first word of [split_whitespace]. *)
Fixpoint word_from (s : bytes) : bytes :=
  match s with c :: s' => match strip_any whitespace s with Some _ => [] | None => c :: word_from s' end | [] => [] end.
Definition first_word (s : bytes) : option string :=
  match word_from (trim_start s) with [] => None | w => Some (string_of w) end.

(** [CARGO_PKG_VERSION], the architecture, the daemon's own directory with its files,
    and the answers to requests. *)
Record MacEnv := {
  me_version : string;
  me_sysctl : option (bool * bytes);
  me_build : Arch;
  me_beside : option (string * gmap string bytes);
  me_get : string → result string bytes;
  me_stream : string → result string HttpBody
}.

Section macos.
Context `{HexOps, Sha256Ops, MacOps}.

(** The [resolve] closure: both binaries, for this machine. *)
Definition native_core (arch : string) (files : gmap string bytes) : bool :=
  let macho_arch := if decide (arch = "aarch64"%string) then "arm64"%string else "x86_64"%string in
  forallb (λ name, match files !! name with Some b => lipo_verify macho_arch b | None => false end) [LEGACY_SERVER_BIN; LEGACY_CLIENT_BIN].
Definition mac_resolve (arch path : string) (files : option (gmap string bytes)) : option CoreLayout :=
  if match files with Some files => native_core arch files | None => false end
  then Some (SplitLegacy (join path LEGACY_SERVER_BIN) (join path LEGACY_CLIENT_BIN)) else None.

Definition mac_arch (env : MacEnv) : string := native_arch (me_sysctl env) (MacOs (me_build env)).
Definition mac_dir (env : MacEnv) : string := "synbad-core-" +:+ me_version env +:+ "-" +:+ mac_arch env.
Definition mac_asset (env : MacEnv) : string := "deskflow-core-" +:+ me_version env +:+ "-macos-" +:+ mac_arch env +:+ ".tar.gz".
Definition mac_url (env : MacEnv) : string :=
  "https://github.com/krazyjakee/Synbad/releases/download/v" +:+ me_version env +:+ "/" +:+ mac_asset env.

Fixpoint mac_unpack (dir : string) (entries : list (result string (string * bytes))) : res unit :=
  match entries with
  | [] => mret tt
  | Err e :: _ => pfail e
  | Ok (name, body) :: rest => must "unpack" (write_file dir name body);; mac_unpack dir rest
  end.

Definition the_dirs : res Dirs := λ s, (Done (rs_dirs s), s).

Definition install_macos_core (env : MacEnv) (cache_root : string) : res CoreLayout :=
  let dir := mac_dir env in
  let resolve d t := mac_resolve (mac_arch env) (join cache_root t) (d !! t) in
  progress (ReDownloading ("v" +:+ me_version env) (mac_asset env) (mac_url env));;
  checksum ← plift (me_get env (mac_url env +:+ ".sha256"));
  sha ← plift (ok_or "empty Core checksum"%string (first_word checksum));
  asset_bytes ← download_with_progress (me_stream env) (mac_url env) (mac_asset env);
  (if verify_sha asset_bytes sha then mret tt else pfail "integrity check failed"%string);;
  let staging := with_extension dir "partial" in
  _ ← remove_dir staging;
  must "create_dir_all" (create_dir staging);;
  mac_unpack staging (tar_unpack asset_bytes);;
  d ← the_dirs;
  _ ← plift (ok_or "patched Core archive has missing or non-native binaries"%string (resolve d staging));
  _ ← remove_dir dir;
  must "rename" (rename_dir staging dir);;
  d ← the_dirs;
  plift (ok_or "patched Core installation missing"%string (resolve d dir)).

Definition ensure_macos_core (env : MacEnv) (cache_root : string) : res CoreLayout :=
  match '(path, files) ← me_beside env; mac_resolve (mac_arch env) path (Some files) with
  | Some core => mret core
  | None =>
    d ← the_dirs;
    match mac_resolve (mac_arch env) (join cache_root (mac_dir env)) (d !! mac_dir env) with
    | Some core => mret core
    | None => install_macos_core env cache_root
    end
  end.

End macos.

(** [ensure_core]: the platform's resolver. *)
Definition ensure_core `{HexOps, Sha256Ops, ArchiveOps, MacOps} (env : MacEnv + ResolverEnv) (cache_root : string) : res CoreLayout :=
  match env with
  | inl env => ensure_macos_core env cache_root
  | inr env => ensure_upstream_core env cache_root
  end.

(** ** Names *)

(** Two versions of one minor release share a staging directory, whatever their
    architecture; it is never an installed one. *)
Example staging_shared :
  with_extension "synbad-core-1.2.3-aarch64" "partial" = "synbad-core-1.2.partial"%string ∧
  with_extension "synbad-core-1.2.4-x86_64" "partial" = "synbad-core-1.2.partial"%string.
Proof. vm_compute. done. Qed.

Lemma mac_arch_cases env : mac_arch env = "aarch64"%string ∨ mac_arch env = "x86_64"%string.
Proof.
  unfold mac_arch, native_arch. cbn [consts_arch]. destruct (me_sysctl env) as [[[] out]|]; [case_decide; [by left|]| |]; destruct (me_build env); auto.
Qed.

Lemma last_app_string a b c : last (bytes_of b) = Some c → last (bytes_of (a +:+ b)) = Some c.
Proof. intros Hl. by rewrite bytes_of_app, last_app, Hl. Qed.

Lemma mac_staging_ne env : mac_dir env ≠ with_extension (mac_dir env) "partial".
Proof.
  intros E. apply (f_equal (last ∘ bytes_of)) in E. cbn [compose] in E. unfold with_extension in E at 1. case_match.
  rewrite (last_app_string _ ("." +:+ "partial") "l") in E by done. unfold mac_dir in E. destruct (mac_arch_cases env) as [Ea|Ea]; rewrite Ea in E.
  - by rewrite (last_app_string _ _ "4") in E by (do 2 apply last_app_string; done).
  - by rewrite (last_app_string _ _ "4") in E by (do 2 apply last_app_string; done).
Qed.

Lemma find_sub_elem pat s i c : find_sub pat s = Some i → c ∈ pat → c ∈ s.
Proof.
  revert i. induction s as [|x s IH]; intros i; cbn; destruct (starts_with pat _) eqn:Es.
  1,3: intros _ Hc; apply starts_with_true in Es as [r ->]; apply elem_of_app; by left.
  - done.
  - intros (j & Hj & _)%fmap_Some Hc. apply elem_of_cons. right. by eapply IH.
Qed.

(** Updaters that look for an asset named after their target never take the Core's. *)
Lemma core_asset_unmatched env sysctl t target :
  host_target sysctl t = Ok target → (∀ c, c ∈ bytes_of (me_version env) → c = "."%char ∨ byte_in 48 57 c = true) →
  (∃ a, t = MacOs a) → contains target (mac_asset env) = false.
Proof.
  intros Ht Hv [a ->]. apply bool_decide_eq_false. intros [i Hi]. cbn in Ht.
  assert ("p"%char ∈ bytes_of target) as Hp by (injection Ht as <-; case_decide; vm_compute; by repeat constructor).
  pose proof (find_sub_elem _ _ _ _ Hi Hp) as Hin. unfold mac_asset in Hin. rewrite !bytes_of_app, !elem_of_app in Hin.
  assert ("p"%char ∉ bytes_of (mac_arch env)) as Harch by (destruct (mac_arch_cases env) as [-> | ->]; apply (bool_decide_unpack _); vm_compute; exact I).
  destruct Hin as [Hin|[Hin|[Hin|[Hin|Hin]]]]; [|apply Hv in Hin as [|]; done| |done|];
    revert Hin; apply (bool_decide_unpack _); vm_compute; exact I.
Qed.

(** ** The cache stays sound *)

Section laws.
Context `{HexOps, Sha256Ops, MacOps}.
(** This machine, and the cache when the resolver starts. *)
Context (env : MacEnv) (d0 : Dirs).

Abbreviation dir := (mac_dir env).
Abbreviation staging := (with_extension (mac_dir env) "partial").
Abbreviation bins := [LEGACY_SERVER_BIN; LEGACY_CLIENT_BIN].

(** The checksum the release publishes, and that its archive holds both programs. *)
Definition mac_published (sha : string) : Prop :=
  ∃ checksum, me_get env (mac_url env +:+ ".sha256") = Ok checksum ∧ first_word checksum = Some sha.
Definition archive_complete : Prop :=
  ∀ sha b, mac_published sha → has_sha b sha → ∀ t, t ∈ bins → ∃ body, Ok (t, body) ∈ tar_unpack b.

(** Whatever program the directory holds is one the published archive lists. *)
Definition mac_genuine (files : gmap string bytes) : Prop :=
  (∀ t, t ∈ bins → files !! t = None) ∨
  ∃ sha b, mac_published sha ∧ has_sha b sha ∧ ∀ t body, t ∈ bins → files !! t = Some body → Ok (t, body) ∈ tar_unpack b.

Definition mac_ok (d : Dirs) : Prop := ∀ files, d !! dir = Some files → mac_genuine files.
Definition mac_inv (d : Dirs) : Prop := mac_ok d ∧ ∀ t, t ≠ dir → t ≠ staging → d !! t = d0 !! t.

Lemma mac_inv_free : free staging mac_inv.
Proof.
  intros d d' [Hok Hsame] Hd. split; [intros files Hf; apply Hok; by rewrite <-Hd by apply mac_staging_ne|].
  intros t Hd' Hs. rewrite Hd by done. by apply Hsame.
Qed.

Lemma mac_genuine_part files n : mac_genuine files → mac_genuine (list_to_map (drop n (map_to_list files))).
Proof.
  assert (∀ t body, (list_to_map (drop n (map_to_list files)) : gmap string bytes) !! t = Some body → files !! t = Some body) as Hsub.
  { intros t body Hb. apply elem_of_list_to_map_2 in Hb. apply elem_of_map_to_list. by apply (subseteq_drop n). }
  intros [Hn|(sha & b & Hp & Hs & Hb)]; [left|right].
  - intros t Ht. destruct (_ !! t) as [body|] eqn:E; [|done]. apply Hsub in E. by rewrite Hn in E.
  - exists sha, b. split_and!; [done..|]. intros t body Ht Hf. by apply Hb, Hsub.
Qed.

(** A call that works on the staging directory alone. *)
Lemma safe_staging (Pre : Dirs → Prop) whole part (Q : bool → Dirs → Prop) :
  (∀ d d' t, whole d = Some d' → t ≠ staging → d' !! t = d !! t) → (∀ n d t, t ≠ staging → part n d !! t = d !! t) →
  (∀ d, Pre d → (∀ d', whole d = Some d' → Q true d') ∧ (whole d = None → Q false d) ∧ ∀ n, Q false (part n d)) →
  safe mac_inv Pre (call whole part) Q.
Proof.
  intros Hw Hp HQ. apply safe_call. intros d Hi Hd. destruct (HQ d Hd) as (Hq & Hn & Hq'). split_and!; [|done|].
  - intros d' E. split; [|by apply Hq]. eapply mac_inv_free; [exact Hi|]. intros t Ht. by eapply Hw.
  - intros n. split; [|apply Hq']. eapply mac_inv_free; [exact Hi|]. intros t Ht. by apply Hp.
Qed.

(** The staging directory holds what the entries [done] wrote there. *)
Definition holds_entries (entries : list (result string (string * bytes))) (d : Dirs) : Prop :=
  ∃ files, d !! staging = Some files ∧
    ∀ t, (∃ body, Ok (t, body) ∈ entries) → ∃ body, files !! t = Some body ∧ Ok (t, body) ∈ entries.

Lemma mac_unpack_safe entries before :
  safe mac_inv (holds_entries before) (mac_unpack staging entries) (λ _, holds_entries (before ++ entries)).
Proof.
  revert before. induction entries as [|[[name body]|e] rest IH]; intros before; cbn [mac_unpack].
  - rewrite app_nil_r. by apply safe_ret.
  - apply (safe_bind _ _ _ _ (λ _, holds_entries (before ++ [Ok (name, body)]))).
    + apply (safe_must _ (holds_entries before) _ _ (λ (ok : bool) d, if ok then holds_entries (before ++ [Ok (name, body)]) d else True)).
      apply safe_staging; [intros d d' t Hw Ht; destruct (d !! staging); [|done]; injection Hw as <-; by rewrite lookup_alter_ne
        |intros n d t Ht; by rewrite lookup_alter_ne|].
      intros d (files & Hf & Hb). split_and!; [|done|done]. rewrite Hf. intros d' [= <-].
      exists (<[name := body]> files). rewrite lookup_alter_eq, Hf. split; [done|]. intros t (b & Hin).
      destruct (decide (t = name)) as [->|Hne]; [exists body; rewrite lookup_insert_eq; split; [done|]; apply elem_of_app; right; by apply list_elem_of_singleton|].
      rewrite lookup_insert_ne by done. apply elem_of_app in Hin as [Hin|Hin]; [|apply list_elem_of_singleton in Hin; congruence].
      destruct (Hb t (ex_intro _ b Hin)) as (b' & Hb' & Hin'). exists b'. split; [done|]. apply elem_of_app. by left.
    + intros _. replace (before ++ Ok (name, body) :: rest) with ((before ++ [Ok (name, body)]) ++ rest) by by rewrite <-app_assoc. apply IH.
  - apply safe_fail.
Qed.

(** The staging directory holds the programs of the published archive. *)
Definition staged (d : Dirs) : Prop := ∃ files, d !! staging = Some files ∧ mac_genuine files.

Lemma unpacked_staged sha b d :
  archive_complete → mac_published sha → has_sha b sha → holds_entries (tar_unpack b) d → staged d.
Proof.
  intros Hfull Hp Hs (files & Hf & Hb). exists files. split; [done|]. right. exists sha, b. split_and!; [done..|].
  intros t body Ht Hbody. destruct (Hb t (Hfull sha b Hp Hs t Ht)) as (body' & Hb' & Hin). by simplify_eq.
Qed.

(** The directory is replaced by the staged one. *)
Lemma remove_dir_safe : safe mac_inv staged (remove_dir dir) (λ _, staged).
Proof.
  pose proof (mac_staging_ne env) as Hne. apply safe_call. intros d [Hok Hsame] (files & Hf & Hg).
  assert (∀ d', (∀ t, t ≠ dir → d' !! t = d !! t) → mac_ok d' → mac_inv d' ∧ staged d') as Hgo.
  { intros d' Hd Hok'. split; [split; [done|]|].
    - intros t H1' H2'. rewrite Hd by done. by apply Hsame.
    - exists files. by rewrite Hd by done. }
  split_and!; [|intros _; by exists files|].
  - intros d'. destruct (d !! dir); [|done]. intros [= <-]. apply Hgo; [intros t Ht; by rewrite lookup_delete_ne|].
    intros fs. by rewrite lookup_delete_eq.
  - intros n. apply Hgo; [intros t Ht; by rewrite lookup_alter_ne|]. intros fs. rewrite lookup_alter_eq.
    destruct (d !! dir) as [old|] eqn:E; [|done]. intros [= <-]. apply mac_genuine_part. by apply Hok.
Qed.

Lemma rename_dir_safe : safe mac_inv staged (rename_dir staging dir) (λ _ _, True).
Proof.
  pose proof (mac_staging_ne env) as Hne. apply safe_call. intros d [Hok Hsame] (files & Hf & Hg). split_and!; [|done|done].
  rewrite Hf. case_decide; [|done]. intros d' [= <-]. split; [|done]. split.
  - intros fs. rewrite lookup_insert_eq. by intros [= <-].
  - intros t H1' H2'. rewrite lookup_insert_ne, lookup_delete_ne by done. by apply Hsame.
Qed.

(** Where a layout the resolver returned is. *)
Definition in_cache (root : string) (l : CoreLayout) (d : Dirs) : Prop :=
  mac_resolve (mac_arch env) (join root dir) (d !! dir) = Some l.

Lemma install_macos_safe root :
  archive_complete → safe mac_inv (λ _, True) (install_macos_core env root) (in_cache root).
Proof.
  intros Hfull. unfold install_macos_core. cbv zeta.
  apply (safe_bind _ _ _ _ (λ _ _, True)); [apply safe_progress|]. intros _.
  apply (safe_bind_lift _ (λ _, True)). intros checksum Hc. apply (safe_bind_lift _ (λ _, True)). intros sha Hw.
  assert (mac_published sha) as Hpub by (exists checksum; split; [done|]; destruct (first_word checksum); [by injection Hw as ->|done]).
  apply (safe_bind _ _ _ _ (λ _ _, True)); [apply download_safe|]. intros b.
  destruct (verify_sha b sha) eqn:Hsha; [apply verify_sha_has in Hsha|eapply safe_bind; [apply (safe_fail _ _ _ (λ _ _, False))|done]].
  apply (safe_bind _ _ _ _ (λ _ _, True)); [by apply safe_ret|]. intros _.
  apply (safe_bind _ _ _ _ (λ _ _, True)).
  { apply safe_staging; [intros d d' t Hd Ht; case_match; [injection Hd as <-; by rewrite lookup_delete_ne|done]|intros; by rewrite lookup_alter_ne|done]. }
  intros _. apply (safe_bind _ _ _ _ (λ _, holds_entries [])).
  { apply (safe_must _ _ _ _ (λ (ok : bool) d, if ok then holds_entries [] d else True)).
    apply safe_staging; [intros d d' t [= <-] Ht; by rewrite lookup_insert_ne|done|]. intros d _. split_and!; [|done|done].
    intros d' [= <-]. eexists. rewrite lookup_insert_eq. split; [done|]. by intros t (? & []%not_elem_of_nil). }
  intros _. apply (safe_bind _ _ _ _ (λ _, staged)).
  { eapply safe_weaken; [apply (mac_unpack_safe (tar_unpack b) [])|done|]. intros ? d. cbn [app]. by apply (unpacked_staged sha). }
  intros _. apply (safe_bind _ _ _ _ (λ _, staged)); [intros s o s' Hi Hp [= <- <-]; by split|].
  intros d1. apply (safe_bind_lift _ staged). intros _ _. apply (safe_bind _ _ _ _ (λ _, staged)); [apply remove_dir_safe|].
  intros _. apply (safe_bind _ _ _ _ (λ _ _, True)); [apply (safe_must _ _ _ _ (λ _ _, True)), rename_dir_safe|].
  intros _. apply (safe_bind _ _ _ _ (λ ds d, ds = d)); [intros s o s' Hi Hp [= <- <-]; split; [done|]; by intros ? [= <-]|].
  intros ds. eapply safe_weaken; [apply (safe_lift _ (eq ds))|done|]. intros l d [-> Hl]. unfold in_cache.
  destruct (mac_resolve _ _ _); by inversion Hl.
Qed.

End laws.

(** The macOS cache is sound, whatever fails and wherever the process dies.  If the
    programs in this version's directory come from the archive whose published SHA-256
    matched, they still do afterwards, and no other directory changes but the staging
    one.  A layout returned is that of both programs for this machine: those beside the
    daemon, or those of the cache.  With either already there, resolving succeeds
    without a request, a write or an event. *)
Theorem macos_core_sound `{HexOps, Sha256Ops, MacOps} env root s o s' :
  archive_complete env → mac_ok env (rs_dirs s) → ensure_macos_core env root s = (o, s') →
  mac_ok env (rs_dirs s') ∧
  (∀ t, t ≠ mac_dir env → t ≠ with_extension (mac_dir env) "partial" → rs_dirs s' !! t = rs_dirs s !! t) ∧
  let beside := '(path, files) ← me_beside env; mac_resolve (mac_arch env) path (Some files) in
  (∀ l, o = Done l → beside = Some l ∨ in_cache env root l (rs_dirs s')) ∧
  (∀ l, beside = Some l ∨ beside = None ∧ in_cache env root l (rs_dirs s) → o = Done l ∧ s' = s).
Proof.
  intros Hfull Hok. cbv zeta. unfold ensure_macos_core. generalize ('(path, files) ← me_beside env; mac_resolve (mac_arch env) path (Some files)). intros beside. destruct beside as [l|].
  { intros [= <- <-]. split_and!; [done..|intros ? [= <-]; by left|]. by intros l' [[= <-]|[? _]]. }
  unfold mbind at 1, prog_bind at 1, the_dirs at 1. cbv beta iota.
  destruct (mac_resolve _ _ _) as [l|] eqn:El.
  { intros [= <- <-]. split_and!; [done..|intros ? [= <-]; by right|]. intros l' [?|[_ Hl]]; [done|]. unfold in_cache in Hl. rewrite El in Hl. by injection Hl as <-. }
  intros E. destruct (install_macos_safe env (rs_dirs s) root Hfull s o s' (conj Hok (λ _ _ _, eq_refl)) I E) as [[Hok' Hsame] HQ].
  split_and!; [done..|intros l Hl; right; by apply HQ|]. intros l [?|[_ Hl]]; [done|]. unfold in_cache in Hl. by rewrite El in Hl.
Qed.

(** ** Runs *)

Section runs.
#[local] Existing Instances toy_hex toy_sha.
(** Every archive but [server_only] holds both programs. *)
Definition server_only : bytes := bytes_of "server".
Definition both_programs : bytes := bytes_of "both".
#[local] Instance toy_mac : MacOps := {|
  lipo_verify arch b := bool_decide (arch = "arm64"%string ∧ b ≠ []);
  tar_unpack b := Ok (LEGACY_SERVER_BIN, b) :: (if decide (b = server_only) then [] else [Ok (LEGACY_CLIENT_BIN, b)])
|}.

(** An Intel build under Rosetta, with [archive] published. *)
Definition wit_mac (archive : bytes) : MacEnv := {|
  me_version := "1.2.3"; me_sysctl := Some (true, bytes_of "1" ++ [byte_of_Z 10]); me_build := X86_64; me_beside := None;
  me_get url := if ends_with (bytes_of ".sha256") (bytes_of url) then Ok (bytes_of (hex_encode (sha256 archive) +:+ "  core.tar.gz")) else Err "404"%string;
  me_stream _ := Ok {| hb_total := Some (Z.of_nat (length archive)); hb_chunks := [Ok archive] |}
|}.
Definition wit_cache (dirs : Dirs) (fates : list Fate) : Res := {| rs_dirs := dirs; rs_fates := fates; rs_events := [] |}.

Definition wit_mac1 := ensure_macos_core (wit_mac both_programs) "/c" (wit_cache ∅ [FWorks; FWorks; FWorks; FDies 3]).
Definition wit_mac2 := ensure_macos_core (wit_mac both_programs) "/c" (wit_mac1.2 <| rs_fates := [] |>).

(** The process dies while unpacking; the next run installs, and one more finds it. *)
Example macos_core_installs :
  wit_mac1.1 = Waiting ∧ rs_dirs wit_mac1.2 !! "synbad-core-1.2.3-aarch64" = None ∧
  wit_mac2.1 = Done (SplitLegacy "/c/synbad-core-1.2.3-aarch64/deskflow-server" "/c/synbad-core-1.2.3-aarch64/deskflow-client") ∧
  ensure_macos_core (wit_mac both_programs) "/c" wit_mac2.2 = wit_mac2.
Proof. vm_compute. done. Qed.

(** An archive without the client, over a staging directory that could not be removed:
    the client in it, from another version and architecture, is installed. *)
Example stale_program_installed :
  let stale : gmap string bytes := {[LEGACY_CLIENT_BIN := bytes_of "stale"]} in
  let run := ensure_macos_core (wit_mac server_only) "/c" (wit_cache {["synbad-core-1.2.partial" := stale]} [FFails 0]) in
  run.1 = Done (SplitLegacy "/c/synbad-core-1.2.3-aarch64/deskflow-server" "/c/synbad-core-1.2.3-aarch64/deskflow-client") ∧
  (rs_dirs run.2 !! "synbad-core-1.2.3-aarch64" ≫= lookup LEGACY_CLIENT_BIN) = Some (bytes_of "stale").
Proof. vm_compute. done. Qed.

(** The theorem at the second run. *)
Example macos_core_sound_witness :
  archive_complete (wit_mac both_programs) ∧ mac_ok (wit_mac both_programs) (rs_dirs wit_mac2.2).
Proof.
  assert (archive_complete (wit_mac both_programs)) as Hfull.
  { intros sha b (checksum & Hget & Hw) Hs t Ht. cbn [tar_unpack toy_mac]. destruct (decide (b = server_only)) as [->|Hne].
    - exfalso. vm_compute in Hget. injection Hget as <-. vm_compute in Hw. injection Hw as <-. by vm_compute in Hs.
    - exists b. set_solver. }
  assert (mac_ok (wit_mac both_programs) (rs_dirs wit_mac1.2)) as Hok by (intros files Hf; by vm_compute in Hf).
  split; [exact Hfull|]. exact (proj1 (macos_core_sound (wit_mac both_programs) "/c" _ wit_mac2.1 wit_mac2.2 Hfull Hok (surjective_pairing wit_mac2))).
Defined.
End runs.
