(* ===== verification/AudioQuery.v ===== *)
(** * Asking about audio ([requests.rs], [bridge.rs], [capture.rs], [playback.rs])

    The two audio queries of the supervisor, which go through the bridge when it runs
    and must not hang on it; and the device a session opens for a configured name. *)

From Stdlib Require Import Ascii ZArith Lia.
From S2P Require Import Prelude Primitives Config Versioned IpcTypes LogParse Store CoreProc SupState NetSync Supervisor AudioDriver AudioBridge FileOps Resolver IpcWire GuiApp AudioTab.

(** What [cpal] shows of the machine. *)
Record CpalHost := {
  ho_default_input : option CpalDevice;
  ho_inputs : result string (list CpalDevice);
  ho_default_output : option CpalDevice;
  ho_outputs : result string (list CpalDevice)
}.

Record DeviceListReply := { dl_input : list AudioDeviceInfo; dl_output : list AudioDeviceInfo }.

(** [AudioBridge::list_devices_blocking]. *)
Definition list_devices_blocking (h : CpalHost) : result AudioError DeviceListReply :=
  let? input := list_input_devices (ho_default_input h) (ho_inputs h) in
  let? output := list_output_devices (ho_default_output h) (ho_outputs h) in
  Ok {| dl_input := input; dl_output := output |}.

Definition ok_or_nil {E A} (r : result E (list A)) : list A := match r with Ok l => l | Err _ => [] end.

(** The bridge's answer to [ListDevices]. *)
Definition answer_list_devices (h : CpalHost) : DeviceListReply :=
  {| dl_input := ok_or_nil (list_input_devices (ho_default_input h) (ho_inputs h));
     dl_output := ok_or_nil (list_output_devices (ho_default_output h) (ho_outputs h)) |}.

(** How the task asked fares: its queue is full or gone, it does not answer within two
    seconds, it drops the reply channel, or it answers. *)
Inductive Asked A := AkRefused | AkTimeout | AkDropped | AkReply (a : A).
Arguments AkRefused {A}. Arguments AkTimeout {A}. Arguments AkDropped {A}. Arguments AkReply {A} a.

(** How the blocking task fares when there is no bridge. *)
Inductive Probed := PbTimeout | PbPanicked (e : string) | PbDone (r : result AudioError DeviceListReply).

Section queries.
Context (show_audio_error : AudioError → string).

(** [list_audio_devices], to the reply it works out. *)
Definition device_reply (bridge : option (Asked DeviceListReply)) (probe : Probed) : result string DeviceListReply :=
  match bridge with
  | Some AkRefused => Err "audio bridge is not responding"%string
  | Some AkTimeout => Err "audio bridge response timed out"%string
  | Some AkDropped => Err "audio bridge dropped reply channel"%string
  | Some (AkReply list) => Ok list
  | None => match probe with
            | PbTimeout => Err "audio device enumeration timed out"%string
            | PbPanicked e => Err e
            | PbDone r => rmap_err show_audio_error r
            end
  end.

Definition list_audio_devices (bridge : option (Asked DeviceListReply)) (probe : Probed) : Response :=
  match device_reply bridge probe with
  | Ok list => RsAudioDevices (dl_input list) (dl_output list)
  | Err e => RsError e
  end.

Definition status_reply (asked : Asked (list PeerAudioStatus)) : result string (list PeerAudioStatus) :=
  match asked with
  | AkRefused => Err "audio bridge is not responding"%string
  | AkReply peers => Ok peers
  | _ => Err "audio bridge did not reply within two seconds"%string
  end.

Definition audio_status_snapshot (bridge : option (Asked (list PeerAudioStatus))) : Response :=
  match bridge with
  | None => RsAudioStatus []
  | Some asked => match status_reply asked with Ok peers => RsAudioStatus peers | Err e => RsError e end
  end.

(** ** Picking a device *)

Definition named (name : string) (d : CpalDevice) : bool := match cd_name d with Ok n => bool_decide (n = name) | Err _ => false end.

Definition any_loopback_input_available (macos : bool) (h : CpalHost) : bool :=
  if macos then existsb (λ d, match cd_name d with Ok n => looks_like_loopback n | Err _ => false end) (ok_or_nil (ho_inputs h)) else true.

Definition pick_input_device (macos : bool) (h : CpalHost) (requested : option string) : result AudioError CpalDevice :=
  let result :=
    match requested with
    | None => ok_or (AuInputDeviceNotFound None) (ho_default_input h)
    | Some name => let? ds := rmap_err AuDevice (ho_inputs h) in ok_or (AuInputDeviceNotFound (Some name)) (List.find (named name) ds)
    end in
  match result with
  | Err (AuInputDeviceNotFound _) => if any_loopback_input_available macos h then result else Err AuLoopbackUnavailable
  | other => other
  end.

Definition pick_output_device (h : CpalHost) (requested : option string) : result AudioError CpalDevice :=
  match requested with
  | None => ok_or (AuOutputDeviceNotFound None) (ho_default_output h)
  | Some name => let? ds := rmap_err AuDevice (ho_outputs h) in ok_or (AuOutputDeviceNotFound (Some name)) (List.find (named name) ds)
  end.

(** ** What is offered can be opened *)

Lemma list_devices_names loopback dd ds l info :
  list_devices loopback dd (Ok ds) = Ok l → info ∈ l → ∃ d, d ∈ ds ∧ cd_name d = Ok (ad_name info).
Proof.
  intros [= <-] (d & Hd & Hi)%list_elem_of_omap. exists d. split; [done|].
  destruct (cd_name d) as [name|]; [|done]. destruct (cd_config d) as [[rate channels]|]; [|done]. by injection Hi as <-.
Qed.

Lemma find_named name ds : (∃ d, d ∈ ds ∧ cd_name d = Ok name) → ∃ d, List.find (named name) ds = Some d ∧ cd_name d = Ok name.
Proof.
  intros (d & Hd & Hn). destruct (List.find (named name) ds) as [d'|] eqn:E.
  - exists d'. split; [done|]. apply List.find_some in E as [_ E]. unfold named in E. destruct (cd_name d'); [|done].
    apply bool_decide_eq_true in E. by subst.
  - apply list_elem_of_In in Hd. pose proof (List.find_none _ _ E d Hd) as Hf. unfold named in Hf. rewrite Hn in Hf. by rewrite bool_decide_true in Hf.
Qed.

(** An enumeration's entries, whichever way it was asked for. *)
Definition enumerated (h : CpalHost) (i o : list AudioDeviceInfo) : Prop :=
  (i = [] ∨ list_input_devices (ho_default_input h) (ho_inputs h) = Ok i) ∧
  (o = [] ∨ list_output_devices (ho_default_output h) (ho_outputs h) = Ok o).

Lemma queried_enumerated h bridge i o :
  (∀ list, bridge = Some (AkReply list) → list = answer_list_devices h) →
  list_audio_devices bridge (PbDone (list_devices_blocking h)) = RsAudioDevices i o → enumerated h i o.
Proof.
  intros Hb. unfold list_audio_devices, device_reply, enumerated. destruct bridge as [[| | |list]|]; try done.
  - rewrite (Hb list eq_refl). cbn. intros [= <- <-]. split; destruct (list_input_devices (ho_default_input h) (ho_inputs h)), (list_output_devices (ho_default_output h) (ho_outputs h)); auto.
  - unfold list_devices_blocking. destruct (list_input_devices (ho_default_input h) (ho_inputs h)), (list_output_devices (ho_default_output h) (ho_outputs h)); cbn; try done. intros [= <- <-]. auto.
Qed.

Lemma combo_entry l n entry name :
  device_combo l !! n = Some entry → entry.1 = Some name → ∃ info, info ∈ l ∧ ad_name info = name.
Proof.
  unfold device_combo. rewrite lookup_cons. destruct n as [|n]; [by intros [= <-]|]. match goal with |- context [map ?f l] => change (map f l) with (f <$> l) end. rewrite list_lookup_fmap. intros (info & Hl & ->)%fmap_Some [= <-].
  exists info. split; [by eapply list_elem_of_lookup_2|done].
Qed.

(** Whichever entry of the tab's input list is chosen, the device a session then
    captures from has the chosen name; the first entry is the machine's default.  The
    lists are those the supervisor answered with, through the bridge or without it.  So
    too for the output. *)
Theorem offered_device_opens macos h bridge i o a n audio :
  (∀ list, bridge = Some (AkReply list) → list = answer_list_devices h) →
  list_audio_devices bridge (PbDone (list_devices_blocking h)) = RsAudioDevices i o →
  ga_audio_input_devices a = i → ga_audio_output_devices a = o →
  (audio_edit (AeInput n) a = Some audio →
   match aud_input_device audio with
   | Some name => ∃ d, pick_input_device macos h (Some name) = Ok d ∧ cd_name d = Ok name
   | None => ∀ d, ho_default_input h = Some d → pick_input_device macos h None = Ok d
   end) ∧
  (audio_edit (AeOutput n) a = Some audio →
   match aud_output_device audio with
   | Some name => ∃ d, pick_output_device h (Some name) = Ok d ∧ cd_name d = Ok name
   | None => ∀ d, ho_default_output h = Some d → pick_output_device h None = Ok d
   end).
Proof.
  intros Hb Hq Hi Ho. destruct (queried_enumerated h bridge i o Hb Hq) as [Hei Heo]. unfold audio_edit. rewrite Hi, Ho.
  split; (destruct (aud_enabled _); [|done]); intros (entry & He & ->)%fmap_Some; cbn [aud_input_device aud_output_device update_field];
    destruct entry.1 as [name|] eqn:Hn;
    [destruct (combo_entry _ _ _ _ He Hn) as (info & Hin & <-)|by unfold pick_input_device; intros d ->
    |destruct (combo_entry _ _ _ _ He Hn) as (info & Hin & <-)|by unfold pick_output_device; intros d ->].
  - destruct Hei as [->|Hl]; [by apply not_elem_of_nil in Hin|]. unfold pick_input_device. destruct (ho_inputs h) as [ds|]; [|done]. cbn.
    destruct (find_named (ad_name info) ds) as (d & -> & Hd); [by eapply list_devices_names|]. by exists d.
  - destruct Heo as [->|Hl]; [by apply not_elem_of_nil in Hin|]. unfold pick_output_device. destruct (ho_outputs h) as [ds|]; [|done]. cbn.
    destruct (find_named (ad_name info) ds) as (d & -> & Hd); [by eapply list_devices_names|]. by exists d.
Qed.

(** The supervisor's answer is this one. *)
Lemma dispatch_queries `{JsonSharedOps, Sha256Ops, HexOps, TomlOps, JsonOps SideCar, JsonOps TrustFile} id fp paths vpaths sce ste renv s devices status probe :
  re_devices renv = (let? l := device_reply (if sv_audio s then Some devices else None) probe in Ok (dl_input l, dl_output l)) →
  re_status renv = status_reply status →
  dispatch id fp paths vpaths sce ste renv RqListAudioDevices s = (list_audio_devices (if sv_audio s then Some devices else None) probe, s) ∧
  dispatch id fp paths vpaths sce ste renv RqGetAudioStatus s = (audio_status_snapshot (if sv_audio s then Some status else None), s).
Proof.
  intros Hd Hs. unfold dispatch, list_audio_devices, audio_status_snapshot. rewrite Hd, Hs.
  destruct (sv_audio s); [destruct status|]; destruct (device_reply _ probe); done.
Qed.
End queries.

(** A machine whose devices cannot be enumerated has none, says the bridge; without
    the bridge the error is shown. *)
Lemma bridge_hides_failure show h e :
  ho_inputs h = Err e → ho_outputs h = Err e →
  list_audio_devices show (Some (AkReply (answer_list_devices h))) (PbDone (list_devices_blocking h)) = RsAudioDevices [] [] ∧
  list_audio_devices show None (PbDone (list_devices_blocking h)) = RsError (show (AuDevice e)).
Proof. intros Hi Ho. unfold answer_list_devices, list_devices_blocking, list_input_devices, list_output_devices, list_devices. by rewrite Hi, Ho. Qed.

(** ** A machine *)

Definition wit_mic : CpalDevice := {| cd_name := Ok "Mic"%string; cd_config := Ok (48000, 1)%Z |}.
Definition wit_broken_mic : CpalDevice := {| cd_name := Ok "Mic"%string; cd_config := Err "busy"%string |}.
Definition wit_host : CpalHost := {|
  ho_default_input := Some wit_mic; ho_inputs := Ok [wit_broken_mic; wit_mic];
  ho_default_output := None; ho_outputs := Ok []
|}.

(** Of two devices with one name, the one the list leaves out is opened if it comes
    first. *)
Example unlisted_device_opened :
  list_input_devices (ho_default_input wit_host) (ho_inputs wit_host) =
    Ok [{| ad_name := "Mic"; ad_is_default := true; ad_native_sample_rate := 48000; ad_channels := 1; ad_is_loopback := false |}] ∧
  pick_input_device false wit_host (Some "Mic"%string) = Ok wit_broken_mic.
Proof. vm_compute. done. Qed.

(** macOS without a loopback device says so, whatever was asked for. *)
Example loopback_hint :
  pick_input_device true wit_host (Some "Gone"%string) = Err AuLoopbackUnavailable ∧
  pick_input_device false wit_host (Some "Gone"%string) = Err (AuInputDeviceNotFound (Some "Gone"%string)).
Proof. vm_compute. done. Qed.

Definition wit_tab : App :=
  let a := app_new false [] false in
  a <| ga_config := set_cfg_audio (cfg_audio (ga_config a) <| aud_enabled := true |>) (ga_config a) |>
    <| ga_audio_input_devices := ok_or_nil (list_input_devices (ho_default_input wit_host) (ho_inputs wit_host)) |>.

Example offered_device_opens_witness :
  ∃ d, pick_input_device false wit_host (Some "Mic"%string) = Ok d ∧ cd_name d = Ok "Mic"%string.
Proof.
  destruct (audio_edit (AeInput 1) wit_tab) as [audio|] eqn:E; [|by vm_compute in E].
  assert (aud_input_device audio = Some "Mic"%string) as Hd by (vm_compute in E; by injection E as <-).
  assert (ga_audio_output_devices wit_tab = []) as Ho by (vm_compute; reflexivity).
  pose proof (proj1 (offered_device_opens (λ _, ""%string) false wit_host None _ [] wit_tab 1 audio ltac:(done) ltac:(vm_compute; reflexivity) ltac:(vm_compute; reflexivity) Ho) E) as Hopen.
  rewrite Hd in Hopen. exact Hopen.
Defined.
