(* ===== verification/Launch.v ===== *)
(** * Launching the daemon ([ipc_thread.rs], [restart.rs])

    Which [synbadd] the window launches, what it shows when that fails, and that after
    an update it is the one the updater replaced. *)

From Stdlib Require Import Ascii ZArith Lia.
From S2P Require Import Prelude Primitives Config IpcTypes LogParse Store Conn FileOps GuiApp GuiIpc RotatingLog Updater Paths Elevation.

(** [synbadd_binary]: beside the window's own executable, or whatever the [PATH] finds. *)
Definition synbadd_binary (windows : bool) (exists_path : string → bool) (current_exe : option string) : string :=
  let name := if windows then "synbadd.exe"%string else "synbadd"%string in
  match current_exe ≫= parent with
  | Some dir => let candidate := join dir name in if exists_path candidate then candidate else name
  | None => name
  end.

(** The window's environment: its executable, which paths exist, whether a binary
    starts, and what became of the daemon's log. *)
Record SpawnEnv := {
  le_windows : bool;
  le_current_exe : option string;
  le_exists : string → bool;
  le_start : string → result string unit;
  le_dirs : option ProjectDirs
}.

(** [spawn_daemon]: what was launched and how that went, with the log its output is
    copied to; a log that cannot be opened is done without. *)
Definition spawn_daemon (env : SpawnEnv) (fs : Fs) : string * result string (option LogFile) * Fs :=
  let binary := synbadd_binary (le_windows env) (le_exists env) (le_current_exe env) in
  let log_path := launch_log (le_dirs env) in
  match le_start env binary with
  | Ok _ => let '(log, fs) := RotatingLog.open log_path fs in (binary, Ok log, fs)
  | Err e => (binary, Err e, fs)
  end.

Definition launch_failure_msg (path err : string) : string := "could not launch synbadd at " +:+ path +:+ ": " +:+ err.

(** [try_spawn]: what it shows, and its result. *)
Definition try_spawn (env : SpawnEnv) (fs : Fs) : list Update * result string unit * Fs :=
  let '(binary, r, fs) := spawn_daemon env fs in
  match r with
  | Ok _ => ([], Ok tt, fs)
  | Err e => let msg := launch_failure_msg binary e in ([UpDisconnected msg], Err msg, fs)
  end.

(** [restart_daemon], by platform; elsewhere there is nothing to ask. *)
Inductive Os := OsLinux | OsMacos | OsWindows | OsOther.
Definition restart_daemon (os : Os) (uid : Z) (run : list string → result string ExitStatus) : result string unit :=
  match os with
  | OsLinux => linux_restart run
  | OsMacos => macos_restart uid run
  | OsWindows => windows_restart run
  | OsOther => Ok tt
  end.

(** ** The event loop launches this way *)

(** An attempt whose launch is [try_spawn]'s. *)
Definition attempt_spawns (env : SpawnEnv) (fs : Fs) (a : Attempt) : Prop := at_spawn a = (try_spawn env fs).1.2.

(** An iteration that launches shows what [try_spawn] sends after its report, and
    "starting" only if it succeeded; a failure is what the next iteration reports, with
    the path that could not be launched. *)
Lemma launch_shown show_error show_response env fs socket a l :
  attempt_spawns env fs a → it_launched (event_iter show_error show_response socket a l) = true →
  let it := event_iter show_error show_response socket a l in
  ∃ report, it_updates it = report :: (try_spawn env fs).1.1 ++ (if is_ok (try_spawn env fs).1.2 then [launching] else []) ∧
  lp_last_spawn_error (it_loop it) =
    match le_start env (synbadd_binary (le_windows env) (le_exists env) (le_current_exe env)) with
    | Ok _ => None
    | Err e => Some (launch_failure_msg (synbadd_binary (le_windows env) (le_exists env) (le_current_exe env)) e)
    end.
Proof.
  unfold attempt_spawns, event_iter, try_spawn, spawn_daemon. intros Hs. destruct (at_connect a) as [se|e].
  { destruct (setup _ _ se) as [us [|]]; [|done]. by case_bool_decide. }
  destruct (should_spawn _ _ _); [|done]. intros _. cbv zeta. rewrite Hs.
  destruct (le_start env _) as [[]|err]; [destruct (RotatingLog.open _ _)|]; cbn; eauto.
Qed.

(** ** The window launches the daemon the updater replaces *)

Lemma stem_gui (windows : bool) exe :
  file_name exe = Some (if windows then "synbad-gui.exe" else "synbad-gui")%string →
  sibling_basename exe = if windows then "synbadd.exe"%string else "synbadd"%string.
Proof. intros Hn. unfold sibling_basename, binary_basename_for_path. rewrite Hn. by destruct windows. Qed.

(** Run from a window, the updater replaces the daemon beside it when there is one; that
    is then the very one the window launches. *)
Theorem launches_replaced_daemon (windows : bool) exe dir fs (present : string → bool) :
  file_name exe = Some (if windows then "synbad-gui.exe" else "synbad-gui")%string → parent exe = Some dir →
  (∀ path, is_Some (content path fs) → present path = true) → is_Some (content (join dir (sibling_basename exe)) fs) →
  synbadd_binary windows present (Some exe) = join dir (sibling_basename exe).
Proof.
  intros Hn Hd Hp Hc. rewrite (stem_gui windows) in * by done. unfold synbadd_binary. cbn. rewrite Hd. cbn. by rewrite Hp.
Qed.

Example launches_replaced_daemon_witness :
  synbadd_binary false (λ p, bool_decide (p = "/opt/synbadd"%string)) (Some "/opt/synbad-gui"%string) = "/opt/synbadd"%string.
Proof.
  refine (launches_replaced_daemon false "/opt/synbad-gui" "/opt" {| fs_files := {["/opt/synbadd" := []]}; fs_faults := [] |} _ _ _ _ _).
  - vm_compute. reflexivity.
  - vm_compute. reflexivity.
  - intros path [b Hb]. unfold content in Hb. cbn in Hb. apply lookup_singleton_Some in Hb as [<- _]. by apply bool_decide_eq_true.
  - by exists [].
Defined.

(** Without one beside it, the window launches what the [PATH] has, which the updater
    leaves alone. *)
Example path_daemon_launched : synbadd_binary false (λ _, false) (Some "/opt/synbad-gui"%string) = "synbadd"%string.
Proof. reflexivity. Qed.
