(* ===== verification/Monitors.v ===== *)
(** * Monitor enumeration ([crates/synbad-gui/src/monitors.rs])

    The desktops of this machine: asked of the X server, whose pixels are divided by the
    scale its resource database names, or of the platform.  The servers' answers are
    inputs. *)

From Stdlib Require Import Ascii ZArith Lia SpecFloat.
From S2P Require Import Prelude Config LogParse Float32 FileOps Resolver Startup.

(** ** [str::parse::<f32>] *)

(** [m * 10^k], rounded to the nearest single. *)
Definition f32_decimal (s : bool) (m : positive) (k : Z) : spec_float :=
  if decide (0 ≤ k)%Z then binary_round 24 128 s (m * Z.to_pos (10 ^ k)) 0
  else let '(mz, ez, lz) := SFdiv_core_binary 24 128 (Z.pos m) 0 (10 ^ (- k)) 0 in binary_round_aux 24 128 s mz ez lz.

(** A sign, if there is one: whether it is [-], and the rest. *)
Definition take_sign (s : bytes) : bool * bytes :=
  match s with c :: s' => if decide (c = "-"%char) then (true, s') else if decide (c = "+"%char) then (false, s') else (false, s) | [] => (false, s) end.

Fixpoint take_digits (s : bytes) : list Z * bytes :=
  match s with
  | c :: s' => if byte_in 48 57 c then let '(ds, r) := take_digits s' in ((Z_of_byte c - 48)%Z :: ds, r) else ([], s)
  | [] => ([], [])
  end.
Definition decimal_value (ds : list Z) : Z := fold_left (λ v d, 10 * v + d)%Z ds 0%Z.

(** What follows the digits: nothing, or an exponent. *)
Definition parse_exponent (s : bytes) : option Z :=
  match s with
  | [] => Some 0%Z
  | c :: s' =>
    if decide (c = "e"%char ∨ c = "E"%char) then
      let '(neg, s') := take_sign s' in
      match take_digits s' with
      | (d :: ds, []) => Some (if neg : bool then - decimal_value (d :: ds) else decimal_value (d :: ds))%Z
      | _ => None
      end
    else None
  end.

Definition parse_number (neg : bool) (s : bytes) : option spec_float :=
  let '(int, s) := take_digits s in
  let '(frac, s) := match s with c :: s' => if decide (c = "."%char) then take_digits s' else ([], s) | [] => ([], []) end in
  match int ++ frac with
  | [] => None
  | ds =>
    e ← parse_exponent s;
    Some (match decimal_value ds with Z.pos m => f32_decimal neg m (e - Z.of_nat (length frac)) | _ => S754_zero neg end)
  end.

Definition parse_f32 (s : bytes) : option spec_float :=
  let '(neg, s) := take_sign s in
  match parse_number neg s with
  | Some x => Some x
  | None =>
    let lower := map ascii_lower s in
    if decide (lower = bytes_of "nan") then Some S754_nan
    else if decide (lower = bytes_of "inf" ∨ lower = bytes_of "infinity") then Some (S754_infinity neg) else None
  end.

Example parse_f32_examples :
  map (parse_f32 ∘ bytes_of) ["144"; "-1.5"; ".5"; "5."; "1e2"; "0.1"; "16777217"; "1e39"; "1e-50"; "+Infinity"; "nan"; ""; "."; "nope"; "1e"; "1 "]%string =
  [Some (f32_of_Z 144); Some (f32_div (f32_of_Z (-3)) (f32_of_Z 2)); Some (f32_div f32_one (f32_of_Z 2)); Some (f32_of_Z 5); Some (f32_of_Z 100);
   Some (S754_finite false 13421773 (-27)); Some (f32_of_Z 16777216); Some (S754_infinity false); Some (S754_zero false);
   Some (S754_infinity false); Some S754_nan; None; None; None; None; None].
Proof. vm_compute. reflexivity. Qed.

(** ** The scale *)

Definition xft_scale (resources : bytes) : option spec_float :=
  rest ← head (omap (strip_prefix (bytes_of "Xft.dpi:")) (lines resources));
  dpi ← parse_f32 (trim rest);
  if SFltb f32_zero dpi then Some (f32_div dpi (f32_of_Z 96)) else None.

(** ** The X server *)

(** [x] and [y] are [i16], [width] and [height] [u16]. *)
Record XMonitor := { xm_x : Z; xm_y : Z; xm_width : Z; xm_height : Z; xm_primary : bool }.

(** The server's answers: the connection with the default screen's number, how many
    screens there are, the property, the monitors. *)
Record XServer := {
  xs_connect : result string nat;
  xs_roots : nat;
  xs_resources : result string bytes;
  xs_monitors : result string (list XMonitor)
}.

Definition f32_as_i32 : spec_float → Z := f32_as_int (- 2 ^ 31) (2 ^ 31 - 1).
Definition f32_as_u32 : spec_float → Z := f32_as_int 0 (2 ^ 32 - 1).

Definition logical (scale : spec_float) (m : XMonitor) : MonitorInfo := {|
  mon_x := f32_as_i32 (f32_div (f32_of_Z (xm_x m)) scale);
  mon_y := f32_as_i32 (f32_div (f32_of_Z (xm_y m)) scale);
  mon_w := f32_as_u32 (f32_div (f32_of_Z (xm_width m)) scale);
  mon_h := f32_as_u32 (f32_div (f32_of_Z (xm_height m)) scale);
  mon_primary := xm_primary m
|}.

(** [long_length] is in units of four bytes. *)
Definition RESOURCE_BYTES : nat := Z.to_nat (4 * (16 * 1024)).

Definition x11_enumerate (srv : XServer) : result string (list MonitorInfo) :=
  let? index := xs_connect srv in
  let? _ := (if decide (index < xs_roots srv) then Ok tt else Err "X screen not found"%string) in
  let? resources := xs_resources srv in
  let scale := default f32_one (xft_scale (utf8_lossy (take RESOURCE_BYTES resources))) in
  let? monitors := xs_monitors srv in
  Ok (map (logical scale) monitors).

(** [WAYLAND_DISPLAY], else [XDG_SESSION_TYPE].  Lowering other letters than the
    alphabet's gives none of the word's. *)
Definition is_wayland (wayland_display xdg_session_type : option bytes) : bool :=
  match (match wayland_display with Some v => Some v | None => xdg_session_type end) with
  | Some v => contains "wayland" (string_of (map ascii_lower (utf8_lossy v)))
  | None => false
  end.

(** Where the window runs, and what can be asked there. *)
Record Display := {
  dy_linux : bool;
  dy_wayland_display : option bytes;
  dy_xdg_session_type : option bytes;
  dy_server : XServer;
  dy_platform : result string (list MonitorInfo)
}.

Definition enumerate (d : Display) : list MonitorInfo :=
  let r := if dy_linux d && negb (is_wayland (dy_wayland_display d) (dy_xdg_session_type d)) then x11_enumerate (dy_server d) else dy_platform d in
  match r with Ok monitors => monitors | Err _ => [] end.

(** ** What the window gets *)

Definition i16_range (z : Z) : Prop := (- 2 ^ 15 ≤ z < 2 ^ 15)%Z.
Definition u16_range (z : Z) : Prop := (0 ≤ z < 2 ^ 16)%Z.
Definition xmonitor_ok (m : XMonitor) : Prop :=
  i16_range (xm_x m) ∧ i16_range (xm_y m) ∧ u16_range (xm_width m) ∧ u16_range (xm_height m).

(** A monitor as the server has it. *)
Definition physical (m : XMonitor) : MonitorInfo :=
  {| mon_x := xm_x m; mon_y := xm_y m; mon_w := xm_width m; mon_h := xm_height m; mon_primary := xm_primary m |}.

Definition monitor_ok (m : MonitorInfo) : Prop :=
  (- 2 ^ 31 ≤ mon_x m < 2 ^ 31)%Z ∧ (- 2 ^ 31 ≤ mon_y m < 2 ^ 31)%Z ∧ (0 ≤ mon_w m < 2 ^ 32)%Z ∧ (0 ≤ mon_h m < 2 ^ 32)%Z.

Lemma f32_as_int_range lo hi x : (lo ≤ 0 ≤ hi)%Z → (lo ≤ f32_as_int lo hi x ≤ hi)%Z.
Proof. intros H0. unfold f32_as_int. destruct x as [?|[]|?|? ? ?]; lia. Qed.

Lemma logical_ok scale m : monitor_ok (logical scale m).
Proof.
  unfold monitor_ok, logical, f32_as_i32, f32_as_u32. cbn. split_and!;
    match goal with |- context [f32_as_int ?lo ?hi ?x] => pose proof (f32_as_int_range lo hi x ltac:(lia)); lia end.
Qed.

Lemma logical_one m : xmonitor_ok m → logical f32_one m = physical m.
Proof.
  unfold xmonitor_ok, i16_range, u16_range. intros (Hx & Hy & Hw & Hh). unfold logical, physical, f32_as_i32, f32_as_u32.
  rewrite !f32_as_int_div_one by lia. done.
Qed.

(** On X11 the window gets one monitor for each of the server's, in its order, each
    within the integers it is stored in.  When the resource database names no usable
    scale, or exactly 96 dots per inch, they are the server's to the pixel.  When any
    answer is missing there are none. *)
Theorem x11_monitors d :
  dy_linux d = true → is_wayland (dy_wayland_display d) (dy_xdg_session_type d) = false →
  match x11_enumerate (dy_server d) with
  | Err _ => enumerate d = []
  | Ok _ => ∃ monitors resources, xs_monitors (dy_server d) = Ok monitors ∧ xs_resources (dy_server d) = Ok resources ∧
      map mon_primary (enumerate d) = map xm_primary monitors ∧ Forall monitor_ok (enumerate d) ∧
      (default f32_one (xft_scale (utf8_lossy (take RESOURCE_BYTES resources))) = f32_one → Forall xmonitor_ok monitors →
       enumerate d = map physical monitors)
  end.
Proof.
  intros Hl Hw. unfold enumerate. rewrite Hl, Hw. cbn [andb negb].
  destruct (x11_enumerate (dy_server d)) as [ms|e] eqn:E; [|done]. unfold x11_enumerate in E.
  destruct (xs_connect _) as [index|]; [|done]. cbn [rbind] in E. destruct (decide _); [|done]. cbn [rbind] in E.
  destruct (xs_resources _) as [resources|]; [|done]. cbn [rbind] in E. destruct (xs_monitors _) as [monitors|]; [|done].
  injection E as <-. exists monitors, resources. split_and!; [done..| | |].
  - rewrite map_map. done.
  - apply Forall_map, Forall_true. intros m. apply logical_ok.
  - intros -> Hok. apply map_ext_Forall. eapply Forall_impl; [exact Hok|]. apply logical_one.
Qed.

Definition wit_xserver (resources : string) : XServer := {|
  xs_connect := Ok 0; xs_roots := 1; xs_resources := Ok (bytes_of resources);
  xs_monitors := Ok [{| xm_x := 0; xm_y := -200; xm_width := 3840; xm_height := 2160; xm_primary := true |};
                     {| xm_x := 3840; xm_y := 0; xm_width := 1921; xm_height := 1080; xm_primary := false |}] |}.
Definition wit_display (resources : string) : Display := {|
  dy_linux := true; dy_wayland_display := None; dy_xdg_session_type := Some (bytes_of "x11"); dy_server := wit_xserver resources;
  dy_platform := Err "not asked"%string |}.

Example x11_monitors_witness :
  map mon_w (enumerate (wit_display "Xft.dpi: 96")) = [3840; 1921]%Z ∧ Forall monitor_ok (enumerate (wit_display "Xft.dpi: 96")).
Proof.
  pose proof (x11_monitors (wit_display "Xft.dpi: 96") eq_refl eq_refl) as Hm.
  destruct (x11_enumerate _) as [ms|e] eqn:E; [|by vm_compute in E]. destruct Hm as (monitors & resources & Hms & Hr & _ & Hok & Hid).
  split; [|exact Hok]. injection Hms as <-. injection Hr as <-. rewrite Hid; [reflexivity|vm_compute; reflexivity|].
  repeat constructor; unfold i16_range, u16_range; cbn; lia.
Defined.

(** Half again as dense: the pixels are divided and cut towards zero. *)
Example scaled_monitors :
  map (λ m, (mon_x m, mon_y m, mon_w m, mon_h m)) (enumerate (wit_display ("Xcursor.size: 24" +:+ String "010" "" +:+ "Xft.dpi: 144"))) =
  [(0, -133, 2560, 1440); (2560, 0, 1280, 720)]%Z.
Proof. vm_compute. reflexivity. Qed.

(** A density that is not finite passes the check for being positive, and leaves
    monitors without extent; a tiny one gives the largest integers. *)
Example degenerate_scale :
  map (λ m, (mon_w m, mon_h m)) (enumerate (wit_display "Xft.dpi: inf")) = [(0, 0); (0, 0)]%Z ∧
  map mon_w (enumerate (wit_display "Xft.dpi: 1e-37")) = [2 ^ 32 - 1; 2 ^ 32 - 1]%Z.
Proof. vm_compute. done. Qed.

(** A Wayland socket of another name hides the session's type. *)
Example wayland_missed : is_wayland (Some (bytes_of "/run/user/1000/compositor")) (Some (bytes_of "wayland")) = false.
Proof. vm_compute. reflexivity. Qed.
