(* ===== verification/CoreFetch.v ===== *)
(** * Fetching the Core, as the user sees it ([binaries.rs], [core_proc.rs])

    The download's progress reports, and [fetch_binary]: the task that turns the
    resolver's events into log lines while the resolver runs, and is aborted when it
    returns. *)

From Stdlib Require Import Ascii ZArith Lia SpecFloat.
From S2P Require Import Prelude Primitives Config IpcTypes LogParse CoreProc Store Conn FileOps Resolver MacCore.

(** ** The lines *)

(** [z as f64], and [/] and [*]. *)
Definition f64_of_Z (z : Z) : spec_float := binary_normalize 53 1024 z 0 false.
Definition f64_div : spec_float → spec_float → spec_float := SFdiv 53 1024.
Definition f64_mul : spec_float → spec_float → spec_float := SFmul 53 1024.

(** [{:.1}] of a number that is not negative: the nearest tenth, halves to even. *)
Definition format_tenths (x : spec_float) : string :=
  let tenths n := pretty (n / 10)%Z +:+ "." +:+ pretty (n mod 10)%Z in
  match x with
  | S754_nan => "NaN"
  | S754_infinity _ => "inf"
  | S754_zero _ => tenths 0%Z
  | S754_finite _ m (Z.neg k) =>
    let d := (2 ^ Z.pos k)%Z in
    let q := (Z.pos m * 10 / d)%Z in
    let r := (Z.pos m * 10 mod d)%Z in
    tenths (if decide (d < 2 * r ∨ 2 * r = d ∧ Z.odd q = true)%Z then q + 1 else q)%Z
  | S754_finite _ m e => tenths (Z.pos m * 2 ^ e * 10)%Z
  end.

Definition percent (bytes total : Z) : spec_float := f64_mul (f64_div (f64_of_Z bytes) (f64_of_Z total)) (f64_of_Z 100).

Definition event_line (e : REvent) : string :=
  match e with
  | ReCheckingLatest => "[synbad] checking deskflow releases/latest"
  | ReDownloading tag asset url => "[synbad] downloading " +:+ asset +:+ " (" +:+ tag +:+ ") from " +:+ url
  | ReProgress asset bytes (Some t) =>
    "[synbad] " +:+ asset +:+ ": " +:+ pretty bytes +:+ " / " +:+ pretty t +:+ " bytes (" +:+ format_tenths (percent bytes t) +:+ "%)"
  | ReProgress asset bytes None => "[synbad] " +:+ asset +:+ ": " +:+ pretty bytes +:+ " bytes"
  | ReExtracting tag asset => "[synbad] extracting deskflow core from " +:+ tag +:+ " (" +:+ asset +:+ ")"
  | ReReady tag path => "[synbad] deskflow core " +:+ tag +:+ " ready at " +:+ path
  end.

Example event_line_examples :
  map event_line [ReProgress "a.deb" 131072 (Some 1000000%Z); ReProgress "a.deb" 1 (Some 3%Z); ReProgress "a.deb" 1 (Some 800%Z);
                  ReProgress "a.deb" 5 (Some 0%Z); ReProgress "a.deb" 262144 None] =
  ["[synbad] a.deb: 131072 / 1000000 bytes (13.1%)"; "[synbad] a.deb: 1 / 3 bytes (33.3%)"; "[synbad] a.deb: 1 / 800 bytes (0.1%)";
   "[synbad] a.deb: 5 / 0 bytes (inf%)"; "[synbad] a.deb: 262144 bytes"]%string.
Proof. vm_compute. reflexivity. Qed.

(** ** The forwarder *)

Definition EVENT_QUEUE : nat := 64.

(** The events the resolver has yet to send, those in the channel, and the lines the
    forwarder sent. *)
Record Forwarding := { fw_ahead : list REvent; fw_queue : list REvent; fw_lines : list string }.

(** Which task runs next. *)
Inductive FwOp := FwResolver | FwForwarder.

(** [None]: it cannot, since the channel is full or empty. *)
Definition fw_step (op : FwOp) (f : Forwarding) : option Forwarding :=
  match op with
  | FwResolver =>
    match fw_ahead f with
    | e :: rest => if decide (length (fw_queue f) < EVENT_QUEUE)
                   then Some {| fw_ahead := rest; fw_queue := fw_queue f ++ [e]; fw_lines := fw_lines f |} else None
    | [] => None
    end
  | FwForwarder =>
    match fw_queue f with
    | e :: rest => Some {| fw_ahead := fw_ahead f; fw_queue := rest; fw_lines := fw_lines f ++ [event_line e] |}
    | [] => None
    end
  end.

Fixpoint fw_run (ops : list FwOp) (f : Forwarding) : option Forwarding :=
  match ops with [] => Some f | op :: ops => fw_step op f ≫= fw_run ops end.

(** [fetch_binary] on a schedule: the resolver's result and the lines sent by the time
    the forwarder is aborted; [None] if the resolver has not returned. *)
Definition fetch_binary `{HexOps, Sha256Ops, ArchiveOps, MacOps} (env : MacEnv + ResolverEnv) (cache_root : string) (ops : list FwOp) (s : Res) :
    option (outcome string CoreLayout * list string * Res) :=
  let '(r, s') := ensure_core env cache_root (s <| rs_events := [] |>) in
  f ← fw_run ops {| fw_ahead := rs_events s'; fw_queue := []; fw_lines := [] |};
  match fw_ahead f with [] => Some (r, fw_lines f, s') | _ => None end.

(** Nothing is reordered: what was sent, what waits and what is to come are the events. *)
Lemma fw_run_spec ops f f' :
  fw_run ops f = Some f' →
  fw_lines f' ++ map event_line (fw_queue f' ++ fw_ahead f') = fw_lines f ++ map event_line (fw_queue f ++ fw_ahead f) ∧
  (length (fw_queue f) ≤ EVENT_QUEUE → length (fw_queue f') ≤ EVENT_QUEUE).
Proof.
  revert f. induction ops as [|op ops IH]; intros f; cbn; [by intros [= <-]|]. intros (f1 & H1 & H2)%bind_Some.
  apply IH in H2 as [E L]. rewrite E. destruct op; cbn in H1.
  - destruct (fw_ahead f) as [|e rest]; [done|]. case_decide as Hd; [|done]. injection H1 as <-. cbn in *.
    rewrite <-app_assoc. split; [done|]. intros _. apply L. rewrite length_app. cbn. lia.
  - destruct (fw_queue f) as [|e rest]; [done|]. injection H1 as <-. cbn in *. rewrite <-app_assoc. split; [done|]. intros. apply L. lia.
Qed.

(** Some task can always run, until every event is a line. *)
Lemma fw_not_stuck f : fw_ahead f ≠ [] ∨ fw_queue f ≠ [] → ∃ op f', fw_step op f = Some f'.
Proof.
  intros H. destruct (fw_queue f) as [|e q] eqn:Eq.
  - destruct (fw_ahead f) as [|e rest] eqn:Ea; [by destruct H|]. exists FwResolver. cbn. rewrite Ea, Eq. cbn. eauto.
  - exists FwForwarder. cbn. rewrite Eq. eauto.
Qed.

(** A step uses up one of the two hops each event makes. *)
Lemma fw_step_decreases op f f' :
  fw_step op f = Some f' → 2 * length (fw_ahead f') + length (fw_queue f') < 2 * length (fw_ahead f) + length (fw_queue f).
Proof.
  destruct op; cbn; [destruct (fw_ahead f); [done|]; case_decide; [|done]|destruct (fw_queue f); [done|]];
    intros [= <-]; cbn; rewrite ?length_app; cbn; lia.
Qed.

(** ** Progress reports *)

(** Where the reports fall. *)
Fixpoint reports (last_report : Z) (marks : list Z) : list Z :=
  match marks with
  | [] => []
  | m :: ms => if decide (131072 ≤ m - last_report)%Z then m :: reports m ms else reports last_report ms
  end.

(** How much there is after each chunk. *)
Fixpoint marks (n : Z) (chunks : list bytes) : list Z :=
  match chunks with [] => [] | c :: cs => let n := (n + Z.of_nat (length c))%Z in n :: marks n cs end.

(** Consecutive reports are at least 128 KiB apart, and the first is. *)
Fixpoint spaced (last : Z) (l : list Z) : Prop := match l with [] => True | m :: l => (last + 131072 ≤ m)%Z ∧ spaced m l end.

Lemma reports_spaced last l : spaced last (reports last l).
Proof. revert last. induction l as [|m l IH]; intros last; cbn; [done|]. case_decide; [|apply IH]. split; [lia|apply IH]. Qed.

Lemma marks_bound n chunks m : m ∈ marks n chunks → (n ≤ m ≤ n + Z.of_nat (length (concat chunks)))%Z.
Proof.
  revert n. induction chunks as [|c cs IH]; intros n; cbn; [by intros ?%not_elem_of_nil|]. rewrite length_app.
  intros [->|Hm]%elem_of_cons; [lia|]. specialize (IH _ Hm). lia.
Qed.

Lemma reports_sub last l m : m ∈ reports last l → m ∈ l.
Proof.
  revert last. induction l as [|x l IH]; intros last; cbn; [done|]. case_decide.
  - intros [->|Hm]%elem_of_cons; apply elem_of_cons; [by left|right; by eapply IH].
  - intros Hm. apply elem_of_cons. right. by eapply IH.
Qed.

Lemma spaced_length last l bound : spaced last l → (∀ m, m ∈ l → m ≤ bound)%Z → (last ≤ bound → Z.of_nat (length l) * 131072 ≤ bound - last)%Z.
Proof.
  revert last. induction l as [|m l IH]; intros last; cbn; [lia|]. intros [Hm Hl] Hb Hlast.
  pose proof (Hb m ltac:(apply elem_of_cons; by left)). specialize (IH m Hl ltac:(intros; apply Hb; apply elem_of_cons; by right) ltac:(done)). lia.
Qed.

Lemma last_from {A} (m d : A) l : List.last (m :: l) d = List.last l m.
Proof. revert m d. induction l as [|x l IH]; intros m d; [done|]. change (List.last (x :: l) d = List.last (x :: l) m). by rewrite !IH. Qed.

Lemma receive_spec asset total chunks tail out last s :
  ∃ s', receive asset total (map Ok chunks ++ tail) out last s = receive asset total tail (out ++ concat chunks) (List.last (reports last (marks (Z.of_nat (length out)) chunks)) last) s' ∧
  rs_dirs s' = rs_dirs s ∧
  rs_fates s' = rs_fates s ∧
  rs_events s' = rs_events s ++ map (λ m, ReProgress asset m total) (reports last (marks (Z.of_nat (length out)) chunks)).
Proof.
  revert out last s. induction chunks as [|c cs IH]; intros out last s; cbn [map app receive concat marks reports].
  - exists s. cbn. by rewrite !app_nil_r.
  - set (n := Z.of_nat (length (out ++ c))). assert (Z.of_nat (length out) + Z.of_nat (length c) = n)%Z as -> by (unfold n; rewrite length_app; lia).
    case_decide.
    + destruct (IH (out ++ c) n (s <| rs_events := rs_events s ++ [ReProgress asset n total] |>)) as (s' & E & Hd & Hf & He).
      exists s'. unfold mbind, prog_bind, progress. cbv beta iota. rewrite E, app_assoc. fold n in He |- *.
      split_and!; [|done|done|]; [|rewrite He; cbn; by rewrite <-app_assoc].
      fold n. by rewrite last_from.
    + destruct (IH (out ++ c) last s) as (s' & E & Hd & Hf & He). exists s'. rewrite E, app_assoc. done.
Qed.

(** A download returns the body's chunks joined, or the first error in the stream.
    Either way its reports, in order, say how much had come; they are at least 128 KiB
    apart, so that many bytes give at most that many reports. *)
Theorem download_reports send url asset body chunks tail s o s' :
  send url = Ok body → hb_chunks body = map Ok chunks ++ tail → (tail = [] ∨ ∃ e rest, tail = Err e :: rest) →
  download_with_progress send url asset s = (o, s') →
  let ms := reports 0 (marks 0 chunks) in
  o = match tail with Err e :: _ => Failed e | _ => Done (concat chunks) end ∧
  rs_dirs s' = rs_dirs s ∧
  rs_events s' = rs_events s ++ map (λ m, ReProgress asset m (hb_total body)) ms ∧
  spaced 0 ms ∧ (∀ m, m ∈ ms → m ∈ marks 0 chunks) ∧
  (Z.of_nat (length ms) * 131072 ≤ Z.of_nat (length (concat chunks)))%Z.
Proof.
  intros Hs Hc Htail. unfold download_with_progress. rewrite Hs. unfold plift, mbind, prog_bind, mret, prog_ret. cbv beta iota. rewrite Hc.
  destruct (receive_spec asset (hb_total body) chunks tail [] 0 s) as (s1 & -> & Hd & _ & He). cbn [length app] in *. cbn [Z.of_nat] in *.
  assert (spaced 0 (reports 0 (marks 0 chunks))) as Hsp by apply reports_spaced.
  assert (Z.of_nat (length (reports 0 (marks 0 chunks))) * 131072 ≤ Z.of_nat (length (concat chunks)))%Z as Hn.
  { pose proof (spaced_length 0 _ (Z.of_nat (length (concat chunks))) Hsp ltac:(intros m Hm%reports_sub%marks_bound; lia) ltac:(lia)). lia. }
  destruct Htail as [->|(e & rest & ->)]; cbn [receive]; intros [= <- <-]; split_and!; try done; intros m; apply reports_sub.
Qed.

(** What the user sees of a fetch.  The lines are those of the events the resolver had
    sent, in order, up to some point; at most the last sixty-four are missing, those in
    the channel when the forwarder is aborted.  The result is the resolver's, and some
    schedule always lets it return, with every line shown. *)
Theorem fetch_lines `{HexOps, Sha256Ops, ArchiveOps, MacOps} env root s :
  let '(r, s1) := ensure_core env root (s <| rs_events := [] |>) in
  (∀ ops r' lines s', fetch_binary env root ops s = Some (r', lines, s') →
     r' = r ∧ s' = s1 ∧ ∃ shown lost, rs_events s1 = shown ++ lost ∧ lines = map event_line shown ∧ length lost ≤ EVENT_QUEUE) ∧
  ∃ ops, fetch_binary env root ops s = Some (r, map event_line (rs_events s1), s1).
Proof.
  destruct (ensure_core env root _) as [r s1] eqn:E. unfold fetch_binary. rewrite E. split.
  - intros ops r' lines s' (f & Hf & Hr)%bind_Some. destruct (fw_ahead f) eqn:Ea; [|done]. injection Hr as <- <- <-.
    apply fw_run_spec in Hf as [Hev Hq]. rewrite Ea, app_nil_r in Hev. cbn in Hev, Hq. split_and!; [done..|].
    exists (take (length (fw_lines f)) (rs_events s1)), (drop (length (fw_lines f)) (rs_events s1)).
    split; [by rewrite take_drop|]. split.
    + rewrite <-firstn_map, <-Hev, take_app_length. done.
    + apply (f_equal length) in Hev. rewrite length_app, !length_map in Hev. rewrite length_drop. specialize (Hq ltac:(unfold EVENT_QUEUE; lia)). lia.
  - assert (∀ k f, 2 * length (fw_ahead f) + length (fw_queue f) ≤ k →
      ∃ ops f', fw_run ops f = Some f' ∧ fw_ahead f' = [] ∧ fw_queue f' = []) as Hgo.
    { induction k as [|k IH]; intros f Hk.
      - exists [], f. split; [done|]. destruct (fw_ahead f), (fw_queue f); cbn in Hk; try lia. done.
      - destruct (decide (fw_ahead f = [] ∧ fw_queue f = [])) as [[Ha Hq]|Hn]; [by exists [], f|].
        destruct (fw_not_stuck f) as (op & f1 & Hstep); [destruct (fw_ahead f), (fw_queue f); try (by left); try (by right); by destruct Hn|].
        destruct (IH f1) as (ops & f' & Hrun & Hend); [apply fw_step_decreases in Hstep; lia|]. exists (op :: ops), f'. cbn. by rewrite Hstep. }
    destruct (Hgo _ {| fw_ahead := rs_events s1; fw_queue := []; fw_lines := [] |} ltac:(reflexivity)) as (ops & f & Hf & Ha & Hq).
    exists ops. rewrite Hf. cbn. rewrite Ha. apply fw_run_spec in Hf as [Hev _]. rewrite Ha, Hq in Hev. cbn in Hev.
    rewrite app_nil_r in Hev. by rewrite Hev.
Qed.

(** ** A fetch *)

Section runs.
#[local] Existing Instances toy_hex toy_sha toy_archive toy_mac.

Definition wit_start : Res := {| rs_dirs := ∅; rs_fates := []; rs_events := [] |}.

(** The forwarder may not run before it is aborted: then no line is shown, not even
    that the Core is ready. *)
Example fetch_lines_lost :
  (λ x, x.1.2) <$> fetch_binary (inr wit_env) "/cache" (replicate 4 FwResolver) wit_start = Some [] ∧
  (λ x, List.last x.1.2 ""%string) <$> fetch_binary (inr wit_env) "/cache" (replicate 4 FwResolver ++ replicate 4 FwForwarder) wit_start =
    Some "[synbad] deskflow core v1.17.0 ready at /cache/v1.17.0/deskflow-server"%string.
Proof. vm_compute. done. Qed.

Definition wit_body : HttpBody := {| hb_total := Some 5%Z; hb_chunks := map Ok [bytes_of "abc"; bytes_of "de"] |}.
Example download_reports_witness :
  let '(o, s') := download_with_progress (λ _, Ok wit_body) "u" "a" wit_start in o = Done (bytes_of "abcde") ∧ rs_events s' = [].
Proof.
  destruct (download_with_progress (λ _, Ok wit_body) "u" "a" wit_start) as [o s'] eqn:E.
  destruct (download_reports (λ _, Ok wit_body) "u" "a" wit_body [bytes_of "abc"; bytes_of "de"] [] wit_start o s' eq_refl eq_refl (or_introl eq_refl) E) as (-> & _ & -> & _).
  split; reflexivity.
Defined.
End runs.
