(* ===== verification/MediaPath.v ===== *)
(** * From the microphone to the loudspeaker ([capture.rs], [playback.rs], [session.rs])

    Opening the devices, the bounded queues between the device callbacks and the
    session's driver, and what a session does without a device.  The devices, the
    resampler's filters and the media engine are not this program's. *)

From Stdlib Require Import Ascii ZArith Lia SpecFloat.
From S2P Require Import Prelude Primitives Config IpcTypes Store SupState NetSync Float32 AudioDsp AudioBridge AudioDriver AudioTab AudioQuery.

(** ** Opening a device *)

Inductive SampleFormat := FmtI16 | FmtF32 | FmtOther (name : string).
Record StreamConfig := { sc_channels : nat; sc_sample_rate : Z; sc_format : SampleFormat }.

(** What the chosen device answers: its default format, and whether a stream can be
    built on it and started. *)
Record DeviceAnswers := {
  da_config : result string StreamConfig;
  da_build : result string unit;
  da_play : result string unit
}.

(** The device's callback with its samples, or the driver's turn. *)
Inductive MicOp (S : Type) := MicCallback (data : list S) (gain : Z) | MicTake.
Arguments MicCallback {S} data gain.
Arguments MicTake {S}.

Section open.
Context `{ResamplerOps}.
(** [Fft::new]: the rates and the chunk asked for. *)
Context (fft_new : Z → Z → Z → result string Resampler).

Definition stream_error (prefix : string) (e : string) : AudioError := AuStreamBuild (prefix +:+ e).

(** [MonoAccumulator::new]. *)
Definition accumulator_new (channels : nat) (native_rate : Z) : result AudioError MonoAccumulator :=
  if decide (native_rate = TARGET_RATE_HZ) then Ok {| ma_channels := channels; ma_pending_48k := []; ma_resampler := None |}
  else
    let chunk_hint := ((native_rate + 49) / 50)%Z in
    let? inner := rmap_err (stream_error "resampler init: ") (fft_new native_rate TARGET_RATE_HZ chunk_hint) in
    Ok {| ma_channels := channels; ma_pending_48k := []; ma_resampler := Some (inner, []) |}.

(** [PlaybackResampler::new]. *)
Definition playback_resampler_new (native_rate : Z) : result AudioError (option (Resampler * list spec_float)) :=
  if decide (native_rate = TARGET_RATE_HZ) then Ok None
  else let? inner := rmap_err (stream_error "playback resampler init: ") (fft_new TARGET_RATE_HZ native_rate (Z.of_nat FRAME_SAMPLES)) in
       Ok (Some (inner, [])).

Definition build_stream (format : SampleFormat) (ans : DeviceAnswers) : result AudioError unit :=
  match format with
  | FmtOther name => Err (AuStreamBuild ("unsupported sample format: " +:+ name))
  | _ => rmap_err AuStreamBuild (da_build ans)
  end.

(** An open microphone: how its samples are mixed, and the accumulator its callback
    feeds. *)
Record Capture := { cs_format : SampleFormat; cs_accumulator : MonoAccumulator }.

Definition start_capture (macos : bool) (h : CpalHost) (ask : CpalDevice → DeviceAnswers) (device_name : option string) : result AudioError Capture :=
  let? device := pick_input_device macos h device_name in
  let ans := ask device in
  let? cfg := rmap_err AuStreamBuild (da_config ans) in
  let? accumulator := accumulator_new (sc_channels cfg) (sc_sample_rate cfg) in
  let? _ := build_stream (sc_format cfg) ans in
  let? _ := rmap_err AuStreamBuild (da_play ans) in
  Ok {| cs_format := sc_format cfg; cs_accumulator := accumulator |}.

(** An open loudspeaker: the pump's resampler and the bounds of its buffer. *)
Record Playback := {
  pb_format : SampleFormat;
  pb_channels : nat;
  pb_resampler : option (Resampler * list spec_float);
  pb_cap : nat;
  pb_target : nat
}.

Definition start_playback (h : CpalHost) (ask : CpalDevice → DeviceAnswers) (device_name : option string) : result AudioError Playback :=
  let? device := pick_output_device h device_name in
  let ans := ask device in
  let? cfg := rmap_err AuStreamBuild (da_config ans) in
  let? resampler := playback_resampler_new (sc_sample_rate cfg) in
  let? _ := build_stream (sc_format cfg) ans in
  let? _ := rmap_err AuStreamBuild (da_play ans) in
  Ok {| pb_format := sc_format cfg; pb_channels := sc_channels cfg; pb_resampler := resampler;
        pb_cap := jitter_samples (sc_sample_rate cfg) JITTER_CAP_SECS; pb_target := jitter_samples (sc_sample_rate cfg) JITTER_TARGET_SECS |}.

(** ** The queue behind the microphone *)

Definition FRAME_QUEUE : nat := 32.

(** [try_send]: a full queue loses the new frame; so does one whose receiver is gone. *)
Definition try_push {A} (open : bool) (x : A) (q : list A) : list A := if open && bool_decide (length q < FRAME_QUEUE) then q ++ [x] else q.

(** The accumulator, the queue, and the frames the driver has taken. *)
Record Microphone := { mi_acc : MonoAccumulator; mi_queue : list (list Z); mi_taken : list (list Z) }.

Definition mic_step {S} (mono : list S → spec_float) (m : Microphone) (op : MicOp S) : Microphone :=
  match op with
  | MicCallback data gain =>
    let '(frames, acc) := feed mono gain data (mi_acc m) in
    {| mi_acc := acc; mi_queue := fold_left (λ q f, try_push true f q) frames (mi_queue m); mi_taken := mi_taken m |}
  | MicTake =>
    match mi_queue m with
    | f :: q => {| mi_acc := mi_acc m; mi_queue := q; mi_taken := mi_taken m ++ [f] |}
    | [] => m
    end
  end.

(** The frames all callbacks together cut. *)
Fixpoint mic_frames {S} (mono : list S → spec_float) (acc : MonoAccumulator) (ops : list (MicOp S)) : list (list Z) :=
  match ops with
  | [] => []
  | MicCallback data gain :: ops => let '(frames, acc) := feed mono gain data acc in frames ++ mic_frames mono acc ops
  | MicTake :: ops => mic_frames mono acc ops
  end.

(** ** The queue before the loudspeaker *)

(** The driver's queue, the pump's resampler, the buffer it shares with the callback. *)
Record Speaker := { sp_queue : list (list Z); sp_resampler : option (Resampler * list spec_float); sp_player : Player }.

Inductive SpeakerOp := SpOffer (frame : list Z) | SpPump | SpCallback (len : nat) (gain : Z).

Definition speaker_step (pb : Playback) (s : Speaker) (op : SpeakerOp) : Speaker :=
  match op with
  | SpOffer frame => {| sp_queue := try_push true frame (sp_queue s); sp_resampler := sp_resampler s; sp_player := sp_player s |}
  | SpPump =>
    match sp_queue s with
    | [] => s
    | frame :: q =>
      let '(rs, samples) := match sp_resampler s with
                            | Some (rs, pending) => let '(rs, pending, out) := process frame rs pending in (Some (rs, pending), out)
                            | None => (None, frame)
                            end in
      {| sp_queue := q; sp_resampler := rs; sp_player := play (pb_cap pb) (pb_target pb) (pb_channels pb) 0 (sp_player s) (PlayFrame samples) |}
    end
  | SpCallback len gain =>
    {| sp_queue := sp_queue s; sp_resampler := sp_resampler s; sp_player := play (pb_cap pb) (pb_target pb) (pb_channels pb) gain (sp_player s) (PlayCallback len) |}
  end.

Definition speaker_new (pb : Playback) : Speaker := {| sp_queue := []; sp_resampler := pb_resampler pb; sp_player := silent |}.
End open.

(** ** The queues are lossy and bounded, in order *)

Section queues.
Context `{ResamplerOps}.

(** What a burst leaves in a queue: as many of its frames as there is room for. *)
Lemma push_burst {A} (frames q : list A) : fold_left (λ q f, try_push true f q) frames q = q ++ take (FRAME_QUEUE - length q) frames.
Proof.
  revert q. induction frames as [|f frames IH]; intros q; [by rewrite take_nil, app_nil_r|]. cbn [fold_left].
  rewrite IH. unfold try_push. cbn [andb]. case_bool_decide as Hq.
  - rewrite length_app, <-app_assoc. cbn [length]. replace (FRAME_QUEUE - length q) with (S (FRAME_QUEUE - (length q + 1))) by lia. done.
  - replace (FRAME_QUEUE - length q) with 0 by lia. done.
Qed.

Lemma feed_frames {S} (mono : list S → spec_float) gain data acc frames acc' :
  feed mono gain data acc = (frames, acc') → Forall (λ f, length f = FRAME_SAMPLES) frames.
Proof.
  unfold feed. destruct (match ma_resampler acc with Some _ => _ | None => _ end) as [rs pending].
  destruct (cut_frames _ pending) as [fs rest] eqn:E. intros [= <- <-]. by apply cut_frames_spec in E as (_ & Hf & _).
Qed.

Lemma mic_frames_app {S} (mono : list S → spec_float) acc ops op :
  mic_frames mono acc (ops ++ [op]) =
  mic_frames mono acc ops ++ mic_frames mono (mi_acc (fold_left (mic_step mono) ops {| mi_acc := acc; mi_queue := []; mi_taken := [] |})) [op].
Proof.
  assert (∀ q t, mic_frames mono acc (ops ++ [op]) = mic_frames mono acc ops ++ mic_frames mono (mi_acc (fold_left (mic_step mono) ops {| mi_acc := acc; mi_queue := q; mi_taken := t |})) [op]) as Hgo; [|exact (Hgo [] [])].
  revert acc. induction ops as [|[data gain|] ops IH]; intros acc q t; [done|..]; cbn [app mic_frames fold_left mic_step mi_acc].
  - destruct (feed mono gain data acc) as [frames acc']. cbn [mi_queue mi_taken]. rewrite <-app_assoc. f_equal. apply IH.
  - destruct q; apply IH.
Qed.

(** Between the microphone and the driver.  Every frame the driver takes is one frame of
    the codec long; what it has taken and what waits is a subsequence of what was cut,
    in order; at most thirty-two wait; and a frame is only lost to a full queue: a
    callback's frames are kept as far as there is room. *)
Theorem capture_queue {S} (mono : list S → spec_float) acc ops :
  let m := fold_left (mic_step mono) ops {| mi_acc := acc; mi_queue := []; mi_taken := [] |} in
  Forall (λ f, length f = FRAME_SAMPLES) (mi_taken m ++ mi_queue m) ∧
  mi_taken m ++ mi_queue m `sublist_of` mic_frames mono acc ops ∧ length (mi_queue m) ≤ FRAME_QUEUE ∧
  ∀ data gain, let '(frames, acc') := feed mono gain data (mi_acc m) in
    mic_step mono m (MicCallback data gain) =
      {| mi_acc := acc'; mi_queue := mi_queue m ++ take (FRAME_QUEUE - length (mi_queue m)) frames; mi_taken := mi_taken m |}.
Proof.
  cbv zeta. split_and!.
  4: { intros data gain. cbn [mic_step]. destruct (feed mono gain data _) as [frames acc']. by rewrite push_burst. }
  all: induction ops as [|op ops IH] using rev_ind; [try done; cbn; lia|].
  all: rewrite ?mic_frames_app, fold_left_app; cbn [fold_left]; set (m := fold_left _ ops _) in *; destruct op as [data gain|]; cbn [mic_step mic_frames].
  1,3,5: destruct (feed mono gain data (mi_acc m)) as [frames acc'] eqn:E; cbn [mi_queue mi_taken]; rewrite push_burst.
  - rewrite app_assoc. apply Forall_app. split; [done|]. apply Forall_take. by eapply feed_frames.
  - rewrite app_nil_r, app_assoc. by apply sublist_app, sublist_take.
  - rewrite length_app, length_take. lia.
  - destruct (mi_queue m) as [|f q] eqn:Eq; [by rewrite Eq|]. cbn. by rewrite <-app_assoc.
  - rewrite app_nil_r. destruct (mi_queue m) as [|f q] eqn:Eq; [by rewrite Eq|]. cbn. by rewrite <-app_assoc.
  - destruct (mi_queue m) as [|f q] eqn:Eq; [by rewrite Eq|]. cbn in *. lia.
Qed.

(** What was offered to the loudspeaker. *)
Definition offered (ops : list SpeakerOp) : list (list Z) := omap (λ op, match op with SpOffer f => Some f | _ => None end) ops.

Lemma concat_sublist {A} (l k : list (list A)) : l `sublist_of` k → concat l `sublist_of` concat k.
Proof. induction 1; cbn; [done|by apply sublist_app|by apply sublist_inserts_l]. Qed.

Lemma play_frame_sub cap target ch gain p frame total :
  pl_played p ++ pl_buf p `sublist_of` total → 
  let p' := play cap target ch gain p (PlayFrame frame) in pl_played p' ++ pl_buf p' `sublist_of` total ++ frame.
Proof.
  intros Hs. cbn [play]. unfold pump. case_decide as Hf; [subst frame; by rewrite app_nil_r|].
  cbn [pl_played pl_buf]. rewrite app_assoc. apply sublist_app; [|done]. etrans; [apply sublist_drop_mid|done].
Qed.

Lemma play_callback_all cap target ch gain p len :
  let p' := play cap target ch gain p (PlayCallback len) in pl_played p' ++ pl_buf p' = pl_played p ++ pl_buf p.
Proof.
  cbn [play pl_played pl_buf]. destruct (fill_output_from_buffer len ch gain (pl_buf p)) as [out rest] eqn:E. cbn [snd].
  assert (∃ n, rest = drop n (pl_buf p)) as [n ->] by (unfold fill_output_from_buffer in E; injection E as <- <-; by eexists).
  rewrite <-app_assoc, length_drop. f_equal. destruct (decide (n ≤ length (pl_buf p))).
  - replace (length (pl_buf p) - (length (pl_buf p) - n)) with n by lia. apply take_drop.
  - rewrite (drop_ge _ n) by lia. rewrite app_nil_r. apply firstn_all2. lia.
Qed.

Lemma play_depth cap target ch gain p op m :
  target ≤ cap → (match op with PlayFrame samples => length samples ≤ m | PlayCallback _ => True end) → length (pl_buf p) ≤ Nat.max cap m →
  length (pl_buf (play cap target ch gain p op)) ≤ Nat.max cap m.
Proof.
  intros Ht Hm Hp. destruct op as [samples|len]; cbn [play].
  - destruct (pump cap target samples (pl_buf p)) as [buf n] eqn:E. apply pump_spec in E as (_ & _ & Hd); [|done]. cbn. lia.
  - destruct (fill_output_from_buffer len ch gain (pl_buf p)) as [out rest] eqn:E. cbn.
    assert (∃ n, rest = drop n (pl_buf p)) as [n ->] by (unfold fill_output_from_buffer in E; injection E as <- <-; by eexists).
    rewrite length_drop. lia.
Qed.

(** Between the driver and the loudspeaker, at the native rate.  Whatever the order of
    arriving frames, turns of the pump and device callbacks, what has been played, what
    is buffered and what still waits is a subsequence of what arrived, in order; and the
    delay is bounded: at most thirty-two frames wait, and the buffer holds no more than
    its cap or one frame. *)
Theorem speaker_queue pb ops m :
  pb_resampler pb = None → pb_target pb ≤ pb_cap pb → Forall (λ f, length f ≤ m) (offered ops) →
  let s := fold_left (speaker_step pb) ops (speaker_new pb) in
  pl_played (sp_player s) ++ pl_buf (sp_player s) ++ concat (sp_queue s) `sublist_of` concat (offered ops) ∧
  length (sp_queue s) ≤ FRAME_QUEUE ∧ length (pl_buf (sp_player s)) ≤ Nat.max (pb_cap pb) m.
Proof.
  intros Hrs Ht. cbv zeta. 
  cut (Forall (λ f, length f ≤ m) (offered ops) →
    let s := fold_left (speaker_step pb) ops (speaker_new pb) in
    sp_resampler s = None ∧ Forall (λ f, length f ≤ m) (sp_queue s) ∧
    (∃ done, pl_played (sp_player s) ++ pl_buf (sp_player s) `sublist_of` concat done ∧ done ++ sp_queue s `sublist_of` offered ops) ∧
    length (sp_queue s) ≤ FRAME_QUEUE ∧ length (pl_buf (sp_player s)) ≤ Nat.max (pb_cap pb) m).
  { intros Hgo Hm. destruct (Hgo Hm) as (_ & _ & (dn & Hp & Hd) & Hq & Hb). split_and!; [|done|done].
    rewrite app_assoc. etrans; [by apply sublist_app|]. rewrite <-concat_app. by apply concat_sublist. }
  cbv zeta. induction ops as [|op ops IH] using rev_ind.
  { intros _. cbn. split_and!; [done|done|by exists []|lia|lia]. }
  unfold offered in *. rewrite omap_app. intros [Hm Hop]%Forall_app. specialize (IH Hm) as (Hr & Hfq & (dn & Hp & Hd) & Hq & Hb).
  rewrite fold_left_app. cbn [fold_left]. set (s := fold_left _ ops _) in *. destruct op as [frame| |len gain]; cbn [speaker_step omap list_omap] in *.
  - apply Forall_cons in Hop as [Hf _]. unfold try_push. cbn [sp_queue sp_resampler sp_player andb]. case_bool_decide.
    + split_and!; [done|by apply Forall_app; split; [|constructor]| |rewrite length_app; cbn; lia|done].
      exists dn. split; [done|]. rewrite app_assoc. by apply sublist_app.
    + split_and!; [done..| |done|done]. exists dn. split; [done|]. by apply sublist_inserts_r.
  - rewrite app_nil_r. destruct (sp_queue s) as [|frame q] eqn:Eq; [rewrite Eq; split_and!; eauto|]. rewrite Hr. cbn [sp_queue sp_resampler sp_player].
    apply Forall_cons in Hfq as [Hf Hfq]. split_and!; [done|done| |cbn in Hq; lia|].
    + exists (dn ++ [frame]). split; [|by rewrite <-app_assoc]. rewrite concat_app. cbn [concat]. rewrite app_nil_r. by apply play_frame_sub.
    + by apply play_depth.
  - rewrite app_nil_r. cbn [sp_queue sp_resampler sp_player]. split_and!; [done|done| |done|by apply play_depth].
    exists dn. split; [|done]. pose proof (play_callback_all (pb_cap pb) (pb_target pb) (pb_channels pb) gain (sp_player s) len) as Hc. cbv zeta in Hc. by rewrite Hc.
Qed.
End queues.

(** ** A session and its devices *)

Section session.
Context `{ResamplerOps, JsonOps AudioSignal}.
Context (show : AudioError → string).

(** The media socket: its address comes from the signaling stream's. *)
Record SocketAnswers := { so_signal_local : result string string; so_bind : string → result string unit; so_media_local : result string string }.

(** [start_inner], up to the driver's start: the address media is received on, and the
    status the session begins with. *)
Definition start_inner (peer : string) (so : SocketAnswers) : result AudioError (string * PeerAudioStatus) :=
  let? ip := rmap_err (λ e, AuWebRtc ("signal local_addr: " +:+ e)) (so_signal_local so) in
  let? _ := rmap_err (λ e, AuWebRtc ("bind media udp: " +:+ e)) (so_bind so ip) in
  let? media_addr := rmap_err (λ e, AuWebRtc ("media local_addr: " +:+ e)) (so_media_local so) in
  Ok (media_addr, {| as_machine_id := peer; as_display_name := peer; as_sending_to_peer := false; as_receiving_from_peer := false;
                     as_rtt_ms := None; as_last_error := None |}).

Definition forget {E A} (r : result E A) : result E unit := match r with Ok _ => Ok tt | Err e => Err e end.

(** What [session_start] is told, from the devices and the socket. *)
Definition start_env (capture : result AudioError Capture) (playback : result AudioError Playback) (so : SocketAnswers) (peer : string) (snapshot : PeerAudioStatus) : StartEnv := {|
  st_capture := rmap_err show (forget capture);
  st_playback := rmap_err show (forget playback);
  st_inner := rmap_err show (forget (start_inner peer so));
  st_snapshot := snapshot
|}.

(** The driver of a session that started: it has a microphone, and a loudspeaker, when
    that was wanted and opened. *)
Definition session_driver (cfg : AudioConfig) (peer : string) (capture : result AudioError Capture) (playback : result AudioError Playback)
    (now : Z) (mid : option nat) (status : PeerAudioStatus) : Driver :=
  driver_start now mid (peer_wants_send cfg peer && is_ok capture) (peer_wants_recv cfg peer && is_ok playback) status.

(** A turn never turns a direction on; without a microphone nothing is sent, without a
    loudspeaker nothing is played, and the status says so. *)
Definition no_wider (d d' : Driver) : Prop := (dr_capture d = false → dr_capture d' = false) ∧ dr_playback d' = dr_playback d.

Definition quieter (d d' : Driver) : Prop :=
  no_wider d d' ∧ (dr_capture d = false → dr_written d = 0 ∧ as_sending_to_peer (dr_status d) = false → dr_written d' = 0 ∧ as_sending_to_peer (dr_status d') = false) ∧
  (dr_playback d = false → dr_played d = [] ∧ as_receiving_from_peer (dr_status d) = false → dr_played d' = [] ∧ as_receiving_from_peer (dr_status d') = false).

Lemma quieter_refl d : quieter d d.
Proof. unfold quieter, no_wider. auto. Qed.

Lemma quieter_trans d1 d2 d3 : quieter d1 d2 → quieter d2 d3 → quieter d1 d3.
Proof. unfold quieter, no_wider. intros ([C1 P1] & S1 & R1) ([C2 P2] & S2 & R2). split_and!; [auto|congruence|auto|]. rewrite P1 in R2. auto. Qed.

Lemma handle_output_silent now d out : quieter d (handle_output now d out).
Proof.
  unfold quieter, no_wider. destruct out as [| |mid|decoded|[]|]; cbn [handle_output]; try (split_and!; auto; done).
  - destruct (dr_mid d); split_and!; auto.
  - destruct (dr_playback d) eqn:Ep; [|split_and!; auto; congruence]. destruct decoded; [|split_and!; auto; congruence].
    destruct (dr_first_recv d); split_and!; auto; cbn; congruence.
Qed.

Lemma take_arm_silent arm d : quieter d (turn_state (take_arm arm d)).
Proof.
  destruct arm as [| |[frame|] encoded writer_ok written| |[b|]]; cbn [take_arm turn_state]; try apply quieter_refl.
  - destruct (dr_capture d) eqn:Ec; cbn [negb]; [|apply quieter_refl]. repeat (case_match; cbn [turn_state]; try apply quieter_refl);
      unfold quieter, no_wider; split_and!; cbn; auto; congruence.
  - unfold quieter, no_wider. split_and!; auto.
  - repeat (case_match; cbn [turn_state]; try apply quieter_refl).
Qed.

Lemma driver_turn_silent env d : quieter d (turn_state (driver_turn env d)).
Proof.
  unfold driver_turn. destruct (_ || _); [apply quieter_refl|].
  assert (quieter d (fold_left (λ d '(out, now), handle_output now d out) (te_outputs env) d)) as Hf.
  { generalize (te_outputs env). intros outs. generalize d. induction outs as [|[out now] outs IH]; intros d1; cbn; [apply quieter_refl|].
    eapply quieter_trans; [apply handle_output_silent|apply IH]. }
  destruct (te_end env); [|exact Hf]. eapply quieter_trans; [exact Hf|apply take_arm_silent].
Qed.

Lemma media_loop_silent turns d : quieter d (turn_state (media_loop turns d)).
Proof.
  revert d. induction turns as [|env turns IH]; intros d; cbn [media_loop]; [apply quieter_refl|].
  pose proof (driver_turn_silent env d) as Ht. destruct (driver_turn env d); [|exact Ht]. eapply quieter_trans; [exact Ht|apply IH].
Qed.

(** C35: A device that does not open does not stop a session.  Starting fails only for the
    media socket; each wanted device that did not open is reported once, with its error;
    and the direction it would have served stays silent for as long as the session runs,
    the status never claiming otherwise.  A direction the configuration turns off is
    silent without a report. *)
Theorem session_outlives_devices cfg peer role capture playback so snapshot now mid status turns :
  as_sending_to_peer status = false → as_receiving_from_peer status = false →
  let env := start_env capture playback so peer snapshot in
  let d := turn_state (media_loop turns (session_driver cfg peer capture playback now mid status)) in
  (session_start env peer cfg role).1 =
    (match capture with Err e => if peer_wants_send cfg peer then [AeError (Some peer) ("capture: " +:+ show e)] else [] | Ok _ => [] end) ++
    (match playback with Err e => if peer_wants_recv cfg peer then [AeError (Some peer) ("playback: " +:+ show e)] else [] | Ok _ => [] end) ∧
  (is_ok (session_start env peer cfg role).2 = is_ok (start_inner peer so)) ∧
  (peer_wants_send cfg peer = false ∨ is_ok capture = false → dr_written d = 0 ∧ as_sending_to_peer (dr_status d) = false) ∧
  (peer_wants_recv cfg peer = false ∨ is_ok playback = false → dr_played d = [] ∧ as_receiving_from_peer (dr_status d) = false).
Proof.
  intros Hs Hr. cbv zeta. destruct (media_loop_silent turns (session_driver cfg peer capture playback now mid status)) as (_ & Hsend & Hrecv).
  cbn [session_driver driver_start dr_capture dr_playback dr_written dr_played dr_status] in Hsend, Hrecv. split_and!.
  - unfold session_start, start_env. cbn [st_capture st_playback fst]. destruct capture, playback, (peer_wants_send cfg peer), (peer_wants_recv cfg peer); done.
  - unfold session_start, start_env. cbn [st_inner snd]. by destruct (start_inner peer so).
  - intros Hoff. apply Hsend; [|done]. destruct Hoff as [->| ->]; [done|apply andb_false_r].
  - intros Hoff. apply Hrecv; [|done]. destruct Hoff as [->| ->]; [done|apply andb_false_r].
Qed.
End session.

(** ** A machine without a microphone *)

Section witness.
#[local] Existing Instance toy_resampler.

Definition wit_speaker_device : CpalDevice := {| cd_name := Ok "Speakers"%string; cd_config := Ok (48000, 2)%Z |}.
Definition wit_machine : CpalHost :=
  {| ho_default_input := None; ho_inputs := Ok []; ho_default_output := Some wit_speaker_device; ho_outputs := Ok [wit_speaker_device] |}.
Definition wit_answers (d : CpalDevice) : DeviceAnswers :=
  {| da_config := Ok {| sc_channels := 2; sc_sample_rate := 48000; sc_format := FmtF32 |}; da_build := Ok tt; da_play := Ok tt |}.
Definition wit_fft (a b c : Z) : result string Resampler := Err "no filter"%string.

Definition wit_capture := start_capture wit_fft false wit_machine wit_answers None.
Definition wit_playback := start_playback wit_fft wit_machine wit_answers None.
Definition wit_socket : SocketAnswers := {| so_signal_local := Ok "192.168.0.2"%string; so_bind _ := Ok tt; so_media_local := Ok "192.168.0.2:50000"%string |}.
Definition wit_fresh : PeerAudioStatus := {| as_machine_id := "peer"; as_display_name := "peer"; as_sending_to_peer := false;
  as_receiving_from_peer := false; as_rtt_ms := None; as_last_error := None |}.

(** Frames captured elsewhere still arrive and are played. *)
Definition wit_turns : list TurnEnv :=
  [{| te_now := 1; te_alive := true; te_outputs := [(OutConnected, 1%Z); (OutMediaAdded 7, 1%Z); (OutMediaData (Some [5]%Z), 1%Z)];
      te_end := PollTimeout 20; te_arm := ArmSleep |}].

Example session_outlives_devices_witness :
  let d := turn_state (media_loop (H := toy_json_signal) wit_turns (session_driver wit_audio_cfg "peer" wit_capture wit_playback 0 None wit_fresh)) in
  wit_capture = Err (AuInputDeviceNotFound None) ∧ is_ok wit_playback = true ∧ dr_written d = 0 ∧ dr_played d = [[5]]%Z.
Proof.
  pose proof (session_outlives_devices (H := toy_resampler) (H0 := toy_json_signal) (λ _, "x"%string) wit_audio_cfg "peer" Offerer wit_capture wit_playback wit_socket wit_fresh 0 None wit_fresh wit_turns
    eq_refl eq_refl) as (_ & _ & Hw & _).
  split; [vm_compute; reflexivity|]. split; [vm_compute; reflexivity|].
  split; [apply Hw; right; vm_compute; reflexivity|vm_compute; reflexivity].
Defined.

(** The microphone's queue overflows when the driver does not run, and keeps the oldest. *)
Definition wit_mono_acc : MonoAccumulator := {| ma_channels := 1; ma_pending_48k := []; ma_resampler := None |}.
Example overrun_keeps_oldest :
  let m := {| mi_acc := wit_mono_acc; mi_queue := replicate 31 [1%Z]; mi_taken := [] |} in
  let m := mic_step (λ _, f32_zero) m (MicCallback (replicate 1920 1%Z) 0x3F800000) in
  mi_queue m = replicate 31 [1%Z] ++ [replicate 960 0%Z].
Proof. vm_compute. reflexivity. Qed.

Example speaker_queue_witness :
  let pb := {| pb_format := FmtI16; pb_channels := 1; pb_resampler := None; pb_cap := 4; pb_target := 2 |} in
  let ops := [SpOffer [1; 2; 3]; SpPump; SpOffer [4; 5; 6]; SpPump; SpCallback 2 0x3F800000]%Z in
  let s := fold_left (speaker_step pb) ops (speaker_new pb) in
  pl_played (sp_player s) = [4; 5]%Z ∧ length (pl_buf (sp_player s)) ≤ 4.
Proof.
  intros pb ops s. split; [vm_compute; reflexivity|].
  apply (speaker_queue pb ops 3 eq_refl); [cbn; lia|]. repeat constructor; cbn; lia.
Defined.
End witness.
