(* ===== verification/Shutdown.v ===== *)
(** * The daemon's last moments ([ShutdownSignals], [Drop for Supervisor], [crates/synbadd/src/supervisor/mod.rs])

    Signals may arrive at any time; the run loop takes them between its other turns;
    when it returns the supervisor is dropped.  The process as a whole, under every
    interleaving of the two. *)

From Stdlib Require Import ZArith Lia.
From S2P Require Import Prelude Primitives Config Versioned IpcTypes LogParse Store CoreProc SupState NetSync Supervisor.

Inductive Sig := SigInt | SigTerm | SigHup.
#[export] Instance Sig_eq_dec : EqDecision Sig.
Proof. solve_decision. Defined.

Inductive ProcStatus :=
| Live
| Returned
| Killed (g : Sig).

(** [ShutdownSignals]: which handlers could be installed, and the signals their streams
    hold (a stream holds any number of arrivals as one).  With it the supervisor and
    what became of the process. *)
Record Proc := {
  pr_installed : Sig → bool;
  pr_pending : list Sig;
  pr_sup : Sup;
  pr_status : ProcStatus
}.

(** [Drop]: every task is aborted. *)
Definition sup_drop (s : Sup) : Sup :=
  s <| sv_pairing_tasks := [] |> <| sv_audio_inflight := ∅ |> <| sv_sync_tasks := ∅ |>
    <| sv_pairing_listener := None |> <| sv_sync_listener := None |> <| sv_audio_listener := None |> <| sv_audio_task := None |>.

Inductive ProcOp :=
| PoSignal (g : Sig)                        (* the kernel delivers one *)
| PoTurn (renv : REnv) (op : SupOp)         (* any other arm *)
| PoRecv (renv : REnv) (g : Sig).           (* the arm of [recv] *)

Section process.
Context `{JsonSharedOps, Sha256Ops, HexOps, TomlOps, JsonOps SideCar, JsonOps TrustFile}.
Context (our_id our_fingerprint : string) (config_path versions_path : PathPair).
Context (show_config_error : ConfigError → string) (show_trust_error : TrustError → string).

Local Notation exec := (sup_exec our_id our_fingerprint config_path versions_path show_config_error show_trust_error).
Local Notation reachable := (sup_reachable our_id our_fingerprint config_path versions_path show_config_error show_trust_error).

(** A turn of the loop, and the drop if it returns. *)
Definition loop_turn (renv : REnv) (op : SupOp) (p : Proc) : Proc :=
  let '(stop, s) := exec renv op (pr_sup p) in
  {| pr_installed := pr_installed p; pr_pending := pr_pending p; pr_sup := if stop : bool then sup_drop s else s;
     pr_status := if stop : bool then Returned else Live |}.

Definition proc_step (p : Proc) (o : ProcOp) : Proc :=
  match pr_status p with
  | Live =>
    match o with
    | PoSignal g =>
      if pr_installed p g then {| pr_installed := pr_installed p; pr_pending := if decide (g ∈ pr_pending p) then pr_pending p else pr_pending p ++ [g]; pr_sup := pr_sup p; pr_status := Live |}
      else {| pr_installed := pr_installed p; pr_pending := pr_pending p; pr_sup := pr_sup p; pr_status := Killed g |}
    | PoTurn renv SoSignal => p
    | PoTurn renv op => loop_turn renv op p
    | PoRecv renv g => if decide (g ∈ pr_pending p) then loop_turn renv SoSignal p else p
    end
  | _ => p
  end.

(** [run], entered with the constructed supervisor. *)
Definition proc_start (installed : Sig → bool) (s : Sup) : Proc :=
  {| pr_installed := installed; pr_pending := []; pr_sup := s; pr_status := Live |}.

(** No task of the supervisor's is left. *)
Definition no_tasks (s : Sup) : Prop :=
  sv_pairing_tasks s = [] ∧ sv_sync_tasks s = ∅ ∧ sv_audio_inflight s = ∅ ∧
  sv_pairing_listener s = None ∧ sv_sync_listener s = None ∧ sv_audio_listener s = None ∧ sv_audio_task s = None.

(** While it lives the loop's state is reachable and every signal that came waits. *)
Definition proc_ok (arrived : list Sig) (p : Proc) : Prop :=
  match pr_status p with
  | Live => reachable (pr_sup p) ∧ ∀ g, g ∈ arrived → g ∈ pr_pending p
  | Returned => wound_down (pr_sup p) ∧ no_tasks (pr_sup p)
  | Killed g => pr_installed p g = false
  end.

Definition arrivals (ops : list ProcOp) : list Sig := omap (λ o, match o with PoSignal g => Some g | _ => None end) ops.

Lemma drop_wound_down s : wound_down s → wound_down (sup_drop s) ∧ no_tasks (sup_drop s).
Proof. unfold wound_down, no_tasks. by intros (?&?&?&?&?&?&?&?). Qed.

Lemma loop_turn_ok renv op p arrived : pr_status p = Live → proc_ok arrived p → proc_ok arrived (loop_turn renv op p).
Proof.
  unfold proc_ok. intros -> [Hr Hp]. unfold loop_turn. destruct (exec renv op (pr_sup p)) as [stop s] eqn:E. cbn [pr_status pr_sup pr_pending].
  destruct stop; [|split; [by eapply sr_step|exact Hp]].
  destruct (exec_returns _ _ _ _ _ _ renv op _ _ (reachable_inv _ _ _ _ _ _ _ Hr) E) as (s0 & Hi & ->).
  apply drop_wound_down. by eapply wind_down_spec.
Qed.

Lemma proc_step_ok o p arrived : proc_ok arrived p → proc_ok (arrived ++ arrivals [o]) (proc_step p o) ∧ pr_installed (proc_step p o) = pr_installed p.
Proof.
  intros Hp. unfold proc_step. destruct (pr_status p) eqn:Es.
  - destruct o as [g|renv op|renv g]; cbn [arrivals omap list_omap].
    + unfold proc_ok in *. rewrite Es in Hp. destruct Hp as [Hr Hw]. destruct (pr_installed p g) eqn:Ei; [|by cbn]. cbn. split; [|done]. split; [done|].
      intros g' [Hg|Hg%list_elem_of_singleton]%elem_of_app; [apply Hw in Hg|subst g']; case_decide; try done; apply elem_of_app; [by left|by right; apply list_elem_of_singleton].
    + rewrite app_nil_r. assert (pr_installed (loop_turn renv op p) = pr_installed p) as Hin by (unfold loop_turn; by destruct (exec renv op (pr_sup p))).
      destruct op; (split; [first [exact Hp|by apply loop_turn_ok]|first [exact Hin|done]]).
    + rewrite app_nil_r. case_decide; [|done]. split; [by apply loop_turn_ok|]. unfold loop_turn. by destruct (exec renv SoSignal (pr_sup p)).
  - unfold proc_ok in *. by rewrite Es in *.
  - unfold proc_ok in *. by rewrite Es in *.
Qed.

Lemma proc_run_ok ops p arrived :
  proc_ok arrived p → let p' := fold_left proc_step ops p in proc_ok (arrived ++ arrivals ops) p' ∧ pr_installed p' = pr_installed p.
Proof.
  revert p arrived. induction ops as [|o ops IH]; intros p arrived Hp; cbn [fold_left]; [by rewrite app_nil_r|].
  destruct (proc_step_ok o p arrived Hp) as [Ho Hi]. destruct (IH _ _ Ho) as [H1' H2']. rewrite Hi in H2'. split; [|exact H2'].
  rewrite <-app_assoc in H1'. change (o :: ops) with ([o] ++ ops). unfold arrivals in *. by rewrite omap_app.
Qed.

(** C15: The daemon leaves nothing behind.  However signals and the loop's turns interleave:
    with the three handlers installed the process is never killed by one; once it has
    returned (asked to, or by a signal) every Core ever spawned has been killed or has
    exited, no timer is armed, the audio bridge is down and no task is left; and as long
    as it lives, each signal that has come still waits, and taking it ends the loop. *)
Theorem daemon_leaves_nothing s installed ops :
  reachable s → (∀ g, installed g = true) →
  let p := fold_left proc_step ops (proc_start installed s) in
  (∀ g, pr_status p ≠ Killed g) ∧
  (pr_status p = Returned → wound_down (pr_sup p) ∧ no_tasks (pr_sup p)) ∧
  (pr_status p = Live → ∀ g renv, g ∈ arrivals ops → pr_status (proc_step p (PoRecv renv g)) = Returned).
Proof.
  intros Hr Hall. cbv zeta. assert (proc_ok [] (proc_start installed s)) as H0' by (split; [done|by intros g ?%not_elem_of_nil]).
  destruct (proc_run_ok ops _ _ H0') as [Hok Hin]. cbn [app pr_installed proc_start] in Hok, Hin.
  set (p := fold_left _ ops _) in *. split_and!.
  - intros g Hk. unfold proc_ok in Hok. rewrite Hk, Hin, Hall in Hok. done.
  - intros Hk. unfold proc_ok in Hok. by rewrite Hk in Hok.
  - intros Hk g renv Hg. unfold proc_ok in Hok. rewrite Hk in Hok. destruct Hok as [_ Hw]. unfold proc_step. rewrite Hk, decide_True by auto. done.
Qed.

(** A handler that could not be installed leaves the default action: the process dies
    with whatever runs at that moment. *)
Lemma unhandled_signal_kills p g :
  pr_status p = Live → pr_installed p g = false → pr_status (proc_step p (PoSignal g)) = Killed g ∧ pr_sup (proc_step p (PoSignal g)) = pr_sup p.
Proof. intros Hl Hi. unfold proc_step. by rewrite Hl, Hi. Qed.

(** Before [run] installs them there is no Core to orphan. *)
Lemma new_spawns_nothing nenv trust_path fs s fs' :
  sup_new our_id config_path versions_path nenv trust_path fs = (Some s, fs') → co_child_pid (sv_core s) = None.
Proof.
  assert (∀ sup, sv_core sup = core_init → sv_core (start_discovery (ne_env nenv) sup) = core_init) as Hd
    by (intros sup Hs; unfold start_discovery; by case_match).
  unfold sup_new. intros E. repeat (case_match; try done); injection E as <- <-; subst.
  all: match goal with |- context [reconcile_audio_subsystem our_id _ ?x] => destruct (reconcile_audio_subsystem_configs our_id (ne_env nenv) x) as (-> & _) end.
  all: unfold on_core; cbn [sv_core set_sv_core]; rewrite Hd by done; by vm_compute.
Qed.
End process.

(** ** A daemon that is told to stop while its Core runs *)

Section witnesses.
#[local] Existing Instances toy_json_shared toy_sha toy_hex toy_toml toy_json_sidecar toy_json_trust.

Local Notation step0 := (proc_step "a" "ff" wit_config_path wit_versions_path (λ _, "bad config"%string) (λ _, "bad trust"%string)).

Definition wit_running : Proc :=
  fold_left step0 [PoTurn wit_renv (SoCore (OpResolved (Ok (Unified "/usr/bin/deskflow-core")))); PoSignal SigTerm; PoTurn wit_renv SoTick; PoSignal SigTerm]
    (proc_start (λ _, true) wit_boot).
Definition wit_over : Proc := step0 wit_running (PoRecv wit_renv SigTerm).

Example daemon_leaves_nothing_witness :
  is_Some (co_child_pid (sv_core (pr_sup wit_running))) ∧ pr_pending wit_running = [SigTerm] ∧ wound_down (pr_sup wit_over).
Proof.
  split; [vm_compute; by eexists|]. split; [vm_compute; reflexivity|].
  destruct (daemon_leaves_nothing "a" "ff" wit_config_path wit_versions_path (λ _, "bad config"%string) (λ _, "bad trust"%string) wit_boot (λ _, true)
    [PoTurn wit_renv (SoCore (OpResolved (Ok (Unified "/usr/bin/deskflow-core")))); PoSignal SigTerm; PoTurn wit_renv SoTick; PoSignal SigTerm; PoRecv wit_renv SigTerm]
    wit_boot_reachable (λ _, eq_refl)) as (_ & Hr & _).
  exact (proj1 (Hr ltac:(vm_compute; reflexivity))).
Defined.

(** The same without the handler: the Core is orphaned. *)
Example orphaned_core :
  let p := fold_left step0 [PoTurn wit_renv (SoCore (OpResolved (Ok (Unified "/usr/bin/deskflow-core")))); PoSignal SigHup]
    (proc_start (λ g, bool_decide (g ≠ SigHup)) wit_boot) in
  pr_status p = Killed SigHup ∧ is_Some (co_child_pid (sv_core (pr_sup p))).
Proof. split; vm_compute; [reflexivity|by eexists]. Qed.
End witnesses.
