(* ===== verification/GuiMain.v ===== *)
(** * The window's program ([crates/synbad-gui/src/main.rs], [tray.rs], [single_instance.rs])

    What [main] does before the event loop; the tray's start; and how a click in the
    tray's menu, or a ping of a later launch, wakes a window that may be hidden, with
    the threads interleaved at each of their steps. *)

From Stdlib Require Import Ascii ZArith Lia.
From S2P Require Import Prelude Primitives Config LogParse Store Conn FileOps Updater Elevation SocketPath GuiApp Tray.

(** ** [main] *)

(** How the program ends up: as the updater's helper, told to leave, or as a window. *)
Inductive GuiEnd :=
| GeExit (st : ExitStatus)
| GeForwarded
| GeWindow (guarded has_tray : bool).

Section main.
Context `{JsonOps Plan}.
Context (stage : string → string).

(** Process [p] with its arguments, its tries at the guard, and its tray. *)
Definition gui_main (args : list string) (envs : nat → GuEnv) (tray : bool) (p : nat) (fs : Fs) (d : Desk) : GuiEnd * Fs * Desk :=
  match apply_update_helper stage args fs with
  | Some (st, fs) => (GeExit st, fs, d)
  | None =>
    let d := acquire envs p d in
    (match dk_guis d !! p with
     | Some GuForwarded => GeForwarded
     | Some GuAcquired => GeWindow true tray
     | _ => GeWindow false tray
     end, fs, d)
  end.

(** Run as the updater's helper, the program applies the plan and exits saying how that
    went, and neither pings nor replaces a running window; run otherwise it changes no
    file.  When every call succeeds it is a guarded window unless another one listens,
    which is then raised and stays the only one. *)
Lemma gui_main_spec args envs tray p fs d :
  match parse_apply_update_args args with
  | Some plan_path => let '(r, fs') := apply_plan stage plan_path fs in
      gui_main args envs tray p fs d = (GeExit (Exited (if is_ok r then 0 else 1)), fs', d)
  | None => (gui_main args envs tray p fs d).1.2 = fs ∧
      (dk_guis d !! p = None → dk_path d ≠ Some (NdSocket p) → envs = undisturbed →
       match connect (gu_listens d) (dk_path d) with
       | CnOk owner => gui_main args envs tray p fs d = (GeForwarded, fs, {| dk_path := dk_path d; dk_guis := <[p := GuForwarded]> (dk_guis d); dk_shown := dk_shown d ++ [owner] |})
       | _ => (gui_main args envs tray p fs d).1.1 = GeWindow true tray
       end)
  end.
Proof.
  unfold gui_main, apply_update_helper. destruct (parse_apply_update_args args) as [plan_path|]; cbn [fmap option_fmap option_map].
  - by destruct (apply_plan stage plan_path fs).
  - split; [done|]. intros Hp Hown ->. cbv zeta. rewrite acquire_undisturbed by done. destruct (connect _ _); cbn [dk_guis fst]; by rewrite lookup_insert_eq.
Qed.
End main.

(** ** Starting the tray *)

(** How the tray's thread fares on Linux, and when it reports. *)
Inductive TrayStart :=
| TsNoThread
| TsFailed (after_ms : Z)
| TsBuilt (after_ms : Z).

Definition TRAY_INIT_MS : Z := 2000.

(** [install]: whether there is a handle, and whether an icon comes up. *)
Definition install (t : TrayStart) : bool * bool :=
  match t with
  | TsNoThread | TsFailed _ => (false, false)
  | TsBuilt ms => (bool_decide (ms ≤ TRAY_INIT_MS)%Z, true)
  end.

(** An icon that comes up late is in nobody's hands: the window does not look at its
    clicks, neither Show nor Quit. *)
Lemma late_tray_ignored `{SemverOps, TarOps, SelfReplaceOps, JsonOps Plan} version ms world ids w :
  (TRAY_INIT_MS < ms)%Z → ga_has_tray (UpdateDialog.wn_app w) = (install (TsBuilt ms)).1 →
  (install (TsBuilt ms)).2 = true ∧ drain_tray version world ids w = w.
Proof. intros Hms Hw. split; [done|]. unfold drain_tray. rewrite Hw. cbn. by rewrite bool_decide_eq_false_2 by lia. Qed.

(** ** Waking the window *)

(** The channel from a background thread; how many of its handlers stand between
    sending and poking; whether the repaint callback is in its slot; whether a repaint
    is due; whether a frame runs and has yet to drain the channel; what was drained. *)
Record Wake := {
  wk_queue : list string;
  wk_poking : nat;
  wk_slot : bool;
  wk_repaint : bool;
  wk_draining : bool;
  wk_seen : list string
}.

(** The handler in its two steps; the creator putting the callback in its slot, after
    which the first frame is due; a frame's start, and its draining. *)
Inductive WakeOp := WkSend (id : string) | WkPoke | WkSet | WkFrame | WkDrain.

Definition wake_step (w : Wake) (op : WakeOp) : Wake :=
  match op with
  | WkSend id => {| wk_queue := wk_queue w ++ [id]; wk_poking := S (wk_poking w); wk_slot := wk_slot w; wk_repaint := wk_repaint w;
                    wk_draining := wk_draining w; wk_seen := wk_seen w |}
  | WkPoke =>
    match wk_poking w with
    | O => w
    | S n => {| wk_queue := wk_queue w; wk_poking := n; wk_slot := wk_slot w; wk_repaint := wk_repaint w || wk_slot w;
                wk_draining := wk_draining w; wk_seen := wk_seen w |}
    end
  | WkSet => {| wk_queue := wk_queue w; wk_poking := wk_poking w; wk_slot := true; wk_repaint := true;
                wk_draining := wk_draining w; wk_seen := wk_seen w |}
  | WkFrame => if wk_repaint w && negb (wk_draining w)
               then {| wk_queue := wk_queue w; wk_poking := wk_poking w; wk_slot := wk_slot w; wk_repaint := false;
                       wk_draining := true; wk_seen := wk_seen w |} else w
  | WkDrain => if wk_draining w
               then {| wk_queue := []; wk_poking := wk_poking w; wk_slot := wk_slot w; wk_repaint := wk_repaint w;
                       wk_draining := false; wk_seen := wk_seen w ++ wk_queue w |} else w
  end.

Definition wake_init : Wake := {| wk_queue := []; wk_poking := 0; wk_slot := false; wk_repaint := false; wk_draining := false; wk_seen := [] |}.
Definition sent_ids (ops : list WakeOp) : list string := omap (λ op, match op with WkSend id => Some id | _ => None end) ops.

(** A click that waits is being announced, is about to be seen, or comes before the
    window. *)
Definition wake_ok (w : Wake) : Prop :=
  wk_queue w = [] ∨ 0 < wk_poking w ∨ wk_repaint w = true ∨ wk_draining w = true ∨ wk_slot w = false.

Lemma wake_step_ok w op : wake_ok w → wake_ok (wake_step w op).
Proof.
  unfold wake_ok. intros Hw. destruct op as [id| | | |]; cbn.
  - right; left; lia.
  - destruct (wk_poking w) as [|n] eqn:Ep; [by rewrite Ep|]. cbn. destruct (wk_slot w); [right; right; left; apply orb_true_r|by do 4 right].
  - by right; right; left.
  - destruct (wk_repaint w) eqn:Er, (wk_draining w) eqn:Ed; cbn; rewrite ?Er, ?Ed; auto.
  - destruct (wk_draining w) eqn:Ed; cbn; [by left|rewrite ?Ed; exact Hw].
Qed.

Lemma wake_step_sent w op : wk_seen (wake_step w op) ++ wk_queue (wake_step w op) = wk_seen w ++ wk_queue w ++ sent_ids [op].
Proof.
  destruct op; cbn; rewrite ?app_nil_r; try done.
  - by destruct (wk_poking w).
  - by destruct (_ && _).
  - destruct (wk_draining w); cbn; by rewrite ?app_nil_r.
Qed.

Lemma wake_run_ok ops w :
  wake_ok w → let w' := fold_left wake_step ops w in wake_ok w' ∧ wk_seen w' ++ wk_queue w' = wk_seen w ++ wk_queue w ++ sent_ids ops.
Proof.
  revert w. induction ops as [|op ops IH]; intros w Hw; cbn [fold_left]; [by rewrite app_nil_r|].
  destruct (IH (wake_step w op) (wake_step_ok w op Hw)) as [Hok E]. split; [exact Hok|]. rewrite E, app_assoc, wake_step_sent.
  change (op :: ops) with ([op] ++ ops). unfold sent_ids. by rewrite omap_app, <-!app_assoc.
Qed.

(** No click is lost, and none waits unseen.  However the background handlers, the
    window's creation and its frames interleave, what the window has seen and what
    waits are the clicks that were made, in order; and once the window is there, clicks
    that wait while no handler is under way have a repaint due, or a frame about to
    read them, and the next frame shows the window all of them. *)
Theorem clicks_wake_window ops :
  let w := fold_left wake_step ops wake_init in
  wk_seen w ++ wk_queue w = sent_ids ops ∧
  (wk_slot w = true → wk_poking w = 0 → wk_queue w ≠ [] →
   (wk_repaint w = true ∨ wk_draining w = true) ∧ wk_seen (fold_left wake_step [WkFrame; WkDrain] w) = sent_ids ops).
Proof.
  cbv zeta. destruct (wake_run_ok ops wake_init (or_introl eq_refl)) as [Hok E]. cbn [wake_init wk_seen wk_queue app] in E.
  set (w := fold_left _ ops _) in *. split; [exact E|]. intros Hs Hp Hq.
  assert (wk_repaint w = true ∨ wk_draining w = true) as Hdue by (destruct Hok as [?|[?|[?|[?|?]]]]; [done|lia|auto|auto|congruence]).
  split; [exact Hdue|]. rewrite <-E. cbn [fold_left wake_step].
  destruct (wk_draining w) eqn:Ed; [rewrite andb_false_r, Ed; done|]. destruct Hdue as [Hr|Hr]; [|done]. by rewrite Hr.
Qed.

(** A click before the callback is in its slot pokes nobody, and the first frame sees it. *)
Example early_click :
  let w := fold_left wake_step [WkSend MENU_ID_SHOW; WkPoke; WkSet] wake_init in
  wk_queue w = [MENU_ID_SHOW] ∧ wk_repaint w = true ∧ wk_seen (fold_left wake_step [WkFrame; WkDrain] w) = [MENU_ID_SHOW].
Proof. vm_compute. done. Qed.

(** ** Listening for later launches *)

(** A connection to the guard's socket: it could not be accepted, its timeout could not
    be set, or what reading four bytes of it gave. *)
Inductive GuardConn := GcFailed | GcNoTimeout | GcRead (four : option bytes).

(** [listen]: the pings sent on. *)
Definition listen (incoming : list GuardConn) : list string :=
  omap (λ c, match c with GcRead (Some four) => if decide (four = bytes_of "SHOW") then Some "SHOW"%string else None | _ => None end) incoming.

(** Each launch that got its four bytes through raises the window once; whatever else
    comes in neither raises it nor stops the listener. *)
Lemma listen_counts before after : listen (before ++ GcRead (Some (bytes_of "SHOW")) :: after) = listen before ++ "SHOW"%string :: listen after.
Proof. unfold listen. rewrite omap_app. cbn. by rewrite decide_True. Qed.
