(* ===== verification/Announce.v ===== *)
(** * The announced name ([crates/synbadd/src/supervisor/core_proc.rs], [start_discovery])

    The name the daemon gives its advertiser, from the configuration to what the
    other machines list. *)

From Stdlib Require Import Ascii ZArith Lia.
From S2P Require Import Prelude Primitives Config IpcTypes LogParse SupState Discovery.

(** A string is its UTF-8: the control characters are [U+0000] to [U+001F] and
    [U+007F], one byte each, and [U+0080] to [U+009F], [C2] and a second byte. *)
Fixpoint filter_name (s : bytes) : bytes :=
  match s with
  | [] => []
  | b :: s1 =>
    let kept := if byte_in 0 31 b || byte_in 127 127 b || bool_decide (b = "."%char) then filter_name s1 else b :: filter_name s1 in
    match s1 with
    | b1 :: s2 => if byte_in 0xC2 0xC2 b && byte_in 0x80 0x9F b1 then filter_name s2 else kept
    | [] => kept
    end
  end.

Definition sanitize_display_name (name : string) : string :=
  let s := filter_name (bytes_of name) in
  if bool_decide (trim s = []) then "synbad" else string_of s.

Section start.
Context `{MdnsOps}.

(** The browser's half is [pump_start]. *)
Definition start_discovery (env : NetEnv) (machine_id fingerprint : string) (config : Config) (config_head : string)
    : result string Advertiser :=
  advertiser_start env machine_id fingerprint (sanitize_display_name (cfg_server_name config))
    (cfg_service_port config) (cfg_sync_port config) (cfg_port config) 0 config_head.
End start.

(** ** The name is always one the advertiser takes *)

Lemma filter_name_no_dot s : "."%char ∉ filter_name s.
Proof.
  enough (∀ n s, length s ≤ n → "."%char ∉ filter_name s) as H by by apply (H (length s)).
  clear s. intros n; induction n as [|n IH]; intros [|b s1] Hl; cbn [length filter_name] in *; try lia; try apply not_elem_of_nil.
  assert ("."%char ∉ filter_name s1) as H1 by (apply IH; lia).
  assert ("."%char ∉ (if byte_in 0 31 b || byte_in 127 127 b || bool_decide (b = "."%char) then filter_name s1 else b :: filter_name s1)) as H2.
  { destruct (_ || _) eqn:E; [done|]. apply orb_false_iff in E as [_ E%bool_decide_eq_false]. apply not_elem_of_cons. split; [congruence|done]. }
  destruct s1 as [|b1 s2]; [done|]. destruct (byte_in 0xC2 0xC2 b && _); [|done]. apply IH. cbn in Hl. lia.
Qed.

Lemma sanitize_display_name_ok name :
  sanitize_display_name name ≠ ""%string ∧ "."%char ∉ bytes_of (sanitize_display_name name).
Proof.
  unfold sanitize_display_name. cbv zeta. case_bool_decide as Ht.
  - split; [done|]. apply (bool_decide_unpack _). vm_compute. exact I.
  - split; [|rewrite bytes_of_string_of; apply filter_name_no_dot]. intros E. apply Ht.
    apply (f_equal bytes_of) in E. rewrite bytes_of_string_of in E. by rewrite E.
Qed.

(** Bytes that [filter_name] keeps, wherever they stand. *)
Definition plain (b : ascii) : bool := negb (byte_in 0 31 b || byte_in 127 127 b || bool_decide (b = "."%char) || byte_in 0xC2 0xC2 b).

Lemma filter_name_plain s : Forall (λ b, plain b = true) s → filter_name s = s.
Proof.
  induction 1 as [|b s1 Hb _ IH]; [done|]. unfold plain in Hb. apply negb_true_iff in Hb. apply orb_false_iff in Hb as [Hk Hc].
  cbn [filter_name]. rewrite Hk, Hc. destruct s1; cbn [andb]; by rewrite IH.
Qed.

Lemma sanitize_display_name_id name :
  Forall (λ b, plain b = true) (bytes_of name) → trim (bytes_of name) ≠ [] → sanitize_display_name name = name.
Proof.
  intros Hp Ht. unfold sanitize_display_name. cbv zeta. rewrite filter_name_plain by done. rewrite bool_decide_eq_false_2 by done.
  apply string_of_bytes_of.
Qed.

Section announced.
Context `{MdnsLaws} (macos : bool).

(** A refresh by the reconcile pass, with the configuration of that moment, or one
    of the audio port alone as the audio bridge comes and goes. *)
Inductive Refresh :=
| RfReconcile (env : NetEnv) (config : Config) (audio_port : Z) (config_head : string)
| RfAudioPort (env : NetEnv) (audio_port : Z).
Definition rf_env (r : Refresh) : NetEnv := match r with RfReconcile env _ _ _ | RfAudioPort env _ => env end.
Definition refresh_with (a : Advertiser) (r : Refresh) : Advertiser :=
  match r with
  | RfReconcile env c audio_port head => (refresh env (cfg_service_port c) (cfg_sync_port c) (cfg_port c) audio_port head a).2
  | RfAudioPort env audio_port => (set_audio_port env audio_port a).2
  end.

Lemma refresh_keeps_name env sp syp cp ap head a :
  af_display_name (av_fields (refresh env sp syp cp ap head a).2) = af_display_name (av_fields a).
Proof. unfold refresh. destruct (policy_refresh _ _ _) as [[[ch|e] pol] calls]; cbn; repeat case_match; done. Qed.

Lemma started_name env id fp config head a :
  start_discovery env id fp config head = Ok a → af_display_name (av_fields a) = sanitize_display_name (cfg_server_name config).
Proof.
  unfold start_discovery, advertiser_start. destruct (_ || _); [done|]. destruct (policy_refresh _ _ _) as [[[ch|e] pol] calls]; [|done].
  cbn [rbind]. cbv zeta. set (fields := {| af_machine_id := id |}). destruct (build_service_info fields _ _); [|done]. cbn [ok_or rbind].
  destruct (ne_register_ok env); [|done]. by intros [= <-].
Qed.

Lemma refreshes_reachable rs a :
  Forall (λ r, ne_macos (rf_env r) = macos) rs → adv_reachable macos a →
  adv_reachable macos (fold_left refresh_with rs a) ∧
  af_display_name (av_fields (fold_left refresh_with rs a)) = af_display_name (av_fields a).
Proof.
  intros Hm. revert a. induction Hm as [|r rs Hr _ IH]; intros a Ha; [done|]. cbn [fold_left].
  destruct (IH (refresh_with a r)) as [H1 H2].
  { destruct r; (eapply ar_refresh; [exact Hr|exact Ha|apply surjective_pairing]). }
  split; [done|]. rewrite H2. destruct r; apply refresh_keeps_name.
Qed.

(** The name a machine is listed under.  Discovery never fails to start over the
    name of the configuration, whatever it is: only the interfaces or the mDNS
    engine can refuse.  And through every later refresh, with whatever
    configurations, the other machines list the machine under the name the
    configuration had at the start, without its dots and control characters. *)
Theorem announced_name env id fp config head :
  ne_macos env = macos →
  (∀ e, start_discovery env id fp config head = Err e → e = "mdns"%string ∨ (policy_refresh env default_policy []).1.1 = Err e) ∧
  (∀ a rs info, start_discovery env id fp config head = Ok a → Forall (λ r, ne_macos (rf_env r) = macos) rs →
     let a' := fold_left refresh_with rs a in
     av_reannounce a' = false → ports_u16 (av_fields a') → same_record (av_service a') info →
     dp_display_name <$> peer_from info = Some (sanitize_display_name (cfg_server_name config))).
Proof.
  intros Hm. split.
  - intros e. unfold start_discovery, advertiser_start. destruct (sanitize_display_name_ok (cfg_server_name config)) as [Hne Hdot].
    rewrite !bool_decide_eq_false_2 by done. cbn [orb]. destruct (policy_refresh _ _ _) as [[[ch|e'] pol] calls]; cbn [rbind fst].
    + cbv zeta. set (fields := {| af_machine_id := id |}). destruct (build_service_info fields _ _); cbn [ok_or rbind];
        [destruct (ne_register_ok env); [done|]|]; intros [= <-]; by left.
    + intros [= <-]. by right.
  - intros a rs info Ha Hrs a' Hre Hp Hsame. pose proof (started_name _ _ _ _ _ _ Ha) as Hn.
    destruct (refreshes_reachable rs a Hrs) as [Hr Hn']; [by eapply (ar_start macos env); [|exact Ha]|].
    fold a' in Hr, Hn'. pose proof (reachable_adv_ok macos a' Hr) as Hok. destruct (ao_current macos a' Hok Hre) as [host Hb].
    destruct (advertised_sorted (av_interfaces a')).
    erewrite built_peer; [|apply Hok|exact Hp|..]; [|done..|exact Hb|exact Hsame]. cbn. by rewrite Hn', Hn.
Qed.
End announced.

Section examples.
#[local] Existing Instances toy_mdns toy_mdns_laws.

Definition ann_config (name : string) : Config := default_Config <| cfg_server_name := name |>.
Definition ann_refresh (name : string) : Refresh :=
  RfReconcile (wit_lan true) (ann_config name) 0 "head".
Definition ann_started (name : string) : result string Advertiser := start_discovery (wit_lan true) "id-a" "fp-a" (ann_config name) "".
Definition ann_listed (a : Advertiser) : option string := dp_display_name <$> peer_from (av_service a).

(** A dot is dropped, and a control character of two bytes; a blank name is replaced. *)
Example sanitized_names :
  sanitize_display_name "pc.home" = "pchome"%string ∧ sanitize_display_name ". ." = "synbad"%string ∧
  sanitize_display_name (string_of (bytes_of "a" ++ map byte_of_Z [0xC2; 0x85; 0xC3; 0xA9]%Z)) = string_of (bytes_of "a" ++ map byte_of_Z [0xC3; 0xA9]%Z).
Proof. vm_compute. done. Qed.

(** A machine renamed while it runs is still listed under the old name. *)
Example rename_not_announced :
  match ann_started "old" with
  | Ok a => ann_listed (fold_left refresh_with [ann_refresh "new"; RfAudioPort (wit_lan true) 24852; ann_refresh "new"] a) = Some "old"%string
  | Err _ => False
  end.
Proof. vm_compute. done. Qed.

Example announced_name_witness :
  match ann_started "pc.home" with
  | Ok a => ann_listed (fold_left refresh_with [ann_refresh "new"] a) = Some "pchome"%string
  | Err _ => False
  end.
Proof.
  assert (match ann_started "pc.home" with
          | Ok a => let a' := fold_left refresh_with [ann_refresh "new"] a in
              av_reannounce a' = false ∧ ports_u16 (av_fields a') ∧
              ty_addresses (av_service a') = [IpV4 3232235557; IpV6 (Z.shiftl 65152 112 + 7)]%Z
          | Err _ => False
          end) as Hfacts by (vm_compute; repeat split; first [reflexivity|discriminate]).
  destruct (ann_started "pc.home") as [a|e] eqn:E; [|exact Hfacts]. cbv zeta in Hfacts. destruct Hfacts as (Hre & Hports & Haddr).
  destruct (announced_name true (wit_lan true) "id-a" "fp-a" (ann_config "pc.home") "" eq_refl) as [_ H].
  unfold ann_listed. rewrite (H a [ann_refresh "new"] _ E).
  - vm_compute. reflexivity.
  - repeat constructor.
  - exact Hre.
  - exact Hports.
  - split; [reflexivity|]. split; [reflexivity|]. split; [reflexivity|]. split; [|reflexivity].
    change (NoDup (ty_addresses (av_service (fold_left refresh_with [ann_refresh "new"] a)))). rewrite Haddr.
    apply (bool_decide_unpack _). vm_compute. exact I.
Defined.
End examples.
