(* ===== verification/ServerChoice.v ===== *)
(** * Choosing a server ([app/mod.rs], [app/views.rs], [synbad-config/src/lib.rs])

    From the click on "Use as server" in a peer's row to the address the Core
    dials: whatever the host, an address [host_port] wrote is read as one that
    already has its port. *)

From Stdlib Require Import Ascii ZArith Lia.
From S2P Require Import Prelude Config IpcTypes GuiApp SupState CoreProc Discovery.

(** ** Reading an IP address consumes no colon but its separators *)

Definition colons (s : bytes) : nat := length (List.filter (λ c, bool_decide (c = ":"%char)) s).

Lemma colons_cons c s : colons (c :: s) = (if decide (c = ":"%char) then 1 else 0) + colons s.
Proof. unfold colons. cbn [List.filter]. case_bool_decide; by case_decide. Qed.

Lemma colons_app s t : colons (s ++ t) = colons s + colons t.
Proof. unfold colons. by rewrite List.filter_app, length_app. Qed.

Lemma colons_none s : ":"%char ∉ s → colons s = 0.
Proof. induction s as [|c s IH]; [done|]. intros [H1 H2]%not_elem_of_cons. rewrite colons_cons, decide_False by congruence. by apply IH. Qed.

Lemma digit_not_colon radix c v : digit_of radix c = Some v → c ≠ ":"%char.
Proof. intros H ->. vm_compute in H. done. Qed.

Lemma read_digits_colons radix max cap s acc n v m r : read_digits radix max cap s acc n = Some (v, m, r) → colons r = colons s.
Proof.
  revert acc n; induction s as [|c s IH]; intros acc n; cbn [read_digits]; [by intros [= _ _ <-]|].
  destruct (digit_of radix c) eqn:Ed; [|by intros [= _ _ <-]]. cbv zeta. destruct (decide _); [done|]. destruct (decide _); [done|].
  intros H. rewrite (IH _ _ H), colons_cons, decide_False by (by eapply digit_not_colon). done.
Qed.

Lemma read_number_colons radix max cap z s r : read_number radix max cap z s = Some r → colons r = colons s.
Proof.
  unfold read_number. destruct (read_digits _ _ _ _ _ _) as [[[v n] rest]|] eqn:E; [|done]. destruct (decide _); [done|]. destruct (decide _); [done|].
  intros [= <-]. by eapply read_digits_colons.
Qed.

Lemma read_separator_colons sep i inner s r :
  (∀ s r, inner s = Some r → colons r = colons s) → read_separator sep i inner s = Some r →
  colons s = (if decide (sep = ":"%char ∧ i ≠ 0) then 1 else 0) + colons r.
Proof.
  intros Hin. destruct i as [|i]; cbn [read_separator].
  - intros H%Hin. by rewrite decide_False by (intros [_ ?]; done).
  - destruct s as [|c s]; [done|]. destruct (decide (c = sep)) as [->|]; [|done]. intros H%Hin. rewrite colons_cons, <-H.
    destruct (decide (sep = _)); [rewrite decide_True by done|rewrite decide_False by (by intros [? _])]; done.
Qed.

Lemma read_ipv4_colons s r : read_ipv4_addr s = Some r → colons r = colons s.
Proof.
  unfold read_ipv4_addr. intros (s1 & H1 & (s2 & H2 & (s3 & H3 & H4)%bind_Some)%bind_Some)%bind_Some.
  assert (∀ i s r, read_separator "." i read_octet s = Some r → colons r = colons s) as Hs.
  { intros i s' r' H. apply read_separator_colons in H; [|apply read_number_colons]. by rewrite decide_False in H by (by intros [? _]). }
  by rewrite (Hs _ _ _ H4), (Hs _ _ _ H3), (Hs _ _ _ H2), (Hs _ _ _ H1).
Qed.

(** After the first, a group costs a colon; an IPv4 tail is two groups for one. *)
Lemma read_groups_colons limit todo i s n b r :
  read_groups limit i todo s = (n, b, r) → limit = i + todo →
  colons r ≤ colons s ∧ n ≤ i + 2 * colons s + (if decide (i = 0) then 2 else 0).
Proof.
  revert i s; induction todo as [|todo IH]; intros i s; cbn [read_groups]; intros H Hl.
  - injection H as <- <- <-. lia.
  - destruct (if decide (i < limit - 1) then _ else _) as [r1|] eqn:E1.
    + injection H as <- <- <-. destruct (decide (i < limit - 1)); [|done].
      apply read_separator_colons in E1; [|apply read_ipv4_colons]. destruct i as [|i]; [rewrite decide_False in E1 by (by intros [_ ?])|rewrite decide_True in E1 by done];
        repeat case_decide; lia.
    + destruct (read_separator _ _ (read_number _ _ _ _) s) as [r2|] eqn:E2; [|injection H as <- <- <-; lia].
      apply read_separator_colons in E2; [|apply read_number_colons].
      apply IH in H; [|lia]. destruct i as [|i]; [rewrite decide_False in E2 by (by intros [_ ?])|rewrite decide_True in E2 by done];
        repeat case_decide; lia.
Qed.

Lemma read_ipv4_bracket s : read_ipv4_addr ("["%char :: s) = None.
Proof. reflexivity. Qed.
Lemma read_ipv6_bracket s : read_ipv6_addr ("["%char :: s) = None.
Proof. reflexivity. Qed.

(** Neither one colon nor a bracket makes an IP address. *)
Lemma one_colon_no_ip s : colons (bytes_of s) = 1 → parse_ip_addr s = false.
Proof.
  intros Hc. unfold parse_ip_addr. destruct (read_ipv4_addr (bytes_of s)) as [[|c r]|] eqn:E4; [|done|].
  - apply read_ipv4_colons in E4. rewrite Hc in E4. done.
  - unfold read_ipv6_addr. destruct (read_groups 8 0 8 (bytes_of s)) as [[n b] r] eqn:Eg.
    apply read_groups_colons in Eg as [Hr Hn]; [|done]. rewrite decide_True in Hn by done. rewrite decide_False by lia. destruct b; [done|].
    destruct (strip_prefix (bytes_of "::") r) as [r'|] eqn:Es; [|done]. apply strip_prefix_Some in Es as ->.
    rewrite colons_app in Hr. change (colons (bytes_of "::")) with 2 in Hr. lia.
Qed.

Lemma bracket_no_ip s b : bytes_of s = "["%char :: b → parse_ip_addr s = false.
Proof. intros E. unfold parse_ip_addr. by rewrite E, read_ipv4_bracket, read_ipv6_bracket. Qed.

(** ** An address with its port is taken as it is *)

Lemma digits_val_digit acc b v c : digits_val acc b = Some v → c ∈ b → is_Some (digit_val c).
Proof.
  revert acc; induction b as [|d b IH]; intros acc; cbn [digits_val]; [by intros _ ?%not_elem_of_nil|].
  intros (x & Hx & Hb)%bind_Some [->|Hc]%elem_of_cons; [by eexists|by eapply IH].
Qed.

Lemma pretty_no c z : (0 ≤ z)%Z → digit_val c = None → c ∉ bytes_of (pretty z).
Proof. intros Hz Hn Hc. destruct (digits_pretty z Hz) as [Hd _]. apply (digits_val_digit _ _ _ _ Hd) in Hc as [x Hx]. congruence. Qed.

Lemma host_port_form host p : ∃ b, bytes_of (host_port host p) = b ++ ":"%char :: bytes_of (pretty p) ∧
  (":"%char ∉ bytes_of host ∧ b = bytes_of host ∨ ":"%char ∈ bytes_of host ∧ ∃ b', b = "["%char :: b').
Proof.
  unfold host_port, contains_char. cbv zeta. destruct (find_char ":" (bytes_of host)) as [i|] eqn:Ef; cbn [andb].
  - apply find_char_Some in Ef as [_ Ef]. assert (":"%char ∈ bytes_of host) as Hin by (rewrite Ef; set_solver).
    destruct (starts_with (bytes_of "[") (bytes_of host)) eqn:Es; cbn [negb].
    + apply starts_with_true in Es as [r Hr]. exists (bytes_of host). rewrite !bytes_of_app. split; [done|]. right. split; [done|]. by exists r.
    + exists ("["%char :: bytes_of host ++ ["]"%char]). rewrite !bytes_of_app. split; [cbn; by rewrite <-app_assoc|]. right. split; [done|]. by eexists.
  - apply find_char_None in Ef. exists (bytes_of host). rewrite !bytes_of_app. split; [done|by left].
Qed.

Lemma remote_address_host_port c host p :
  (0 ≤ p)%Z → cfg_server_address c = Some (host_port host p) → remote_address c = Some (host_port host p).
Proof.
  intros Hp Ha. unfold remote_address. rewrite Ha. cbv zeta. destruct (host_port_form host p) as (b & Hb & Hform).
  assert (":"%char ∉ bytes_of (pretty p)) as Hnc by by apply pretty_no.
  assert (parse_ip_addr (host_port host p) = false) as ->.
  { destruct Hform as [[Hh ->]|[_ [b' ->]]]; [|by eapply bracket_no_ip].
    apply one_colon_no_ip. rewrite Hb, colons_app, colons_cons, !colons_none by done. done. }
  assert (contains_char ":" (bytes_of (host_port host p)) = true) as ->.
  { unfold contains_char. destruct (find_char _ _) eqn:Ef; [done|]. apply find_char_None in Ef. rewrite Hb in Ef. set_solver. }
  destruct (ends_with (bytes_of "]") (bytes_of (host_port host p))) eqn:Ee; [|by rewrite andb_false_r]. exfalso.
  unfold ends_with in Ee. apply starts_with_true in Ee as [r Hr]. apply (f_equal reverse) in Hr. rewrite reverse_involutive, reverse_app in Hr.
  cbn [bytes_of] in Hr. destruct (digits_pretty p Hp) as [_ Hne]. rewrite Hb in Hr.
  destruct (exists_last Hne) as (d & x & Hx). rewrite Hx, app_comm_cons, app_assoc in Hr. apply app_inj_2 in Hr as [_ [= E]]; [|done].
  apply (pretty_no "]"%char p Hp eq_refl). rewrite Hx, E. set_solver.
Qed.

(** ** The click *)

Lemma active_after_connect peer a :
  dp_core_port peer ≠ 0%Z →
  is_active_server peer (connect_as_client_to peer a) = true ↔ ":"%char ∉ bytes_of (dp_host peer).
Proof.
  intros Hp. unfold is_active_server, connect_as_client_to. rewrite decide_False by done. cbv zeta. cbn [ga_config update_field send fx cfg_role cfg_server_address].
  rewrite bool_decide_eq_true_2 by done. cbn [andb]. rewrite bool_decide_eq_true. destruct (host_port_form (dp_host peer) (dp_core_port peer)) as (b & Hb & Hform).
  rewrite Hb. split.
  - intros E Hin. destruct Hform as [[? _]|[_ _]]; [done|]. rewrite <-E, bytes_of_string_of in Hin.
    destruct (find_char _ _) as [i|] eqn:Ef; [by apply find_char_Some in Ef as [? _]|]. apply find_char_None in Ef. set_solver.
  - intros Hn. destruct Hform as [[_ ->]|[? _]]; [|done]. by rewrite find_char_app, take_app_length, string_of_bytes_of.
Qed.

Lemma validate_connected c addr :
  validate c = Ok tt → validate (c <| cfg_role := Client |> <| cfg_server_address := Some addr |>) = Ok tt.
Proof.
  set (c' := c <| cfg_role := _ |> <| cfg_server_address := _ |>). assert (∀ ls, validate_links c' ls = validate_links c ls) as Hl.
  { induction ls as [|l ls IH]; [done|]. cbn [validate_links]. by rewrite IH. }
  unfold validate. rewrite Hl. change (has_screen c' (cfg_server_name c')) with (has_screen c (cfg_server_name c)).
  change (cfg_links c') with (cfg_links c). destruct (negb _); [done|]. by destruct (validate_links c (cfg_links c)) as [[]|].
Qed.

(** One click makes a peer the server.  On the row of a trusted peer with a Core port
    the click sends the daemon one configuration and then a start; the configuration
    is the edited one with the role and the address changed, valid if that was; the
    address the Core is then given is the peer's host with its port, whatever the
    host looks like, and the port of the configuration does not replace it.  The row
    shows the server badge in place of the button exactly when the host has no colon. *)
Theorem use_as_server a id peer :
  ga_discovered_peers a !! id = Some peer → is_Some (ga_trusted_peers a !! id) →
  is_active_server peer a = false → (0 < dp_core_port peer)%Z →
  let a' := ui_exec (UiUseAsServer id) a in
  let c := ga_config a' in
  let addr := host_port (dp_host peer) (dp_core_port peer) in
  ga_fx a' = ga_fx a ++ [FxCmd (CmdSetConfig c); FxCmd CmdStart] ∧ ga_dirty a' = false ∧
  c = ga_config a <| cfg_role := Client |> <| cfg_server_address := Some addr |> ∧
  (validate (ga_config a) = Ok tt → validate c = Ok tt) ∧
  (∀ server client conf settings, build_command (SplitLegacy server client) c conf settings =
     Ok (client, ["-f"; "-1"; "-n"; cfg_server_name c; addr]%string)) ∧
  (is_active_server peer a' = true ↔ ":"%char ∉ bytes_of (dp_host peer)).
Proof.
  intros Hd Ht Hact Hp. cbn [ui_exec]. unfold click_use_as_server. rewrite Hd, Hact, !bool_decide_eq_true_2 by (done || lia). cbn [andb negb].
  cbv zeta. pose proof (active_after_connect peer a ltac:(lia)) as Hbadge. revert Hbadge. unfold connect_as_client_to.
  rewrite decide_False by lia. cbv zeta. intros Hbadge. cbn [ga_fx ga_config ga_dirty update_field send fx] in *.
  split; [by rewrite <-app_assoc|]. split; [done|]. split; [done|]. split; [apply validate_connected|]. split; [|exact Hbadge].
  intros server client conf settings. unfold build_command. cbn [cfg_role update_field].
  erewrite remote_address_host_port; [done|lia|reflexivity].
Qed.

(** ** Two peers *)

Definition choice_peer (host : string) : DiscoveredPeer :=
  {| dp_machine_id := "p1"; dp_display_name := "beta"; dp_host := host; dp_addresses := [host];
     dp_service_port := 24850; dp_core_port := 24801; dp_sync_port := 24851; dp_audio_port := 0;
     dp_fingerprint := ""; dp_protocol_version := 1; dp_config_head := "" |}.
Definition choice_window (host : string) : App :=
  wit_window <| ga_discovered_peers := {["p1"%string := choice_peer host]} |>.

Example use_as_server_witness :
  let a' := ui_exec (UiUseAsServer "p1") (choice_window "192.168.0.37") in
  build_command (SplitLegacy "s" "c") (ga_config a') "" "" = Ok ("c", ["-f"; "-1"; "-n"; "alpha"; "192.168.0.37:24801"])%string ∧
  is_active_server (choice_peer "192.168.0.37") a' = true.
Proof.
  destruct (use_as_server (choice_window "192.168.0.37") "p1" (choice_peer "192.168.0.37")) as (_ & _ & _ & _ & Hb & Hs);
    [reflexivity|vm_compute; by eexists|vm_compute; reflexivity|cbn; lia|].
  split; [rewrite Hb; vm_compute; reflexivity|]. apply Hs. apply (bool_decide_unpack _). vm_compute. exact I.
Defined.

(** A server reached over IPv6 is never marked: its button stays, and each click
    configures and starts again. *)
Example ipv6_server_unmarked :
  let a' := ui_exec (UiUseAsServer "p1") (choice_window "2001:db8::7") in
  cfg_server_address (ga_config a') = Some "[2001:db8::7]:24801"%string ∧ is_active_server (choice_peer "2001:db8::7") a' = false ∧
  length (ga_fx (ui_exec (UiUseAsServer "p1") a')) = length (ga_fx a') + 2.
Proof. vm_compute. done. Qed.
